(* ===== verification/_CoqProject ===== *)
-Q . S2P
Prelude.v
Bytes.v
Links.v
Buddy.v
BuddyInv.v
BuddyOps.v
BuddyInit.v
BuddyCorrect.v
Address.v
Paging.v
PagingInv.v
PagingMap.v
PagingPlan.v
PagingCorrect.v
PagingInit.v
RamFs.v
RamFsCorrect.v
FdTable.v
FdCorrect.v
Elf.v
ElfCorrect.v
UserCode.v
ProcLayout.v
Proc.v
SpaceBuild.v
Spawn.v
SpawnView.v
Sched.v
SchedCorrect.v
System.v
SpawnCorrect.v
SystemCorrect.v
Machine.v
Boot.v
SpinLock.v
Syscall.v
SyscallCorrect.v
CallEffects.v
AllocLayout.v
SerialInput.v
Asm.v
AsmCorrect.v
Devices.v
DevicesCorrect.v
Traps.v
TrapsCorrect.v
Commands.v
Shell.v
ShellCorrect.v
ShellEnds.v
Console.v
Kernel.v
KernelFiles.v
KernelCorrect.v
UserAccess.v
CallProgress.v
UserMemory.v
CallFootprint.v
KernelCalls.v
UserCalls.v
KernelRun.v
IntrusiveList.v
ListLoops.v
Heap.v
HeapInv.v
HeapOps.v
HeapAlloc.v
HeapCorrect.v
HeapRun.v
