(* ===== verification/Prelude.v ===== *)
(** * Zeronix: a verification library for the kernel's core

    Zeronix is a small x86-64 kernel in Rust.  Its parts, under [src/src]:
    - memory: a buddy allocator of physical pages ([mem/page/pagealloc.rs]), a
      heap over it ([mem/alloc.rs], with its placement arithmetic in
      [alloc_layout.rs] and its free list in [list.rs]), and page tables
      ([mem/page.rs], [mem/page/pagemapper.rs]);
    - files: an in-memory file system ([fs/ramfs.rs]) and descriptor tables
      ([syscall/fd.rs]);
    - system calls ([syscall.rs]), which lock the file system and the
      descriptor table and copy strings and buffers from user memory;
    - user programs: ELF images built and parsed by the kernel
      ([user/elf.rs], [user.rs]) and the shell's commands
      ([user/commands.rs]);
    - processes ([task/proc.rs], [task/proc_layout.rs]), traps ([trap/]), the
      serial console ([stdio.rs]), the spin lock ([lock/spin_lock.rs]) and the
      boot code with the kernel shell ([main.rs]).

    ** Conventions

    A [usize] or [u64] is a [Z] with its range stated where it matters; [u8],
    [u16] and [u32] casts truncate explicitly.  The kernel is built with the
    development profile, so arithmetic overflow, an index out of range, a
    failed [assert!] and [expect] on [None] panic: code that can panic returns
    an [outcome], and every theorem that states [= Ret _] also states that the
    code neither panics nor runs forever.  [Result] values stay values.  A
    loop is a [Fixpoint] over the data it consumes, or over fuel; out of fuel
    is [Diverge].  The fuels are chosen from the code: the page allocator's
    search gets one more step than there are descriptors (a free list has no
    repetition), splitting and merging get the number of orders, the region
    loop one step per page, a user string its limit of 256 bytes.  The heap's
    fuel is an argument: one more step than the free list has blocks is enough
    for a walk, two rounds are enough for [alloc], and more never changes the
    result.

    ** Files

    - [Prelude]: outcomes, results, machine integers, arrays, alignment.
    - [Bytes]: byte slices and little-endian encodings.
    - [Links]: doubly linked segments given by link functions; used for the
      page allocator's free lists.
    - [Buddy]: the page allocator, one definition per method of
      [BuddyAllocator].  [BuddyInv] has its invariant: descriptors partition
      the frames into tagged blocks, and every free list is a doubly linked
      list of exactly the free blocks of its order.  [BuddyOps] has the effect
      of splitting, taking, merging and releasing, [BuddyInit] that of adding
      regions, [BuddyCorrect] the theorems: allocation hands out free, aligned,
      disjoint blocks, release merges as far as possible, in every reachable
      state the operations return and are safe.
    - [RamFs]: the file system; [RamFsCorrect] its refinement of an abstract
      map from paths to nodes, read-after-write laws, what [rename] does when
      it works and when it fails, and that every node stays addressable.
    - [FdTable]: descriptor tables, with the number of entries that the kernel
      heap has memory for as a parameter; [FdCorrect]: no panics within that
      room and a panic beyond it, nothing changed on errors, lowest descriptor
      first, sequential reads and writes.
    - [Elf]: parser, image builder and code generators; [ElfCorrect]: what is
      accepted, when the parser panics, round trips; [UserCode]: the meaning
      of the emitted machine code.
    - [SpinLock]: the lock as a step relation over the instructions of any
      number of processors, mutual exclusion, and the fate of the interrupt
      flag from the call to the release.
    - [Syscall]: kernel state, locks and every system call in a small monad;
      [SyscallCorrect]: lock discipline, the fate of the exit lock, user
      strings, effects of read and write, the register convention;
      [CallEffects]: what every call leaves alone and which hooks it calls;
      [CallProgress]: calls return.
    - [AllocLayout], [IntrusiveList]: placement arithmetic and the circular
      list of the heap.
    - [Heap]: the heap itself, over a word-addressed memory and a page source.
      [HeapInv] has free lists in memory and the effect of linking and
      unlinking, [HeapOps] insertion with coalescing, [HeapAlloc] first fit and
      splitting, [HeapCorrect] the invariant with live blocks and its
      preservation by whole calls, [HeapRun] sequences of calls and the
      theorems.  What the heap needs of the page allocator is the class
      [PageSourceLaws]; the buddy allocator is an instance.
    - [SerialInput]: the input ring as a bounded queue.
    - [ListLoops]: the traversal macros of [list.rs] and what they visit.
    - [Address], [Paging]: page table entries, tables in physical memory, the
      mapper, the kernel's table and user address spaces.  [PagingInv] has the
      processor's page walk and the invariant of a set of address spaces that
      share the kernel half, [PagingMap] the effect of mapping one page,
      [PagingPlan] that of a sequence of mappings and the frames it needs,
      [PagingCorrect] and [PagingInit] the theorems.  What paging needs of the
      page allocator is the class [FrameSource] with its laws.
    - [ProcLayout]: process slots and time slices.
    - [Proc]: control blocks, run queue, creation of processes, scheduling,
      exit, and the resumption of a process that was switched away.
      [SpaceBuild], [Spawn] and [SpawnView] follow the construction of an
      address space, [Sched] and [SchedCorrect] prove that the scheduler
      refines an abstract round-robin machine, [System], [SpawnCorrect] and
      [SystemCorrect] have the invariant of the whole system, its preservation
      and memory isolation.  [Machine] has concrete machines for witnesses.
    - [Asm]: the assembly routines as lists of instructions with a semantics
      of these instructions; [AsmCorrect]: interrupt stubs are transparent,
      the context switch refines the one of [Proc], the system call entry
      marshals its arguments.
    - [Devices]: port access, interrupt controllers, timer and serial port over
      a model of the devices, and [printk] with the number formats that the
      messages of the kernel use; [DevicesCorrect]: their configuration, and
      that output ends and loses nothing.
    - [Traps]: segments, gates, the system call registers, and the exception
      and interrupt handlers with the messages they print; [TrapsCorrect]: the
      tables decode to what was meant, every line is handled, logged where the
      code logs it, and acknowledged once.
    - [Boot]: the memory and process part of [kernel_main], and an image that
      replaces a mapping of the kernel in every address space by asking for an
      upper address.
    - [Commands]: the shell's command line.  [Shell]: line editing, jobs and
      program start of the kernel shell; [ShellCorrect]: its invariant, the
      passing of time, parsing of numbers; [ShellEnds]: handling a key ends,
      and when it surely returns.  [Console]: an iteration of the main loop over
      the input ring and the shell.
    - [Kernel]: all of [kernel_main] in its order, and a system call together
      with the hooks registered at boot.  [KernelFiles] and [KernelCorrect]
      show what booting establishes, [KernelCalls] the exec and write calls
      across all layers, down to the message an installed program prints.
    - [UserAccess]: a system call whose pointers go through the page table of
      its caller, with page faults.  [UserMemory] has the effect of stores
      through a page table, [CallFootprint] what a call can depend on,
      [UserCalls] the read and write calls on the caller's memory, [KernelRun]
      the whole kernel as a step relation (timer interrupts, system calls,
      keys at the shell), its invariant from power on, and that calls return.

    ** Fuel of the remaining loops

    Polling the serial port gets one step more than the transmitter's longest
    delay, a hypothesis on the device; draining and receiving get one step
    more than bytes are waiting; [poll_jobs] gets one step per second that has
    passed; the list traversals one step more than there are nodes.  The fuel
    of a system call, of [kernel_main] and of the interrupt handler's messages is
    for the serial port alone; an iteration of the main loop gets one step more
    than seconds have passed or bytes are waiting, whichever is more.

    ** What is not modelled

    Third-party code (the Multiboot2 parser, bitflags) and, apart from the two
    number formats, [core::fmt]; the boot
    assembly [boot.S] and the linker script, whose addresses are parameters;
    the panic handler; the memory that [Box], [Vec] and [VecDeque] take from
    the kernel heap while the other components run, apart from the descriptor
    table, which a single call can make arbitrarily long; bytes that arrive,
    and waiting for the transmitter, during an iteration of the main loop; the contents of kernel
    stacks apart from the trap frame; the translation cache of the processor;
    and the conversions between the address wrappers of [mem.rs], which change
    nothing.  Physical memory holds page tables, pages of user processes and
    trap frames; the values of Rust that live in kernel memory are records
    beside it, so that a call whose pointer leads into the kernel is only
    followed for reading.  The memory map is a list of areas.  Code runs
    atomically between the points where the model lets an interrupt or a
    switch happen: the kernel runs on one processor, and only the spin lock is
    modelled for several.  The assembly stubs are verified against any
    function that keeps the calling convention, and the handlers they call as
    functions of their arguments: that the compiler translates the handlers
    correctly is outside of this library.

    ** Theorems

    The components are verified first on their own: refinement of an abstract
    specification (file system, scheduler, input ring, context switch),
    functional correctness of every operation (allocators, mapper, descriptor
    tables, parser, devices, tables of the processor), invariants over
    sequences of operations, round trips.  [SystemCorrect] puts processes,
    page tables and frames together and has memory isolation; [KernelCorrect]
    shows that booting establishes all of this, [KernelRun] that it holds ever
    after, and [KernelCalls], [UserCalls] and [CallFootprint] what the calls
    of a process do across all layers. *)

From stdpp Require Export base numbers list gmap strings option sets.
From Stdlib Require Import Lia ZArith.

Local Open Scope Z_scope.
#[export] Set Default Goal Selector "!".

(** ** Outcomes

    The kernel is built with the development profile (README: the image is
    copied from [target/x86_64-unknown-none/debug]), so an arithmetic
    overflow, an out-of-range index, a failed [assert!] and [expect] on
    [None] all end in [panic!].  A loop of the source is a [Fixpoint] over
    fuel; running out of fuel is the third outcome and never a result, so a
    theorem that states [= Ret _] also states that the loop ends. *)

Inductive outcome (A : Type) : Type :=
  | Ret (a : A)
  | Panic
  | Diverge.
Arguments Ret {A} a.
Arguments Panic {A}.
Arguments Diverge {A}.

#[global] Instance outcome_ret : MRet outcome := @Ret.
#[global] Instance outcome_bind : MBind outcome :=
  λ A B f m, match m with Ret a => f a | Panic => Panic | Diverge => Diverge end.

(** Rust's [Result]. *)
Inductive Result (A E : Type) : Type :=
  | Ok (a : A)
  | Err (e : E).
Arguments Ok {A E} a.
Arguments Err {A E} e.

#[global] Instance outcome_eq_dec {A} `{EqDecision A} : EqDecision (outcome A).
Proof. solve_decision. Defined.
#[global] Instance Result_eq_dec {A E} `{EqDecision A, EqDecision E} :
  EqDecision (Result A E).
Proof. solve_decision. Defined.

(** [Option::ok_or], [Option::expect], [Result::map_err]. *)
Definition ok_or {A E} (o : option A) (e : E) : Result A E :=
  match o with Some a => Ok a | None => Err e end.
Definition expect {A} (o : option A) : outcome A :=
  match o with Some a => Ret a | None => Panic end.
Definition map_err {A E F} (f : E → F) (r : Result A E) : Result A F :=
  match r with Ok a => Ok a | Err e => Err (f e) end.

(** [assert!(b)]. *)
Definition assert_that (b : bool) : outcome unit := if b then Ret () else Panic.

Lemma bind_Ret {A B} (m : outcome A) (f : A → outcome B) b :
  m ≫= f = Ret b ↔ ∃ a, m = Ret a ∧ f a = Ret b.
Proof. destruct m; simpl; naive_solver. Qed.

Lemma Ret_bind {A B} (a : A) (f : A → outcome B) : Ret a ≫= f = f a.
Proof. reflexivity. Qed.

(** What holds when code ends: with [total] it returns a value that
    satisfies [P], without it may also panic.  It never loops. *)
Definition ends {A} (total : bool) (m : outcome A) (P : A → Prop) : Prop :=
  match m with Ret a => P a | Panic => total = false | Diverge => False end.

Lemma ends_bind {A B} total (m : outcome A) (f : A → outcome B) P Q :
  ends total m Q → (∀ a, Q a → ends total (f a) P) → ends total (m ≫= f) P.
Proof. destruct m; simpl; auto. Qed.
Lemma ends_mono {A} total (m : outcome A) (P Q : A → Prop) :
  ends total m P → (∀ a, P a → Q a) → ends total m Q.
Proof. destruct m; simpl; auto. Qed.
Lemma ends_total {A} (m : outcome A) P : ends true m P → ∃ a, m = Ret a ∧ P a.
Proof. destruct m; simpl; [eauto|done|done]. Qed.
Lemma ends_Ret {A} total (m : outcome A) P a : ends total m P → m = Ret a → P a.
Proof. by intros H ->. Qed.

(** The [?] operator: go on with the value, or return the error. *)
Definition try_bind {A B E} (m : outcome (Result A E)) (k : A → outcome (Result B E))
    : outcome (Result B E) :=
  r ← m; match r with Ok a => k a | Err e => Ret (Err e) end.
Notation "x ←? m ; k" := (try_bind m (λ x, k))
  (at level 20, m at level 100, k at level 200, only parsing) : stdpp_scope.

(** ** Machine integers: 64-bit [usize]/[u64] as [Z] *)

Definition usize_max : Z := 2 ^ 64 - 1.
Definition is_usize (x : Z) : Prop := 0 ≤ x ≤ usize_max.
#[global] Instance is_usize_dec x : Decision (is_usize x).
Proof. apply _. Defined.

Definition checked_add (a b : Z) : option Z :=
  if a + b <=? usize_max then Some (a + b) else None.
Definition checked_sub (a b : Z) : option Z :=
  if b <=? a then Some (a - b) else None.
Definition checked_mul (a b : Z) : option Z :=
  if a * b <=? usize_max then Some (a * b) else None.
Definition saturating_add (a b : Z) : Z := Z.min (a + b) usize_max.
Definition saturating_sub (a b : Z) : Z := Z.max (a - b) 0.

(** [a + b], [a - b] and [a * b] with the overflow check of the build. *)
Definition uadd (a b : Z) : outcome Z := expect (checked_add a b).
Definition usub (a b : Z) : outcome Z := expect (checked_sub a b).
Definition umul (a b : Z) : outcome Z := expect (checked_mul a b).

Lemma uadd_ok a c : a + c ≤ usize_max → uadd a c = Ret (a + c).
Proof. intros H. unfold uadd, checked_add. by replace (a + c <=? usize_max) with true by lia. Qed.
Lemma usub_ok a c : c ≤ a → usub a c = Ret (a - c).
Proof. intros H. unfold usub, checked_sub. by replace (c <=? a) with true by lia. Qed.
Lemma umul_ok a c : a * c ≤ usize_max → umul a c = Ret (a * c).
Proof. intros H. unfold umul, checked_mul. by replace (a * c <=? usize_max) with true by lia. Qed.

(** [!x] on a 64-bit value, and the truncating casts [as u8], [as u16],
    [as u32]. *)
Definition not64 (x : Z) : Z := usize_max - x.
Definition as_u8 (x : Z) : Z := x mod 2 ^ 8.
Definition as_u16 (x : Z) : Z := x mod 2 ^ 16.
Definition as_u32 (x : Z) : Z := x mod 2 ^ 32.

(** ** Arrays indexed by [usize]: out of range is [None] *)

Section arrays.
Context {A : Type}.
Implicit Types (l : list A) (i : Z) (x : A).

Definition zlen l : Z := Z.of_nat (length l).

Definition arr_get l i : option A :=
  if (0 <=? i) && (i <? zlen l) then l !! Z.to_nat i else None.

Definition arr_set l i x : option (list A) :=
  if (0 <=? i) && (i <? zlen l) then Some (<[Z.to_nat i := x]> l) else None.

Lemma zlen_nonneg l : 0 ≤ zlen l.
Proof. unfold zlen. lia. Qed.

Lemma arr_get_lt l i x : arr_get l i = Some x → 0 ≤ i < zlen l.
Proof. unfold arr_get. case_match eqn:E; [lia|done]. Qed.

Lemma arr_get_is_Some l i : is_Some (arr_get l i) ↔ 0 ≤ i < zlen l.
Proof.
  split.
  - intros [x H]. by eapply arr_get_lt.
  - intros H. unfold arr_get.
    replace ((0 <=? i) && (i <? zlen l)) with true by lia.
    apply lookup_lt_is_Some. unfold zlen in H. lia.
Qed.

Lemma arr_get_None l i : arr_get l i = None ↔ ¬ (0 ≤ i < zlen l).
Proof. rewrite <- arr_get_is_Some. rewrite <- eq_None_not_Some. done. Qed.

Lemma arr_set_is_Some l i x : 0 ≤ i < zlen l → is_Some (arr_set l i x).
Proof.
  intros H. unfold arr_set.
  replace ((0 <=? i) && (i <? zlen l)) with true by lia. eauto.
Qed.

Lemma arr_set_zlen l i x l' : arr_set l i x = Some l' → zlen l' = zlen l.
Proof.
  unfold arr_set, zlen. case_match; intros; simplify_eq.
  by rewrite length_insert.
Qed.

Lemma arr_set_get l i x l' j :
  arr_set l i x = Some l' →
  arr_get l' j = if decide (i = j) then Some x else arr_get l j.
Proof.
  intros H. pose proof (arr_set_zlen _ _ _ _ H) as Hz.
  unfold arr_set in H. case_match eqn:E; [|done]. simplify_eq.
  unfold arr_get. rewrite Hz. case_decide.
  - subst j. rewrite E. apply list_lookup_insert_eq. unfold zlen in E. lia.
  - destruct ((0 <=? j) && (j <? zlen l)) eqn:E'; [|done].
    apply list_lookup_insert_ne. lia.
Qed.
End arrays.

(** [a << n] on a 64-bit value: a shift by 64 or more panics. *)
Definition ushl (a n : Z) : outcome Z :=
  if (0 <=? n) && (n <? 64) then Ret (Z.shiftl a n mod 2 ^ 64) else Panic.

(** [trailing_zeros] and [leading_zeros] of a [usize]. *)
Fixpoint pos_trailing_zeros (p : positive) : Z :=
  match p with
  | xO q => 1 + pos_trailing_zeros q
  | _ => 0
  end.
Definition trailing_zeros (x : Z) : Z :=
  match x with Zpos p => pos_trailing_zeros p | _ => 64 end.
Definition leading_zeros (x : Z) : Z :=
  if x =? 0 then 64 else 63 - Z.log2 x.

(** [for i in lo..hi { s = body(i, s) }]. *)
Fixpoint for_each {A S} (l : list A) (body : A → S → outcome S) (s : S) : outcome S :=
  match l with
  | [] => Ret s
  | x :: l' => s' ← body x s; for_each l' body s'
  end.
Definition for_range {S} (lo hi : Z) (body : Z → S → outcome S) (s : S) : outcome S :=
  for_each (seqZ lo (hi - lo)) body s.

Lemma for_each_app {A S} (l1 l2 : list A) (body : A → S → outcome S) s :
  for_each (l1 ++ l2) body s = for_each l1 body s ≫= for_each l2 body.
Proof. revert s. induction l1 as [|x l1 IH]; intros s; simpl; [done|]. destruct (body x s); simpl; done || apply IH. Qed.

(** ** Alignment by masking *)

Lemma land_not64 a m :
  0 ≤ a ≤ usize_max → 0 ≤ m ≤ usize_max → Z.land a (not64 m) = Z.ldiff a m.
Proof.
  unfold usize_max. intros Ha Hm. unfold not64, usize_max.
  replace (2 ^ 64 - 1 - m) with (Z.lnot m mod 2 ^ 64).
  2: { unfold Z.lnot. rewrite <- (Z.mod_small (2 ^ 64 - 1 - m) (2 ^ 64)) by lia.
       replace (2 ^ 64 - 1 - m) with (Z.pred (- m) + 1 * 2 ^ 64) by lia.
       by rewrite Z.mod_add by lia. }
  rewrite <- Z.land_ones, (Z.land_comm (Z.lnot m)), Z.land_assoc, Z.land_ones, Z.mod_small by lia.
  by rewrite Z.ldiff_land.
Qed.

(** [addr & !(align - 1)] rounds down to a multiple of a power of two. *)
Lemma land_align a k :
  0 ≤ a ≤ usize_max → 0 ≤ k < 64 → Z.land a (not64 (2 ^ k - 1)) = a - a mod 2 ^ k.
Proof.
  intros Ha Hk.
  assert (0 < 2 ^ k) by (apply Z.pow_pos_nonneg; lia).
  assert (2 ^ k < 2 ^ 64) by (apply Z.pow_lt_mono_r; lia).
  rewrite land_not64 by (unfold usize_max in *; lia).
  rewrite Z.sub_1_r, <- Z.ones_equiv, Z.ldiff_ones_r by lia.
  rewrite Z.shiftl_mul_pow2, Z.shiftr_div_pow2 by lia.
  pose proof (Z.div_mod a (2 ^ k)). lia.
Qed.

Lemma trailing_zeros_divide x : 0 < x → 0 ≤ trailing_zeros x ∧ (2 ^ trailing_zeros x | x).
Proof.
  destruct x as [|p|p]; [lia| |lia]. intros _. simpl.
  induction p as [p IH|p [IH0 [c IH]]|]; simpl; [split; [done|apply Z.divide_1_l]| |
    split; [done|apply Z.divide_1_l]].
  split; [lia|]. rewrite Z.pow_add_r by lia. exists c.
  rewrite Pos2Z.inj_xO, IH at 1. lia.
Qed.
