(* ===== verification/Bytes.v ===== *)
(** * Byte slices

    Bytes as [u8] values, the slice operations of the Rust core library the
    kernel uses, and little-endian encodings ([to_le_bytes],
    [from_le_bytes]). *)

From S2P Require Import Prelude.
From Stdlib Require Import Strings.Byte.
From Stdlib Require Strings.String.
Local Open Scope Z_scope.

Abbreviation bytes := (list byte).

#[global] Instance byte_eq_dec : EqDecision byte.
Proof. intros x y. apply Byte.byte_eq_dec. Defined.

(** A byte as a number, and [as u8]. *)
Definition Z_of_byte (x : byte) : Z := Z.of_N (Byte.to_N x).
Definition byte_of_Z (z : Z) : byte := default x00 (Byte.of_N (Z.to_N (z mod 256))).

Lemma Z_of_byte_range x : 0 ≤ Z_of_byte x < 256.
Proof. unfold Z_of_byte. pose proof (Byte.to_N_bounded x). lia. Qed.

Lemma Z_of_byte_of_Z z : Z_of_byte (byte_of_Z z) = z mod 256.
Proof.
  unfold Z_of_byte, byte_of_Z. pose proof (Z.mod_pos_bound z 256 ltac:(lia)) as Hz.
  destruct (Byte.of_N (Z.to_N (z mod 256))) as [x|] eqn:E; simpl.
  - apply Byte.to_of_N in E. rewrite E. lia.
  - apply Byte.of_N_None_iff in E. lia.
Qed.

Lemma byte_of_Z_of_byte x : byte_of_Z (Z_of_byte x) = x.
Proof.
  unfold byte_of_Z. pose proof (Z_of_byte_range x). rewrite Z.mod_small by done.
  unfold Z_of_byte. by rewrite N2Z.id, Byte.of_to_N.
Qed.

(** ** Slices *)

Lemma zlen_app {A} (l k : list A) : zlen (l ++ k) = zlen l + zlen k.
Proof. unfold zlen. rewrite length_app. lia. Qed.

(** [slice.get(lo..hi)]. *)
Definition slice_get (s : bytes) (lo hi : Z) : option bytes :=
  if (0 <=? lo) && (lo <=? hi) && (hi <=? zlen s)
  then Some (take (Z.to_nat (hi - lo)) (drop (Z.to_nat lo) s)) else None.

(** [Vec::resize(n, 0)] for a [Vec<u8>]. *)
Definition vec_resize (data : bytes) (n : Z) : bytes := resize (Z.to_nat n) x00 data.

(** [data[lo..lo + src.len()].copy_from_slice(src)]; the range must lie inside. *)
Definition copy_into (data : bytes) (lo : Z) (src : bytes) : outcome bytes :=
  _ ← assert_that (bool_decide (lo + zlen src ≤ zlen data));
  Ret (take (Z.to_nat lo) data ++ src ++ drop (Z.to_nat (lo + zlen src)) data).

Lemma copy_into_ok data lo src :
  0 ≤ lo → lo + zlen src ≤ zlen data →
  copy_into data lo src =
    Ret (take (Z.to_nat lo) data ++ src ++ drop (Z.to_nat (lo + zlen src)) data).
Proof. intros. unfold copy_into. by rewrite bool_decide_true. Qed.

Lemma slice_get_Some s lo hi r :
  slice_get s lo hi = Some r → 0 ≤ lo ≤ hi ∧ hi ≤ zlen s ∧ zlen r = hi - lo.
Proof.
  unfold slice_get. case_match eqn:E; [|done]. intros [= <-].
  unfold zlen in *. rewrite length_take, length_drop. lia.
Qed.

Lemma slice_get_is_Some s lo hi : 0 ≤ lo ≤ hi → hi ≤ zlen s → is_Some (slice_get s lo hi).
Proof.
  intros H H'. unfold slice_get.
  by replace ((0 <=? lo) && (lo <=? hi) && (hi <=? zlen s)) with true by lia.
Qed.

(** ** Little endian *)

Fixpoint to_le (n : nat) (z : Z) : bytes :=
  match n with
  | O => []
  | S n' => byte_of_Z z :: to_le n' (z / 256)
  end.

Fixpoint from_le (l : bytes) : Z :=
  match l with
  | [] => 0
  | x :: l' => Z_of_byte x + 256 * from_le l'
  end.

Lemma length_to_le n z : length (to_le n z) = n.
Proof. revert z. induction n; intros; simpl; congruence. Qed.

Lemma from_le_range l : 0 ≤ from_le l < 2 ^ (8 * zlen l).
Proof.
  induction l as [|x l IH]; [done|]. simpl. pose proof (Z_of_byte_range x).
  unfold zlen in *. simpl length. rewrite Nat2Z.inj_succ.
  replace (8 * Z.succ (Z.of_nat (length l))) with (8 + 8 * Z.of_nat (length l)) by lia.
  rewrite Z.pow_add_r by lia. lia.
Qed.

Lemma from_to_le n z : from_le (to_le n z) = z mod 2 ^ (8 * Z.of_nat n).
Proof.
  revert z. induction n as [|n IH]; intros z; [by rewrite Z.mod_1_r|].
  replace (8 * Z.of_nat (S n)) with (8 + 8 * Z.of_nat n) by lia.
  cbn [to_le from_le]. rewrite IH, Z_of_byte_of_Z.
  rewrite Z.pow_add_r by lia. change (2 ^ 8) with 256.
  rewrite Z.rem_mul_r by lia. done.
Qed.

Lemma to_from_le l : to_le (length l) (from_le l) = l.
Proof.
  induction l as [|x l IH]; simpl; [done|]. pose proof (Z_of_byte_range x). f_equal.
  - unfold byte_of_Z. rewrite (Z.mul_comm 256), Z.mod_add by lia.
    fold (byte_of_Z (Z_of_byte x)). apply byte_of_Z_of_byte.
  - rewrite (Z.mul_comm 256), Z.div_add, Z.div_small by lia. by rewrite Z.add_0_l.
Qed.

(** The bytes of a string literal. *)
Definition str_bytes (s : string) : bytes := String.list_byte_of_string s.
