(* ===== verification/Links.v ===== *)
(** * Doubly linked segments

    The kernel keeps two families of doubly linked lists: the buddy
    allocator's free lists, threaded through the page descriptors, and the
    intrusive [ListNode] lists.  [dseg] describes a segment of either: it
    only looks at the pair of links of a node, given by a function [L]. *)

From S2P Require Import Prelude.
Local Open Scope Z_scope.

(** [L x = Some (prev, next)]: node [x] exists and has these links. *)
Definition linkage : Type := Z → option (option Z * option Z).

(** [dseg L pp p q qn xs]: the nodes [xs], entered from [pp] at [p], whose
    last node is [q] and which lead to [qn]. *)
Fixpoint dseg (L : linkage) (pp p q qn : option Z) (xs : list Z) : Prop :=
  match xs with
  | [] => p = qn ∧ pp = q
  | x :: xs' => p = Some x ∧ ∃ r, L x = Some (pp, r) ∧ dseg L (Some x) r q qn xs'
  end.

(** A whole list: no predecessor, no successor. *)
Definition dlist (L : linkage) (hd : option Z) (xs : list Z) : Prop :=
  ∃ q, dseg L None hd q None xs.

Section dseg.
Implicit Types (L : linkage) (xs ys : list Z).

Lemma dseg_app L pp p q qn xs ys :
  dseg L pp p q qn (xs ++ ys) ↔
  ∃ j jn, dseg L pp p j jn xs ∧ dseg L j jn q qn ys.
Proof.
  revert pp p. induction xs as [|x xs IH]; intros pp p; simpl.
  - naive_solver.
  - split.
    + intros (-> & r & Hx & (j & jn & H1 & H2)%IH). naive_solver.
    + intros (j & jn & (-> & r & Hx & H1) & H2).
      split; [done|]. exists r. split; [done|]. apply IH. eauto.
Qed.

Lemma dseg_ext L L' pp p q qn xs :
  (∀ x, x ∈ xs → L' x = L x) → dseg L pp p q qn xs → dseg L' pp p q qn xs.
Proof.
  revert pp p. induction xs as [|x xs IH]; intros pp p HL; simpl; [done|].
  intros (-> & r & Hx & H). split; [done|]. exists r.
  rewrite HL by set_solver. split; [done|]. apply IH; [set_solver|done].
Qed.

Lemma dseg_last L pp p q qn xs :
  dseg L pp p q qn xs → q = match last xs with Some y => Some y | None => pp end.
Proof.
  revert pp p. induction xs as [|x xs IH]; intros pp p; simpl; [naive_solver|].
  intros (-> & r & Hx & H). apply IH in H. rewrite H. destruct xs as [|y xs]; [done|].
  change (last (x :: y :: xs)) with (last (y :: xs)).
  destruct (last (y :: xs)) eqn:E; [done|]. by apply last_None in E.
Qed.

(** Changing the entry link of a segment: only its first node is written. *)
Lemma dseg_set_pp L L' pp pp' p q xs :
  NoDup xs →
  dseg L pp p q None xs →
  (∀ x r, p = Some x → L x = Some (pp, r) → L' x = Some (pp', r)) →
  (∀ x, x ∈ xs → p ≠ Some x → L' x = L x) →
  ∃ q', dseg L' pp' p q' None xs.
Proof.
  intros Hnd H Hhd Htl. destruct xs as [|x xs]; simpl in *.
  - destruct H as [-> _]. eauto.
  - destruct H as (-> & r & Hx & H). apply NoDup_cons in Hnd as [Hx' Hnd].
    exists q. split; [done|]. exists r. split; [by apply Hhd|].
    apply (dseg_ext L); [|done]. intros y Hy. apply Htl; set_solver.
Qed.

(** Changing the exit link of a segment: only its last node is written; an
    empty segment is entered at the new exit. *)
Lemma dseg_set_qn L L' pp p q qn qn' xs :
  NoDup xs →
  dseg L pp p q qn xs →
  (∀ y r, last xs = Some y → L y = Some (r, qn) → L' y = Some (r, qn')) →
  (∀ x, x ∈ xs → last xs ≠ Some x → L' x = L x) →
  dseg L' pp (match xs with [] => qn' | _ => p end) q qn' xs.
Proof.
  revert pp p. induction xs as [|x xs IH]; intros pp p Hnd H Hl Ho; simpl in *.
  - naive_solver.
  - destruct H as (-> & r & Hx & H). apply NoDup_cons in Hnd as [Hx' Hnd].
    split; [done|]. destruct xs as [|y xs].
    + simpl in *. destruct H as [-> <-]. exists qn'. split; [|done].
      by apply Hl.
    + exists r. split.
      * rewrite Ho; [done|set_solver|]. intros E.
        apply Hx'. by apply last_Some_elem_of.
      * apply (IH (Some x) r); [done|done| |].
        -- intros z r' Hz. apply Hl. done.
        -- intros z Hz E. apply Ho; [set_solver|done].
Qed.

Lemma dlist_nil L : dlist L None [].
Proof. exists None. done. Qed.

Lemma dlist_ext L L' hd xs :
  (∀ x, x ∈ xs → L' x = L x) → dlist L hd xs → dlist L' hd xs.
Proof. intros HL [q H]. exists q. by apply (dseg_ext L). Qed.

Lemma dlist_head L hd xs : dlist L hd xs → hd = head xs.
Proof. intros [q H]. destruct xs; simpl in H; naive_solver. Qed.

Lemma dlist_cons_inv L x xs hd :
  dlist L hd (x :: xs) → hd = Some x ∧ ∃ r, L x = Some (None, r) ∧ r = head xs.
Proof.
  intros [q (-> & r & Hx & H)]. split; [done|]. exists r. split; [done|].
  destruct xs; simpl in H; naive_solver.
Qed.

(** Pushing a node in front. *)
Lemma dlist_push L L' hd x xs :
  NoDup xs → x ∉ xs →
  dlist L hd xs →
  L' x = Some (None, hd) →
  (∀ y r, hd = Some y → L y = Some (None, r) → L' y = Some (Some x, r)) →
  (∀ y, y ∈ xs → hd ≠ Some y → L' y = L y) →
  dlist L' (Some x) (x :: xs).
Proof.
  intros Hnd Hx [q H] Hx' Hhd Ho.
  destruct (dseg_set_pp L L' None (Some x) hd q xs) as [q' H']; [done..|].
  exists q'. simpl. eauto.
Qed.

(** Unlinking a node: its neighbours (or the head) are written. *)
Lemma dlist_remove L L' hd l1 x l2 :
  NoDup (l1 ++ x :: l2) →
  dlist L hd (l1 ++ x :: l2) →
  ∃ pv nx, L x = Some (pv, nx) ∧ pv = last l1 ∧ nx = head l2 ∧
  ((∀ y r, pv = Some y → L y = Some (r, Some x) → L' y = Some (r, nx)) →
   (∀ y r, nx = Some y → L y = Some (Some x, r) → L' y = Some (pv, r)) →
   (∀ y, y ∈ l1 ++ l2 → pv ≠ Some y → nx ≠ Some y → L' y = L y) →
   dlist L' (match pv with None => nx | _ => hd end) (l1 ++ l2)).
Proof.
  intros Hnd [q H]. apply dseg_app in H as (j & jn & H1 & H2).
  simpl in H2. destruct H2 as (-> & r & Hx & H2).
  pose proof (dseg_last _ _ _ _ _ _ H1) as Hj.
  assert (r = head l2) as Hr by (destruct l2; simpl in H2; naive_solver).
  assert (j = last l1) as Hj' by (by destruct (last l1)).
  exists j, r. split; [done|]. split; [done|]. split; [done|].
  intros Hpv Hnx Ho.
  apply NoDup_app in Hnd as (Hnd1 & Hdisj & [Hxl2 Hnd2]%NoDup_cons).
  pose proof (dseg_set_qn L L' None hd j (Some x) r l1 Hnd1 H1) as Hl.
  destruct (dseg_set_pp L L' (Some x) j r q l2 Hnd2 H2) as [q' Hq'].
  { intros y r' E. by apply Hnx. }
  { intros y Hy E. apply Ho; [set_solver| |done]. intros ->.
    symmetry in Hj'. apply last_Some_elem_of in Hj'. set_solver. }
  exists q'. apply dseg_app. exists j, r. split; [|done].
  replace (match j with None => r | _ => hd end)
    with (match l1 with [] => r | _ => hd end).
  { apply Hl.
    - intros y r' Hy. apply Hpv. congruence.
    - intros y Hy E. apply Ho; [set_solver|congruence|]. intros ->.
      destruct l2 as [|z l2]; [done|]. simplify_eq/=. set_solver. }
  subst j. destruct l1 as [|y l1]; [done|].
  destruct (last (y :: l1)) eqn:E; [done|]. by apply last_None in E.
Qed.
End dseg.
