(* ===== verification/Buddy.v ===== *)
(** * The physical page allocator ([src/mem/page/pagealloc.rs])

    A binary buddy allocator over an array of page descriptors.  The free
    lists are doubly linked through the descriptors themselves. *)

From S2P Require Import Prelude.
Local Open Scope Z_scope.

Definition PAGE_SIZE : Z := 4096.
Definition PAGE_SHIFT : Z := 12.
Definition MAX_ORDER : Z := 11.

(** ** Page descriptors *)

Record PageInfo := mkPageInfo {
  pi_order : Z;
  pi_flags : Z;
  pi_next : Z;
  pi_prev : Z;
}.

#[global] Instance PageInfo_eq_dec : EqDecision PageInfo.
Proof. solve_decision. Defined.

Definition NONE : Z := 0.

Definition get_next (p : PageInfo) : option Z :=
  if pi_next p =? NONE then None else Some (pi_next p - 1).
Definition get_prev (p : PageInfo) : option Z :=
  if pi_prev p =? NONE then None else Some (pi_prev p - 1).

(** [v.map(|x| (x + 1) as u32).unwrap_or(Self::NONE)] *)
Definition encode_pfn (v : option Z) : outcome Z :=
  match v with
  | Some x => y ← uadd x 1; Ret (as_u32 y)
  | None => Ret NONE
  end.
Definition set_next (v : option Z) (p : PageInfo) : outcome PageInfo :=
  e ← encode_pfn v; Ret (mkPageInfo (pi_order p) (pi_flags p) e (pi_prev p)).
Definition set_prev (v : option Z) (p : PageInfo) : outcome PageInfo :=
  e ← encode_pfn v; Ret (mkPageInfo (pi_order p) (pi_flags p) (pi_next p) e).

Definition is_head (p : PageInfo) : bool := negb (Z.land (pi_flags p) 1 =? 0).
Definition is_free (p : PageInfo) : bool := negb (Z.land (pi_flags p) 2 =? 0).

Definition set_flags (f : Z) (p : PageInfo) : PageInfo :=
  mkPageInfo (pi_order p) f (pi_next p) (pi_prev p).
(** [!1] and [!2] on a [u8] are 254 and 253. *)
Definition set_head (v : bool) (p : PageInfo) : PageInfo :=
  set_flags (if v then Z.lor (pi_flags p) 1 else Z.land (pi_flags p) 254) p.
Definition set_free (v : bool) (p : PageInfo) : PageInfo :=
  set_flags (if v then Z.lor (pi_flags p) 2 else Z.land (pi_flags p) 253) p.
Definition set_order (o : Z) (p : PageInfo) : PageInfo :=
  mkPageInfo (as_u8 o) (pi_flags p) (pi_next p) (pi_prev p).

Definition default_page : PageInfo := mkPageInfo 255 0 NONE NONE.

(** ** The allocator *)

Record BuddyAllocator := mkBuddy {
  metadata : list PageInfo;
  free_heads : list (option Z);
  total_pages : Z;
}.

#[global] Instance BuddyAllocator_eq_dec : EqDecision BuddyAllocator.
Proof. solve_decision. Defined.

(** [self.metadata[i]] read, [self.metadata[i]] modified in place by [f], and
    the same two for [self.free_heads]. *)
Definition page_at (b : BuddyAllocator) (i : Z) : outcome PageInfo :=
  expect (arr_get (metadata b) i).
Definition update_page (i : Z) (f : PageInfo → outcome PageInfo)
    (b : BuddyAllocator) : outcome BuddyAllocator :=
  p ← page_at b i;
  p' ← f p;
  md ← expect (arr_set (metadata b) i p');
  Ret (mkBuddy md (free_heads b) (total_pages b)).
Definition head_at (b : BuddyAllocator) (o : Z) : outcome (option Z) :=
  expect (arr_get (free_heads b) o).
Definition set_head_at (o : Z) (v : option Z) (b : BuddyAllocator) : outcome BuddyAllocator :=
  hs ← expect (arr_set (free_heads b) o v);
  Ret (mkBuddy (metadata b) hs (total_pages b)).

Definition push_free (pfn order : Z) (b : BuddyAllocator) : outcome BuddyAllocator :=
  head ← head_at b order;
  b ← update_page pfn (λ p, p ← set_next head (set_free true p); set_prev None p) b;
  b ← match head with
      | Some old => update_page old (set_prev (Some pfn)) b
      | None => Ret b
      end;
  set_head_at order (Some pfn) b.

Definition remove_from_free (pfn order : Z) (b : BuddyAllocator) : outcome BuddyAllocator :=
  node ← page_at b pfn;
  let prev := get_prev node in
  let next := get_next node in
  b ← match prev with
      | Some p => update_page p (set_next next) b
      | None => set_head_at order next b
      end;
  match next with
  | Some n => update_page n (set_prev prev) b
  | None => Ret b
  end.

(** [while let Some(pfn) = current { ... }]; the fuel is the number of
    descriptors plus one, more than the length of any free list. *)
Fixpoint find_free_loop (fuel : nat) (b : BuddyAllocator) (pred : Z → outcome bool)
    (current : option Z) : outcome (option Z) :=
  match fuel with
  | O => Diverge
  | S fuel' =>
      match current with
      | None => Ret None
      | Some pfn =>
          ok ← pred pfn;
          if (ok : bool) then Ret (Some pfn)
          else p ← page_at b pfn; find_free_loop fuel' b pred (get_next p)
      end
  end.
Definition find_free (b : BuddyAllocator) (order : Z) (pred : Z → outcome bool) :
    outcome (option Z) :=
  current ← head_at b order;
  find_free_loop (S (length (metadata b))) b pred current.

Definition pop_free (order : Z) (b : BuddyAllocator) : outcome (option Z * BuddyAllocator) :=
  head ← head_at b order;
  match head with
  | None => Ret (None, b)
  | Some pfn =>
      p ← page_at b pfn;
      let next := get_next p in
      b ← set_head_at order next b;
      b ← match next with
          | Some n => update_page n (set_prev None) b
          | None => Ret b
          end;
      b ← update_page pfn (λ p, p ← set_next None (set_free false p); set_prev None p) b;
      Ret (Some pfn, b)
  end.

(** The marking loops [for i in 0..(1 << order) { ... }]: [free] and [alloc]
    blocks set the same three fields (the writes are to different bits). *)
Definition mark_free (pfn order : Z) (b : BuddyAllocator) : outcome BuddyAllocator :=
  n ← ushl 1 order;
  for_range 0 n (λ i b,
    j ← uadd pfn i;
    update_page j (λ p, Ret (set_free true (set_head (i =? 0) (set_order order p)))) b) b.
Definition mark_allocated (pfn order : Z) (b : BuddyAllocator) : outcome BuddyAllocator :=
  n ← ushl 1 order;
  for_range 0 n (λ i b,
    j ← uadd pfn i;
    update_page j (λ p, Ret (set_head (i =? 0) (set_free false (set_order order p)))) b) b.

(** [while split > order { split -= 1; ... }] *)
Fixpoint split_loop (fuel : nat) (pfn order split : Z) (b : BuddyAllocator) :
    outcome BuddyAllocator :=
  match fuel with
  | O => Diverge
  | S fuel' =>
      if order <? split then
        let split := split - 1 in
        bit ← ushl 1 split;
        let buddy_pfn := Z.lxor pfn bit in
        b ← mark_free buddy_pfn split b;
        b ← push_free buddy_pfn split b;
        split_loop fuel' pfn order split b
      else Ret b
  end.

Definition take_block (pfn o order : Z) (b : BuddyAllocator) :
    outcome (option Z * BuddyAllocator) :=
  b ← remove_from_free pfn o b;
  b ← update_page pfn (λ p, Ret (set_free false p)) b;
  b ← update_page pfn (set_next None) b;
  b ← update_page pfn (set_prev None) b;
  b ← split_loop (S (Z.to_nat (o - order))) pfn order o b;
  b ← mark_allocated pfn order b;
  addr ← umul pfn PAGE_SIZE;
  Ret (Some addr, b).

(** [for o in order..MAX_ORDER { ... }] with its early return. *)
Fixpoint allocate_loop (os : list Z) (order : Z) (pred : Z → outcome bool)
    (b : BuddyAllocator) : outcome (option Z * BuddyAllocator) :=
  match os with
  | [] => Ret (None, b)
  | o :: os' =>
      r ← find_free b o pred;
      match r with
      | Some pfn => take_block pfn o order b
      | None => allocate_loop os' order pred b
      end
  end.
Definition allocate_where (order : Z) (pred : Z → outcome bool) (b : BuddyAllocator) :
    outcome (option Z * BuddyAllocator) :=
  if MAX_ORDER <=? order then Ret (None, b)
  else allocate_loop (seqZ order (MAX_ORDER - order)) order pred b.

Definition allocate (order : Z) (b : BuddyAllocator) : outcome (option Z * BuddyAllocator) :=
  allocate_where order (λ _, Ret true) b.

Definition below (order limit pfn : Z) : outcome bool :=
  start ← umul pfn PAGE_SIZE;
  pages ← ushl 1 order;
  size ← umul pages PAGE_SIZE;
  Ret (match checked_add start size with Some e => e <=? limit | None => false end).
Definition allocate_below (order limit : Z) (b : BuddyAllocator) :
    outcome (option Z * BuddyAllocator) :=
  allocate_where order (below order limit) b.

(** The merge loop of [deallocate]; the order grows by one each round, so
    [MAX_ORDER] rounds are enough. *)
Fixpoint merge_loop (fuel : nat) (current_pfn order : Z) (b : BuddyAllocator) :
    outcome (Z * Z * BuddyAllocator) :=
  match fuel with
  | O => Diverge
  | S fuel' =>
      if MAX_ORDER <=? order + 1 then Ret (current_pfn, order, b)
      else
        bit ← ushl 1 order;
        let buddy_pfn := Z.lxor current_pfn bit in
        if total_pages b <=? buddy_pfn then Ret (current_pfn, order, b)
        else
          buddy ← page_at b buddy_pfn;
          if negb (is_free buddy) || negb (pi_order buddy =? order) || negb (is_head buddy)
          then Ret (current_pfn, order, b)
          else
            b ← remove_from_free buddy_pfn order b;
            merge_loop fuel' (Z.min current_pfn buddy_pfn) (order + 1) b
  end.

Definition deallocate (addr : Z) (b : BuddyAllocator) : outcome BuddyAllocator :=
  let pfn := addr / PAGE_SIZE in
  p ← page_at b pfn;
  _ ← assert_that (is_head p);
  _ ← assert_that (negb (is_free p));
  r ← merge_loop (Z.to_nat MAX_ORDER) pfn (pi_order p) b;
  let '(current_pfn, order, b) := r in
  b ← mark_free current_pfn order b;
  push_free current_pfn order b.

(** [align_up] and [align_down] of this file. *)
Definition align_up (addr align : Z) : outcome Z :=
  a ← uadd addr align;
  a ← usub a 1;
  m ← usub align 1;
  Ret (Z.land a (not64 m)).
Definition align_down (addr align : Z) : outcome Z :=
  m ← usub align 1;
  Ret (Z.land addr (not64 m)).

(** The first reserved region that contains [start]. *)
Fixpoint reserved_end_of (reserved : list (Z * Z)) (start : Z) : option Z :=
  match reserved with
  | [] => None
  | (res_start, res_end) :: rest =>
      if (res_start <=? start) && (start <? res_end) then Some res_end
      else reserved_end_of rest start
  end.

(** [reserved.iter().filter(|(s, _)| *s > start).map(|(s, _)| *s).min()] *)
Fixpoint next_reserved_start (reserved : list (Z * Z)) (start : Z) : option Z :=
  match reserved with
  | [] => None
  | (s, _) :: rest =>
      let m := next_reserved_start rest start in
      if start <? s then Some (match m with Some m => Z.min s m | None => s end)
      else m
  end.

(** The largest order a block at [start] may have with [pages] pages to go. *)
Definition order_for (start pages : Z) : Z :=
  let align_order := trailing_zeros start in
  let order_by_align := saturating_sub align_order PAGE_SHIFT in
  let order_by_size := Z.min (64 - 1 - leading_zeros pages) (MAX_ORDER - 1) in
  Z.min (Z.min order_by_align order_by_size) (MAX_ORDER - 1).

Definition mark_region (pfn order : Z) (b : BuddyAllocator) : outcome BuddyAllocator :=
  n ← ushl 1 order;
  for_range 0 n (λ i b,
    j ← uadd pfn i;
    update_page j (λ p,
      p ← set_next None (set_free true (set_head (i =? 0) (set_order order p)));
      set_prev None p) b) b.

(** The loop [while start < end] of [add_region]. *)
Fixpoint add_region_loop (fuel : nat) (start end_ : Z) (reserved : list (Z * Z))
    (b : BuddyAllocator) : outcome BuddyAllocator :=
  match fuel with
  | O => Diverge
  | S fuel' =>
      if start <? end_ then
        match reserved_end_of reserved start with
        | Some res_end =>
            start ← align_up res_end PAGE_SIZE;
            add_region_loop fuel' start end_ reserved b
        | None =>
            let next_boundary := Z.min (default end_ (next_reserved_start reserved start)) end_ in
            size ← usub next_boundary start;
            let pages := Z.shiftr size PAGE_SHIFT in
            if pages =? 0 then
              add_region_loop fuel' (saturating_add start PAGE_SIZE) end_ reserved b
            else
              let order := order_for start pages in
              block_pages ← ushl 1 order;
              block_size ← umul block_pages PAGE_SIZE;
              let pfn := Z.shiftr start PAGE_SHIFT in
              top ← uadd pfn block_pages;
              if total_pages b <? top then Ret b
              else
                b ← mark_region pfn order b;
                b ← push_free pfn order b;
                start ← uadd start block_size;
                add_region_loop fuel' start end_ reserved b
        end
      else Ret b
  end.

(** Every round moves [start] up by at least one page. *)
Definition add_region (start end_ : Z) (reserved : list (Z * Z)) (b : BuddyAllocator) :
    outcome BuddyAllocator :=
  start ← align_up start PAGE_SIZE;
  end_ ← align_down end_ PAGE_SIZE;
  add_region_loop (S (Z.to_nat ((end_ - start) / PAGE_SIZE))) start end_ reserved b.

(** What the allocator reads of a Multiboot2 memory area: its type number and
    its bounds. *)
Record MemoryArea := mkArea { area_typ : Z; area_start : Z; area_end : Z }.

Definition buddy_new (metadata : list PageInfo) (mem_map : list MemoryArea)
    (reserved : list (Z * Z)) : outcome BuddyAllocator :=
  let fresh := (λ _ : PageInfo, default_page) <$> metadata in
  let buddy := mkBuddy fresh (replicate (Z.to_nat MAX_ORDER) None) (zlen metadata) in
  for_each mem_map (λ area b,
    if area_typ area =? 1 then add_region (area_start area) (area_end area) reserved b
    else Ret b) buddy.
