(* ===== verification/BuddyInv.v ===== *)
(** * The buddy allocator's invariant

    Every page descriptor has a [tag] (order, head bit, free bit) and a pair
    of links.  The tags cut the page frames into blocks; the links thread the
    heads of the free blocks of each order on one list.  An operation of the
    allocator takes a block out of this structure, rewrites its descriptors
    and puts blocks back, so the invariant [wf_hole] is stated relative to a
    set of frames, the hole, about which it says nothing. *)

From S2P Require Import Prelude Links Buddy.
From Stdlib Require Import Decidable.
Local Open Scope Z_scope.

Definition pages (b : BuddyAllocator) (j : Z) : option PageInfo := arr_get (metadata b) j.
Definition tag (p : PageInfo) : Z * bool * bool := (pi_order p, is_head p, is_free p).
Definition link (p : PageInfo) : option Z * option Z := (get_prev p, get_next p).
Definition tags (b : BuddyAllocator) (j : Z) : option (Z * bool * bool) := tag <$> pages b j.
Definition links (b : BuddyAllocator) : linkage := λ j, link <$> pages b j.
Definition heads (b : BuddyAllocator) (o : Z) : option (option Z) := arr_get (free_heads b) o.

(** The frames of a block of order [o] at [h]. *)
Definition in_block (h o j : Z) : Prop := h ≤ j < h + 2 ^ o.

Record wf_hole (b : BuddyAllocator) (P : Z → Prop) : Prop := {
  wf_len : zlen (metadata b) = total_pages b;
  wf_max : total_pages b < 2 ^ 32;
  wf_nheads : zlen (free_heads b) = MAX_ORDER;
  wf_block : ∀ h o f, ¬ P h → tags b h = Some (o, true, f) →
    0 ≤ o < MAX_ORDER ∧ (2 ^ o | h) ∧
    ∀ j, h < j < h + 2 ^ o → ¬ P j ∧ tags b j = Some (o, false, f);
  wf_list : ∀ o, 0 ≤ o < MAX_ORDER →
    ∃ hd xs, heads b o = Some hd ∧ dlist (links b) hd xs ∧ NoDup xs ∧
      ∀ h, h ∈ xs ↔ ¬ P h ∧ tags b h = Some (o, true, true);
  wf_cover : ∀ j o hb, ¬ P j → tags b j = Some (o, hb, true) →
    ∃ h, ¬ P h ∧ tags b h = Some (o, true, true) ∧ in_block h o j;
}.

Definition wf (b : BuddyAllocator) : Prop := wf_hole b (λ _, False).

(** Two states with the same number of frames and of free lists. *)
Definition same_shape (b b' : BuddyAllocator) : Prop :=
  zlen (metadata b') = zlen (metadata b) ∧
  total_pages b' = total_pages b ∧
  zlen (free_heads b') = zlen (free_heads b).

(** ** Descriptor fields *)

Lemma land_bit_testbit f k :
  0 ≤ k → negb (Z.land f (2 ^ k) =? 0) = Z.testbit f k.
Proof.
  intros Hk. destruct (Z.testbit f k) eqn:E.
  - apply negb_true_iff, Z.eqb_neq. intros H0.
    assert (Z.testbit (Z.land f (2 ^ k)) k = false) as H1 by (rewrite H0; apply Z.bits_0).
    rewrite Z.land_spec, E, Z.pow2_bits_true in H1 by lia. done.
  - apply negb_false_iff, Z.eqb_eq. apply Z.bits_inj'. intros n Hn.
    rewrite Z.land_spec, Z.bits_0. destruct (decide (n = k)) as [->|Hne].
    + by rewrite E.
    + rewrite Z.pow2_bits_false by lia. by rewrite andb_false_r.
Qed.

Lemma is_head_testbit p : is_head p = Z.testbit (pi_flags p) 0.
Proof. apply (land_bit_testbit _ 0). lia. Qed.
Lemma is_free_testbit p : is_free p = Z.testbit (pi_flags p) 1.
Proof. apply (land_bit_testbit _ 1). lia. Qed.

Lemma tag_set_head v p : tag (set_head v p) = (pi_order p, v, is_free p).
Proof.
  unfold tag. f_equal; [f_equal|]; rewrite ?is_head_testbit, ?is_free_testbit;
    destruct v; simpl pi_flags; rewrite ?Z.lor_spec, ?Z.land_spec; simpl;
    by rewrite ?orb_true_r, ?orb_false_r, ?andb_true_r, ?andb_false_r.
Qed.
Lemma tag_set_free v p : tag (set_free v p) = (pi_order p, is_head p, v).
Proof.
  unfold tag. f_equal; [f_equal|]; rewrite ?is_head_testbit, ?is_free_testbit;
    destruct v; simpl pi_flags; rewrite ?Z.lor_spec, ?Z.land_spec; simpl;
    by rewrite ?orb_true_r, ?orb_false_r, ?andb_true_r, ?andb_false_r.
Qed.

(** Frame numbers that survive the PFN+1 encoding. *)
Definition encodable (v : option Z) : Prop :=
  match v with Some x => 0 ≤ x < 2 ^ 32 - 1 | None => True end.

Lemma encode_pfn_spec v :
  encodable v →
  ∃ e, encode_pfn v = Ret e ∧ (if e =? NONE then None else Some (e - 1)) = v.
Proof.
  intros H. destruct v as [x|]; simpl in *; [|exists NONE; done].
  unfold uadd, checked_add. change usize_max with (2 ^ 64 - 1).
  replace (x + 1 <=? 2 ^ 64 - 1) with true by lia. simpl.
  exists (as_u32 (x + 1)). split; [done|]. unfold as_u32, NONE.
  rewrite Z.mod_small by lia. replace (x + 1 =? 0) with false by lia.
  f_equal. lia.
Qed.
Lemma set_next_spec v p :
  encodable v → ∃ p', set_next v p = Ret p' ∧ tag p' = tag p ∧ link p' = (get_prev p, v).
Proof.
  intros (e & He & Hv)%encode_pfn_spec. unfold set_next. rewrite He. simpl.
  eexists. split; [done|]. split; [done|]. unfold link, get_next. simpl. by rewrite Hv.
Qed.
Lemma set_prev_spec v p :
  encodable v → ∃ p', set_prev v p = Ret p' ∧ tag p' = tag p ∧ link p' = (v, get_next p).
Proof.
  intros (e & He & Hv)%encode_pfn_spec. unfold set_prev. rewrite He. simpl.
  eexists. split; [done|]. split; [done|]. unfold link, get_prev. simpl. by rewrite Hv.
Qed.

(** ** Primitive updates *)

Lemma same_shape_refl b : same_shape b b.
Proof. done. Qed.
Lemma same_shape_trans b1 b2 b3 : same_shape b1 b2 → same_shape b2 b3 → same_shape b1 b3.
Proof. unfold same_shape. intuition congruence. Qed.

Create HintDb buddy.
#[export] Hint Resolve same_shape_refl same_shape_trans : buddy.

Lemma pages_lt b j p : pages b j = Some p → 0 ≤ j < zlen (metadata b).
Proof. apply arr_get_lt. Qed.
Lemma pages_is_Some b j : 0 ≤ j < zlen (metadata b) → ∃ p, pages b j = Some p.
Proof. intros H. by apply arr_get_is_Some in H. Qed.
Lemma tags_lt b j t : tags b j = Some t → 0 ≤ j < zlen (metadata b).
Proof. unfold tags. destruct (pages b j) eqn:E; [|done]. intros _. by eapply pages_lt. Qed.
Lemma links_lt b j t : links b j = Some t → 0 ≤ j < zlen (metadata b).
Proof. unfold links. destruct (pages b j) eqn:E; [|done]. intros _. by eapply pages_lt. Qed.
Lemma tags_is_Some b j : 0 ≤ j < zlen (metadata b) → ∃ o hb f, tags b j = Some (o, hb, f).
Proof.
  intros [p Hp]%pages_is_Some. unfold tags, tag. rewrite Hp. simpl. eauto.
Qed.
Lemma tags_pages b j t : tags b j = Some t → ∃ p, pages b j = Some p ∧ tag p = t.
Proof. unfold tags. destruct (pages b j); simpl; naive_solver. Qed.

Lemma update_page_spec b i p f p' :
  pages b i = Some p → f p = Ret p' →
  ∃ b', update_page i f b = Ret b' ∧ same_shape b b' ∧ free_heads b' = free_heads b ∧
    ∀ j, pages b' j = if decide (i = j) then Some p' else pages b j.
Proof.
  intros Hp Hf. unfold update_page, page_at. unfold pages in Hp. rewrite Hp. simpl.
  rewrite Hf. simpl. destruct (arr_set_is_Some (metadata b) i p') as [md Hmd].
  { by eapply arr_get_lt. }
  rewrite Hmd. simpl. eexists. split; [done|]. unfold same_shape, pages. simpl.
  split; [|split; [done|]].
  - split_and!; [|done..]. by eapply arr_set_zlen.
  - intros j. by eapply arr_set_get.
Qed.

(** The same, seen through tags and links. *)
Lemma update_page_tl b i p f p' :
  pages b i = Some p → f p = Ret p' →
  ∃ b', update_page i f b = Ret b' ∧ same_shape b b' ∧ free_heads b' = free_heads b ∧
    (∀ j, tags b' j = if decide (i = j) then Some (tag p') else tags b j) ∧
    (∀ j, links b' j = if decide (i = j) then Some (link p') else links b j).
Proof.
  intros Hp Hf. destruct (update_page_spec b i p f p' Hp Hf) as (b' & Hb & Hs & Hh & Hpg).
  exists b'. split_and!; [done..| |]; intros j; unfold tags, links; rewrite Hpg; by case_decide.
Qed.

Lemma set_head_at_spec b o v :
  0 ≤ o < zlen (free_heads b) →
  ∃ b', set_head_at o v b = Ret b' ∧ same_shape b b' ∧ metadata b' = metadata b ∧
    ∀ o', heads b' o' = if decide (o = o') then Some v else heads b o'.
Proof.
  intros Ho. unfold set_head_at.
  destruct (arr_set_is_Some (free_heads b) o v Ho) as [hs Hhs]. rewrite Hhs. simpl.
  eexists. split; [done|]. unfold same_shape, heads. simpl. split_and!; [done|done| |done|].
  - by eapply arr_set_zlen.
  - intros o'. by eapply arr_set_get.
Qed.

Lemma update_prev_at b y w pv nx :
  links b y = Some (pv, nx) → encodable w →
  ∃ b', update_page y (set_prev w) b = Ret b' ∧ same_shape b b' ∧
    free_heads b' = free_heads b ∧ (∀ j, tags b' j = tags b j) ∧
    (∀ j, links b' j = if decide (y = j) then Some (w, nx) else links b j).
Proof.
  intros Hl Hw. unfold links in Hl. destruct (pages b y) as [q|] eqn:Hq; [|done].
  simpl in Hl. unfold link in Hl. simplify_eq.
  destruct (set_prev_spec w q Hw) as (q' & Hq' & Htq & Hlq).
  destruct (update_page_tl b y q (set_prev w) q') as (b' & ? & ? & ? & Ht & Hl); [done..|].
  exists b'. split_and!; [done..| |].
  - intros j. rewrite Ht. case_decide; [|done]. subst. unfold tags. by rewrite Hq, Htq.
  - intros j. rewrite Hl, Hlq. done.
Qed.

Lemma update_next_at b y w pv nx :
  links b y = Some (pv, nx) → encodable w →
  ∃ b', update_page y (set_next w) b = Ret b' ∧ same_shape b b' ∧
    free_heads b' = free_heads b ∧ (∀ j, tags b' j = tags b j) ∧
    (∀ j, links b' j = if decide (y = j) then Some (pv, w) else links b j).
Proof.
  intros Hl Hw. unfold links in Hl. destruct (pages b y) as [q|] eqn:Hq; [|done].
  simpl in Hl. unfold link in Hl. simplify_eq.
  destruct (set_next_spec w q Hw) as (q' & Hq' & Htq & Hlq).
  destruct (update_page_tl b y q (set_next w) q') as (b' & ? & ? & ? & Ht & Hl); [done..|].
  exists b'. split_and!; [done..| |].
  - intros j. rewrite Ht. case_decide; [|done]. subst. unfold tags. by rewrite Hq, Htq.
  - intros j. rewrite Hl, Hlq. done.
Qed.

Lemma push_free_spec b h o hd t_o t_h t_f :
  heads b o = Some hd →
  tags b h = Some (t_o, t_h, t_f) →
  zlen (metadata b) < 2 ^ 32 →
  (∀ old, hd = Some old → old ≠ h ∧ is_Some (links b old)) →
  ∃ b', push_free h o b = Ret b' ∧ same_shape b b' ∧
    (∀ o', heads b' o' = if decide (o = o') then Some (Some h) else heads b o') ∧
    tags b' h = Some (t_o, t_h, true) ∧
    (∀ j, j ≠ h → tags b' j = tags b j) ∧
    links b' h = Some (None, hd) ∧
    (∀ old p n, hd = Some old → links b old = Some (p, n) → links b' old = Some (Some h, n)) ∧
    (∀ j, j ≠ h → hd ≠ Some j → links b' j = links b j).
Proof.
  intros Hhd Ht Hmax Hold. pose proof (tags_lt _ _ _ Ht) as Hh.
  destruct (tags_pages _ _ _ Ht) as (p & Hp & Htp).
  assert (0 ≤ o < zlen (free_heads b)) as Ho by (by eapply arr_get_lt).
  assert (encodable hd) as Hehd.
  { destruct hd as [old|]; [|done]. destruct (Hold old) as (_ & l & Hl%links_lt); [done|].
    simpl. lia. }
  unfold push_free, head_at. unfold heads in Hhd. rewrite Hhd. simpl expect. rewrite Ret_bind.
  destruct (set_next_spec hd (set_free true p) Hehd) as (p1 & Hp1 & Ht1 & Hl1).
  destruct (set_prev_spec None p1 I) as (p2 & Hp2 & Ht2 & Hl2).
  destruct (update_page_tl b h p
    (λ p, p ← set_next hd (set_free true p); set_prev None p) p2)
    as (b1 & Hb1 & Hs1 & Hh1 & Htg1 & Hlk1); [done|by rewrite Hp1|].
  rewrite Hb1, Ret_bind. rewrite Ht2, Ht1, tag_set_free in Htg1.
  assert (link p2 = (None, hd)) as Hlp2.
  { rewrite Hl2. unfold link in Hl1. injection Hl1. congruence. }
  rewrite Hlp2 in Hlk1.
  assert (∃ b2, match hd with Some old => update_page old (set_prev (Some h)) b1 | None => Ret b1 end
      = Ret b2 ∧ same_shape b1 b2 ∧ free_heads b2 = free_heads b1 ∧
      (∀ j, tags b2 j = tags b1 j) ∧
      (∀ old p n, hd = Some old → links b old = Some (p, n) → links b2 old = Some (Some h, n)) ∧
      (∀ j, hd ≠ Some j → links b2 j = links b1 j))
    as (b2 & Hb2 & Hs2 & Hh2 & Htg2 & Hlk2 & Hlk2').
  { destruct hd as [old|].
    - destruct (Hold old eq_refl) as (Hne & [[pv nx] Hl]).
      destruct (update_prev_at b1 old (Some h) pv nx) as (b2 & ? & ? & ? & ? & Hl');
        [by rewrite Hlk1, decide_False|simpl; lia|].
      exists b2. split_and!; [done..| |].
      + intros ? pv' n [= <-] Hl2'. rewrite Hl', decide_True by done. congruence.
      + intros j Hj. rewrite Hl', decide_False; congruence.
    - exists b1. split_and!; auto with buddy; naive_solver. }
  rewrite Hb2, Ret_bind.
  destruct (set_head_at_spec b2 o (Some h)) as (b3 & Hb3 & Hs3 & Hm3 & Hhd3).
  { destruct Hs1 as (_ & _ & ?), Hs2 as (_ & _ & ?). lia. }
  assert (∀ j, tags b3 j = tags b2 j) as Et by (intros; unfold tags, pages; by rewrite Hm3).
  assert (∀ j, links b3 j = links b2 j) as El by (intros; unfold links, pages; by rewrite Hm3).
  exists b3. split; [done|]. split; [eauto using same_shape_trans|]. split_and!.
  - intros o'. rewrite Hhd3. case_decide; [done|]. unfold heads. by rewrite Hh2, Hh1.
  - rewrite Et, Htg2, Htg1, decide_True by done. unfold tag in Htp. by simplify_eq.
  - intros j Hj. by rewrite Et, Htg2, Htg1, decide_False.
  - rewrite El, Hlk2', Hlk1, decide_True; [done..|]. intros E. by apply (Hold h).
  - intros old pv n E Hl. rewrite El. eauto.
  - intros j Hj Hne. by rewrite El, Hlk2', Hlk1, decide_False.
Qed.

Lemma remove_from_free_spec b h o pv nx :
  links b h = Some (pv, nx) →
  0 ≤ o < zlen (free_heads b) →
  zlen (metadata b) < 2 ^ 32 →
  (∀ y, pv = Some y → nx ≠ Some y ∧ is_Some (links b y)) →
  (∀ y, nx = Some y → is_Some (links b y)) →
  ∃ b', remove_from_free h o b = Ret b' ∧ same_shape b b' ∧
    (∀ o', heads b' o' =
      if decide (o = o' ∧ pv = None) then Some nx else heads b o') ∧
    (∀ j, tags b' j = tags b j) ∧
    (∀ y r s, pv = Some y → links b y = Some (r, s) → links b' y = Some (r, nx)) ∧
    (∀ y r s, nx = Some y → links b y = Some (r, s) → links b' y = Some (pv, s)) ∧
    (∀ j, pv ≠ Some j → nx ≠ Some j → links b' j = links b j).
Proof.
  intros Hl Ho Hmax Hpv Hnx.
  assert (encodable pv ∧ encodable nx) as [Hepv Henx].
  { split.
    - destruct pv as [y|]; [|done]. destruct (Hpv y) as (_ & l & ?%links_lt); [done|]. simpl. lia.
    - destruct nx as [y|]; [|done]. destruct (Hnx y) as (l & ?%links_lt); [done|]. simpl. lia. }
  unfold remove_from_free, page_at. unfold links, pages in Hl.
  destruct (arr_get (metadata b) h) as [nd|] eqn:Hnd; [|done]. simpl in Hl.
  unfold link in Hl. simpl expect. rewrite Ret_bind.
  injection Hl as Hpv' Hnx'. cbv zeta. rewrite Hpv', Hnx'. clear Hpv' Hnx'.
  assert (∃ b1, match pv with Some p => update_page p (set_next nx) b
                | None => set_head_at o nx b end = Ret b1 ∧ same_shape b b1 ∧
      (∀ o', heads b1 o' = if decide (o = o' ∧ pv = None) then Some nx else heads b o') ∧
      (∀ j, tags b1 j = tags b j) ∧
      (∀ y r s, pv = Some y → links b y = Some (r, s) → links b1 y = Some (r, nx)) ∧
      (∀ j, pv ≠ Some j → links b1 j = links b j))
    as (b1 & Hb1 & Hs1 & Hh1 & Ht1 & Hl1 & Hl1').
  { destruct pv as [y|].
    - destruct (Hpv y eq_refl) as (Hne & [[r s] Hy]).
      destruct (update_next_at b y nx r s) as (b1 & ? & ? & Hfh & ? & Hl'); [done..|].
      exists b1. split_and!; [done..| |done| |].
      + intros o'. rewrite decide_False by naive_solver. unfold heads. by rewrite Hfh.
      + intros y' r' s' [= <-] Hy'. rewrite Hl', decide_True by done. congruence.
      + intros j Hj. rewrite Hl', decide_False; congruence.
    - destruct (set_head_at_spec b o nx Ho) as (b1 & ? & ? & Hm & Hh).
      exists b1. split_and!; [done..| | | |].
      + intros o'. rewrite Hh. repeat case_decide; naive_solver.
      + intros j. unfold tags, pages. by rewrite Hm.
      + done.
      + intros j _. unfold links, pages. by rewrite Hm. }
  rewrite Hb1, Ret_bind. destruct nx as [y|].
  - destruct (Hnx y eq_refl) as [[r s] Hy].
    destruct (update_prev_at b1 y pv r s) as (b2 & ? & ? & Hfh & Ht2 & Hl2); [|done|].
    { rewrite Hl1'; [done|]. intros E. by destruct (Hpv y E). }
    exists b2. split_and!; [done|eauto with buddy|..].
    + intros o'. unfold heads in *. by rewrite Hfh.
    + intros j. by rewrite Ht2.
    + intros y' r' s' E Hy'. rewrite Hl2, decide_False; [by eapply Hl1|].
      intros <-. by destruct (Hpv y E).
    + intros y' r' s' [= <-] Hy'. rewrite Hl2, decide_True by done. congruence.
    + intros j Hj Hj'. rewrite Hl2, decide_False by congruence. by apply Hl1'.
  - exists b1. split_and!; [done..|]. naive_solver.
Qed.

(** ** The marking loops *)

Lemma ushl_1 o : 0 ≤ o < 64 → ushl 1 o = Ret (2 ^ o).
Proof.
  intros Ho. unfold ushl. replace ((0 <=? o) && (o <? 64)) with true by lia.
  rewrite Z.shiftl_1_l, Z.mod_small; [done|]. split; [lia|]. apply Z.pow_lt_mono_r; lia.
Qed.

Lemma update_range_spec b pfn n (f : Z → PageInfo → outcome PageInfo) (g : Z → PageInfo → PageInfo) :
  (∀ i p, f i p = Ret (g i p)) →
  0 ≤ pfn → 0 ≤ n → pfn + n ≤ zlen (metadata b) → zlen (metadata b) < 2 ^ 32 →
  ∃ b', for_range 0 n (λ i b, j ← uadd pfn i; update_page j (f i) b) b = Ret b' ∧
    same_shape b b' ∧ free_heads b' = free_heads b ∧
    ∀ j, pages b' j =
      if decide (pfn ≤ j < pfn + n) then g (j - pfn) <$> pages b j else pages b j.
Proof.
  intros Hf Hpfn Hn Hle Hmax. unfold for_range.
  replace (n - 0) with (Z.of_nat (Z.to_nat n)) by lia.
  assert (∀ m lo b, 0 ≤ lo → pfn + lo + Z.of_nat m ≤ zlen (metadata b) →
    zlen (metadata b) < 2 ^ 32 →
    ∃ b', for_each (seqZ lo (Z.of_nat m)) (λ i b, j ← uadd pfn i; update_page j (f i) b) b = Ret b' ∧
      same_shape b b' ∧ free_heads b' = free_heads b ∧
      ∀ j, pages b' j =
        if decide (pfn + lo ≤ j < pfn + lo + Z.of_nat m) then g (j - pfn) <$> pages b j
        else pages b j) as IH.
  { clear - Hf Hpfn. intros m. induction m as [|m IH]; intros lo b Hlo Hle Hmax.
    - exists b. split_and!; auto with buddy. intros j. rewrite decide_False by lia. done.
    - rewrite seqZ_cons by lia. simpl for_each.
      replace (Z.pred (Z.of_nat (S m))) with (Z.of_nat m) by lia.
      rewrite uadd_ok by (unfold usize_max; lia). rewrite Ret_bind.
      destruct (pages_is_Some b (pfn + lo)) as [p Hp]; [lia|].
      destruct (update_page_spec b (pfn + lo) p (f lo) (g lo p)) as (b1 & -> & Hs1 & Hh1 & Hp1);
        [done|done|]. rewrite Ret_bind.
      pose proof Hs1 as (Hz & _).
      destruct (IH (Z.succ lo) b1) as (b2 & -> & Hs2 & Hh2 & Hp2); [lia..|].
      exists b2. split_and!; [done|eauto with buddy|congruence|].
      intros j. rewrite Hp2, Hp1. destruct (decide (pfn + lo = j)) as [<-|Hne].
      + rewrite decide_False by lia. rewrite decide_True by lia. rewrite Hp. simpl.
        do 2 f_equal. lia.
      + destruct (decide (pfn + lo ≤ j < pfn + lo + Z.of_nat (S m))).
        * by rewrite decide_True by lia.
        * by rewrite decide_False by lia. }
  destruct (IH (Z.to_nat n) 0 b) as (b' & Hb & Hs & Hh & Hp); [lia..|].
  exists b'. split_and!; [done..|]. intros j. rewrite Hp.
  by replace (pfn + 0 + Z.of_nat (Z.to_nat n)) with (pfn + n) by lia; rewrite Z.add_0_r.
Qed.

(** What a marking loop does to the tags: block [h] of order [o] gets one
    head and the free bit [f]; the other descriptors are untouched. *)
Definition marked (b b' : BuddyAllocator) (h o : Z) (f : bool) : Prop :=
  same_shape b b' ∧ free_heads b' = free_heads b ∧
  (∀ j, in_block h o j → tags b' j = Some (o, j =? h, f)) ∧
  (∀ j, ¬ in_block h o j → tags b' j = tags b j) ∧
  (∀ j, ¬ in_block h o j → links b' j = links b j).

Lemma marked_intro b h o f (op : Z → PageInfo → outcome PageInfo) (g : Z → PageInfo → PageInfo) :
  (∀ i p, op i p = Ret (g i p)) →
  (∀ i p, tag (g i p) = (o, i =? 0, f)) →
  0 ≤ o < MAX_ORDER → 0 ≤ h → h + 2 ^ o ≤ zlen (metadata b) → zlen (metadata b) < 2 ^ 32 →
  ∃ b', (n ← ushl 1 o; for_range 0 n (λ i b, j ← uadd h i; update_page j (op i) b) b) = Ret b' ∧
    marked b b' h o f.
Proof.
  intros Hop Hg Ho Hh Hle Hmax. unfold MAX_ORDER in Ho.
  rewrite ushl_1 by lia. rewrite Ret_bind.
  destruct (update_range_spec b h (2 ^ o) op g) as (b' & -> & Hs & Hh' & Hp); [done|lia..|].
  exists b'. split; [done|]. unfold marked, tags, links, in_block.
  split_and!; [done|done|..]; intros j Hj; rewrite Hp.
  - rewrite decide_True by done. destruct (pages_is_Some b j) as [p ->]; [lia|].
    simpl. rewrite Hg. do 3 f_equal. lia.
  - by rewrite decide_False.
  - by rewrite decide_False.
Qed.

Lemma mark_free_spec b h o :
  0 ≤ o < MAX_ORDER → 0 ≤ h → h + 2 ^ o ≤ zlen (metadata b) → zlen (metadata b) < 2 ^ 32 →
  ∃ b', mark_free h o b = Ret b' ∧ marked b b' h o true.
Proof.
  intros Ho. apply (marked_intro b h o true) with
    (g := λ i p, set_free true (set_head (i =? 0) (set_order o p))); [done| |done].
  intros i p. rewrite tag_set_free. change (is_head ?x) with (snd (fst (tag x))).
  rewrite tag_set_head. simpl. unfold as_u8, MAX_ORDER in *. by rewrite Z.mod_small by lia.
Qed.
Lemma mark_allocated_spec b h o :
  0 ≤ o < MAX_ORDER → 0 ≤ h → h + 2 ^ o ≤ zlen (metadata b) → zlen (metadata b) < 2 ^ 32 →
  ∃ b', mark_allocated h o b = Ret b' ∧ marked b b' h o false.
Proof.
  intros Ho. apply (marked_intro b h o false) with
    (g := λ i p, set_head (i =? 0) (set_free false (set_order o p))); [done| |done].
  intros i p. rewrite tag_set_head. change (is_free ?x) with (snd (tag x)).
  rewrite tag_set_free. simpl. unfold as_u8, MAX_ORDER in *. by rewrite Z.mod_small by lia.
Qed.
Lemma mark_region_spec b h o :
  0 ≤ o < MAX_ORDER → 0 ≤ h → h + 2 ^ o ≤ zlen (metadata b) → zlen (metadata b) < 2 ^ 32 →
  ∃ b', mark_region h o b = Ret b' ∧ marked b b' h o true.
Proof.
  intros Ho. apply (marked_intro b h o true) with
    (g := λ i p, let q := set_free true (set_head (i =? 0) (set_order o p)) in
                 mkPageInfo (pi_order q) (pi_flags q) NONE NONE); [done| |done].
  intros i p. cbv zeta.
  change (tag (mkPageInfo ?o ?f _ _)) with (tag (mkPageInfo o f NONE NONE)).
  transitivity (tag (set_free true (set_head (i =? 0) (set_order o p)))); [done|].
  rewrite tag_set_free. change (is_head ?x) with (snd (fst (tag x))).
  rewrite tag_set_head. simpl. unfold as_u8, MAX_ORDER in *. by rewrite Z.mod_small by lia.
Qed.

(** ** Opening and closing holes *)

Lemma wf_hole_ext b P Q : (∀ j, P j ↔ Q j) → wf_hole b P → wf_hole b Q.
Proof.
  intros HPQ [H1 H2 H3 H4 H5 H6]. split; [done..| | |].
  - intros h o f Hh. rewrite <- HPQ in Hh. intros Ht.
    destruct (H4 h o f Hh Ht) as (? & ? & Hj). do 2 (split; [done|]).
    intros j Hj'. rewrite <- HPQ. by apply Hj.
  - intros o Ho. destruct (H5 o Ho) as (hd & xs & ? & ? & ? & Hxs).
    exists hd, xs. split_and!; [done..|]. intros h. rewrite Hxs, HPQ. done.
  - intros j o hb Hj Ht. rewrite <- HPQ in Hj. destruct (H6 j o hb Hj Ht) as (h & ? & ?).
    exists h. rewrite <- HPQ. done.
Qed.

(** Inside the hole the descriptors are free to change. *)
Lemma wf_hole_frame b b' (P : Z → Prop) :
  same_shape b b' → free_heads b' = free_heads b →
  (∀ j, ¬ P j → tags b' j = tags b j) → (∀ j, ¬ P j → links b' j = links b j) →
  wf_hole b P → wf_hole b' P.
Proof.
  intros (Hz & Htot & Hnh) Hfh Ht Hl [H1 H2 H3 H4 H5 H6].
  split; [congruence|congruence|congruence|..].
  - intros h o f Hh Hth. rewrite Ht in Hth by done.
    destruct (H4 h o f Hh Hth) as (? & ? & Hj). do 2 (split; [done|]).
    intros j Hj'. destruct (Hj j Hj'). split; [done|]. by rewrite Ht.
  - intros o Ho. destruct (H5 o Ho) as (hd & xs & ? & Hd & ? & Hxs).
    exists hd, xs. split_and!; [| |done|].
    + unfold heads. by rewrite Hfh.
    + apply (dlist_ext (links b)); [|done]. intros x [? _]%Hxs. by apply Hl.
    + intros h. rewrite Hxs. split; intros [? ?]; split; try done; [by rewrite Ht|by rewrite <- Ht].
  - intros j o hb Hj Htj. rewrite Ht in Htj by done.
    destruct (H6 j o hb Hj Htj) as (h & Hh & Hth & Hin).
    exists h. split_and!; [done| |done]. by rewrite Ht.
Qed.

(** Two blocks with heads outside the hole are equal or disjoint. *)
Lemma wf_block_disjoint b P h o f h' o' f' j :
  wf_hole b P → ¬ P h → tags b h = Some (o, true, f) →
  ¬ P h' → tags b h' = Some (o', true, f') →
  in_block h o j → in_block h' o' j → h = h'.
Proof.
  intros Hwf Hh Ht Hh' Ht' Hj Hj'. unfold in_block in *.
  destruct (wf_block _ _ Hwf h o f Hh Ht) as (_ & _ & Hb).
  destruct (wf_block _ _ Hwf h' o' f' Hh' Ht') as (_ & _ & Hb').
  destruct (Z.lt_trichotomy h h') as [Hlt|[?|Hlt]]; [|done|].
  - destruct (Hb h') as [_ E]; [lia|]. congruence.
  - destruct (Hb' h) as [_ E]; [lia|]. congruence.
Qed.

Lemma pow2_ge_1 o : 0 ≤ o → 1 ≤ 2 ^ o.
Proof. intros Ho. pose proof (Z.pow_pos_nonneg 2 o). lia. Qed.

(** A block whose head is outside the hole is outside it as a whole. *)
Lemma wf_block_tags b P h o f j :
  wf_hole b P → ¬ P h → tags b h = Some (o, true, f) → in_block h o j →
  ¬ P j ∧ tags b j = Some (o, j =? h, f).
Proof.
  intros Hwf Hh Ht Hj. unfold in_block in Hj. destruct (decide (j = h)) as [->|Hne].
  - by rewrite Z.eqb_refl.
  - destruct (wf_block _ _ Hwf h o f Hh Ht) as (_ & _ & Hb).
    replace (j =? h) with false by lia. apply Hb. lia.
Qed.

(** Widening the hole by one whole block: what is left is still closed,
    provided the block's head is on no list. *)
Lemma wf_widen b b' (P : Z → Prop) h o f :
  wf_hole b P → ¬ P h → tags b h = Some (o, true, f) →
  same_shape b b' → (∀ j, tags b' j = tags b j) →
  (∀ o', 0 ≤ o' < MAX_ORDER →
    ∃ hd xs, heads b' o' = Some hd ∧ dlist (links b') hd xs ∧ NoDup xs ∧
      ∀ x, x ∈ xs ↔ x ≠ h ∧ ¬ P x ∧ tags b x = Some (o', true, true)) →
  wf_hole b' (λ j, P j ∨ in_block h o j).
Proof.
  intros Hwf Hh Hth (Hz & Htot & Hnh) Ht Hlist.
  assert (0 ≤ o) as Ho by (by apply (wf_block _ _ Hwf h o f)).
  assert (∀ x ox fx, ¬ P x → x ≠ h → tags b x = Some (ox, true, fx) → ¬ in_block h o x) as Hout.
  { intros x ox fx Hx Hne Hx' Hin. apply Hne. symmetry.
    eapply (wf_block_disjoint b P h o f x ox fx x); try done.
    unfold in_block. pose proof (pow2_ge_1 ox).
    destruct (wf_block _ _ Hwf x ox fx Hx Hx') as (? & _). lia. }
  split.
  - rewrite Hz, Htot. apply (wf_len _ _ Hwf).
  - rewrite Htot. apply (wf_max _ _ Hwf).
  - rewrite Hnh. apply (wf_nheads _ _ Hwf).
  - intros x ox fx [Hx Hxb]%Decidable.not_or Hx'. rewrite Ht in Hx'.
    destruct (wf_block _ _ Hwf x ox fx Hx Hx') as (? & ? & Hb). do 2 (split; [done|]).
    intros j Hj. destruct (Hb j Hj) as [HPj Htj]. rewrite Ht. split; [|done].
    intros [?|Hin]; [done|]. apply Hxb.
    assert (h = x) as <-; [|unfold in_block; pose proof (pow2_ge_1 o); lia].
    eapply (wf_block_disjoint b P h o f x ox fx j); try done. unfold in_block. lia.
  - intros o' Ho'. destruct (Hlist o' Ho') as (hd & xs & ? & ? & ? & Hxs).
    exists hd, xs. split_and!; [done..|]. intros x. rewrite Hxs, Ht. split.
    + intros (Hne & Hx & Hx'). split; [|done]. intros [?|Hin]; [done|].
      by eapply (Hout x).
    + intros [HP Hx']. split_and!; [|tauto|done]. intros ->. apply HP. right.
      unfold in_block. pose proof (pow2_ge_1 o). lia.
  - intros j oj hb [Hj Hjb]%Decidable.not_or Htj. rewrite Ht in Htj.
    destruct (wf_cover _ _ Hwf j oj hb Hj Htj) as (x & Hx & Hx' & Hin).
    exists x. rewrite Ht. split_and!; [|done|done]. intros [?|Hin']; [done|].
    destruct (decide (x = h)) as [->|Hne]; [|by eapply (Hout x)].
    rewrite Hth in Hx'. simplify_eq. done.
Qed.

Lemma wf_claim b P h o :
  wf_hole b P → ¬ P h → tags b h = Some (o, true, false) →
  wf_hole b (λ j, P j ∨ in_block h o j).
Proof.
  intros Hwf Hh Ht. apply (wf_widen b b P h o false); auto with buddy.
  intros o' Ho'. destruct (wf_list _ _ Hwf o' Ho') as (hd & xs & ? & ? & ? & Hxs).
  exists hd, xs. split_and!; [done..|]. intros x. rewrite Hxs.
  split; [|tauto]. intros [? Hx]. split; [|done]. intros ->. congruence.
Qed.

Lemma dlist_links L hd xs x : dlist L hd xs → x ∈ xs → is_Some (L x).
Proof.
  intros [q H] (l1 & l2 & ->)%list_elem_of_split.
  apply dseg_app in H as (j & jn & _ & H). simpl in H.
  destruct H as (_ & r & -> & _). eauto.
Qed.

Lemma wf_unlink b P h o :
  wf_hole b P → ¬ P h → tags b h = Some (o, true, true) →
  ∃ b', remove_from_free h o b = Ret b' ∧ same_shape b b' ∧ (∀ j, tags b' j = tags b j) ∧
    wf_hole b' (λ j, P j ∨ in_block h o j).
Proof.
  intros Hwf Hh Ht.
  assert (0 ≤ o < MAX_ORDER) as Ho by (by apply (wf_block _ _ Hwf h o true)).
  destruct (wf_list _ _ Hwf o Ho) as (hd & xs & Hhd & Hd & Hnd & Hxs).
  assert (h ∈ xs) as (l1 & l2 & ->)%list_elem_of_split by (by apply Hxs).
  destruct (dlist_remove _ (links b) _ _ _ _ Hnd Hd) as (pv & nx & Hlh & Hpv & Hnx & _).
  assert (∀ y, pv = Some y → y ∈ l1) as Hpv'
    by (intros y ->; symmetry in Hpv; by apply last_Some_elem_of).
  assert (∀ y, nx = Some y → y ∈ l2) as Hnx'
    by (intros y ->; destruct l2; simplify_eq/=; set_solver).
  assert (∀ y, y ∈ l1 → y ∉ h :: l2) as Hdis by (apply NoDup_app in Hnd; naive_solver).
  destruct (remove_from_free_spec b h o pv nx Hlh) as (b' & Hb & Hs & Hh' & Ht' & Hl1 & Hl2 & Hl3).
  { by rewrite (wf_nheads _ _ Hwf). }
  { rewrite (wf_len _ _ Hwf). apply (wf_max _ _ Hwf). }
  { intros y Hy. split; [intros E; set_solver|]. eapply dlist_links; [done|set_solver]. }
  { intros y Hy. eapply dlist_links; [done|set_solver]. }
  exists b'. split_and!; [done..|]. apply (wf_widen b b' P h o true); try done.
  intros o' Ho'. destruct (decide (o' = o)) as [->|Hne].
  - destruct (dlist_remove _ (links b') _ _ _ _ Hnd Hd) as (pv' & nx' & Hlh' & _ & _ & Hd').
    rewrite Hlh in Hlh'. simplify_eq Hlh'. intros <- <-.
    exists (match pv with None => nx | _ => hd end), (l1 ++ l2). split_and!.
    + rewrite Hh'. destruct pv; [by rewrite decide_False by naive_solver|].
      by rewrite decide_True by done.
    + apply Hd'; [eauto..|]. intros y _. apply Hl3.
    + apply NoDup_app in Hnd as (? & ? & [? ?]%NoDup_cons). apply NoDup_app. set_solver.
    + intros x. specialize (Hxs x). rewrite <- Hxs.
      apply NoDup_app in Hnd as (? & ? & [? ?]%NoDup_cons). set_solver.
  - destruct (wf_list _ _ Hwf o' Ho') as (hd' & ys & Hhd' & Hd' & Hnd' & Hys).
    assert (∀ x, x ∈ ys → x ∉ l1 ++ h :: l2) as Hdd.
    { intros x [_ Hx]%Hys [_ Hx']%Hxs. congruence. }
    exists hd', ys. split_and!; [| |done|].
    + rewrite Hh', decide_False by naive_solver. done.
    + apply (dlist_ext (links b)); [|done]. intros x Hx.
      apply Hl3; intros E; apply (Hdd x Hx); set_solver.
    + intros x. rewrite Hys. split; [|tauto]. intros [? Hx]. split; [|done].
      intros ->. congruence.
Qed.

(** Narrowing the hole by one whole block, once its descriptors are marked
    and, if it is free, its head is on the list of its order. *)
Lemma wf_narrow b b' (P Q : Z → Prop) h o f :
  wf_hole b P → 0 ≤ o < MAX_ORDER → (2 ^ o | h) →
  (∀ j, P j ↔ Q j ∨ in_block h o j) → (∀ j, Q j → ¬ in_block h o j) →
  same_shape b b' →
  (∀ j, in_block h o j → tags b' j = Some (o, j =? h, f)) →
  (∀ j, ¬ in_block h o j → tags b' j = tags b j) →
  (∀ o', 0 ≤ o' < MAX_ORDER →
    ∃ hd xs, heads b' o' = Some hd ∧ dlist (links b') hd xs ∧ NoDup xs ∧
      ∀ x, x ∈ xs ↔ (x = h ∧ o' = o ∧ f = true) ∨ (¬ P x ∧ tags b x = Some (o', true, true))) →
  wf_hole b' Q.
Proof.
  intros Hwf Ho Hdiv HP HQ (Hz & Htot & Hnh) Hin Hout Hlist.
  assert (in_block h o h) as Hhh by (unfold in_block; pose proof (pow2_ge_1 o); lia).
  split.
  - rewrite Hz, Htot. apply (wf_len _ _ Hwf).
  - rewrite Htot. apply (wf_max _ _ Hwf).
  - rewrite Hnh. apply (wf_nheads _ _ Hwf).
  - intros x ox fx Hx Htx. destruct (decide (h ≤ x < h + 2 ^ o)) as [Hi|Hi].
    + rewrite (Hin x Hi) in Htx. injection Htx as <- ->%Z.eqb_eq <-.
      do 2 (split; [done|]). intros j Hj.
      assert (in_block h o j) as Hj' by (unfold in_block; lia).
      rewrite (Hin j Hj'). replace (j =? h) with false by lia.
      split; [|done]. intros HQj. by apply (HQ j).
    + rewrite (Hout x Hi) in Htx. assert (¬ P x) as HPx by (rewrite HP; tauto).
      destruct (wf_block _ _ Hwf x ox fx HPx Htx) as (? & ? & Hb). do 2 (split; [done|]).
      intros j Hj. destruct (Hb j Hj) as [HPj Htj]. rewrite HP in HPj.
      rewrite Hout by tauto. tauto.
  - intros o' Ho'. destruct (Hlist o' Ho') as (hd & xs & ? & ? & ? & Hxs).
    exists hd, xs. split_and!; [done..|]. intros x. rewrite Hxs.
    destruct (decide (h ≤ x < h + 2 ^ o)) as [Hi|Hi].
    + rewrite (Hin x Hi). split.
      * intros [(-> & -> & ->)|[Hx _]]; [|exfalso; apply Hx, HP; by right].
        rewrite Z.eqb_refl. split; [|done]. intros HQh. by apply (HQ h).
      * intros [_ [= <- ->%Z.eqb_eq ->]]. by left.
    + rewrite (Hout x Hi), HP. unfold in_block. split; [|tauto].
      intros [(-> & _)|]; [done|tauto].
  - intros j oj hb Hj Htj. destruct (decide (h ≤ j < h + 2 ^ o)) as [Hi|Hi].
    + rewrite (Hin j Hi) in Htj. injection Htj as <- _ ->. exists h.
      rewrite (Hin h Hhh), Z.eqb_refl. split_and!; [|done|done..].
      intros HQh. by apply (HQ h).
    + rewrite (Hout j Hi) in Htj. assert (¬ P j) as HPj by (rewrite HP; tauto).
      destruct (wf_cover _ _ Hwf j oj hb HPj Htj) as (x & Hx & Htx & Hix).
      rewrite HP in Hx. exists x. rewrite Hout by tauto. tauto.
Qed.

(** Closing part of a hole with an allocated block. *)
Lemma wf_fill_allocated b b' (P Q : Z → Prop) h o :
  wf_hole b P → 0 ≤ o < MAX_ORDER → (2 ^ o | h) →
  (∀ j, P j ↔ Q j ∨ in_block h o j) → (∀ j, Q j → ¬ in_block h o j) →
  marked b b' h o false → wf_hole b' Q.
Proof.
  intros Hwf Ho Hdiv HP HQ (Hs & Hfh & Hin & Hout & Hl).
  apply (wf_narrow b b' P Q h o false); try done.
  intros o' Ho'. destruct (wf_list _ _ Hwf o' Ho') as (hd & xs & ? & Hd & ? & Hxs).
  exists hd, xs. split_and!; [| |done|].
  - unfold heads. by rewrite Hfh.
  - apply (dlist_ext (links b)); [|done]. intros x [Hx _]%Hxs. apply Hl. rewrite HP in Hx. tauto.
  - intros x. rewrite Hxs. naive_solver.
Qed.

(** Closing part of a hole with a free block: mark it, then push its head. *)
Lemma wf_fill_free b b1 (P Q : Z → Prop) h o :
  wf_hole b P → 0 ≤ o < MAX_ORDER → (2 ^ o | h) →
  (∀ j, P j ↔ Q j ∨ in_block h o j) → (∀ j, Q j → ¬ in_block h o j) →
  marked b b1 h o true →
  ∃ b2, push_free h o b1 = Ret b2 ∧ same_shape b b2 ∧ wf_hole b2 Q ∧
    (∀ j, in_block h o j → tags b2 j = Some (o, j =? h, true)) ∧
    (∀ j, ¬ in_block h o j → tags b2 j = tags b j).
Proof.
  intros Hwf Ho Hdiv HP HQ (Hs & Hfh & Hin & Hout & Hl). pose proof Hs as (Hz & _).
  assert (in_block h o h) as Hhh by (unfold in_block; pose proof (pow2_ge_1 o); lia).
  assert (∀ x, ¬ P x → ¬ in_block h o x) as HPo by (intros x; rewrite HP; tauto).
  destruct (wf_list _ _ Hwf o Ho) as (hd & xs & Hhd & Hd & Hnd & Hxs).
  assert (h ∉ xs) as Hhxs by (intros [Hx _]%Hxs; by apply (HPo h)).
  assert (∀ old, hd = Some old → old ∈ xs) as Hold.
  { intros old ->. apply dlist_head in Hd. destruct xs; simplify_eq/=. set_solver. }
  destruct (push_free_spec b1 h o hd o true true)
    as (b2 & Hb2 & Hs2 & Hhd2 & Hth & Htj & Hlh & Hlo & Hlj).
  { unfold heads. by rewrite Hfh. }
  { rewrite Hin, Z.eqb_refl; done. }
  { rewrite Hz, (wf_len _ _ Hwf). apply (wf_max _ _ Hwf). }
  { intros old E%Hold. split; [by intros ->|].
    rewrite Hl by (apply HPo; by apply Hxs). by eapply dlist_links. }
  assert (∀ j, tags b2 j = tags b1 j) as Ht2.
  { intros j. destruct (decide (j = h)) as [->|]; [|auto]. rewrite Hth, Hin, Z.eqb_refl; done. }
  exists b2. split; [done|]. split; [eauto with buddy|].
  split; [|split; intros j Hj; rewrite Ht2; auto].
  apply (wf_narrow b b2 P Q h o true);
    try done; [eauto with buddy|intros; rewrite Ht2; auto|intros; rewrite Ht2; auto|].
  intros o' Ho'. rewrite Hhd2. destruct (decide (o = o')) as [<-|Hne].
  - exists (Some h), (h :: xs). split_and!; [done| | |].
    + apply (dlist_push (links b1) _ hd); try done.
      * apply (dlist_ext (links b)); [|done]. intros x [Hx _]%Hxs. auto.
      * intros y r E. by apply Hlo.
      * intros y Hy E. apply Hlj; [|done]. by intros ->.
    + by constructor.
    + intros x. rewrite elem_of_cons, Hxs. naive_solver.
  - destruct (wf_list _ _ Hwf o' Ho') as (hd' & ys & Hhd' & Hd' & Hnd' & Hys).
    exists hd', ys. split_and!; [| |done|].
    + unfold heads. by rewrite Hfh.
    + apply (dlist_ext (links b)); [|done]. intros x [HPx Htx]%Hys.
      rewrite Hlj; [by apply Hl, HPo| |].
      * intros ->. by apply (HPo h).
      * intros [_ E]%Hold%Hxs. congruence.
    + intros x. rewrite Hys. naive_solver.
Qed.
