(* ===== verification/BuddyOps.v ===== *)
(** * Operations of the buddy allocator on well-formed states

    The abstract state of the allocator is the set of free frames and the set
    of live (allocated) blocks, both read off the descriptors.  This file
    proves, operation by operation, how [take_block], the searches and the
    merge loop act on a well-formed state; the theorems built from these
    lemmas are in [BuddyCorrect]. *)

From S2P Require Import Prelude Links Buddy BuddyInv.
Local Open Scope Z_scope.

Definition free_frame (b : BuddyAllocator) (j : Z) : Prop := ∃ o hb, tags b j = Some (o, hb, true).
Definition free_block (b : BuddyAllocator) (h o : Z) : Prop := tags b h = Some (o, true, true).
Definition live_block (b : BuddyAllocator) (h o : Z) : Prop := tags b h = Some (o, true, false).

(** ** Buddies *)

Lemma buddy_up x s : 0 ≤ s → (2 ^ (s + 1) | x) → Z.lxor x (2 ^ s) = x + 2 ^ s.
Proof.
  intros Hs [k ->]. symmetry. apply Z.add_nocarry_lxor. apply Z.bits_inj'. intros n Hn.
  rewrite Z.land_spec, Z.bits_0. destruct (decide (n = s)) as [->|].
  - rewrite Z.mul_pow2_bits_low by lia. done.
  - rewrite Z.pow2_bits_false by lia. by rewrite andb_false_r.
Qed.
Lemma buddy_down x s : 0 ≤ s → (2 ^ (s + 1) | x) → Z.lxor (x + 2 ^ s) (2 ^ s) = x.
Proof.
  intros Hs Hx. rewrite <- buddy_up by done.
  by rewrite Z.lxor_assoc, Z.lxor_nilpotent, Z.lxor_0_r.
Qed.

(** An aligned frame is the lower or the upper half of the block above. *)
Lemma buddy_cases x s :
  0 ≤ s → (2 ^ s | x) →
  ((2 ^ (s + 1) | x) ∧ Z.lxor x (2 ^ s) = x + 2 ^ s) ∨
  ((2 ^ (s + 1) | x - 2 ^ s) ∧ Z.lxor x (2 ^ s) = x - 2 ^ s).
Proof.
  intros Hs [k ->]. rewrite Z.add_1_r. destruct (Z.Even_or_Odd k) as [[m ->]|[m ->]].
  - left. assert (2 ^ Z.succ s | 2 * m * 2 ^ s) as Hd.
    { exists m. rewrite Z.pow_succ_r by done. ring. }
    split; [done|]. rewrite <- Z.add_1_r in Hd. by apply buddy_up.
  - right. assert (2 ^ Z.succ s | (2 * m + 1) * 2 ^ s - 2 ^ s) as Hd.
    { exists m. rewrite Z.pow_succ_r by done. ring. }
    split; [done|]. rewrite <- Z.add_1_r in Hd.
    replace ((2 * m + 1) * 2 ^ s) with ((2 * m + 1) * 2 ^ s - 2 ^ s + 2 ^ s) at 1 by lia.
    by apply buddy_down.
Qed.

Lemma pow2_divide_le a c x : 0 ≤ a ≤ c → (2 ^ c | x) → (2 ^ a | x).
Proof.
  intros H Hd. etransitivity; [|exact Hd]. exists (2 ^ (c - a)).
  rewrite <- Z.pow_add_r by lia. f_equal. lia.
Qed.

(** ** Splitting *)

Lemma split_loop_spec fuel pfn order split b :
  0 ≤ order ≤ split → split < MAX_ORDER → split - order < Z.of_nat fuel →
  0 ≤ pfn → (2 ^ split | pfn) → pfn + 2 ^ split ≤ zlen (metadata b) →
  wf_hole b (in_block pfn split) →
  ∃ b', split_loop fuel pfn order split b = Ret b' ∧ same_shape b b' ∧
    wf_hole b' (in_block pfn order) ∧
    (∀ j, ¬ in_block pfn split j → tags b' j = tags b j) ∧
    (∀ j, in_block pfn split j → ¬ in_block pfn order j → free_frame b' j) ∧
    (∀ x ox f, in_block pfn split x → ¬ in_block pfn order x →
      tags b' x = Some (ox, true, f) ↔ f = true ∧ order ≤ ox < split ∧ x = pfn + 2 ^ ox).
Proof.
  revert split b. induction fuel as [|fuel IH]; intros split b Ho Hs Hf Hp Hd Hle Hwf; [lia|].
  simpl split_loop. destruct (order <? split) eqn:E.
  2: { assert (order = split) as -> by lia. exists b. split_and!; auto with buddy; done. }
  set (s := split - 1). replace split with (s + 1) in * by (subst s; lia).
  assert (2 ^ (s + 1) = 2 ^ s + 2 ^ s) as H2 by (rewrite Z.pow_add_r by lia; lia).
  pose proof (pow2_ge_1 s). unfold MAX_ORDER in Hs.
  rewrite ushl_1 by lia. rewrite Ret_bind. cbv zeta. rewrite buddy_up by (done || lia).
  destruct (mark_free_spec b (pfn + 2 ^ s) s) as (b1 & -> & Hm);
    [unfold MAX_ORDER; lia|lia|lia|rewrite (wf_len _ _ Hwf); apply (wf_max _ _ Hwf)|].
  rewrite Ret_bind.
  destruct (wf_fill_free b b1 (in_block pfn (s + 1)) (in_block pfn s) (pfn + 2 ^ s) s)
    as (b2 & -> & Hs2 & Hwf2 & Hin & Hout); try done; [unfold MAX_ORDER; lia|..].
  { apply Z.divide_add_r; [|done]. apply (pow2_divide_le s (s + 1)); [lia|done]. }
  { intros j. unfold in_block. lia. }
  { intros j. unfold in_block. lia. }
  rewrite Ret_bind. pose proof Hs2 as (Hz2 & _).
  destruct (IH s b2) as (b3 & -> & Hs3 & Hwf3 & Hout3 & Hfr3 & Hhd3);
    [lia|unfold MAX_ORDER; lia|lia|lia| |lia|done|].
  { apply (pow2_divide_le s (s + 1)); [lia|done]. }
  exists b3. split_and!; [done|eauto with buddy|done|..].
  - intros j Hj. rewrite Hout3 by (unfold in_block in *; lia).
    apply Hout. unfold in_block in *. lia.
  - intros j Hj Hj'. destruct (decide (pfn ≤ j < pfn + 2 ^ s)); [by apply Hfr3|].
    unfold free_frame. rewrite Hout3 by done. rewrite Hin; [eauto|].
    unfold in_block in *. lia.
  - intros x ox f Hx Hx'. destruct (decide (pfn ≤ x < pfn + 2 ^ s)) as [Hi|Hi].
    + rewrite Hhd3 by done. split; intros (? & ? & ?); (split_and!; [done|lia| |done]); [lia|].
      destruct (decide (ox = s)) as [->|]; lia.
    + rewrite Hout3, Hin by (unfold in_block in *; (done || lia)). split.
      * intros [= <- ?%Z.eqb_eq <-]. split; [done|]. lia.
      * intros (-> & ? & ->). assert (ox = s) as ->; [|by rewrite Z.eqb_refl].
        destruct (decide (ox < s)); [|lia]. unfold in_block in *.
        pose proof (Z.pow_lt_mono_r 2 ox s). lia.
Qed.

(** What taking a block of order [order] at [h] out of [b] does. *)
Record allocated (b b' : BuddyAllocator) (h order : Z) : Prop := {
  al_wf : wf b';
  al_shape : same_shape b b';
  al_range : 0 ≤ h ∧ h + 2 ^ order ≤ total_pages b;
  al_aligned : (2 ^ order | h);
  al_was_free : ∀ j, in_block h order j → free_frame b j;
  al_free : ∀ j, free_frame b' j ↔ free_frame b j ∧ ¬ in_block h order j;
  al_live : ∀ h' o', live_block b' h' o' ↔ live_block b h' o' ∨ (h' = h ∧ o' = order);
  al_split : ∃ o, order ≤ o < MAX_ORDER ∧ free_block b h o ∧
    ∀ x ox, free_block b' x ox ↔
      (free_block b x ox ∧ x ≠ h) ∨ (order ≤ ox < o ∧ x = h + 2 ^ ox);
}.

Lemma wf_hole_update b (P : Z → Prop) i f :
  (∀ p, ∃ p', f p = Ret p') → 0 ≤ i < zlen (metadata b) → P i → wf_hole b P →
  ∃ b', update_page i f b = Ret b' ∧ same_shape b b' ∧ wf_hole b' P ∧
    ∀ j, j ≠ i → tags b' j = tags b j.
Proof.
  intros Hf Hi HP Hwf. destruct (pages_is_Some b i Hi) as [p Hp]. destruct (Hf p) as [p' Hp'].
  destruct (update_page_tl b i p f p' Hp Hp') as (b' & Hb & Hs & Hh & Ht & Hl).
  exists b'. split_and!; [done|done| |].
  - apply (wf_hole_frame b b' P); try done; intros j Hj.
    + rewrite Ht, decide_False; [done|]. by intros ->.
    + rewrite Hl, decide_False; [done|]. by intros ->.
  - intros j Hj. by rewrite Ht, decide_False.
Qed.

Lemma wf_block_range b P h o f :
  wf_hole b P → ¬ P h → tags b h = Some (o, true, f) → 0 ≤ h ∧ h + 2 ^ o ≤ total_pages b.
Proof.
  intros Hwf Hh Ht. pose proof (wf_block _ _ Hwf h o f Hh Ht) as (Ho & _ & _).
  pose proof (pow2_ge_1 o). rewrite <- (wf_len _ _ Hwf).
  pose proof (tags_lt _ _ _ Ht) as Hlt.
  destruct (wf_block_tags b P h o f (h + 2 ^ o - 1) Hwf Hh Ht) as [_ Hlast%tags_lt];
    [unfold in_block; lia|]. lia.
Qed.

Lemma set_next_total v p : encodable v → ∃ p', set_next v p = Ret p'.
Proof. intros (p' & H & _)%(set_next_spec v p). eauto. Qed.
Lemma set_prev_total v p : encodable v → ∃ p', set_prev v p = Ret p'.
Proof. intros (p' & H & _)%(set_prev_spec v p). eauto. Qed.

(** The descriptor writes of [take_block] before the split loop. *)
Lemma take_block_open b h o :
  wf b → free_block b h o →
  ∃ b',
    (∀ A (k : BuddyAllocator → outcome A),
      (b ← remove_from_free h o b;
       b ← update_page h (λ p, Ret (set_free false p)) b;
       b ← update_page h (set_next None) b;
       b ← update_page h (set_prev None) b; k b) = k b') ∧
    same_shape b b' ∧ wf_hole b' (in_block h o) ∧ ∀ j, j ≠ h → tags b' j = tags b j.
Proof.
  intros Hwf Hfb. pose proof (tags_lt _ _ _ Hfb) as Hlt.
  destruct (wf_block _ _ Hwf h o true) as ([Ho _] & _); [tauto|done|].
  destruct (wf_unlink b _ h o Hwf) as (b1 & Hb1 & Hs1 & Ht1 & Hwf1); [tauto|done|].
  apply (wf_hole_ext _ _ (in_block h o)) in Hwf1; [|tauto].
  assert (in_block h o h) as Hhh by (unfold in_block; pose proof (pow2_ge_1 o); lia).
  pose proof Hs1 as (Hz1 & _).
  destruct (wf_hole_update b1 (in_block h o) h (λ p, Ret (set_free false p)))
    as (b2 & Hb2 & Hs2 & Hwf2 & Ht2); [eauto|lia|done|done|].
  pose proof Hs2 as (Hz2 & _).
  destruct (wf_hole_update b2 (in_block h o) h (set_next None))
    as (b3 & Hb3 & Hs3 & Hwf3 & Ht3); [intros; by apply set_next_total|lia|done|done|].
  pose proof Hs3 as (Hz3 & _).
  destruct (wf_hole_update b3 (in_block h o) h (set_prev None))
    as (b4 & Hb4 & Hs4 & Hwf4 & Ht4); [intros; by apply set_prev_total|lia|done|done|].
  exists b4. split_and!; [|eauto with buddy|done|].
  { intros A k. by rewrite Hb1, Ret_bind, Hb2, Ret_bind, Hb3, Ret_bind, Hb4. }
  intros j Hj. by rewrite Ht4, Ht3, Ht2, Ht1.
Qed.

(** The block [h] of order [o] is carved up: its first [2^order] frames are
    allocated, the rest is free in blocks that double in size. *)
Section carve.
Context (b b' : BuddyAllocator) (h o order : Z) (Hoo : 0 ≤ order ≤ o).
Context (Hin : ∀ j, in_block h o j → tags b j = Some (o, j =? h, true)).
Context (Hout : ∀ j, ¬ in_block h o j → tags b' j = tags b j).
Context (Hfirst : ∀ j, in_block h order j → tags b' j = Some (order, j =? h, false)).
Context (Hrest : ∀ j, in_block h o j → ¬ in_block h order j → free_frame b' j).
Context (Hheads : ∀ x ox f, in_block h o x → ¬ in_block h order x → tags b' x = Some (ox, true, f) ↔ f = true ∧ order ≤ ox < o ∧ x = h + 2 ^ ox).

Lemma carve_within j : in_block h order j → in_block h o j.
Proof. unfold in_block. pose proof (Z.pow_le_mono_r 2 order o). lia. Qed.

Lemma carve_free j : free_frame b' j ↔ free_frame b j ∧ ¬ in_block h order j.
Proof.
  destruct (decide (h ≤ j < h + 2 ^ order)) as [Hi|Hi].
  { unfold free_frame at 1. rewrite (Hfirst j Hi). split; [by intros (? & ? & ?)|]. by intros [_ []]. }
  destruct (decide (h ≤ j < h + 2 ^ o)) as [Hi'|Hi'].
  - split; [|by intros; apply Hrest]. intros _. split; [|done]. eexists _, _. by apply Hin.
  - unfold free_frame. rewrite (Hout j Hi'). split; [by intros; split|by intros [? _]].
Qed.

Lemma carve_live h' o' : live_block b' h' o' ↔ live_block b h' o' ∨ (h' = h ∧ o' = order).
Proof.
  pose proof (pow2_ge_1 order). pose proof (pow2_ge_1 o). unfold live_block. destruct (decide (h ≤ h' < h + 2 ^ order)) as [Hi|Hi].
  { rewrite (Hfirst h' Hi), Hin by (by apply carve_within). split.
    - intros [= <- ->%Z.eqb_eq]. by right.
    - intros [|[-> ->]]; [done|]. by rewrite Z.eqb_refl. }
  destruct (decide (h ≤ h' < h + 2 ^ o)) as [Hi'|Hi'].
  - destruct (Hrest h' Hi' Hi) as (? & ? & ->). rewrite (Hin h' Hi'). split; [done|]. intros [|[-> ->]]; [done|]. lia.
  - rewrite (Hout h' Hi'). split; [by left|]. intros [|[-> ->]]; [done|]. lia.
Qed.

Lemma carve_blocks x ox : free_block b' x ox ↔ (free_block b x ox ∧ x ≠ h) ∨ (order ≤ ox < o ∧ x = h + 2 ^ ox).
Proof.
  pose proof (pow2_ge_1 order). pose proof (pow2_ge_1 o). unfold free_block. destruct (decide (h ≤ x < h + 2 ^ order)) as [Hi|Hi].
  { rewrite (Hfirst x Hi), Hin by (by apply carve_within). split; [done|].
    intros [[[= <- ?%Z.eqb_eq] ?]|[? ->]]; [lia|]. pose proof (Z.pow_le_mono_r 2 order ox). lia. }
  destruct (decide (h ≤ x < h + 2 ^ o)) as [Hi'|Hi'].
  - rewrite (Hin x Hi'), Hheads by done. split; [tauto|]. intros [[[= <- ?%Z.eqb_eq] ?]|?]; [lia|tauto].
  - rewrite (Hout x Hi'). split.
    + intros Hx. left. split; [done|]. intros ->. lia.
    + intros [[Hx _]|[? ->]]; [done|]. pose proof (Z.pow_lt_mono_r 2 ox o). pose proof (pow2_ge_1 ox). lia.
Qed.
End carve.

Lemma take_block_spec b h o order :
  wf b → free_block b h o → 0 ≤ order ≤ o →
  ∃ b', take_block h o order b = Ret (Some (h * PAGE_SIZE), b') ∧ allocated b b' h order.
Proof.
  intros Hwf Hfb Hoo. destruct (wf_block _ _ Hwf h o true) as (Ho & Hd & _); [tauto|done|].
  destruct (wf_block_range b _ h o true Hwf) as [Hh Hle]; [tauto|done|].
  destruct (take_block_open b h o Hwf Hfb) as (b1 & Hb1 & Hs1 & Hwf1 & Ht1).
  assert (2 ^ order ≤ 2 ^ o) as Hpow by (apply Z.pow_le_mono_r; lia).
  pose proof (pow2_ge_1 order) as Hpow1. pose proof (wf_max _ _ Hwf) as Hmax.
  pose proof (wf_len _ _ Hwf) as Hlen. pose proof Hs1 as (Hz1 & _).
  unfold take_block. rewrite Hb1.
  destruct (split_loop_spec (S (Z.to_nat (o - order))) h order o b1)
    as (b2 & -> & Hs2 & Hwf2 & Hout2 & Hfr2 & Hhd2); [lia..|done|lia|done|].
  pose proof Hs2 as (Hz2 & _). rewrite Ret_bind.
  destruct (mark_allocated_spec b2 h order) as (b3 & -> & Hm); [lia..|]. rewrite Ret_bind.
  rewrite umul_ok by (unfold PAGE_SIZE, usize_max; lia). rewrite Ret_bind.
  assert (2 ^ order | h) as Hd' by (by apply (pow2_divide_le order o); [lia|]).
  exists b3. split; [done|]. pose proof Hm as (Hs3 & _ & Hti & Hm3 & _).
  assert (∀ j, in_block h o j → tags b j = Some (o, j =? h, true)) as Hti0.
  { intros j Hj. by eapply (wf_block_tags b (λ _, False) h o true j Hwf); [tauto|..]. }
  assert (∀ j, ¬ in_block h o j → tags b3 j = tags b j) as Ht.
  { intros j Hj. rewrite Hm3, Hout2, Ht1; unfold in_block in *; [done|lia|lia|lia]. }
  assert (∀ j, in_block h o j → ¬ in_block h order j → free_frame b3 j) as Hfr.
  { intros j Hj Hj'. unfold free_frame. rewrite Hm3 by done. by apply Hfr2. }
  split; [|eauto with buddy|lia|done| | | |].
  - apply (wf_fill_allocated b2 b3 (in_block h order) _ h order); try done; [lia|tauto].
  - intros j Hj. eexists _, _. apply Hti0. unfold in_block in *. lia.
  - by apply (carve_free b b3 h o order).
  - by apply (carve_live b b3 h o order).
  - exists o. split; [lia|]. split; [done|]. apply (carve_blocks b b3 h o order); try done.
    intros x ox f Hx Hx'. rewrite Hm3 by done. by apply Hhd2.
Qed.

(** ** Searching the free lists *)

Lemma NoDup_range_length (xs : list Z) n :
  NoDup xs → 0 ≤ n → (∀ x, x ∈ xs → 0 ≤ x < n) → Z.of_nat (length xs) ≤ n.
Proof.
  intros Hnd Hn Hx.
  assert (length xs ≤ length (seqZ 0 n))%nat as Hle.
  { apply submseteq_length, NoDup_submseteq; [done|]. intros x Hin%Hx. apply elem_of_seqZ. lia. }
  rewrite length_seqZ in Hle. lia.
Qed.

Lemma find_free_loop_spec fuel b pred (pr : Z → bool) pv cur q xs :
  (∀ x, x ∈ xs → pred x = Ret (pr x)) →
  dseg (links b) pv cur q None xs → (length xs < fuel)%nat →
  ∃ r, find_free_loop fuel b pred cur = Ret r ∧
    match r with
    | Some x => x ∈ xs ∧ pr x = true
    | None => ∀ x, x ∈ xs → pr x = false
    end.
Proof.
  revert pv cur fuel. induction xs as [|x xs IH]; intros pv cur fuel Hpred Hd Hf;
    (destruct fuel as [|fuel]; [simpl in Hf; lia|]); simpl in Hd |- *.
  - destruct Hd as [-> _]. exists None. set_solver.
  - destruct Hd as (-> & r & Hx & Hd). rewrite Hpred by set_solver. rewrite Ret_bind.
    destruct (pr x) eqn:Epr; [exists (Some x); set_solver|].
    unfold links in Hx. unfold page_at. fold (pages b x).
    destruct (pages b x) as [p|]; [|done]. simpl in Hx |- *. unfold link in Hx. simplify_eq.
    destruct (IH (Some x) (get_next p) fuel) as (r & -> & Hr); [set_solver|done|simpl in Hf; lia|].
    exists r. split; [done|]. destruct r; set_solver.
Qed.

Lemma find_free_spec b o pred (pr : Z → bool) :
  wf b → 0 ≤ o < MAX_ORDER → (∀ x, 0 ≤ x < total_pages b → pred x = Ret (pr x)) →
  ∃ r, find_free b o pred = Ret r ∧
    match r with
    | Some h => free_block b h o ∧ pr h = true
    | None => ∀ h, free_block b h o → pr h = false
    end.
Proof.
  intros Hwf Ho Hpred.
  destruct (wf_list _ _ Hwf o Ho) as (hd & xs & Hhd & [q Hd] & Hnd & Hxs).
  assert (∀ x, x ∈ xs → 0 ≤ x < zlen (metadata b)) as Hrange.
  { intros x [_ Hx]%Hxs. by eapply tags_lt. }
  unfold find_free, head_at. unfold heads in Hhd. rewrite Hhd. simpl expect. rewrite Ret_bind.
  destruct (find_free_loop_spec (S (length (metadata b))) b pred pr None hd q xs)
    as (r & Hr & Hres); [|done| |].
  { intros x Hx%Hrange. apply Hpred. by rewrite <- (wf_len _ _ Hwf). }
  { pose proof (NoDup_range_length xs (zlen (metadata b)) Hnd (zlen_nonneg _) Hrange).
    unfold zlen in *. lia. }
  exists r. split; [done|]. destruct r as [h|].
  - destruct Hres as [[_ Hin]%Hxs ?]. done.
  - intros h Hh. apply Hres. apply Hxs. split; [tauto|done].
Qed.

Lemma allocate_loop_spec n o order b pred (pr : Z → bool) :
  wf b → 0 ≤ order ≤ o → o + Z.of_nat n = MAX_ORDER →
  (∀ x, 0 ≤ x < total_pages b → pred x = Ret (pr x)) →
  (∀ h o', order ≤ o' < o → free_block b h o' → pr h = false) →
  ∃ r b', allocate_loop (seqZ o (Z.of_nat n)) order pred b = Ret (r, b') ∧
    match r with
    | Some addr => ∃ h, addr = h * PAGE_SIZE ∧ pr h = true ∧ allocated b b' h order
    | None => b' = b ∧ ∀ h o', order ≤ o' → free_block b h o' → pr h = false
    end.
Proof.
  revert o. induction n as [|n IH]; intros o Hwf Ho Hn Hpred Hsmall.
  - exists None, b. split; [done|]. split; [done|]. intros h o' Ho' Hfb.
    apply (Hsmall h o'); [|done]. destruct (wf_block _ _ Hwf h o' true) as (? & _); [tauto|done|]. lia.
  - rewrite seqZ_cons by lia. simpl allocate_loop.
    destruct (find_free_spec b o pred pr Hwf) as (r & -> & Hr); [lia|done|]. rewrite Ret_bind.
    destruct r as [h|].
    + destruct Hr as [Hfb Hpr]. destruct (take_block_spec b h o order Hwf Hfb) as (b' & -> & Ha); [lia|].
      exists (Some (h * PAGE_SIZE)), b'. eauto.
    + replace (Z.pred (Z.of_nat (S n))) with (Z.of_nat n) by lia.
      apply IH; [done|lia|lia|done|]. intros h o' Ho' Hfb.
      destruct (decide (o' = o)) as [->|]; [by apply Hr|]. apply (Hsmall h o'); [lia|done].
Qed.

Lemma allocate_where_spec b order pred (pr : Z → bool) :
  wf b → 0 ≤ order →
  (∀ x, 0 ≤ x < total_pages b → pred x = Ret (pr x)) →
  ∃ r b', allocate_where order pred b = Ret (r, b') ∧
    match r with
    | Some addr => ∃ h, addr = h * PAGE_SIZE ∧ pr h = true ∧ allocated b b' h order
    | None => b' = b ∧ ∀ h o', order ≤ o' → free_block b h o' → pr h = false
    end.
Proof.
  intros Hwf Ho Hpred. unfold allocate_where. destruct (MAX_ORDER <=? order) eqn:E.
  - exists None, b. split; [done|]. split; [done|]. intros h o' Ho' Hfb.
    destruct (wf_block _ _ Hwf h o' true) as (? & _); [tauto|done|]. lia.
  - replace (MAX_ORDER - order) with (Z.of_nat (Z.to_nat (MAX_ORDER - order))) by lia.
    apply allocate_loop_spec; [done|lia|lia|done|]. intros; lia.
Qed.

(** The predicate of [allocate_below] neither overflows nor panics on the
    frames of a machine. *)
Lemma below_ok order limit x :
  0 ≤ order < MAX_ORDER → 0 ≤ x < 2 ^ 32 →
  below order limit x = Ret (x * PAGE_SIZE + 2 ^ order * PAGE_SIZE <=? limit).
Proof.
  unfold MAX_ORDER. intros Ho Hx.
  assert (2 ^ order < 2 ^ 11) by (apply Z.pow_lt_mono_r; lia). pose proof (pow2_ge_1 order).
  unfold below, PAGE_SIZE. rewrite umul_ok by (unfold usize_max; lia).
  rewrite Ret_bind, ushl_1, Ret_bind by lia. rewrite umul_ok by (unfold usize_max; lia).
  rewrite Ret_bind. unfold checked_add.
  by replace (x * 4096 + 2 ^ order * 4096 <=? usize_max) with true by (unfold usize_max; lia).
Qed.

(** ** Merging *)

(** The result of merging upwards from block [cur] of order [o]. *)
Record merged (b : BuddyAllocator) (cur o cur' o' : Z) (b' : BuddyAllocator) : Prop := {
  mg_shape : same_shape b b';
  mg_order : o ≤ o' < MAX_ORDER;
  mg_range : 0 ≤ cur' ∧ cur' + 2 ^ o' ≤ total_pages b;
  mg_aligned : (2 ^ o' | cur');
  mg_wf : wf_hole b' (in_block cur' o');
  mg_tags : ∀ j, tags b' j = tags b j;
  mg_grows : ∀ j, in_block cur o j → in_block cur' o' j;
  mg_was_free : ∀ j, in_block cur' o' j → ¬ in_block cur o j → free_frame b j;
  mg_maximal : o' + 1 < MAX_ORDER → ¬ free_block b (Z.lxor cur' (2 ^ o')) o';
}.

(** The test of the loop on the buddy's descriptor. *)
Lemma buddy_test b j o p :
  pages b j = Some p → negb (is_free p) || negb (pi_order p =? o) || negb (is_head p) = false ↔ free_block b j o.
Proof.
  intros Hp. unfold free_block, tags, tag. rewrite Hp. simpl. split.
  - intros E. do 3 f_equal; destruct (is_free p), (is_head p); simpl in E; (done || lia).
  - intros [= -> -> ->]. simpl. lia.
Qed.

(** One round before the rest: [bud] is taken off its list. *)
Lemma merged_step b b1 b' cur o bud cur' o' :
  wf_hole b (in_block cur o) → free_block b bud o → ¬ in_block cur o bud → 0 ≤ o < MAX_ORDER → same_shape b b1 → (∀ j, tags b1 j = tags b j) →
  (∀ j, in_block cur o j ∨ in_block bud o j ↔ in_block (Z.min cur bud) (o + 1) j) →
  merged b1 (Z.min cur bud) (o + 1) cur' o' b' → merged b cur o cur' o' b'.
Proof.
  intros Hwf Hfb Hnot Ho Hs1 Ht1 Hjoin [? ? ? ? ? Ht' Hin Hfr Hmax]. pose proof Hs1 as (_ & Htot1 & _).
  split; [eauto with buddy|lia|lia|done|done|..].
  - intros j. by rewrite Ht', Ht1.
  - intros j Hj. apply Hin, Hjoin. by left.
  - intros j Hj Hj'. destruct (decide (bud ≤ j < bud + 2 ^ o)) as [Hi|Hi].
    + destruct (wf_block_tags b _ bud o true j Hwf) as [_ Ht]; [done|done|done|]. eexists _, _. exact Ht.
    + unfold free_frame in *. rewrite <- Ht1. apply Hfr; [done|]. rewrite <- Hjoin. intros [|]; [done|]. by apply Hi.
  - intros E. unfold free_block in *. rewrite <- Ht1. by apply Hmax.
Qed.

Lemma merge_loop_spec fuel cur o b :
  0 ≤ o < MAX_ORDER → MAX_ORDER - o ≤ Z.of_nat fuel →
  0 ≤ cur → (2 ^ o | cur) → cur + 2 ^ o ≤ total_pages b →
  wf_hole b (in_block cur o) →
  ∃ cur' o' b', merge_loop fuel cur o b = Ret (cur', o', b') ∧ merged b cur o cur' o' b'.
Proof.
  revert cur o b. induction fuel as [|fuel IH]; intros cur o b Ho Hf Hc Hd Hle Hwf; [lia|].
  simpl merge_loop.
  assert ((o + 1 < MAX_ORDER → ¬ free_block b (Z.lxor cur (2 ^ o)) o) →
    merged b cur o cur o b) as Hstop.
  { intros Hmax. split; auto with buddy; (lia || done). }
  destruct (MAX_ORDER <=? o + 1) eqn:E1; [exists cur, o, b; split; [done|]; apply Hstop; lia|].
  unfold MAX_ORDER in *. rewrite ushl_1 by lia. rewrite Ret_bind. cbv zeta.
  set (bud := Z.lxor cur (2 ^ o)) in *.
  pose proof (pow2_ge_1 o) as Hp1.
  assert (2 ^ (o + 1) = 2 ^ o + 2 ^ o) as H2 by (rewrite Z.pow_add_r by lia; lia).
  destruct (total_pages b <=? bud) eqn:E2.
  { exists cur, o, b. split; [done|]. apply Hstop. intros _ Hfb%tags_lt.
    rewrite (wf_len _ _ Hwf) in Hfb. lia. }
  assert (0 ≤ bud) as Hb0 by (apply Z.lxor_nonneg; lia).
  destruct (pages_is_Some b bud) as [p Hp]; [rewrite (wf_len _ _ Hwf); lia|].
  unfold page_at. fold (pages b bud). rewrite Hp. simpl expect. rewrite Ret_bind.
  pose proof (buddy_test b bud o p Hp) as Htest. destruct (negb (is_free p) || _ || _).
  { exists cur, o, b. split; [done|]. apply Hstop. intros _ Hfb. by apply Htest in Hfb. }
  assert (free_block b bud o) as Hfb by (by apply Htest).
  assert (((2 ^ (o + 1) | cur) ∧ bud = cur + 2 ^ o) ∨
    ((2 ^ (o + 1) | bud) ∧ bud = cur - 2 ^ o)) as Hcases.
  { destruct (buddy_cases cur o) as [[? ?]|[? E]]; [lia|done|by left|right].
    fold bud in E. by rewrite E. }
  destruct (wf_unlink b _ bud o Hwf) as (b1 & -> & Hs1 & Ht1 & Hwf1); [unfold in_block; lia|done|].
  rewrite Ret_bind. pose proof Hs1 as (_ & Htot1 & _).
  assert (∀ j, in_block cur o j ∨ in_block bud o j ↔ in_block (Z.min cur bud) (o + 1) j) as Hjoin.
  { intros j. unfold in_block. lia. }
  destruct (wf_block_range b _ bud o true Hwf) as [_ Hbr]; [unfold in_block; lia|done|].
  destruct (IH (Z.min cur bud) (o + 1) b1) as (cur' & o' & b' & -> & Hmg); [lia|lia|lia| |lia|by apply (wf_hole_ext _ _ _ Hjoin)|].
  { destruct Hcases as [[? E]|[? E]]; [by rewrite Z.min_l by lia|by rewrite Z.min_r by lia]. }
  exists cur', o', b'. split; [done|]. by eapply (merged_step b b1 b' cur o bud); [..|unfold in_block; lia| | | | |].
Qed.

(** What giving block [h] of order [o] back does. *)
Record released (b b' : BuddyAllocator) (h o : Z) : Prop := {
  rel_wf : wf b';
  rel_shape : same_shape b b';
  rel_free : ∀ j, free_frame b' j ↔ free_frame b j ∨ in_block h o j;
  rel_live : ∀ h' o', live_block b' h' o' ↔ live_block b h' o' ∧ h' ≠ h;
}.

(** The block that [deallocate] puts back: the one given, merged upwards as
    far as its buddies allow. *)
Record put_back (b b' : BuddyAllocator) (h' o' : Z) : Prop := {
  pb_order : 0 ≤ o' < MAX_ORDER;
  pb_aligned : (2 ^ o' | h');
  pb_in : ∀ j, in_block h' o' j → tags b' j = Some (o', j =? h', true);
  pb_out : ∀ j, ¬ in_block h' o' j → tags b' j = tags b j;
  pb_maximal : o' + 1 < MAX_ORDER → ¬ free_block b (Z.lxor h' (2 ^ o')) o';
}.

Lemma deallocate_spec b h o addr :
  wf b → live_block b h o → addr / PAGE_SIZE = h →
  ∃ b', deallocate addr b = Ret b' ∧ released b b' h o ∧
    ∃ h' o', in_block h' o' h ∧ put_back b b' h' o'.
Proof.
  intros Hwf Hlb <-. set (h := addr / PAGE_SIZE) in *.
  destruct (wf_block _ _ Hwf h o false) as (Ho & Hd & _); [tauto|done|].
  destruct (wf_block_range b _ h o false Hwf) as [Hh Hle]; [tauto|done|].
  destruct (tags_pages _ _ _ Hlb) as (p & Hp & [= Hpo Hph Hpf]).
  pose proof (wf_claim b _ h o Hwf (λ F, F) Hlb) as Hwf0.
  apply (wf_hole_ext _ _ (in_block h o)) in Hwf0; [|tauto].
  unfold deallocate. cbv zeta. fold h. unfold page_at. fold (pages b h). rewrite Hp.
  simpl expect. rewrite Ret_bind, Hph, Hpf, Hpo. simpl assert_that. rewrite !Ret_bind.
  destruct (merge_loop_spec (Z.to_nat MAX_ORDER) h o b)
    as (h' & o' & b1 & -> & [Hs1 Ho' [Hh' Hle'] Hd' Hwf1 Ht1 Hgrow Hfr Hmax]); [lia..|done|lia|done|].
  rewrite Ret_bind. pose proof Hs1 as (Hz1 & Htot1 & _). pose proof (wf_len _ _ Hwf) as Hlen.
  pose proof (wf_max _ _ Hwf) as Hm.
  destruct (mark_free_spec b1 h' o') as (b2 & -> & Hmk); [lia..|]. rewrite Ret_bind.
  destruct (wf_fill_free b1 b2 (in_block h' o') (λ _, False) h' o') as (b3 & -> & Hs3 & Hwf3 & Hin & Hout);
    try done; [lia|tauto|].
  assert (in_block h o h) as Hhh by (unfold in_block; pose proof (pow2_ge_1 o); lia).
  exists b3. split; [done|].
  assert (∀ j, ¬ in_block h' o' j → tags b3 j = tags b j) as Ho3 by (intros; rewrite Hout, Ht1; done).
  split.
  - split; [done|eauto with buddy|..].
    + intros j. unfold free_frame at 1. destruct (decide (h' ≤ j < h' + 2 ^ o')) as [Hi|Hi].
      * rewrite (Hin j Hi). split; [|naive_solver]. intros _.
        destruct (decide (h ≤ j < h + 2 ^ o)); [by right|left]. by apply Hfr.
      * rewrite (Ho3 j Hi). split; [by left|]. intros [?|?%Hgrow]; [done|].  by exfalso; apply Hi.
    + intros x ox. unfold live_block. destruct (decide (h' ≤ x < h' + 2 ^ o')) as [Hi|Hi].
      * rewrite (Hin x Hi). split; [done|]. intros [Hx Hne]. exfalso.
        destruct (decide (h ≤ x < h + 2 ^ o)) as [Hi'|Hi'].
        -- destruct (wf_block_tags b _ h o false x Hwf) as [_ Htx]; [tauto|done|done|].
           rewrite Htx in Hx. replace (x =? h) with false in Hx by lia. done.
        -- destruct (Hfr x Hi Hi') as (? & ? & E). congruence.
      * rewrite (Ho3 x Hi). split; [|tauto]. intros Hx. split; [done|]. intros ->. by apply Hi, Hgrow.
  - exists h', o'. split; [by apply Hgrow|]. split; (done || lia).
Qed.
