(* ===== verification/BuddyInit.v ===== *)
(** * Building the buddy allocator from the memory map

    [add_region] cuts an available region into aligned blocks and skips the
    reserved ranges; [buddy_new] does so for every available area.  The
    result is well formed and its free frames are the available frames that
    touch no reserved range. *)

From S2P Require Import Prelude Links Buddy BuddyInv BuddyOps.
Local Open Scope Z_scope.

Definition no_live (b : BuddyAllocator) : Prop := ∀ h o, ¬ live_block b h o.

Lemma align_up_page a :
  0 ≤ a → a + PAGE_SIZE ≤ usize_max →
  align_up a PAGE_SIZE = Ret ((a + 4095) / 4096 * PAGE_SIZE).
Proof.
  intros Ha Hm. unfold PAGE_SIZE in *. unfold align_up.
  rewrite uadd_ok by lia. rewrite Ret_bind.
  change (usub 4096 1) with (Ret 4095).
  rewrite usub_ok by lia. rewrite !Ret_bind. rewrite (land_align _ 12) by lia.
  f_equal. change (2 ^ 12) with 4096. pose proof (Z.div_mod (a + 4096 - 1) 4096).
  replace (a + 4095) with (a + 4096 - 1) by lia. lia.
Qed.
Lemma align_down_page a :
  0 ≤ a ≤ usize_max → align_down a PAGE_SIZE = Ret (a / 4096 * PAGE_SIZE).
Proof.
  intros Ha. unfold PAGE_SIZE, align_down. change (usub 4096 1) with (Ret 4095).
  rewrite Ret_bind, (land_align _ 12) by lia.
  f_equal. change (2 ^ 12) with 4096. pose proof (Z.div_mod a 4096). lia.
Qed.

Lemma order_for_spec s pages :
  0 ≤ s → 0 < pages < 2 ^ 52 →
  let o := order_for (s * PAGE_SIZE) pages in
  0 ≤ o < MAX_ORDER ∧ (2 ^ o | s) ∧ 2 ^ o ≤ pages.
Proof.
  intros Hs Hp o. unfold o, order_for. cbv zeta.
  assert (64 - 1 - leading_zeros pages = Z.log2 pages) as ->.
  { unfold leading_zeros. replace (pages =? 0) with false by lia. lia. }
  set (a := saturating_sub (trailing_zeros (s * PAGE_SIZE)) PAGE_SHIFT).
  pose proof (Z.log2_spec pages) as [Hlog _]; [lia|]. pose proof (Z.log2_nonneg pages) as Hlog0.
  assert (0 ≤ a ∧ (s = 0 ∨ (2 ^ a | s))) as [Ha Had].
  { unfold a, saturating_sub, PAGE_SHIFT, PAGE_SIZE. split; [lia|].
    destruct (decide (s = 0)) as [|Hne]; [by left|right].
    destruct (trailing_zeros_divide (s * 4096)) as [Ht0 Ht]; [lia|].
    set (t := trailing_zeros (s * 4096)) in *.
    destruct (decide (t ≤ 12)); [by replace (Z.max (t - 12) 0) with 0 by lia; apply Z.divide_1_l|].
    replace (Z.max (t - 12) 0) with (t - 12) by lia.
    apply (Z.mul_divide_cancel_r _ _ (2 ^ 12)); [done|].
    rewrite <- Z.pow_add_r by lia. by replace (t - 12 + 12) with t by lia. }
  set (m := Z.min (Z.min a (Z.min (Z.log2 pages) (MAX_ORDER - 1))) (MAX_ORDER - 1)).
  assert (0 ≤ m ≤ a ∧ m ≤ Z.log2 pages ∧ m < MAX_ORDER) as (Hm & Hml & Hmo)
    by (unfold m, MAX_ORDER in *; lia).
  split; [lia|]. split.
  - destruct Had as [->|Had]; [apply Z.divide_0_r|]. by apply (pow2_divide_le m a); [lia|].
  - etransitivity; [|exact Hlog]. apply Z.pow_le_mono_r; lia.
Qed.

Lemma reserved_end_of_Some reserved a e :
  reserved_end_of reserved a = Some e → ∃ s, (s, e) ∈ reserved ∧ s ≤ a < e.
Proof.
  induction reserved as [|[s' e'] rest IH]; simpl; [done|]. case_match eqn:E.
  - intros [= <-]. exists s'. split; [set_solver|lia].
  - intros (s & ? & ?)%IH. exists s. split; [set_solver|done].
Qed.
Lemma reserved_end_of_None reserved a :
  reserved_end_of reserved a = None → ∀ s e, (s, e) ∈ reserved → ¬ (s ≤ a < e).
Proof.
  induction reserved as [|[s' e'] rest IH]; simpl; [set_solver|]. case_match eqn:E; [done|].
  intros H s e [[= -> ->]|Hin]%elem_of_cons; [lia|by apply IH].
Qed.
Lemma next_reserved_start_spec reserved a :
  match next_reserved_start reserved a with
  | Some m => a < m ∧ (∃ e, (m, e) ∈ reserved) ∧ ∀ s e, (s, e) ∈ reserved → a < s → m ≤ s
  | None => ∀ s e, (s, e) ∈ reserved → s ≤ a
  end.
Proof.
  induction reserved as [|[s' e'] rest IH]; simpl; [set_solver|].
  destruct (next_reserved_start rest a) as [m|], (a <? s') eqn:E.
  - destruct IH as (Hm & [e He] & Hmin). split; [lia|]. split.
    + destruct (Z.min_spec s' m) as [[_ ->]|[_ ->]]; set_solver.
    + intros s e0 [[= -> ->]|Hin]%elem_of_cons Hlt; [lia|]. specialize (Hmin s e0 Hin Hlt). lia.
  - destruct IH as (Hm & [e He] & Hmin). split; [lia|]. split; [set_solver|].
    intros s e0 [[= -> ->]|Hin]%elem_of_cons Hlt; [lia|]. by eapply Hmin.
  - split; [lia|]. split; [set_solver|].
    intros s e0 [[= -> ->]|Hin]%elem_of_cons Hlt; [lia|]. specialize (IH s e0 Hin). lia.
  - intros s e0 [[= -> ->]|Hin]%elem_of_cons; [lia|]. by eapply IH.
Qed.

(** A frame none of whose bytes is reserved. *)
Definition frame_clear (reserved : list (Z * Z)) (j : Z) : Prop :=
  ∀ s e a, (s, e) ∈ reserved → j * PAGE_SIZE ≤ a < (j + 1) * PAGE_SIZE → ¬ (s ≤ a < e).

(** Handing a block of unused frames to the allocator. *)
Lemma add_block_spec b h o :
  wf b → no_live b → 0 ≤ o < MAX_ORDER → 0 ≤ h → (2 ^ o | h) → h + 2 ^ o ≤ total_pages b →
  (∀ j, in_block h o j → ¬ free_frame b j) →
  ∃ b', (∀ A (k : _ → outcome A), (b ← mark_region h o b; b ← push_free h o b; k b) = k b') ∧
    wf b' ∧ no_live b' ∧ total_pages b' = total_pages b ∧
    (∀ j, free_frame b' j ↔ free_frame b j ∨ in_block h o j).
Proof.
  intros Hwf Hnl Ho Hh Hd Hle Hun.
  pose proof (wf_len _ _ Hwf) as Hlen. pose proof (wf_max _ _ Hwf) as Hmax.
  destruct (mark_region_spec b h o) as (b1 & Hb1 & Hm); [lia..|].
  assert (wf_hole b (in_block h o)) as Hwf0.
  { destruct Hwf as [H1 H2 H3 H4 H5 H6].
    assert (∀ x ox, tags b x = Some (ox, true, true) → ∀ j, in_block x ox j → ¬ in_block h o j) as Hout.
    { intros x ox Hx j Hj Hj'. apply (Hun j Hj').
      destruct (wf_block_tags b (λ _, False) x ox true j) as [_ Ht]; [by split|tauto|done|done|].
      eexists _, _. exact Ht. }
    assert (∀ x ox f, tags b x = Some (ox, true, f) → f = true) as Hft.
    { intros x ox [] Hx; [done|]. by destruct (Hnl x ox). }
    assert (∀ x ox f, tags b x = Some (ox, true, f) → in_block x ox x) as Hself.
    { intros x ox f Hx. destruct (H4 x ox f) as ([? _] & _); [tauto|done|].
      unfold in_block. pose proof (pow2_ge_1 ox). lia. }
    split; [done..| | |].
    - intros x ox f Hx Htx. pose proof (Hft _ _ _ Htx) as ->.
      destruct (H4 x ox true) as (? & ? & Hb); [tauto|done|]. do 2 (split; [done|]).
      intros j Hj. split; [|by apply Hb]. apply (Hout x ox); [done|unfold in_block; lia].
    - intros o' Ho'. destruct (H5 o' Ho') as (hd & xs & ? & ? & ? & Hxs).
      exists hd, xs. split_and!; [done..|]. intros x. rewrite Hxs. split; [|tauto].
      intros [_ Hx]. split; [|done]. apply (Hout x o'); [done|]. by eapply Hself.
    - intros j oj hb Hj Htj. destruct (H6 j oj hb) as (x & _ & Hx & Hin); [tauto|done|].
      exists x. split_and!; [|done|apply Hin..]. apply (Hout x oj); [done|]. by eapply Hself. }
  destruct (wf_fill_free b b1 (in_block h o) (λ _, False) h o)
    as (b2 & Hb2 & Hs2 & Hwf2 & Hin & Hout); try done; [tauto|].
  exists b2. split; [intros A k; by rewrite Hb1, Ret_bind, Hb2|]. split; [done|]. split_and!.
  - intros x ox. unfold live_block. destruct (decide (h ≤ x < h + 2 ^ o)) as [Hi|Hi].
    + by rewrite (Hin x Hi).
    + rewrite (Hout x Hi). apply Hnl.
  - apply Hs2.
  - intros j. unfold free_frame. destruct (decide (h ≤ j < h + 2 ^ o)) as [Hi|Hi].
    + rewrite (Hin j Hi). split; [by right|eauto].
    + rewrite (Hout j Hi). split; [by left|]. by intros [|].
Qed.

Section region.
Context (reserved : list (Z * Z)).
Hypothesis reserved_ok : ∀ s e, (s, e) ∈ reserved → 0 ≤ s < e ∧ e + PAGE_SIZE ≤ usize_max.

(** The frames of [s, e) that [add_region] hands over. *)
Definition region_frame (s e j : Z) : Prop := s ≤ j < e ∧ frame_clear reserved j.

(** Between a start outside every reserved range and the next boundary, no
    byte is reserved. *)
Lemma clear_below_boundary s e j :
  reserved_end_of reserved (s * PAGE_SIZE) = None →
  s ≤ j →
  (j + 1) * PAGE_SIZE ≤ Z.min (default e (next_reserved_start reserved (s * PAGE_SIZE))) e →
  frame_clear reserved j.
Proof.
  intros Hnone Hsj Hle s' e' a Hin Ha Hs'. unfold PAGE_SIZE in *.
  pose proof (reserved_end_of_None _ _ Hnone s' e' Hin) as Hn.
  pose proof (next_reserved_start_spec reserved (s * 4096)) as Hnext.
  destruct (next_reserved_start reserved (s * 4096)) as [m|]; simpl in Hle.
  - destruct Hnext as (_ & _ & Hmin).
    destruct (decide (s * 4096 < s')); [specialize (Hmin s' e' Hin); lia|lia].
  - specialize (Hnext s' e' Hin). lia.
Qed.

(** What the loop establishes from frame [s] on. *)
Definition region_added (b b' : BuddyAllocator) (s e : Z) : Prop :=
  wf b' ∧ no_live b' ∧ total_pages b' = total_pages b ∧
  (∀ j, free_frame b j → free_frame b' j) ∧
  (∀ j, free_frame b' j → free_frame b j ∨ region_frame s e j) ∧
  (e ≤ total_pages b → ∀ j, region_frame s e j → free_frame b' j).

Lemma region_added_skip b b' s s1 e :
  s ≤ s1 → (∀ j, s ≤ j < s1 → ¬ frame_clear reserved j) →
  region_added b b' s1 e → region_added b b' s e.
Proof.
  intros Hle Hskip (? & ? & ? & ? & Hsound & Hcompl). unfold region_added, region_frame in *.
  split_and!; [done..| |].
  - intros j Hj. destruct (Hsound j Hj) as [|[? ?]]; [by left|right; split; [lia|done]].
  - intros He j [Hj Hc]. apply Hcompl; [done|]. split; [|done].
    destruct (decide (s1 ≤ j)); [lia|]. exfalso. apply (Hskip j); [lia|done].
Qed.

(** A block in front of the rest of the region. *)
Lemma region_added_block b b1 b2 s o e :
  total_pages b1 = total_pages b → 0 ≤ 2 ^ o → (∀ j, free_frame b1 j ↔ free_frame b j ∨ in_block s o j) →
  (∀ j, in_block s o j → s ≤ j < e ∧ frame_clear reserved j) →
  region_added b1 b2 (s + 2 ^ o) e → region_added b b2 s e.
Proof.
  intros Htot Ho Hfr1 Hblk (? & ? & ? & Hmono & Hsound & Hcompl). unfold region_added, region_frame in *. split_and!; [done..|congruence| | |].
  - intros j Hj. apply Hmono, Hfr1. by left.
  - intros j [[Hfj|Hfj]%Hfr1|[Hj Hc]]%Hsound; [by left|right; by apply Hblk|right; split; [lia|done]].
  - intros Hle j [Hj Hc]. destruct (decide (s ≤ j < s + 2 ^ o)) as [Hi|Hi].
    + apply Hmono, Hfr1. by right.
    + apply Hcompl; [lia|]. split; [lia|done].
Qed.

(** The end of the reserved range at [s] is behind [s], and nothing before it
    is clear. *)
Lemma reserved_skipped s re :
  reserved_end_of reserved (s * PAGE_SIZE) = Some re →
  ∃ s1, align_up re PAGE_SIZE = Ret (s1 * PAGE_SIZE) ∧ s < s1 ∧ ∀ j, s ≤ j < s1 → ¬ frame_clear reserved j.
Proof.
  intros Ere. destruct (reserved_end_of_Some _ _ _ Ere) as (rs & Hin & Hrs).
  destruct (reserved_ok rs re Hin) as [? ?]. unfold PAGE_SIZE in Hrs. exists ((re + 4095) / 4096).
  rewrite align_up_page by lia. pose proof (Z.div_mod (re + 4095) 4096). pose proof (Z.mod_pos_bound (re + 4095) 4096).
  split_and!; [done|lia|]. intros j Hj Hc. apply (Hc rs re (j * PAGE_SIZE) Hin); unfold PAGE_SIZE; lia.
Qed.

(** If the next reserved range starts in the page [s], that page is not clear. *)
Lemma partial_page_reserved s e :
  let nb := Z.min (default (e * PAGE_SIZE) (next_reserved_start reserved (s * PAGE_SIZE))) (e * PAGE_SIZE) in
  s < e → nb - s * 4096 < 4096 → ¬ frame_clear reserved s.
Proof.
  intros nb Hse Hnb Hc. pose proof (next_reserved_start_spec reserved (s * PAGE_SIZE)) as Hnext. unfold nb, PAGE_SIZE in *.
  destruct (next_reserved_start reserved (s * 4096)) as [m|]; simpl in *; [|lia].
  destruct Hnext as (Hm & [em Hem] & _). destruct (reserved_ok m em Hem). apply (Hc m em m Hem); unfold PAGE_SIZE; lia.
Qed.

Lemma add_region_loop_spec fuel s e b :
  wf b → no_live b → 0 ≤ s → e * PAGE_SIZE ≤ usize_max → Z.max 0 (e - s) < Z.of_nat fuel →
  (∀ j, s ≤ j < e → ¬ free_frame b j) →
  ∃ b', add_region_loop fuel (s * PAGE_SIZE) (e * PAGE_SIZE) reserved b = Ret b' ∧
    region_added b b' s e.
Proof.
  revert s b. induction fuel as [|fuel IH]; intros s b Hwf Hnl Hs He Hf Hun; [lia|].
  simpl add_region_loop.
  assert ((e ≤ total_pages b → e ≤ s) → region_added b b s e) as Hstop.
  { intros Hes. unfold region_added, region_frame. split_and!; auto. intros H%Hes j Hj. lia. }
  unfold PAGE_SIZE in He. destruct (s * PAGE_SIZE <? e * PAGE_SIZE) eqn:E;
    unfold PAGE_SIZE in E; [|exists b; split; [done|apply Hstop; lia]].
  destruct (reserved_end_of reserved (s * PAGE_SIZE)) as [re|] eqn:Ere.
  { destruct (reserved_skipped s re Ere) as (s1 & -> & Hs1 & Hskip). rewrite Ret_bind.
    destruct (IH s1 b) as (b' & -> & Hadd); [done|done|lia|unfold PAGE_SIZE; lia|lia|intros; apply Hun; lia|].
    exists b'. split; [done|]. apply (region_added_skip b b' s s1 e); [lia|done|done]. }
  cbv zeta. set (nb := Z.min (default (e * PAGE_SIZE) (next_reserved_start reserved (s * PAGE_SIZE))) (e * PAGE_SIZE)).
  pose proof (next_reserved_start_spec reserved (s * PAGE_SIZE)) as Hnext.
  assert (s * 4096 < nb ≤ e * 4096) as Hnb.
  { unfold nb, PAGE_SIZE in *. destruct (next_reserved_start reserved (s * 4096)); simpl; lia. }
  rewrite usub_ok by (unfold PAGE_SIZE; lia). rewrite Ret_bind.
  change (nb - s * PAGE_SIZE) with (nb - s * 4096). rewrite !Z.shiftr_div_pow2 by (unfold PAGE_SHIFT; lia).
  change (2 ^ PAGE_SHIFT) with 4096. set (pages := (nb - s * 4096) / 4096).
  assert (pages * 4096 ≤ nb - s * 4096 < (pages + 1) * 4096) as Hpages.
  { unfold pages. pose proof (Z.div_mod (nb - s * 4096) 4096).
    pose proof (Z.mod_pos_bound (nb - s * 4096) 4096). lia. }
  destruct (pages =? 0) eqn:Ep.
  { replace (saturating_add (s * PAGE_SIZE) PAGE_SIZE) with ((s + 1) * PAGE_SIZE)
      by (unfold saturating_add, PAGE_SIZE; lia).
    destruct (IH (s + 1) b) as (b' & -> & Hadd); [done|done|lia|unfold PAGE_SIZE; lia|lia|intros; apply Hun; lia|].
    exists b'. split; [done|]. apply (region_added_skip b b' s (s + 1) e); [lia| |done].
    intros j Hj. assert (j = s) as -> by lia. apply (partial_page_reserved s e); [lia|]. fold nb. lia. }
  destruct (order_for_spec s pages) as (Ho & Hd & Hop); [lia|unfold usize_max in *; lia|].
  set (o := order_for (s * PAGE_SIZE) pages) in *. unfold MAX_ORDER in Ho.
  pose proof (pow2_ge_1 o). assert (2 ^ o < 2 ^ 11) by (apply Z.pow_lt_mono_r; lia).
  rewrite ushl_1 by lia. rewrite Ret_bind. rewrite umul_ok by (unfold PAGE_SIZE, usize_max; lia).
  rewrite Ret_bind. replace (s * PAGE_SIZE / 4096) with s by (unfold PAGE_SIZE; by rewrite Z.div_mul).
  rewrite (uadd_ok s) by (unfold usize_max in *; lia). rewrite Ret_bind.
  destruct (total_pages b <? s + 2 ^ o) eqn:Et; [exists b; split; [done|apply Hstop; lia]|].
  destruct (add_block_spec b s o) as (b1 & Hk & Hwf1 & Hnl1 & Htot1 & Hfr1);
    [done|done|unfold MAX_ORDER; lia|lia|done|lia|unfold in_block; intros; apply Hun; lia|].
  rewrite Hk. rewrite uadd_ok by (unfold PAGE_SIZE; lia). rewrite Ret_bind.
  replace (s * PAGE_SIZE + 2 ^ o * PAGE_SIZE) with ((s + 2 ^ o) * PAGE_SIZE) by (unfold PAGE_SIZE; lia).
  destruct (IH (s + 2 ^ o) b1) as (b2 & -> & Hadd); [done|done|lia|unfold PAGE_SIZE; lia|lia|..].
  { intros j Hj [Hfj|Hfj]%Hfr1; [by apply (Hun j); [lia|]|unfold in_block in Hfj; lia]. }
  exists b2. split; [done|]. apply (region_added_block b b1 b2 s o e); [done|lia|done| |done]. intros j Hj. unfold in_block in Hj. split; [lia|].
  apply (clear_below_boundary s (e * PAGE_SIZE)); [done|lia|]. fold nb. unfold PAGE_SIZE. lia.
Qed.
End region.

(** Frame [j] lies wholly in the available area [a]. *)
Definition avail_frame (a : MemoryArea) (j : Z) : Prop :=
  area_typ a = 1 ∧ area_start a ≤ j * PAGE_SIZE ∧ (j + 1) * PAGE_SIZE ≤ area_end a.

Definition area_ok (a : MemoryArea) : Prop :=
  0 ≤ area_start a ∧ area_start a + PAGE_SIZE ≤ usize_max ∧ 0 ≤ area_end a ≤ usize_max.
Definition reserved_ok (reserved : list (Z * Z)) : Prop :=
  ∀ s e, (s, e) ∈ reserved → 0 ≤ s < e ∧ e + PAGE_SIZE ≤ usize_max.

Lemma add_region_spec reserved a b :
  reserved_ok reserved → area_ok a → area_typ a = 1 → wf b → no_live b →
  (∀ j, avail_frame a j → ¬ free_frame b j) →
  ∃ b', add_region (area_start a) (area_end a) reserved b = Ret b' ∧
    wf b' ∧ no_live b' ∧ total_pages b' = total_pages b ∧
    (∀ j, free_frame b j → free_frame b' j) ∧
    (∀ j, free_frame b' j → free_frame b j ∨ avail_frame a j ∧ frame_clear reserved j) ∧
    (area_end a ≤ total_pages b * PAGE_SIZE →
      ∀ j, avail_frame a j → frame_clear reserved j → free_frame b' j).
Proof.
  intros Hres (Hs & Hs' & He) Htyp Hwf Hnl Hun. unfold add_region.
  rewrite align_up_page, Ret_bind, align_down_page, Ret_bind by done.
  set (s := (area_start a + 4095) / 4096). set (e := area_end a / 4096).
  pose proof (Z.div_mod (area_start a + 4095) 4096). pose proof (Z.mod_pos_bound (area_start a + 4095) 4096).
  pose proof (Z.div_mod (area_end a) 4096). pose proof (Z.mod_pos_bound (area_end a) 4096).
  assert (∀ j, s ≤ j < e ↔ avail_frame a j) as Hav.
  { intros j. unfold avail_frame, PAGE_SIZE, s, e. rewrite Htyp. lia. }
  destruct (add_region_loop_spec reserved Hres
    (S (Z.to_nat ((e * PAGE_SIZE - s * PAGE_SIZE) / PAGE_SIZE))) s e b)
    as (b' & -> & (? & ? & ? & ? & Hsound & Hcompl)); [done|done|unfold s; lia|unfold e, PAGE_SIZE; lia|..].
  { rewrite <- Z.mul_sub_distr_r, Z.div_mul by done. lia. }
  { intros j Hj%Hav. auto. }
  exists b'. split_and!; [done..| |].
  - intros j Hj. destruct (Hsound j Hj) as [|[?%Hav ?]]; auto.
  - intros Hle j Hj%Hav Hc. apply Hcompl; [unfold e, PAGE_SIZE in *; lia|by split].
Qed.

(** The available areas of the map share no frame. *)
Fixpoint areas_disjoint (mem_map : list MemoryArea) : Prop :=
  match mem_map with
  | [] => True
  | a :: rest => (∀ a' j, a' ∈ rest → avail_frame a j → ¬ avail_frame a' j) ∧ areas_disjoint rest
  end.

Lemma add_areas_spec reserved mem_map b :
  reserved_ok reserved → (∀ a, a ∈ mem_map → area_ok a) → areas_disjoint mem_map →
  wf b → no_live b → (∀ a j, a ∈ mem_map → avail_frame a j → ¬ free_frame b j) →
  ∃ b', for_each mem_map (λ area b,
      if area_typ area =? 1 then add_region (area_start area) (area_end area) reserved b
      else Ret b) b = Ret b' ∧
    wf b' ∧ no_live b' ∧ total_pages b' = total_pages b ∧
    (∀ j, free_frame b j → free_frame b' j) ∧
    (∀ j, free_frame b' j → free_frame b j ∨ (∃ a, a ∈ mem_map ∧ avail_frame a j) ∧ frame_clear reserved j) ∧
    (∀ a j, a ∈ mem_map → area_end a ≤ total_pages b * PAGE_SIZE →
      avail_frame a j → frame_clear reserved j → free_frame b' j).
Proof.
  intros Hres. revert b. induction mem_map as [|a rest IH]; intros b Hok Hdis Hwf Hnl Hun.
  { exists b. split_and!; auto; set_solver. }
  destruct Hdis as [Hda Hdr]. simpl for_each. destruct (area_typ a =? 1) eqn:E.
  - apply Z.eqb_eq in E.
    destruct (add_region_spec reserved a b) as (b1 & -> & Hwf1 & Hnl1 & Ht1 & Hm1 & Hs1 & Hc1);
      [done|apply Hok; set_solver|done|done|done|intros j; apply Hun; set_solver|].
    rewrite Ret_bind.
    destruct (IH b1) as (b2 & -> & ? & ? & Ht2 & Hm2 & Hs2 & Hc2); [set_solver|done|done|done|..].
    { intros a' j Ha' Hav [Hfb|[Hav' _]]%Hs1; [by apply (Hun a' j); [set_solver|..]|].
      by apply (Hda a' j). }
    exists b2. split_and!; [done..|congruence|by auto| |].
    + intros j [[?|[? ?]]%Hs1|[(a' & ? & ?) ?]]%Hs2; [by left|right..]; split; try done;
        [exists a|exists a']; set_solver.
    + intros a' j [->|Ha']%elem_of_cons Hle Hav Hc; [by apply Hm2, Hc1|].
      apply (Hc2 a'); [done|lia|done..].
  - rewrite Ret_bind.
    destruct (IH b) as (b2 & -> & ? & ? & Ht2 & Hm2 & Hs2 & Hc2); [set_solver|done|done|done|set_solver|].
    exists b2. split_and!; [done..| |].
    + intros j [?|[(a' & ? & ?) ?]]%Hs2; [by left|right; split; [exists a'; set_solver|done]].
    + intros a' j [->|Ha']%elem_of_cons Hle Hav Hc; [|by apply (Hc2 a')].
      destruct Hav as [Hav _]. lia.
Qed.

Lemma fresh_tags n j t :
  tags (mkBuddy ((λ _ : PageInfo, default_page) <$> n) (replicate (Z.to_nat MAX_ORDER) None) (zlen n)) j
    = Some t → t = (255, false, false).
Proof.
  unfold tags, pages, arr_get. simpl. case_match; [|done]. rewrite list_lookup_fmap.
  destruct (n !! Z.to_nat j); simpl; [|done]. by intros [= <-].
Qed.

Lemma wf_fresh n :
  zlen n < 2 ^ 32 →
  wf (mkBuddy ((λ _ : PageInfo, default_page) <$> n) (replicate (Z.to_nat MAX_ORDER) None) (zlen n)).
Proof.
  intros Hn. split.
  - unfold zlen. simpl. by rewrite length_fmap.
  - done.
  - done.
  - intros h o f _ [=]%fresh_tags.
  - intros o Ho. exists None, []. split_and!; [|apply dlist_nil|apply NoDup_nil_2|].
    + unfold heads, arr_get, free_heads.
      change (zlen (replicate (Z.to_nat MAX_ORDER) (@None Z))) with MAX_ORDER.
      replace ((0 <=? o) && (o <? MAX_ORDER)) with true by lia.
      apply lookup_replicate. unfold MAX_ORDER in *. split; [done|lia].
    + intros h. split; [set_solver|]. intros [_ [=]%fresh_tags].
  - intros j o hb _ [=]%fresh_tags.
Qed.

Lemma buddy_new_spec metadata mem_map reserved :
  zlen metadata < 2 ^ 32 → reserved_ok reserved →
  (∀ a, a ∈ mem_map → area_ok a) → areas_disjoint mem_map →
  ∃ b, buddy_new metadata mem_map reserved = Ret b ∧ wf b ∧ no_live b ∧
    total_pages b = zlen metadata ∧
    (∀ j, free_frame b j →
      (∃ a, a ∈ mem_map ∧ avail_frame a j) ∧ frame_clear reserved j) ∧
    (∀ a j, a ∈ mem_map → area_end a ≤ zlen metadata * PAGE_SIZE →
      avail_frame a j → frame_clear reserved j → free_frame b j).
Proof.
  intros Hn Hres Hok Hdis. unfold buddy_new.
  destruct (add_areas_spec reserved mem_map _ Hres Hok Hdis (wf_fresh metadata Hn))
    as (b & Hb & ? & ? & ? & _ & Hsound & Hcompl).
  - intros h o [=]%fresh_tags.
  - intros a j _ _ (o & hb & [=]%fresh_tags).
  - exists b. split_and!; [done..| |done].
    intros j [(o & hb & [=]%fresh_tags)|?]%Hsound. done.
Qed.
