(* ===== verification/BuddyCorrect.v ===== *)
(** * Theorems about the page allocator

    Statements about [allocate], [allocate_below], [deallocate] and
    [BuddyAllocator::new] in terms of free frames and live blocks, and the
    invariant of every state the kernel can reach with them.  The witnesses
    run the allocator on a sixteen-frame machine. *)

From S2P Require Import Prelude Links Buddy BuddyInv BuddyOps BuddyInit.
Local Open Scope Z_scope.

(** ** A small machine: sixteen frames, frames 3 and 4 partly reserved *)

Definition small_map : list MemoryArea := [mkArea 1 0 65536; mkArea 2 65536 131072].
Definition small_reserved : list (Z * Z) := [(12544, 16896)].
Definition small : BuddyAllocator :=
  Eval vm_compute in
    match buddy_new (replicate 16 default_page) small_map small_reserved with
    | Ret b => b
    | _ => mkBuddy [] [] 0
    end.

Lemma small_reserved_ok : reserved_ok small_reserved.
Proof. intros s e [= -> ->]%list_elem_of_singleton. by vm_compute. Qed.
Lemma small_map_ok : ∀ a, a ∈ small_map → area_ok a.
Proof.
  intros a [->|[->|[]%elem_of_nil]%elem_of_cons]%elem_of_cons; by vm_compute.
Qed.
Lemma small_map_disjoint : areas_disjoint small_map.
Proof.
  split; [|split; [set_solver|done]]. intros a' j ->%list_elem_of_singleton _ [[=] _].
Qed.
Lemma small_wf : wf small.
Proof.
  destruct (add_areas_spec small_reserved small_map _ small_reserved_ok small_map_ok
    small_map_disjoint (wf_fresh (replicate 16 default_page) eq_refl)) as (b & Hb & Hwf & _).
  - intros h o [=]%fresh_tags.
  - intros a j _ _ (o & hb & [=]%fresh_tags).
  - vm_compute in Hb. injection Hb as <-. exact Hwf.
Qed.

(** ** Allocation *)

(** C19: on a well-formed state [allocate] returns (no panic, no endless
    search).  A success hands out an aligned block of [2 ^ order] frames that
    were all free, takes exactly these frames out of the free set, adds
    exactly this block to the live blocks and keeps the state well formed; a
    failure leaves the state unchanged and means that no free block of the
    order asked for, or of a larger one, exists. *)
Theorem allocate_correct b order :
  wf b → 0 ≤ order →
  ∃ r b', allocate order b = Ret (r, b') ∧
    match r with
    | Some addr => ∃ h, addr = h * PAGE_SIZE ∧ allocated b b' h order
    | None => b' = b ∧ ∀ h o, order ≤ o → ¬ free_block b h o
    end.
Proof.
  intros Hwf Ho.
  destruct (allocate_where_spec b order (λ _, Ret true) (λ _, true) Hwf Ho) as (r & b' & Hr & Hres);
    [done|].
  exists r, b'. split; [done|]. destruct r as [addr|]; [naive_solver|].
  destruct Hres as [-> Hnone]. split; [done|]. intros h o Hle Hfb. by specialize (Hnone h o Hle Hfb).
Qed.

Lemma allocate_correct_witness :
  wf small ∧
  ∃ r b', allocate 2 small = Ret (r, b') ∧
    match r with
    | Some addr => ∃ h, addr = h * PAGE_SIZE ∧ allocated small b' h 2
    | None => b' = small ∧ ∀ h o, 2 ≤ o → ¬ free_block small h o
    end.
Proof. split; [exact small_wf|]. apply (allocate_correct small 2); [exact small_wf|done]. Defined.

(** [allocate_below] obeys the same contract, the block it returns ends
    at or below [limit], and it only fails when every free block large enough
    starts too high to fit below [limit]. *)
Theorem allocate_below_correct b order limit :
  wf b → 0 ≤ order < MAX_ORDER →
  ∃ r b', allocate_below order limit b = Ret (r, b') ∧
    match r with
    | Some addr => ∃ h, addr = h * PAGE_SIZE ∧ addr + 2 ^ order * PAGE_SIZE ≤ limit ∧
                        allocated b b' h order
    | None => b' = b ∧ ∀ h o, order ≤ o → free_block b h o →
                limit < h * PAGE_SIZE + 2 ^ order * PAGE_SIZE
    end.
Proof.
  intros Hwf Ho. pose proof (wf_max _ _ Hwf) as Hmax.
  destruct (allocate_where_spec b order (below order limit)
    (λ x, x * PAGE_SIZE + 2 ^ order * PAGE_SIZE <=? limit) Hwf) as (r & b' & Hr & Hres); [lia|..].
  { intros x Hx. apply below_ok; [exact Ho|lia]. }
  exists r, b'. split; [done|]. destruct r as [addr|].
  - destruct Hres as (h & -> & Hle%Z.leb_le & Ha). eauto.
  - destruct Hres as [-> Hnone]. split; [done|]. intros h o Hle Hfb.
    specialize (Hnone h o Hle Hfb). lia.
Qed.

Lemma allocate_below_correct_witness :
  ∃ r b', allocate_below 1 32768 small = Ret (r, b') ∧
    match r with
    | Some addr => ∃ h, addr = h * PAGE_SIZE ∧ addr + 2 ^ 1 * PAGE_SIZE ≤ 32768 ∧
                        allocated small b' h 1
    | None => b' = small ∧ ∀ h o, 1 ≤ o → free_block small h o →
                32768 < h * PAGE_SIZE + 2 ^ 1 * PAGE_SIZE
    end.
Proof. apply (allocate_below_correct small 1 32768); [exact small_wf|done]. Defined.

(** ** Deallocation *)

(** The small machine with one block of four frames handed out. *)
Definition small_busy : BuddyAllocator :=
  Eval vm_compute in match allocate 2 small with Ret (_, b) => b | _ => small end.
Lemma small_busy_allocated : allocated small small_busy 8 2.
Proof.
  destruct (allocate_where_spec small 2 (λ _, Ret true) (λ _, true) small_wf) as (r & b' & Hr & Hres);
    [done|done|].
  vm_compute in Hr. injection Hr as <- <-. destruct Hres as (h & Hh & _ & Ha).
  assert (h = 8) as -> by (unfold PAGE_SIZE in Hh; lia). exact Ha.
Qed.

(** [deallocate] panics on every address that is not in the first frame
    of a live block: an address out of range, the inside of a block, and a
    block that is already free (a double free). *)
Theorem deallocate_rejects b addr :
  (∀ o, ¬ live_block b (addr / PAGE_SIZE) o) → deallocate addr b = Panic.
Proof.
  intros Hn. unfold deallocate. cbv zeta. unfold page_at.
  destruct (arr_get (metadata b) (addr / PAGE_SIZE)) as [p|] eqn:Hp; [|done].
  simpl expect. rewrite Ret_bind. destruct (is_head p) eqn:Eh; [|done]. simpl.
  destruct (is_free p) eqn:Ef; [done|]. exfalso. apply (Hn (pi_order p)).
  unfold live_block, tags, pages. rewrite Hp. simpl. unfold tag. by rewrite Eh, Ef.
Qed.

(** The second frame of the live block. *)
Lemma deallocate_rejects_witness : deallocate 36864 small_busy = Panic.
Proof. apply (deallocate_rejects small_busy 36864). intros o [=]. Defined.

(** Allocating a block and giving it back restores the allocator's
    abstract state: the same frames are free and the same blocks are live. *)
Theorem allocate_deallocate_roundtrip b order addr b1 :
  wf b → 0 ≤ order → allocate order b = Ret (Some addr, b1) →
  ∃ b2, deallocate addr b1 = Ret b2 ∧ wf b2 ∧
    (∀ j, free_frame b2 j ↔ free_frame b j) ∧
    (∀ h o, live_block b2 h o ↔ live_block b h o).
Proof.
  intros Hwf Ho Hal.
  destruct (allocate_where_spec b order (λ _, Ret true) (λ _, true) Hwf Ho) as (r & b' & Hr & Hres);
    [done|].
  unfold allocate in Hal. rewrite Hr in Hal. simplify_eq.
  destruct Hres as (h & -> & _ & [Hwf1 _ _ _ Hwas Hfree Hlive _]).
  destruct (deallocate_spec b1 h order (h * PAGE_SIZE)) as (b2 & Hb2 & [Hwf2 _ Hf2 Hl2] & _).
  { done. } { apply Hlive. by right. } { by apply Z.div_mul. }
  exists b2. split_and!; [done..| |].
  - intros j. rewrite Hf2, Hfree. unfold in_block.
    destruct (decide (h ≤ j < h + 2 ^ order)) as [Hi|Hi]; [|tauto].
    specialize (Hwas j Hi). tauto.
  - intros x ox. rewrite Hl2, Hlive. split; [intros [[?|[-> _]] ?]; done|].
    intros Hx. split; [by left|]. intros ->. destruct (Hwas h) as (o' & hb & Hf).
    { unfold in_block. pose proof (pow2_ge_1 order). lia. }
    unfold live_block in Hx. congruence.
Qed.

Lemma allocate_deallocate_roundtrip_witness :
  ∃ b2, deallocate 32768 small_busy = Ret b2 ∧ wf b2 ∧
    (∀ j, free_frame b2 j ↔ free_frame small j) ∧
    (∀ h o, live_block b2 h o ↔ live_block small h o).
Proof.
  apply (allocate_deallocate_roundtrip small 2 32768 small_busy);
    [exact small_wf|done|vm_compute; reflexivity].
Defined.

(** ** Coalescing *)

(** No two buddies of the same order are both free. *)
Definition coalesced (b : BuddyAllocator) : Prop :=
  ∀ h o, o + 1 < MAX_ORDER → free_block b h o → ¬ free_block b (Z.lxor h (2 ^ o)) o.

Lemma lxor_buddy_involutive h o : Z.lxor (Z.lxor h (2 ^ o)) (2 ^ o) = h.
Proof. by rewrite Z.lxor_assoc, Z.lxor_nilpotent, Z.lxor_0_r. Qed.

Lemma allocated_coalesced b b' h order :
  wf b → 0 ≤ order → allocated b b' h order → coalesced b → coalesced b'.
Proof.
  intros Hwf Ho [_ _ _ _ _ _ _ (o & Hoo & Hfb & Hfree)] Hco.
  destruct (wf_block _ _ Hwf h o true) as (_ & Hd & _); [tauto|done|].
  assert (∀ ox, order ≤ ox < o → Z.lxor (h + 2 ^ ox) (2 ^ ox) = h) as Hdown.
  { intros ox Hox. apply buddy_down; [lia|]. apply (pow2_divide_le _ o); [lia|done]. }
  assert (∀ ox, ¬ free_block b' h ox) as Hh.
  { intros ox [[_ ?]|[? E]]%Hfree; [done|]. pose proof (pow2_ge_1 ox). lia. }
  intros x ox Hox Hx Hy. pose proof Hx as [[Hx1 Hx2]|[Hx1 ->]]%Hfree.
  - pose proof Hy as [[Hy1 Hy2]|[Hy1 Hy2]]%Hfree; [by apply (Hco x ox)|].
    apply (Hh ox). rewrite <- (Hdown ox Hy1), <- Hy2, lxor_buddy_involutive. done.
  - rewrite (Hdown ox Hx1) in Hy. by apply (Hh ox).
Qed.

(** The only free block that is new is the merged one, and its buddy is not
    free. *)
Lemma put_back_free b b' h o : put_back b b' h o → ∀ x ox, free_block b' x ox → (x = h ∧ ox = o) ∨ free_block b x ox.
Proof.
  intros [Ho Hd Hin Hout Hmax] x ox. unfold free_block. destruct (decide (h ≤ x < h + 2 ^ o)) as [Hi|Hi].
  - rewrite (Hin x Hi). intros [= <- ?%Z.eqb_eq]. by left.
  - rewrite (Hout x Hi). by right.
Qed.
Lemma put_back_buddy b b' h o :
  put_back b b' h o → o + 1 < MAX_ORDER → ∀ y, y = Z.lxor h (2 ^ o) → ¬ free_block b' y o.
Proof.
  intros Hpb Hlt y -> [[E _]|?]%(put_back_free _ _ _ _ Hpb); [|by apply (pb_maximal _ _ _ _ Hpb)].
  apply (f_equal (Z.lxor h)) in E. rewrite <- Z.lxor_assoc, Z.lxor_nilpotent, Z.lxor_0_l in E.
  pose proof (pb_order _ _ _ _ Hpb). pose proof (pow2_ge_1 o). lia.
Qed.
Lemma put_back_coalesced b b' h o : put_back b b' h o → coalesced b → coalesced b'.
Proof.
  intros Hpb Hco x ox Hox Hx Hy. pose proof (put_back_free _ _ _ _ Hpb) as Hfree. pose proof (put_back_buddy _ _ _ _ Hpb) as Hbud.
  pose proof Hx as [[-> ->]|Hx']%Hfree; [by apply (Hbud Hox (Z.lxor h (2 ^ o)))|].
  pose proof Hy as [[E ->]|Hy']%Hfree; [|by apply (Hco x ox)].
  apply (Hbud Hox x); [|done]. by rewrite <- E, lxor_buddy_involutive.
Qed.

(** C20: giving back the address of a live block returns, keeps the state
    well formed, makes exactly the frames of the block free again and removes
    exactly this block from the live ones.  The block is merged with its
    buddies as far as possible: the frames become part of one free block
    around it whose own buddy is not a free block of the same order (unless
    the block has the largest order), everything outside of that block is
    untouched, and an allocator without two free buddies side by side stays
    one. *)
Theorem deallocate_correct b h o addr :
  wf b → live_block b h o → addr / PAGE_SIZE = h →
  ∃ b', deallocate addr b = Ret b' ∧ released b b' h o ∧ (coalesced b → coalesced b') ∧
    ∃ h' o', in_block h' o' h ∧ free_block b' h' o' ∧ put_back b b' h' o' ∧
      (o' + 1 < MAX_ORDER → ¬ free_block b' (Z.lxor h' (2 ^ o')) o').
Proof.
  intros Hwf Hlb Haddr. destruct (deallocate_spec b h o addr Hwf Hlb Haddr) as (b' & Hde & Hrel & h' & o' & Hin & Hpb).
  exists b'. split_and!; [done|done|by eapply put_back_coalesced|]. exists h', o'.
  pose proof (pb_order _ _ _ _ Hpb) as Ho. pose proof (pow2_ge_1 o') as Hpos.
  assert (free_block b' h' o') as Hfree.
  { unfold free_block. rewrite (pb_in _ _ _ _ Hpb) by (unfold in_block; lia). by rewrite Z.eqb_refl. }
  split_and!; [done|done|done|]. intros Hmax Hbud. apply (put_back_buddy _ _ _ _ Hpb Hmax _ eq_refl Hbud).
Qed.

Lemma deallocate_correct_witness :
  live_block small_busy 8 2 ∧
  ∃ b', deallocate 32768 small_busy = Ret b' ∧ released small_busy b' 8 2 ∧
    ∃ h' o', in_block h' o' 8 ∧ free_block b' h' o' ∧ (o' + 1 < MAX_ORDER → ¬ free_block b' (Z.lxor h' (2 ^ o')) o').
Proof.
  split; [reflexivity|].
  destruct (deallocate_correct small_busy 8 2 32768) as (b' & H1 & H2 & _ & h' & o' & H3 & H4 & _ & H5); [apply small_busy_allocated|reflexivity..|].
  exists b'. split; [exact H1|]. split; [exact H2|]. exists h', o'. auto.
Defined.

(** [deallocate] merges as far as it can and [allocate] splits without
    leaving mergeable halves: if no two buddies are free at once before
    either operation, none are afterwards. *)
Theorem coalescing_preserved b :
  wf b → coalesced b →
  (∀ order r b', 0 ≤ order → allocate order b = Ret (r, b') → coalesced b') ∧
  (∀ h o addr b', live_block b h o → addr / PAGE_SIZE = h →
    deallocate addr b = Ret b' → coalesced b').
Proof.
  intros Hwf Hco. split.
  - intros order r b' Ho Hal.
    destruct (allocate_where_spec b order (λ _, Ret true) (λ _, true) Hwf Ho)
      as (r' & b'' & Hr & Hres); [done|].
    unfold allocate in Hal. rewrite Hr in Hal. simplify_eq. destruct r as [addr|].
    + destruct Hres as (h & _ & _ & Ha). by eapply allocated_coalesced.
    + by destruct Hres as [-> _].
  - intros h o addr b' Hlb Haddr Hde.
    destruct (deallocate_spec b h o addr Hwf Hlb Haddr) as (b'' & Hb & _ & h' & o' & _ & Hpb).
    rewrite Hde in Hb. simplify_eq. by eapply put_back_coalesced.
Qed.

Lemma small_coalesced : coalesced small.
Proof.
  assert (Forall (λ h, ∀ o, o + 1 < MAX_ORDER → free_block small h o →
    ¬ free_block small (Z.lxor h (2 ^ o)) o) (seqZ 0 16)) as Hall.
  { repeat (apply Forall_cons; split; [intros o _ [=]; subst; by intros [=]|]). done. }
  intros h o Ho Hfb. pose proof (tags_lt _ _ _ Hfb) as Hlt. change (zlen (metadata small)) with 16 in Hlt.
  revert o Ho Hfb. eapply Forall_forall in Hall; [exact Hall|]. apply elem_of_seqZ. lia.
Qed.

Lemma coalescing_preserved_witness :
  coalesced small ∧
  (∀ order r b', 0 ≤ order → allocate order small = Ret (r, b') → coalesced b') ∧
  (∀ h o addr b', live_block small h o → addr / PAGE_SIZE = h →
    deallocate addr small = Ret b' → coalesced b').
Proof.
  split; [exact small_coalesced|].
  apply (coalescing_preserved small); [exact small_wf|exact small_coalesced].
Defined.

(** ** Initialisation *)

(** C21: on a memory map of valid, disjoint areas, with ordered reserved ranges
    and fewer than 2^32 page descriptors, [BuddyAllocator::new] never panics or
    loops and builds a well-formed allocator with no live block.  Its free
    frames all lie inside an available area and contain no reserved byte;
    conversely every such frame of an area that the descriptor array covers is
    free. *)
Theorem buddy_new_correct metadata mem_map reserved :
  zlen metadata < 2 ^ 32 → reserved_ok reserved →
  (∀ a, a ∈ mem_map → area_ok a) → areas_disjoint mem_map →
  ∃ b, buddy_new metadata mem_map reserved = Ret b ∧ wf b ∧ no_live b ∧
    total_pages b = zlen metadata ∧
    (∀ j, free_frame b j →
      (∃ a, a ∈ mem_map ∧ avail_frame a j) ∧ frame_clear reserved j) ∧
    (∀ a j, a ∈ mem_map → area_end a ≤ zlen metadata * PAGE_SIZE →
      avail_frame a j → frame_clear reserved j → free_frame b j).
Proof. apply buddy_new_spec. Qed.

Lemma buddy_new_correct_witness :
  ∃ b, buddy_new (replicate 16 default_page) small_map small_reserved = Ret b ∧ wf b ∧ no_live b ∧
    total_pages b = zlen (replicate 16 default_page) ∧
    (∀ j, free_frame b j →
      (∃ a, a ∈ small_map ∧ avail_frame a j) ∧ frame_clear small_reserved j) ∧
    (∀ a j, a ∈ small_map → area_end a ≤ zlen (replicate 16 default_page) * PAGE_SIZE →
      avail_frame a j → frame_clear small_reserved j → free_frame b j).
Proof.
  apply (buddy_new_correct (replicate 16 default_page) small_map small_reserved).
  - reflexivity.
  - exact small_reserved_ok.
  - exact small_map_ok.
  - exact small_map_disjoint.
Defined.

(** ** Every state the kernel can reach *)

(** The page allocator as a state machine: it starts from
    [BuddyAllocator::new] and is changed by the three public operations
    only; an address given back is the start of a live block. *)
Inductive reachable (metadata : list PageInfo) (mem_map : list MemoryArea)
    (reserved : list (Z * Z)) : BuddyAllocator → Prop :=
  | reach_new b :
      buddy_new metadata mem_map reserved = Ret b → reachable metadata mem_map reserved b
  | reach_allocate b order r b' :
      reachable metadata mem_map reserved b → 0 ≤ order →
      allocate order b = Ret (r, b') → reachable metadata mem_map reserved b'
  | reach_allocate_below b order limit r b' :
      reachable metadata mem_map reserved b → 0 ≤ order < MAX_ORDER →
      allocate_below order limit b = Ret (r, b') → reachable metadata mem_map reserved b'
  | reach_deallocate b h o b' :
      reachable metadata mem_map reserved b → live_block b h o →
      deallocate (h * PAGE_SIZE) b = Ret b' → reachable metadata mem_map reserved b'.

(** The frames the allocator manages, free or handed out. *)
Definition managed (b : BuddyAllocator) (j : Z) : Prop :=
  free_frame b j ∨ ∃ h o, live_block b h o ∧ in_block h o j.

Lemma allocated_managed b b' h order j :
  allocated b b' h order → managed b' j ↔ managed b j.
Proof.
  intros [_ _ _ _ Hwas Hfree Hlive _]. unfold managed. rewrite Hfree. split.
  - intros [[? _]|(x & ox & [?|[-> ->]]%Hlive & Hin)]; [by left|right; eauto|left; auto].
  - intros [Hf|(x & ox & Hx & Hin)].
    + destruct (decide (h ≤ j < h + 2 ^ order)) as [Hi|Hi]; [|by left].
      right. exists h, order. split; [apply Hlive; by right|done].
    + right. exists x, ox. split; [apply Hlive; by left|done].
Qed.

Lemma released_managed b b' h o j :
  wf b → live_block b h o → released b b' h o → managed b' j ↔ managed b j.
Proof.
  intros Hwf Hlb [_ _ Hfree Hlive]. unfold managed. rewrite Hfree. split.
  - intros [[?|?]|(x & ox & [? ?]%Hlive & Hin)]; [by left|right; eauto..].
  - intros [Hf|(x & ox & Hx & Hin)]; [by left; left|].
    destruct (decide (x = h)) as [->|Hne].
    + left. right. unfold live_block in *. by simplify_eq.
    + right. exists x, ox. split; [apply Hlive; done|done].
Qed.

(** What an allocator state says about the machine it was built for. *)
Record buddy_inv (mem_map : list MemoryArea) (reserved : list (Z * Z)) (b : BuddyAllocator) : Prop := {
  inv_wf : wf b;
  inv_sound : ∀ j, managed b j → (∃ a, a ∈ mem_map ∧ avail_frame a j) ∧ frame_clear reserved j;
  inv_complete : ∀ a j, a ∈ mem_map → area_end a ≤ total_pages b * PAGE_SIZE →
    avail_frame a j → frame_clear reserved j → managed b j;
}.

Lemma buddy_inv_step mem_map reserved b b' :
  buddy_inv mem_map reserved b → wf b' → total_pages b' = total_pages b →
  (∀ j, managed b' j ↔ managed b j) → buddy_inv mem_map reserved b'.
Proof.
  intros [Hwf Hs Hc] Hwf' Ht Hm. split; [done| |].
  - intros j Hj%Hm. by apply Hs.
  - intros a j Ha Hle Hav Hcl. apply Hm. rewrite Ht in Hle. by eapply Hc.
Qed.

Lemma allocate_where_inv mem_map reserved b order pred pr r b' :
  buddy_inv mem_map reserved b → 0 ≤ order →
  (∀ x, 0 ≤ x < total_pages b → pred x = Ret (pr x)) →
  allocate_where order pred b = Ret (r, b') → buddy_inv mem_map reserved b'.
Proof.
  intros Hinv Ho Hpred Hal. pose proof (inv_wf _ _ _ Hinv) as Hwf.
  destruct (allocate_where_spec b order pred pr Hwf Ho Hpred) as (r' & b'' & Hr & Hres).
  rewrite Hr in Hal. simplify_eq. destruct r as [addr|]; [|by destruct Hres as [-> _]].
  destruct Hres as (h & _ & _ & Ha). eapply buddy_inv_step; [done|apply Ha|apply Ha|].
  intros j. by eapply allocated_managed.
Qed.

Section reachability.
Context (metadata : list PageInfo) (mem_map : list MemoryArea) (reserved : list (Z * Z)).
Hypothesis metadata_small : zlen metadata < 2 ^ 32.
Hypothesis reserved_good : reserved_ok reserved.
Hypothesis areas_good : ∀ a, a ∈ mem_map → area_ok a.
Hypothesis areas_apart : areas_disjoint mem_map.

Lemma reachable_inv b : reachable metadata mem_map reserved b → buddy_inv mem_map reserved b.
Proof.
  induction 1 as [b Hnew|b order r b' _ IH Ho Hal|b order limit r b' _ IH Ho Hal|b h o b' _ IH Hlb Hde].
  - destruct (buddy_new_spec metadata mem_map reserved) as (b' & Hb & Hwf & Hnl & Ht & Hs & Hc); [done..|].
    rewrite Hnew in Hb. simplify_eq. split; [done| |].
    + intros j [Hj|(h & o & Hlb & _)]; [by apply Hs|by destruct (Hnl h o)].
    + intros a j Ha Hle Hav Hcl. left. rewrite Ht in Hle. by eapply Hc.
  - by eapply (allocate_where_inv _ _ b order (λ _, Ret true) (λ _, true)).
  - pose proof (wf_max _ _ (inv_wf _ _ _ IH)).
    eapply (allocate_where_inv _ _ b order (below order limit)
      (λ x, x * PAGE_SIZE + 2 ^ order * PAGE_SIZE <=? limit)); [done|lia| |done].
    intros x Hx. apply below_ok; [done|lia].
  - pose proof (inv_wf _ _ _ IH) as Hwf.
    destruct (deallocate_spec b h o (h * PAGE_SIZE)) as (b'' & Hb & Hrel & _); [done|done|by apply Z.div_mul|].
    rewrite Hde in Hb. simplify_eq. eapply buddy_inv_step; [done|apply Hrel|apply Hrel|].
    intros j. by eapply released_managed.
Qed.
End reachability.

(** The operations of a well-formed allocator return. *)
Lemma allocate_returns b order : wf b → 0 ≤ order → ∃ r b', allocate order b = Ret (r, b').
Proof.
  intros Hwf Ho. destruct (allocate_where_spec b order (λ _, Ret true) (λ _, true) Hwf Ho) as (r & b' & H & _); [done|].
  by exists r, b'.
Qed.
Lemma allocate_below_returns b order limit : wf b → 0 ≤ order < MAX_ORDER → ∃ r b', allocate_below order limit b = Ret (r, b').
Proof.
  intros Hwf Ho. pose proof (wf_max _ _ Hwf).
  destruct (allocate_where_spec b order (below order limit)
    (λ x, x * PAGE_SIZE + 2 ^ order * PAGE_SIZE <=? limit) Hwf) as (r & b' & H1 & _); [lia| |by exists r, b'].
  intros x Hx. apply below_ok; [done|lia].
Qed.
Lemma deallocate_returns b h o : wf b → live_block b h o → ∃ b', deallocate (h * PAGE_SIZE) b = Ret b'.
Proof.
  intros Hwf Hl. destruct (deallocate_spec b h o (h * PAGE_SIZE) Hwf Hl) as (b' & H & _); [by apply Z.div_mul|by exists b'].
Qed.

(** C18: on a memory map of valid, disjoint areas, with ordered reserved
    ranges and fewer than 2^32 page descriptors, [BuddyAllocator::new] returns,
    and in every state reached from it by the public operations (an address
    given back being the start of a live block):
    no operation panics or loops: [allocate], [allocate_below] with an order
    the allocator has, and [deallocate] of any live block return;
    the blocks handed out are pairwise disjoint, none of their frames is
    free, every one of their frames lies in an available area and touches no
    reserved byte;
    no frame is ever lost: each usable frame of a covered area is free or in
    a live block. *)
Theorem reachable_safe metadata mem_map reserved :
  zlen metadata < 2 ^ 32 → reserved_ok reserved →
  (∀ a, a ∈ mem_map → area_ok a) → areas_disjoint mem_map →
  (∃ b, buddy_new metadata mem_map reserved = Ret b) ∧
  ∀ b, reachable metadata mem_map reserved b →
  (∀ order, 0 ≤ order → ∃ r b', allocate order b = Ret (r, b')) ∧
  (∀ order limit, 0 ≤ order < MAX_ORDER → ∃ r b', allocate_below order limit b = Ret (r, b')) ∧
  (∀ h o, live_block b h o → ∃ b', deallocate (h * PAGE_SIZE) b = Ret b') ∧
  (∀ h o h' o' j, live_block b h o → live_block b h' o' →
    in_block h o j → in_block h' o' j → h = h' ∧ o = o') ∧
  (∀ h o j, live_block b h o → in_block h o j →
    ¬ free_frame b j ∧ (∃ a, a ∈ mem_map ∧ avail_frame a j) ∧ frame_clear reserved j) ∧
  (∀ a j, a ∈ mem_map → area_end a ≤ total_pages b * PAGE_SIZE →
    avail_frame a j → frame_clear reserved j →
    free_frame b j ∨ ∃ h o, live_block b h o ∧ in_block h o j).
Proof.
  intros Hm Hr Ha Hd. split.
  { destruct (buddy_new_spec metadata mem_map reserved) as (b & Hb & _); eauto. }
  intros b Hreach. destruct (reachable_inv metadata mem_map reserved Hm Hr Ha Hd b Hreach) as [Hwf Hs Hc].
  split_and!; [intros; by apply allocate_returns|intros; by apply allocate_below_returns|intros; by eapply deallocate_returns| | |exact Hc].
  - intros h o h' o' j Hl Hl' Hj Hj'.
    assert (h = h') as <- by (by eapply (wf_block_disjoint b (λ _, False)); eauto).
    unfold live_block in *. split; [done|congruence].
  - intros h o j Hl Hj. split.
    + intros (oj & hb & Hf). destruct (wf_block_tags b (λ _, False) h o false j) as [_ Ht]; [done|tauto|done..|].
      congruence.
    + apply Hs. right. eauto.
Qed.

Lemma reachable_safe_witness :
  reachable (replicate 16 default_page) small_map small_reserved small_busy ∧
  ((∃ r b', allocate 4 small_busy = Ret (r, b')) ∧ ∃ b', deallocate (8 * PAGE_SIZE) small_busy = Ret b') ∧
  (∀ h o h' o' j, live_block small_busy h o → live_block small_busy h' o' →
    in_block h o j → in_block h' o' j → h = h' ∧ o = o').
Proof.
  assert (reachable (replicate 16 default_page) small_map small_reserved small_busy) as Hr.
  { apply (reach_allocate _ _ _ small 2 (Some 32768)); [|done|vm_compute; reflexivity].
    apply reach_new. vm_compute. reflexivity. }
  split; [exact Hr|].
  destruct (reachable_safe (replicate 16 default_page) small_map small_reserved) as [_ H].
  - reflexivity.
  - exact small_reserved_ok.
  - exact small_map_ok.
  - exact small_map_disjoint.
  - destruct (H small_busy Hr) as (H1 & _ & H2 & H3 & _). split; [|exact H3]. split; [apply (H1 4); lia|]. apply (H2 8 2). reflexivity.
Defined.
