(* ===== verification/Address.v ===== *)
(** * Addresses and frame suppliers ([src/mem.rs], [src/mem/page/pagemapper.rs])

    Physical and virtual addresses, the direct map of physical memory, and
    what the paging and process code asks of the page allocator: a class that
    the buddy allocator implements. *)

From S2P Require Import Prelude Links Buddy BuddyInv BuddyOps BuddyCorrect.
Local Open Scope Z_scope.

(** The two wrappers around [usize]; their conversions change nothing. *)
Abbreviation PhysAddr := Z (only parsing).
Abbreviation VirtAddr := Z (only parsing).

Definition KERNEL_VMA : Z := 0xFFFF800000000000.
Definition EARLY_PAGE_TABLE_LIMIT : Z := 8 * 1024 * 1024.

(** [Mapper::phys_to_virt]: the addition is checked. *)
Definition phys_to_virt (phys : PhysAddr) : outcome Z := uadd phys KERNEL_VMA.

Lemma phys_to_virt_ok p : p < 2 ^ 47 → phys_to_virt p = Ret (p + KERNEL_VMA).
Proof. intros H. apply uadd_ok. unfold KERNEL_VMA, usize_max. lia. Qed.

(** ** Suppliers of page frames *)

Class FrameSource (B : Type) := {
  frame_alloc : Z → B → outcome (option Z * B);
  frame_below : Z → Z → B → outcome (option Z * B);
}.

#[global] Instance buddy_frame_source : FrameSource BuddyAllocator := {
  frame_alloc := Buddy.allocate;
  frame_below := Buddy.allocate_below;
}.

(** The frames of a block of [2 ^ order] frames at the address [a]. *)
Definition block_frame (a order j : Z) : Prop := a / PAGE_SIZE ≤ j < a / PAGE_SIZE + 2 ^ order.

(** What handing out a block means: it is aligned, in the directly mapped
    range, was free, and is exactly what is not free any more. *)
Record granted {B} (free : B → Z → Prop) (b b' : B) (a order : Z) : Prop := {
  gr_pos : 0 ≤ a;
  gr_max : a + 2 ^ order * PAGE_SIZE ≤ 2 ^ 44;
  gr_align : (2 ^ order * PAGE_SIZE | a);
  gr_was : ∀ j, block_frame a order j → free b j;
  gr_now : ∀ j, free b' j ↔ free b j ∧ ¬ block_frame a order j;
}.

Class FrameLaws (B : Type) `{!FrameSource B} := {
  fr_ok : B → Prop;
  fr_free : B → Z → Prop;
  fr_alloc : ∀ b order, fr_ok b → 0 ≤ order → ∃ r b', frame_alloc order b = Ret (r, b') ∧ fr_ok b' ∧
    match r with
    | Some a => granted fr_free b b' a order
    | None => b' = b ∧ (order < MAX_ORDER → ∀ h, (2 ^ order | h) → ¬ ∀ j, h ≤ j < h + 2 ^ order → fr_free b j)
    end;
  fr_below : ∀ b order limit, fr_ok b → 0 ≤ order < MAX_ORDER →
    ∃ r b', frame_below order limit b = Ret (r, b') ∧ fr_ok b' ∧
    match r with
    | Some a => granted fr_free b b' a order ∧ a + 2 ^ order * PAGE_SIZE ≤ limit
    | None => b' = b ∧ (order = 0 → ∀ j, fr_free b j → limit < (j + 1) * PAGE_SIZE)
    end;
}.

Lemma allocated_granted b b' h order :
  wf b → allocated b b' h order → granted free_frame b b' (h * PAGE_SIZE) order.
Proof.
  intros Hwf [_ _ [Hh0 Hh1] Hd Hwas Hfree _ _]. pose proof (wf_max _ _ Hwf).
  assert (h * PAGE_SIZE / PAGE_SIZE = h) as E by (by apply Z.div_mul).
  split; unfold block_frame; rewrite ?E; [unfold PAGE_SIZE; lia|unfold PAGE_SIZE; lia| |done|done].
  by apply Z.mul_divide_mono_r.
Qed.

Lemma multiple_le d x h : 0 < d → (d | x) → (d | h) → x < h + d → x ≤ h.
Proof. intros Hd [a ->] [c ->] H. apply Z.mul_le_mono_nonneg_r; [lia|]. assert (a < c + 1) by nia. lia. Qed.

(** With buddies merged, an aligned region of free frames lies in one block. *)
Lemma region_block b (k : nat) h :
  wf b → coalesced b → Z.of_nat k < MAX_ORDER → (2 ^ Z.of_nat k | h) →
  (∀ j, h ≤ j < h + 2 ^ Z.of_nat k → free_frame b j) →
  ∃ x o, Z.of_nat k ≤ o ∧ free_block b x o ∧ in_block x o h.
Proof.
  intros Hwf Hco. revert h. induction k as [|k IH]; intros h Hk Hd Hfree.
  - destruct (Hfree h) as (o & hb & Ht); [simpl; lia|].
    destruct (wf_cover _ _ Hwf h o hb ltac:(tauto) Ht) as (x & _ & Hx & Hin).
    destruct (wf_block _ _ Hwf x o true ltac:(tauto) Hx) as (Ho & _). exists x, o. split; [lia|done].
  - rewrite Nat2Z.inj_succ, Z.pow_succ_r in * by lia. set (s := 2 ^ Z.of_nat k) in *.
    assert (0 < s) as Hs by (apply Z.pow_pos_nonneg; lia).
    assert (s | h) as Hd1 by (etransitivity; [|exact Hd]; by exists 2).
    destruct (IH h) as (x & o & Ho & Hx & Hin); [lia|done|intros; apply Hfree; lia|].
    destruct (IH (h + s)) as (y & o' & Ho' & Hy & Hin'); [lia|apply Z.divide_add_r; [done|reflexivity]|intros; apply Hfree; lia|].
    destruct (decide (o = Z.of_nat k)) as [->|]; [|exists x, o; split; [lia|done]].
    destruct (wf_block _ _ Hwf x _ true ltac:(tauto) Hx) as (_ & Hxd & _).
    destruct (wf_block _ _ Hwf y o' true ltac:(tauto) Hy) as (Hoo & Hyd & _). unfold in_block in *. fold s in Hxd, Hin.
    assert (x = h) as ->.
    { apply Z.le_antisymm; [lia|]. apply (multiple_le s); [done|done|done|lia]. }
    destruct (decide (o' = Z.of_nat k)) as [->|].
    + fold s in Hyd, Hin'. assert (y = h + s) as ->.
      { apply Z.le_antisymm; [lia|]. apply (multiple_le s); [done|apply Z.divide_add_r; [done|reflexivity]|done|lia]. }
      exfalso.
      apply (Hco (h + s) (Z.of_nat k)); [lia|done|]. unfold s. rewrite buddy_down; [done|lia|].
      rewrite Z.add_1_r, Z.pow_succ_r by lia. done.
    + exists y, o'. split; [lia|]. split; [done|]. assert (2 * s | y) as Hy2.
      { etransitivity; [|exact Hyd]. exists (2 ^ (o' - Z.of_nat k - 1)). unfold s.
        rewrite <- Z.pow_succ_r, <- Z.pow_add_r by lia. f_equal. lia. }
      pose proof (multiple_le (2 * s) y h ltac:(lia) Hy2 Hd). lia.
Qed.

#[global, program] Instance buddy_frame_laws : FrameLaws BuddyAllocator := {
  fr_ok := λ b, wf b ∧ coalesced b;
  fr_free := free_frame;
}.
Next Obligation.
  intros b order [Hwf Hco] Ho. simpl.
  destruct (allocate_where_spec b order (λ _, Ret true) (λ _, true) Hwf Ho) as (r & b' & Hr & Hres); [done|].
  exists r, b'. split; [exact Hr|]. destruct r as [a|].
  - destruct Hres as (h & -> & _ & Hal). split; [split; [apply Hal|by eapply allocated_coalesced]|]. by apply allocated_granted.
  - destruct Hres as [-> Hnone]. split_and!; [done|done|done|]. intros Hmax h Hd Hfree.
    destruct (region_block b (Z.to_nat order) h Hwf Hco) as (x & o & Hle & Hx & _); rewrite ?Z2Nat.id by lia; [done|done|done|].
    rewrite Z2Nat.id in Hle by lia. by specialize (Hnone x o Hle Hx).
Qed.
Next Obligation.
  intros b order limit [Hwf Hco] Ho. simpl. pose proof (wf_max _ _ Hwf) as Hmax.
  destruct (allocate_where_spec b order (below order limit)
    (λ x, x * PAGE_SIZE + 2 ^ order * PAGE_SIZE <=? limit) Hwf) as (r & b' & Hr & Hres); [lia|..].
  { intros x Hx. apply below_ok; [exact Ho|lia]. }
  exists r, b'. split; [exact Hr|]. destruct r as [a|].
  - destruct Hres as (h & -> & Hle & Hal). split; [split; [apply Hal|apply (allocated_coalesced b b' h order); [exact Hwf|lia|exact Hal|exact Hco]]|].
    split; [by apply allocated_granted|lia].
  - destruct Hres as [-> Hnone]. split_and!; [done|done|done|]. intros -> j (o & hb & Hj).
    destruct (wf_cover _ _ Hwf j o hb ltac:(tauto) Hj) as (h & _ & Hh & Hin). unfold in_block in Hin.
    destruct (wf_block _ _ Hwf h o true ltac:(tauto) Hh) as (Hoo & _ & _).
    specialize (Hnone h o ltac:(lia) Hh). unfold PAGE_SIZE in *. lia.
Qed.
