(* ===== verification/Paging.v ===== *)
(** * Page tables ([src/mem/page.rs], [src/mem/page/pagemapper.rs])

    Physical memory is seen frame by frame: the frame at a page-aligned
    physical address holds 512 words, which is what a [PageTable] is.  The
    kernel reaches it through the direct map at [KERNEL_VMA]; the processor
    walks it by physical addresses. *)

From S2P Require Import Prelude Buddy Address.
Local Open Scope Z_scope.

(** ** Entries *)

Abbreviation PageTableEntry := Z (only parsing).
Definition ADDR_MASK : Z := 0x000FFFFFFFFFF000.

(** The flag set is generated by the [bitflags] crate from these constants;
    [contains] and [|] are its documented operations. *)
Module EntryFlags.
Definition PRESENT : Z := Z.shiftl 1 0.
Definition WRITABLE : Z := Z.shiftl 1 1.
Definition USER : Z := Z.shiftl 1 2.
Definition HUGE : Z := Z.shiftl 1 7.
Definition GLOBAL : Z := Z.shiftl 1 8.
Definition NX : Z := Z.shiftl 1 63.
Definition all : Z := 0x8000000000000187.
Definition contains (flags other : Z) : bool := Z.land flags other =? other.
Definition from_bits_truncate (bits : Z) : Z := Z.land bits all.
End EntryFlags.
Infix ".|" := Z.lor (at level 50, left associativity) : paging_scope.
Local Open Scope paging_scope.

Module Entry.
Definition new : PageTableEntry := 0.
Definition set_addr (phys : PhysAddr) (flags : Z) : PageTableEntry := Z.land phys ADDR_MASK .| flags.
Definition addr (e : PageTableEntry) : PhysAddr := Z.land e ADDR_MASK.
Definition flags (e : PageTableEntry) : Z := EntryFlags.from_bits_truncate e.
Definition add_flags (e : PageTableEntry) (flags : Z) : PageTableEntry := e .| flags.
Definition is_present (e : PageTableEntry) : bool := negb (Z.land e 1 =? 0).
Definition is_huge (e : PageTableEntry) : bool := negb (Z.land e (Z.shiftl 1 7) =? 0).
End Entry.

(** ** Tables *)

Abbreviation PageTable := (list Z) (only parsing).
Definition table_new : PageTable := replicate 512 Entry.new.
Definition set_entry (index : Z) (e : PageTableEntry) (t : PageTable) : outcome PageTable :=
  expect (arr_set t index e).
Definition entry (index : Z) (t : PageTable) : outcome PageTableEntry := expect (arr_get t index).

Definition pmem := PhysAddr → PageTable.
Definition pm_upd (p : PhysAddr) (t : PageTable) (m : pmem) : pmem := λ q, if decide (q = p) then t else m q.

(** ** The mapper *)

Module Mapper.
Section mapper.
Context `{FS : FrameSource B}.

(** [Mapper::new] turns the physical address into a reference. *)
Definition new (pml4_phys : PhysAddr) : outcome PhysAddr :=
  _ ← phys_to_virt pml4_phys; Ret pml4_phys.

(** The entry is named by its table and index; it is read again after the new
    table has been cleared. *)
Definition get_or_create_table (table : PhysAddr) (index table_flags : Z) (m : pmem) (buddy : B)
    : outcome (PhysAddr * pmem * B) :=
  e ← entry index (m table);
  '(m, buddy) ←
    (if negb (Entry.is_present e) then
       '(frame, buddy) ← frame_below 0 EARLY_PAGE_TABLE_LIMIT buddy;
       frame_phys ← expect frame;
       t ← set_entry index (Entry.set_addr frame_phys table_flags) (m table);
       let m := pm_upd table t m in
       _ ← phys_to_virt frame_phys;
       Ret (pm_upd frame_phys table_new m, buddy)
     else
       t ← set_entry index (Entry.add_flags e table_flags) (m table);
       Ret (pm_upd table t m, buddy));
  e ← entry index (m table);
  let table_phys := Entry.addr e in
  _ ← phys_to_virt table_phys;
  Ret (table_phys, m, buddy).

Definition pml4_idx (v : VirtAddr) : Z := Z.land (Z.shiftr v 39) 0x1FF.
Definition pdpt_idx (v : VirtAddr) : Z := Z.land (Z.shiftr v 30) 0x1FF.
Definition pd_idx (v : VirtAddr) : Z := Z.land (Z.shiftr v 21) 0x1FF.
Definition pt_idx (v : VirtAddr) : Z := Z.land (Z.shiftr v 12) 0x1FF.

Definition table_flags_for (flags : Z) : Z :=
  if EntryFlags.contains flags EntryFlags.USER
  then EntryFlags.PRESENT .| EntryFlags.WRITABLE .| EntryFlags.USER
  else EntryFlags.PRESENT .| EntryFlags.WRITABLE.

(** [Mapper::map] on the table at [pml4]. *)
Definition map (pml4 : PhysAddr) (virt : VirtAddr) (phys : PhysAddr) (flags : Z) (m : pmem) (buddy : B)
    : outcome (pmem * B) :=
  let table_flags := table_flags_for flags in
  '(pdpt, m, buddy) ← get_or_create_table pml4 (pml4_idx virt) table_flags m buddy;
  '(pd, m, buddy) ← get_or_create_table pdpt (pdpt_idx virt) table_flags m buddy;
  '(pt, m, buddy) ← get_or_create_table pd (pd_idx virt) table_flags m buddy;
  t ← set_entry (pt_idx virt) (Entry.set_addr phys (flags .| EntryFlags.PRESENT)) (m pt);
  Ret (pm_upd pt t m, buddy).
End mapper.
End Mapper.

Section paging.
Context `{FS : FrameSource B}.

(** ** Address spaces *)

(** State shared by the functions of [page.rs]: physical memory, the page
    allocator and the kernel's root table, 0 before it is built. *)
Record paging := mkPaging {
  pg_mem : pmem;
  pg_buddy : option B;
  KERNEL_PML4 : Z;
}.

Definition kernel_pml4 (s : paging) : outcome PhysAddr :=
  _ ← assert_that (negb (KERNEL_PML4 s =? 0)); Ret (KERNEL_PML4 s).

(** The copy loop over the upper half, index by index. *)
Definition copy_kernel_half (kernel user : PhysAddr) (m : pmem) : outcome pmem :=
  for_range 256 512 (λ index m,
    e ← entry index (m kernel);
    t ← set_entry index e (m user);
    Ret (pm_upd user t m)) m.

Definition create_user_page_table (s : paging) : outcome (PhysAddr * paging) :=
  kernel ← kernel_pml4 s;
  buddy ← expect (pg_buddy s);
  '(frame, buddy) ← frame_below 0 EARLY_PAGE_TABLE_LIMIT buddy;
  user_pml4 ← expect frame;
  _ ← uadd kernel KERNEL_VMA;
  _ ← uadd user_pml4 KERNEL_VMA;
  let m := pm_upd user_pml4 table_new (pg_mem s) in
  m ← copy_kernel_half kernel user_pml4 m;
  Ret (user_pml4, mkPaging m (Some buddy) (KERNEL_PML4 s)).

Definition map_into_page_table (pml4 : PhysAddr) (virt : VirtAddr) (phys : PhysAddr) (flags : Z)
    (s : paging) : outcome paging :=
  buddy ← expect (pg_buddy s);
  root ← Mapper.new pml4;
  '(m, buddy) ← Mapper.map root virt phys flags (pg_mem s) buddy;
  Ret (mkPaging m (Some buddy) (KERNEL_PML4 s)).

(** The value written to CR3. *)
Definition switch_cr3 (pml4_phys : PhysAddr) : Z := Z.land pml4_phys ADDR_MASK.

(** ** The kernel's own table *)

Definition align_up (addr align : Z) : outcome Z :=
  a ← uadd addr align; a ← usub a 1; mask ← usub align 1; Ret (Z.land a (not64 mask)).
Definition align_down (addr align : Z) : outcome Z :=
  mask ← usub align 1; Ret (Z.land addr (not64 mask)).

(** [(start..end).step_by(PAGE_SIZE)] *)
Definition pages_of (start end_ : Z) : list Z :=
  (λ i, start + i * PAGE_SIZE) <$> seqZ 0 ((end_ - start + (PAGE_SIZE - 1)) / PAGE_SIZE).

Definition set_range (pml4 : PhysAddr) (start end_ flags : Z) (s : pmem * B) : outcome (pmem * B) :=
  start ← align_down start PAGE_SIZE;
  end_ ← align_up end_ PAGE_SIZE;
  for_each (pages_of start end_) (λ addr '(m, buddy),
    phys ← usub addr KERNEL_VMA;
    Mapper.map pml4 addr phys flags m buddy) s.

Definition set_identity_range (pml4 : PhysAddr) (start end_ flags : Z) (s : pmem * B)
    : outcome (pmem * B) :=
  start ← align_down start PAGE_SIZE;
  end_ ← align_up end_ PAGE_SIZE;
  for_each (pages_of start end_) (λ addr '(m, buddy), Mapper.map pml4 addr addr flags m buddy) s.

(** The addresses the linker and the boot loader provide. *)
Record KernelImage := mkImage {
  kernel_range : Z * Z;
  bootdata_range : Z * Z;
  mbi_range : Z * Z;
  text_range : Z * Z;
  rodata_range : Z * Z;
  data_range : Z * Z;
  bss_range : Z * Z;
}.

(** Step 1: all usable memory at its place in the direct map. *)
Definition map_usable (pml4 : PhysAddr) (mem_map : list MemoryArea) (s : pmem * B) : outcome (pmem * B) :=
  for_each mem_map (λ area s,
    if area_typ area =? 1 then
      for_each (pages_of (area_start area) (area_end area)) (λ phys '(m, buddy),
        virt ← uadd phys KERNEL_VMA;
        Mapper.map pml4 virt phys (EntryFlags.PRESENT .| EntryFlags.WRITABLE .| EntryFlags.NX) m buddy) s
    else Ret s) s.

Definition init_kernel_page_table (mem_map : list MemoryArea) (img : KernelImage) (s : paging)
    : outcome (PhysAddr * paging) :=
  buddy ← expect (pg_buddy s);
  '(frame, buddy) ← frame_below 0 EARLY_PAGE_TABLE_LIMIT buddy;
  pml4_phys ← expect frame;
  _ ← uadd pml4_phys KERNEL_VMA;
  let m := pm_upd pml4_phys table_new (pg_mem s) in
  root ← Mapper.new pml4_phys;
  s ← map_usable root mem_map (m, buddy);
  k_start ← uadd (kernel_range img).1 KERNEL_VMA;
  k_end ← uadd (kernel_range img).2 KERNEL_VMA;
  let rw := EntryFlags.PRESENT .| EntryFlags.WRITABLE .| EntryFlags.NX in
  s ← set_range root k_start k_end (rw .| EntryFlags.GLOBAL) s;
  s ← set_identity_range root (bootdata_range img).1 (bootdata_range img).2 rw s;
  s ← set_identity_range root (mbi_range img).1 (mbi_range img).2 rw s;
  s ← set_range root (text_range img).1 (text_range img).2
    (EntryFlags.PRESENT .| EntryFlags.GLOBAL) s;
  s ← set_range root (rodata_range img).1 (rodata_range img).2
    (EntryFlags.PRESENT .| EntryFlags.NX .| EntryFlags.GLOBAL) s;
  s ← set_range root (data_range img).1 (data_range img).2 (rw .| EntryFlags.GLOBAL) s;
  '(m, buddy) ← set_range root (bss_range img).1 (bss_range img).2 (rw .| EntryFlags.GLOBAL) s;
  Ret (pml4_phys, mkPaging m (Some buddy) pml4_phys).
End paging.
