(* ===== verification/PagingInv.v ===== *)
(** * Page table trees and the processor's walk

    Bits of entries, paths through the tables, the walk of the processor, and
    the invariant of a set of address spaces that share the kernel half. *)

From S2P Require Import Prelude Buddy Address Paging.
Local Open Scope Z_scope.
Local Open Scope paging_scope.

(** ** Bits of entries *)

Definition present (e : Z) : bool := Z.testbit e 0.
Definition writable (e : Z) : bool := Z.testbit e 1.
Definition user (e : Z) : bool := Z.testbit e 2.
Definition huge (e : Z) : bool := Z.testbit e 7.
Definition no_exec (e : Z) : bool := Z.testbit e 63.

Lemma land_pow2_testbit e k : 0 ≤ k → negb (Z.land e (2 ^ k) =? 0) = Z.testbit e k.
Proof.
  intros Hk. assert (∀ i, Z.testbit (2 ^ k) i = bool_decide (i = k)) as Hb.
  { intros i. case_bool_decide; [subst; by apply Z.pow2_bits_true|by apply Z.pow2_bits_false]. }
  destruct (Z.testbit e k) eqn:E.
  - destruct (Z.eqb_spec (Z.land e (2 ^ k)) 0) as [H|]; [|done]. exfalso.
    assert (Z.testbit (Z.land e (2 ^ k)) k = true) as H'; [|by rewrite H, Z.bits_0 in H'].
    by rewrite Z.land_spec, E, Hb, bool_decide_true.
  - destruct (Z.eqb_spec (Z.land e (2 ^ k)) 0) as [|H]; [done|]. exfalso. apply H, Z.bits_inj'.
    intros i Hi. rewrite Z.land_spec, Hb, Z.bits_0. case_bool_decide; [by subst; rewrite E|apply andb_false_r].
Qed.

Lemma is_present_spec e : Entry.is_present e = present e.
Proof. apply (land_pow2_testbit e 0). done. Qed.
Lemma is_huge_spec e : Entry.is_huge e = huge e.
Proof. apply (land_pow2_testbit e 7). done. Qed.

(** Flags lie outside the address bits. *)
Definition flags_ok (f : Z) : Prop := Z.land f ADDR_MASK = 0.
#[global] Instance flags_ok_dec f : Decision (flags_ok f) := decide (Z.land f ADDR_MASK = 0).

(** The address of a frame: page-aligned, within the address bits. *)
Definition frame_ok (p : Z) : Prop := 0 ≤ p ∧ (PAGE_SIZE | p) ∧ p < 2 ^ 47.

Lemma frame_mask p : 0 ≤ p → (PAGE_SIZE | p) → p < 2 ^ 52 → Z.land p ADDR_MASK = p.
Proof.
  intros H0 [k ->] Hp. unfold PAGE_SIZE in *. apply Z.bits_inj'. intros i Hi.
  rewrite Z.land_spec. replace ADDR_MASK with (Z.shiftl (Z.ones 40) 12) by done.
  assert (k * 4096 = Z.shiftl k 12) as E by (by rewrite Z.shiftl_mul_pow2). rewrite E in *.
  destruct (decide (i < 12)).
  - by rewrite !Z.shiftl_spec_low by lia.
  - rewrite !Z.shiftl_spec by lia. destruct (decide (i < 52)).
    + rewrite Z.ones_spec_low by lia. apply andb_true_r.
    + rewrite Z.ones_spec_high by lia. rewrite andb_false_r. symmetry.
      rewrite <- Z.shiftl_spec by lia. apply Z.bits_above_log2; [done|].
      destruct (decide (Z.shiftl k 12 = 0)) as [->|]; [simpl; lia|].
      apply (Z.lt_le_trans _ 52); [apply Z.log2_lt_pow2; lia|lia].
Qed.

Lemma addr_set_addr p f : flags_ok f → Entry.addr (Entry.set_addr p f) = Z.land p ADDR_MASK.
Proof.
  intros Hf. unfold Entry.addr, Entry.set_addr. rewrite Z.land_lor_distr_l, Hf, Z.lor_0_r.
  by rewrite <- Z.land_assoc, Z.land_diag.
Qed.
Lemma addr_add_flags e f : flags_ok f → Entry.addr (Entry.add_flags e f) = Entry.addr e.
Proof. intros Hf. unfold Entry.addr, Entry.add_flags. by rewrite Z.land_lor_distr_l, Hf, Z.lor_0_r. Qed.

(** The bits outside the address are those of the flags. *)
Lemma bit_set_addr p f k :
  Z.testbit ADDR_MASK k = false → Z.testbit (Entry.set_addr p f) k = Z.testbit f k.
Proof. intros H. unfold Entry.set_addr. by rewrite Z.lor_spec, Z.land_spec, H, andb_false_r. Qed.
Lemma bit_add_flags e f k : Z.testbit (Entry.add_flags e f) k = Z.testbit e k || Z.testbit f k.
Proof. apply Z.lor_spec. Qed.

Lemma add_flags_bits e f :
  present (Entry.add_flags e f) = present e || present f ∧
  writable (Entry.add_flags e f) = writable e || writable f ∧
  user (Entry.add_flags e f) = user e || user f ∧
  huge (Entry.add_flags e f) = huge e || huge f ∧
  no_exec (Entry.add_flags e f) = no_exec e || no_exec f.
Proof. split_and!; apply bit_add_flags. Qed.
Lemma set_addr_bits p f :
  present (Entry.set_addr p f) = present f ∧ writable (Entry.set_addr p f) = writable f ∧
  user (Entry.set_addr p f) = user f ∧ huge (Entry.set_addr p f) = huge f ∧
  no_exec (Entry.set_addr p f) = no_exec f.
Proof. split_and!; by apply bit_set_addr. Qed.

(** ** Indices *)

Lemma idx_range v k : 0 ≤ Z.land (Z.shiftr v k) 0x1FF < 512.
Proof. change 511 with (Z.ones 9). rewrite Z.land_ones by done. by apply Z.mod_pos_bound. Qed.

(** The page of a virtual address, of 36 bits. *)
Definition vpn (v : Z) : Z := (v / PAGE_SIZE) mod 2 ^ 36.
Definition path (v : Z) : list Z := [Mapper.pml4_idx v; Mapper.pdpt_idx v; Mapper.pd_idx v].


Lemma idx_mod v k : 12 ≤ k → Z.land (Z.shiftr v k) 0x1FF = v / 2 ^ k mod 512.
Proof. intros Hk. change 511 with (Z.ones 9). by rewrite Z.land_ones, Z.shiftr_div_pow2 by lia. Qed.

Lemma vpn_digits v : vpn v =
  ((Mapper.pml4_idx v * 512 + Mapper.pdpt_idx v) * 512 + Mapper.pd_idx v) * 512 + Mapper.pt_idx v.
Proof.
  unfold vpn, Mapper.pml4_idx, Mapper.pdpt_idx, Mapper.pd_idx, Mapper.pt_idx. rewrite !idx_mod by lia.
  unfold PAGE_SIZE. change (2 ^ 36) with (512 * (512 * (512 * 512))).
  change (2 ^ 39) with (4096 * 512 * 512 * 512). change (2 ^ 30) with (4096 * 512 * 512).
  change (2 ^ 21) with (4096 * 512). change (2 ^ 12) with 4096.
  rewrite <- !Z.div_div by done. set (x := v / 4096). rewrite !Z.rem_mul_r by done. lia.
Qed.

(** Two addresses are in the same page exactly when the walk takes the same
    way to the same entry. *)
Lemma same_page v w : vpn v = vpn w ↔ path v = path w ∧ Mapper.pt_idx v = Mapper.pt_idx w.
Proof.
  unfold path. split.
  - rewrite !vpn_digits. intros H.
    assert (∀ x, 0 ≤ Mapper.pml4_idx x < 512 ∧ 0 ≤ Mapper.pdpt_idx x < 512 ∧
      0 ≤ Mapper.pd_idx x < 512 ∧ 0 ≤ Mapper.pt_idx x < 512) as Hr by (intros x; split_and!; apply idx_range).
    pose proof (Hr v) as (? & ? & ? & ?). pose proof (Hr w) as (? & ? & ? & ?).
    assert (Mapper.pml4_idx v = Mapper.pml4_idx w) as -> by lia.
    assert (Mapper.pdpt_idx v = Mapper.pdpt_idx w) as -> by lia.
    assert (Mapper.pd_idx v = Mapper.pd_idx w) as -> by lia. split; [done|lia].
  - rewrite !vpn_digits. intros [[= -> -> ->] ->]. done.
Qed.

(** ** Paths *)

Section paths.
Context (m : pmem).

(** The present entry at index [i] of the table at [t]. *)
Definition fetch (t i : Z) : option Z :=
  e ← arr_get (m t) i; if present e then Some e else None.

Fixpoint reach (t : Z) (p : list Z) : option Z :=
  match p with
  | [] => Some t
  | i :: p => e ← fetch t i; reach (Entry.addr e) p
  end.

Definition entry_at (r : Z) (p : list Z) (i : Z) : option Z := t ← reach r p; fetch t i.

(** The leaf entry for a virtual address. *)
Definition leaf (r v : Z) : option Z := entry_at r (path v) (Mapper.pt_idx v).

Lemma reach_app r p q : reach r (p ++ q) = t ← reach r p; reach t q.
Proof.
  revert r. induction p as [|i p IH]; intros r; simpl; [done|].
  destruct (fetch r i); simpl; [apply IH|done].
Qed.
Lemma reach_snoc r p i : reach r (p ++ [i]) = Entry.addr <$> entry_at r p i.
Proof.
  rewrite reach_app. unfold entry_at. destruct (reach r p); simpl; [|done]. by destruct (fetch z i).
Qed.

(** ** The walk of the processor *)

(** What an access may do, from the entries on the way: user mode and writes
    need the bit at every level, execution is forbidden by a bit at any. *)
Record rights := mkRights { r_user : bool; r_write : bool; r_nx : bool }.
Definition rights_of (es : list Z) : rights :=
  mkRights (forallb user es) (forallb writable es) (existsb no_exec es).

(** An entry that points to a table; large pages are never built. *)
Definition table_entry (t i : Z) : option Z := e ← fetch t i; if huge e then None else Some e.

Definition translate (cr3 v : Z) : option (Z * rights) :=
  e4 ← table_entry cr3 (Mapper.pml4_idx v);
  e3 ← table_entry (Entry.addr e4) (Mapper.pdpt_idx v);
  e2 ← table_entry (Entry.addr e3) (Mapper.pd_idx v);
  e1 ← fetch (Entry.addr e2) (Mapper.pt_idx v);
  Some (Entry.addr e1 + v mod PAGE_SIZE, rights_of [e4; e3; e2; e1]).
End paths.

(** ** Address spaces *)

(** A path into the half of the kernel. *)
Definition high (p : list Z) : Prop := ∃ i q, p = i :: q ∧ 256 ≤ i.

(** Address spaces with the root tables [rs]: every table is reached on one
    path only, and from two roots only in the upper half; tables are not free;
    an entry for a table carries no restriction of its own, and admits user
    mode wherever a page below it does. *)
Record spaces (m : pmem) (free : Z → Prop) (rs : list Z) : Prop := {
  sp_len : ∀ t, length (m t) = 512%nat;
  sp_tree : ∀ r1 r2 p q t, r1 ∈ rs → r2 ∈ rs → (length p ≤ 3)%nat → (length q ≤ 3)%nat →
    reach m r1 p = Some t → reach m r2 q = Some t → p = q ∧ (r1 = r2 ∨ high p);
  sp_table : ∀ r p t, r ∈ rs → (length p ≤ 3)%nat → reach m r p = Some t →
    frame_ok t ∧ ¬ free (t / PAGE_SIZE);
  sp_inner : ∀ r p i e, r ∈ rs → (length p ≤ 2)%nat → entry_at m r p i = Some e →
    huge e = false ∧ writable e = true ∧ no_exec e = false;
  sp_user : ∀ r p i e, r ∈ rs → length p = 3%nat → entry_at m r p i = Some e → user e = true →
    ∀ q j s f, p = q ++ j :: s → entry_at m r q j = Some f → user f = true;
}.

(** The rights of a page are those of its own entry. *)
Definition leaf_rights (e : Z) : rights := mkRights (user e) (writable e) (no_exec e).

Lemma translate_leaf m free rs r v :
  spaces m free rs → r ∈ rs →
  translate m r v = (λ e, (Entry.addr e + v mod PAGE_SIZE, leaf_rights e)) <$> leaf m r v.
Proof.
  intros Hsp Hr. unfold translate, leaf, path, table_entry.
  set (a := Mapper.pml4_idx v). set (b := Mapper.pdpt_idx v). set (c := Mapper.pd_idx v). set (d := Mapper.pt_idx v).
  pose proof (sp_inner _ _ _ Hsp r [] a) as H4. pose proof (sp_inner _ _ _ Hsp r [a] b) as H3.
  pose proof (sp_inner _ _ _ Hsp r [a; b] c) as H2. pose proof (sp_user _ _ _ Hsp r [a; b; c] d) as Hu.
  unfold entry_at in *. cbn [reach length mbind option_bind] in *.
  destruct (fetch m r a) as [e4|] eqn:E4; cbn [mbind option_bind fmap option_fmap option_map] in *; [|done].
  destruct (H4 e4 Hr ltac:(lia) eq_refl) as (-> & W4 & X4). cbn [mbind option_bind].
  destruct (fetch m (Entry.addr e4) b) as [e3|] eqn:E3; cbn [mbind option_bind option_map] in *; [|done].
  destruct (H3 e3 Hr ltac:(lia) eq_refl) as (-> & W3 & X3). cbn [mbind option_bind].
  destruct (fetch m (Entry.addr e3) c) as [e2|] eqn:E2; cbn [mbind option_bind option_map] in *; [|done].
  destruct (H2 e2 Hr ltac:(lia) eq_refl) as (-> & W2 & X2). cbn [mbind option_bind].
  destruct (fetch m (Entry.addr e2) d) as [e1|] eqn:E1; cbn [mbind option_bind option_map] in *; [|done].
  change ((λ e, (Entry.addr e + v mod PAGE_SIZE, leaf_rights e)) <$> Some e1)
    with (Some (Entry.addr e1 + v mod PAGE_SIZE, leaf_rights e1)).
  do 2 f_equal. unfold rights_of, leaf_rights. cbn [forallb existsb].
  rewrite W4, W3, W2, X4, X3, X2, !andb_true_r, orb_false_r. cbn [andb orb]. f_equal.
  destruct (user e1) eqn:U1; [|by rewrite !andb_false_r].
  specialize (Hu e1 Hr eq_refl eq_refl U1).
  assert (user e4 = true) as -> by (apply (Hu [] a [b; c]); [done|exact E4]).
  assert (user e3 = true) as -> by (apply (Hu [a] b [c]); [done|cbn [reach mbind option_bind]; rewrite E4; exact E3]).
  assert (user e2 = true) as -> by (apply (Hu [a; b] c []); [done|]; cbn [reach mbind option_bind]; rewrite E4; cbn [mbind option_bind]; rewrite E3; exact E2).
  done.
Qed.
