(* ===== verification/PagingMap.v ===== *)
(** * Effect of the mapper on address spaces

    Every write of the mapper changes one entry.  This file has the effect of
    such a write on all paths, its preservation of the invariant, and the
    effect of [get_or_create_table] and [Mapper.map]. *)

From S2P Require Import Prelude Buddy Address Paging PagingInv.
Local Open Scope Z_scope.
Local Open Scope paging_scope.

(** ** One entry changes *)

(** Seen from the roots [rs], [m'] differs from [m] in the entry [i] of the
    table [t], which is now [e']. *)
Definition writes (rs : list Z) (m m' : pmem) (t i e' : Z) : Prop :=
  ∀ r q j, r ∈ rs → (length q ≤ 3)%nat →
    entry_at m' r q j =
      if bool_decide (reach m r q = Some t ∧ j = i) then Some e' else entry_at m r q j.

Definition write (t i e : Z) (m : pmem) : pmem := pm_upd t (<[Z.to_nat i := e]> (m t)) m.

Lemma fetch_upd m t tb x j :
  fetch (pm_upd t tb m) x j = if decide (x = t) then (e ← arr_get tb j; if present e then Some e else None) else fetch m x j.
Proof. unfold fetch, pm_upd. by destruct (decide (x = t)). Qed.

Lemma fetch_write m t i e x j :
  (∀ y, length (m y) = 512%nat) → 0 ≤ i < 512 → present e = true →
  fetch (write t i e m) x j = if bool_decide (x = t ∧ j = i) then Some e else fetch m x j.
Proof.
  intros Hlen Hi He. unfold write. rewrite fetch_upd. case_decide as Ht.
  - subst x. assert (arr_set (m t) i e = Some (<[Z.to_nat i := e]> (m t))) as Hs.
    { unfold arr_set, zlen. rewrite Hlen. change (Z.of_nat 512) with 512.
      replace ((0 <=? i) && (i <? 512)) with true; [done|lia]. }
    rewrite (arr_set_get _ _ _ _ j Hs). case_decide as Hj.
    + subst j. rewrite bool_decide_true by done. simpl. by rewrite He.
    + by rewrite bool_decide_false by naive_solver.
  - by rewrite bool_decide_false by naive_solver.
Qed.

Lemma fetch_table_new m f j : fetch (pm_upd f table_new m) f j = None.
Proof.
  rewrite fetch_upd, decide_True by done. unfold arr_get, table_new. case_match; [|done].
  destruct (replicate 512 Entry.new !! Z.to_nat j) as [e|] eqn:E; [|done]. simpl.
  apply lookup_replicate in E as [-> _]. done.
Qed.

Section effect.
Context (m : pmem) (free : Z → Prop) (rs : list Z) (Hsp : spaces m free rs).
Context (r0 : Z) (p0 : list Z) (t : Z) (Hr0 : r0 ∈ rs) (Hp0 : reach m r0 p0 = Some t).
Context (i : Z) (Hi : 0 ≤ i < 512) (e' : Z) (He' : present e' = true).

(** The table [t] is on the path [p0] from every root. *)
Lemma only_path r q : r ∈ rs → (length p0 ≤ 3)%nat → (length q ≤ 3)%nat → reach m r q = Some t → q = p0.
Proof. intros Hr H1 H2 Hq. by apply (sp_tree _ _ _ Hsp r r0 q p0 t). Qed.

(** Changing a leaf, or the flags of an entry for a table. *)
Lemma write_writes :
  (length p0 ≤ 3)%nat →
  (length p0 = 3%nat ∨ ∃ e, fetch m t i = Some e ∧ Entry.addr e' = Entry.addr e) →
  writes rs m (write t i e' m) t i e'.
Proof.
  intros Hlen Hcase. set (m' := write t i e' m).
  assert (∀ x j, fetch m' x j = if bool_decide (x = t ∧ j = i) then Some e' else fetch m x j) as Hf.
  { intros x j. apply fetch_write; [apply (sp_len _ _ _ Hsp)|done|done]. }
  assert (∀ r q, r ∈ rs → (length q ≤ 3)%nat → reach m' r q = reach m r q) as Hreach.
  { intros r q Hr. induction q as [|j q IH] using rev_ind; intros Hq; [done|].
    rewrite length_app in Hq. simpl in Hq. rewrite !reach_snoc. unfold entry_at. rewrite IH by lia.
    destruct (reach m r q) as [x|] eqn:Ex; simpl; [|done]. rewrite Hf. case_bool_decide as Hx; [|done].
    destruct Hx as [-> ->]. destruct Hcase as [H3|(e & Ee & Ea)]; [|by rewrite Ee; simpl; rewrite Ea].
    rewrite (only_path r q) in Hq by (try done; lia). lia. }
  intros r q j Hr Hq. unfold entry_at. rewrite Hreach by done. destruct (reach m r q) as [x|]; cbn [mbind option_bind].
  - rewrite Hf. repeat case_bool_decide; naive_solver.
  - by rewrite bool_decide_false by naive_solver.
Qed.

(** Linking in a cleared table. *)
Lemma create_writes f :
  fetch m t i = None → Entry.addr e' = f → free (f / PAGE_SIZE) →
  writes rs m (pm_upd f table_new (write t i e' m)) t i e'.
Proof.
  intros Hnone Hf Hfree. set (m' := pm_upd f table_new (write t i e' m)).
  assert (∀ r q x, r ∈ rs → (length q ≤ 3)%nat → reach m r q = Some x → x ≠ f) as Hnf.
  { intros r q x Hr Hq Hx ->. by destruct (sp_table _ _ _ Hsp r q f Hr Hq Hx). }
  assert (∀ x j, x ≠ f → fetch m' x j = if bool_decide (x = t ∧ j = i) then Some e' else fetch m x j) as Hfetch.
  { intros x j Hx. unfold m'. rewrite fetch_upd, decide_False by done.
    apply fetch_write; [apply (sp_len _ _ _ Hsp)|done|done]. }
  assert (∀ r q j, r ∈ rs → (length q ≤ 3)%nat →
    match reach m r q with Some x => reach m' r q = Some x | None => reach m' r q = None ∨ reach m' r q = Some f end →
    entry_at m' r q j = if bool_decide (reach m r q = Some t ∧ j = i) then Some e' else entry_at m r q j) as Hentry.
  { intros r q j Hr Hq HR. unfold entry_at. destruct (reach m r q) as [x|] eqn:Ex; cbn [mbind option_bind].
    - rewrite HR. cbn [mbind option_bind]. rewrite Hfetch by (by eapply Hnf). repeat case_bool_decide; naive_solver.
    - rewrite bool_decide_false by naive_solver. destruct HR as [-> | ->]; [done|]. apply fetch_table_new. }
  assert (∀ r q, r ∈ rs → (length q ≤ 3)%nat →
    match reach m r q with Some x => reach m' r q = Some x | None => reach m' r q = None ∨ reach m' r q = Some f end) as Hreach.
  { intros r q Hr. induction q as [|j q IH] using rev_ind; intros Hq; [done|].
    rewrite length_app in Hq. simpl in Hq. specialize (IH ltac:(lia)).
    rewrite !reach_snoc, (Hentry r q j) by (try done; lia). case_bool_decide as Hat.
    - destruct Hat as [Hat ->]. unfold entry_at. rewrite Hat. simpl. rewrite Hnone. simpl. right. by rewrite Hf.
    - destruct (entry_at m r q j); simpl; [done|by left]. }
  intros r q j Hr Hq. apply Hentry; [done|done|by apply Hreach].
Qed.
End effect.

(** ** Preservation of the invariant *)

Section preserve.
Context (m m' : pmem) (free free' : Z → Prop) (rs : list Z) (Hsp : spaces m free rs).
Context (r0 : Z) (p0 : list Z) (t : Z) (Hr0 : r0 ∈ rs) (Hp0 : reach m r0 p0 = Some t).
Context (i e' : Z) (Hw : writes rs m m' t i e').
Context (Hlen' : ∀ x, length (m' x) = 512%nat) (Hfree : ∀ j, free' j → free j).

Lemma reach_writes r q j :
  r ∈ rs → (length q ≤ 3)%nat →
  reach m' r (q ++ [j]) =
    if bool_decide (reach m r q = Some t ∧ j = i) then Some (Entry.addr e') else reach m r (q ++ [j]).
Proof. intros Hr Hq. rewrite !reach_snoc, Hw by done. by case_bool_decide. Qed.

(** Along an existing path there is an entry at every level. *)
Lemma entry_prefix mm r q j s k e :
  entry_at mm r (q ++ j :: s) k = Some e → ∃ f, entry_at mm r q j = Some f.
Proof.
  unfold entry_at. rewrite reach_app. destruct (reach mm r q) as [x|]; simpl; [|done].
  destruct (fetch mm x j) as [f|]; simpl; [|done]. eauto.
Qed.

(** An entry for a table is changed: its flags may only grow. *)
Definition inner_ok : Prop :=
  (length p0 ≤ 2)%nat ∧ huge e' = false ∧ writable e' = true ∧ no_exec e' = false ∧
  ∀ e, fetch m t i = Some e → Entry.addr e' = Entry.addr e ∧ (user e = true → user e' = true).

Lemma inner_levels :
  inner_ok →
  (∀ r p j e, r ∈ rs → (length p ≤ 2)%nat → entry_at m' r p j = Some e →
     huge e = false ∧ writable e = true ∧ no_exec e = false) ∧
  (∀ r p j e, r ∈ rs → length p = 3%nat → entry_at m' r p j = Some e → user e = true →
     ∀ q k s f, p = q ++ k :: s → entry_at m' r q k = Some f → user f = true).
Proof.
  intros (Hl & Hh & HW & Hx & Hold). split.
  - intros r p j e Hr Hp He. rewrite Hw in He by (try done; lia). case_bool_decide; simplify_eq; [done|].
    by apply (sp_inner _ _ _ Hsp r p j).
  - intros r p j e Hr Hp He Hu q k s f -> Hf.
    assert (length q ≤ 2)%nat as Hq by (rewrite length_app in Hp; simpl in Hp; lia).
    rewrite Hw in He by (try done; lia). case_bool_decide as Hat.
    { destruct Hat as [Hat _]. rewrite (only_path m free rs Hsp r0 p0 t Hr0 Hp0 r _ Hr) in Hp by (try done; lia). lia. }
    rewrite Hw in Hf by (try done; lia). destruct (entry_prefix _ _ _ _ _ _ _ He) as [g Hg].
    pose proof (sp_user _ _ _ Hsp r _ j e Hr Hp He Hu q k s g eq_refl Hg) as Hug.
    case_bool_decide as Hqk; [|by simplify_eq]. simplify_eq. destruct Hqk as [Hqk ->].
    unfold entry_at in Hg. rewrite Hqk in Hg. simpl in Hg. by apply (Hold g).
Qed.

Lemma spaces_keep : inner_ok → is_Some (fetch m t i) → spaces m' free' rs.
Proof.
  intros Hin [e He]. destruct (inner_levels Hin) as [Hinner Huser]. destruct Hin as (Hl & _ & _ & _ & Hold).
  assert (∀ r p, r ∈ rs → (length p ≤ 3)%nat → reach m' r p = reach m r p) as Hreach.
  { intros r p Hr Hp. destruct p as [|j q _] using rev_ind; [done|]. rewrite length_app in Hp. simpl in Hp.
    rewrite reach_writes by (try done; lia). case_bool_decide as Hat; [|done]. destruct Hat as [Hat ->].
    rewrite reach_snoc. unfold entry_at. rewrite Hat. simpl. rewrite He. simpl. f_equal. by apply Hold. }
  split; [done| | |done|done].
  - intros r1 r2 p q x Hr1 Hr2 Hp Hq. rewrite !Hreach by done. by apply (sp_tree _ _ _ Hsp).
  - intros r p x Hr Hp. rewrite Hreach by done. intros Hx.
    destruct (sp_table _ _ _ Hsp r p x Hr Hp Hx). split; [done|]. auto.
Qed.

Lemma spaces_create :
  inner_ok → fetch m t i = None → frame_ok (Entry.addr e') →
  free (Entry.addr e' / PAGE_SIZE) → ¬ free' (Entry.addr e' / PAGE_SIZE) → spaces m' free' rs.
Proof.
  intros Hin Hnone Hok Hfr Hfr'. destruct (inner_levels Hin) as [Hinner Huser]. destruct Hin as (Hl & _).
  set (f := Entry.addr e') in *.
  assert (∀ r p x, r ∈ rs → (length p ≤ 3)%nat → reach m' r p = Some x →
    reach m r p = Some x ∨ (p = p0 ++ [i] ∧ reach m r p0 = Some t ∧ x = f)) as Hreach.
  { intros r p x Hr Hp. destruct p as [|j q _] using rev_ind; [by left|]. rewrite length_app in Hp. simpl in Hp.
    rewrite reach_writes by (try done; lia). case_bool_decide as Hat; [|by left]. destruct Hat as [Hat ->].
    intros [= <-]. right. assert (q = p0) as -> by (apply (only_path m free rs Hsp r0 p0 t Hr0 Hp0 r q Hr); [lia|lia|done]). done. }
  assert (∀ r p, r ∈ rs → (length p ≤ 3)%nat → reach m r p ≠ Some f) as Hnf.
  { intros r p Hr Hp Hx. by destruct (sp_table _ _ _ Hsp r p f Hr Hp Hx). }
  split; [done| | |done|done].
  - intros r1 r2 p q x Hr1 Hr2 Hp Hq H1 H2. apply Hreach in H1, H2; [|done..].
    destruct H1 as [H1|(Ep & H1 & Ex)], H2 as [H2|(Eq & H2 & Ex')].
    + by apply (sp_tree _ _ _ Hsp r1 r2 p q x).
    + destruct (Hnf r1 p); [done..|by rewrite H1, Ex'].
    + destruct (Hnf r2 q); [done..|by rewrite H2, Ex].
    + subst p q. split; [done|]. destruct (sp_tree _ _ _ Hsp r1 r2 p0 p0 t) as [_ [?|(k & s & -> & Hk)]]; try done; [lia..|by left|].
      right. by exists k, (s ++ [i]).
  - intros r p x Hr Hp Hx. apply Hreach in Hx as [Hx|(_ & _ & ->)]; [|done..].
    destruct (sp_table _ _ _ Hsp r p x Hr Hp Hx). split; [done|]. auto.
Qed.

(** A page is mapped: the way to it must admit what it admits. *)
Lemma spaces_leaf :
  length p0 = 3%nat →
  (user e' = true → ∀ q k s f, p0 = q ++ k :: s → ∀ r, r ∈ rs → reach m r p0 = Some t →
     entry_at m r q k = Some f → user f = true) →
  spaces m' free' rs.
Proof.
  intros H3 Hu.
  assert (∀ r q k, r ∈ rs → (length q ≤ 2)%nat → entry_at m' r q k = entry_at m r q k) as Hsame.
  { intros r q k Hr Hq. rewrite Hw by (try done; lia). case_bool_decide as Hat; [|done]. destruct Hat as [Hat _].
    rewrite (only_path m free rs Hsp r0 p0 t Hr0 Hp0 r q Hr) in Hq by (try done; lia). lia. }
  assert (∀ r p, r ∈ rs → (length p ≤ 3)%nat → reach m' r p = reach m r p) as Hreach.
  { intros r p Hr Hp. destruct p as [|j q _] using rev_ind; [done|]. rewrite length_app in Hp. simpl in Hp.
    rewrite !reach_snoc, Hsame by (try done; lia). done. }
  split; [done| | | |].
  - intros r1 r2 p q x Hr1 Hr2 Hp Hq. rewrite !Hreach by done. by apply (sp_tree _ _ _ Hsp).
  - intros r p x Hr Hp. rewrite Hreach by done. intros Hx.
    destruct (sp_table _ _ _ Hsp r p x Hr Hp Hx). split; [done|]. auto.
  - intros r p j e Hr Hp. rewrite Hsame by done. by apply (sp_inner _ _ _ Hsp).
  - intros r p j e Hr Hp He Hue q k s f -> Hf.
    assert (length q ≤ 2)%nat as Hq by (rewrite length_app in Hp; simpl in Hp; lia).
    rewrite Hsame in Hf by done. rewrite Hw in He by (try done; lia). case_bool_decide as Hat.
    + destruct Hat as [Hat ->]. simplify_eq.
      assert (q ++ k :: s = p0) as Heq by (apply (only_path m free rs Hsp r0 p0 t Hr0 Hp0 r _ Hr); [lia|lia|done]).
      apply (Hu Hue q k s f (eq_sym Heq) r Hr); [by rewrite <- Heq|done].
    + by apply (sp_user _ _ _ Hsp r _ j e Hr Hp He Hue q k s f).
Qed.
End preserve.

(** ** Frames for tables *)

Section mapper.
Context `{FS : FrameSource B, FL : !FrameLaws B}.
Implicit Types (b : B).

(** At least [n] frames are left in the early part of memory. *)
Definition available b (n : nat) : Prop :=
  ∃ l : list Z, NoDup l ∧ length l = n ∧
    ∀ j, j ∈ l → fr_free b j ∧ (j + 1) * PAGE_SIZE ≤ EARLY_PAGE_TABLE_LIMIT.

Lemma available_le b n k : (n ≤ k)%nat → available b k → available b n.
Proof.
  intros Hle (l & Hnd & Hl & Hfr). exists (take n l). split_and!.
  - rewrite <- (take_drop n l) in Hnd. by apply NoDup_app in Hnd as [? _].
  - rewrite length_take. lia.
  - intros j Hj. apply Hfr. rewrite <- (take_drop n l). apply elem_of_app. by left.
Qed.

Lemma block_frame_0 a j : block_frame a 0 j ↔ j = a / PAGE_SIZE.
Proof. unfold block_frame. change (2 ^ 0) with 1. lia. Qed.

Lemma available_take b b' a n :
  granted fr_free b b' a 0 → available b (S n) → available b' n.
Proof.
  intros [_ _ _ _ Hnow] (l & Hnd & Hl & Hfr). set (x := a / PAGE_SIZE).
  assert (∀ k, NoDup k → length k = n → k ⊆ l → x ∉ k → available b' n) as Hav.
  { intros k Hk Hlk Hsub Hx. exists k. split_and!; [done|done|]. intros j Hj.
    destruct (Hfr j (Hsub j Hj)) as [Hfj ?]. split; [|done]. apply Hnow. rewrite block_frame_0.
    split; [done|]. intros ->. done. }
  destruct (decide (x ∈ l)) as [(l1 & l2 & ->)%list_elem_of_split|Hx].
  - rewrite length_app in Hl. simpl in Hl. rewrite <- Permutation_middle in Hnd. apply NoDup_cons in Hnd as [Hx Hnd].
    apply (Hav (l1 ++ l2)); [done|rewrite length_app; lia|set_solver|done].
  - destruct l as [|y l]; [done|]. apply NoDup_cons in Hnd as [_ Hnd].
    apply (Hav l); [done|simpl in Hl; lia|set_solver|set_solver].
Qed.

(** At most [n] single frames have been handed out. *)
Inductive takes : nat → B → B → Prop :=
  | takes_none n b : takes n b b
  | takes_one n b b1 b2 a : granted fr_free b b1 a 0 → takes n b1 b2 → takes (S n) b b2.

Lemma takes_le n k b b' : (n ≤ k)%nat → takes n b b' → takes k b b'.
Proof.
  intros Hle Ht. revert k Hle. induction Ht as [n b|n b b1 b2 a Hg Ht IH]; intros k Hle; [constructor|].
  destruct k as [|k]; [lia|]. econstructor; [exact Hg|]. apply IH. lia.
Qed.
Lemma takes_trans n k b b1 b2 : takes n b b1 → takes k b1 b2 → takes (n + k) b b2.
Proof.
  induction 1 as [n b|n b b1 b3 a Hg Hn IH]; intros Hk; [eapply takes_le, Hk; lia|].
  simpl. econstructor; [exact Hg|]. by apply IH.
Qed.
Lemma takes_available n k b b' : takes k b b' → available b (n + k) → available b' n.
Proof.
  induction 1 as [k b|k b b1 b2 a Hg Ht IH]; [apply available_le; lia|].
  rewrite Nat.add_succ_r. intros Hav. by eapply IH, available_take.
Qed.

Lemma take_frame total b :
  fr_ok b → (total = true → available b 1) →
  ends total ('(frame, b') ← frame_below 0 EARLY_PAGE_TABLE_LIMIT b; a ← expect frame; Ret (a, b')) (λ '(a, b'),
    fr_ok b' ∧ frame_ok a ∧ fr_free b (a / PAGE_SIZE) ∧ (∀ j, fr_free b' j ↔ fr_free b j ∧ j ≠ a / PAGE_SIZE) ∧
    granted fr_free b b' a 0).
Proof.
  intros Hok Hav. destruct (fr_below b 0 EARLY_PAGE_TABLE_LIMIT Hok) as (r & b' & Heq & Hok' & Hr); [done|].
  rewrite Heq, Ret_bind. destruct r as [a|]; cbn [expect ends mbind outcome_bind].
  - destruct Hr as [Hg Hle]. pose proof Hg as [H0 Hmax Hal Hwas Hnow].
    split_and!; [done|split_and!; [done| |]| | |done].
    + by change (2 ^ 0 * PAGE_SIZE) with PAGE_SIZE in Hal.
    + change (2 ^ 0 * PAGE_SIZE) with PAGE_SIZE in *. unfold PAGE_SIZE in *. lia.
    + apply Hwas. by apply block_frame_0.
    + intros j. rewrite Hnow, block_frame_0. done.
  - destruct total; [|done]. exfalso. destruct Hr as [_ Hnone]. destruct (Hav eq_refl) as ([|j l] & _ & Hl & Hfr); [done|].
    destruct (Hfr j ltac:(by left)) as [Hfj Hle]. specialize (Hnone eq_refl j Hfj). lia.
Qed.

(** ** One level of the walk *)

Definition table_flags_ok (tf : Z) : Prop :=
  flags_ok tf ∧ present tf = true ∧ writable tf = true ∧ huge tf = false ∧ no_exec tf = false.

(** What [get_or_create_table] does to the table at the end of [p]: the entry
    [i] is there afterwards, admits what [tf] admits, and leads to [t']. *)
Record opened (rs : list Z) (m m' : pmem) (b b' : B) (r : Z) (p : list Z) (t i tf t' : Z) : Prop := {
  op_ok : fr_ok b';
  op_spaces : spaces m' (fr_free b') rs;
  op_entry : ∃ e', writes rs m m' t i e' ∧ Entry.addr e' = t' ∧ (user tf = true → user e' = true);
  op_keep : ∀ e, fetch m t i = Some e → Entry.addr e = t' ∧ b' = b;
  op_takes : takes (if bool_decide (fetch m t i = None) then 1 else 0) b b';
  op_free : ∀ j, fr_free b' j → fr_free b j;
  op_data : ∀ x, x ≠ t → ¬ fr_free b (x / PAGE_SIZE) → m' x = m x;
  op_new : fetch m t i = None → fr_free b (t' / PAGE_SIZE);
}.

Lemma entry_ok (tb : list Z) i : length tb = 512%nat → 0 ≤ i < 512 → ∃ e, entry i tb = Ret e ∧ arr_get tb i = Some e.
Proof.
  intros Hl Hi. destruct (proj2 (arr_get_is_Some tb i)) as [e He].
  { unfold zlen. rewrite Hl. exact Hi. }
  exists e. split; [|done]. unfold entry. by rewrite He.
Qed.
Lemma set_entry_ok (m : pmem) t i e :
  (∀ x, length (m x) = 512%nat) → 0 ≤ i < 512 → set_entry i e (m t) = Ret (<[Z.to_nat i := e]> (m t)).
Proof.
  intros Hl Hi. unfold set_entry, arr_set, zlen. rewrite Hl. change (Z.of_nat 512) with 512.
  by replace ((0 <=? i) && (i <? 512)) with true by lia.
Qed.

Lemma write_len (m : pmem) t i e : (∀ x, length (m x) = 512%nat) → ∀ x, length (write t i e m x) = 512%nat.
Proof. intros H x. unfold write, pm_upd. case_decide; [|done]. by rewrite length_insert. Qed.
Lemma new_len (m : pmem) f : (∀ x, length (m x) = 512%nat) → ∀ x, length (pm_upd f table_new m x) = 512%nat.
Proof. intros H x. unfold pm_upd. by case_decide. Qed.

Lemma fetch_get m t i e : arr_get (m t) i = Some e → fetch m t i = if present e then Some e else None.
Proof. unfold fetch. by intros ->. Qed.

(** Reading an entry back. *)
Lemma entry_back m t i e' :
  (∀ x, length (m x) = 512%nat) → 0 ≤ i < 512 → fetch m t i = Some e' → entry i (m t) = Ret e'.
Proof.
  intros Hl Hi Hf. destruct (entry_ok (m t) i (Hl t) Hi) as (e & -> & Hg).
  rewrite (fetch_get _ _ _ _ Hg) in Hf. destruct (present e); by simplify_eq.
Qed.

(** A frame that is neither free nor a table. *)
Definition data_frame (rs : list Z) (m : pmem) (b : B) (x : Z) : Prop :=
  (∀ r q, r ∈ rs → (length q ≤ 3)%nat → reach m r q ≠ Some x) ∧ ¬ fr_free b (x / PAGE_SIZE).

Section level.
Context (rs : list Z) (m : pmem) (b : B) (Hsp : spaces m (fr_free b) rs) (Hok : fr_ok b).
Context (r : Z) (p : list Z) (t : Z) (Hr : r ∈ rs) (Hp : reach m r p = Some t) (Hlp : (length p ≤ 2)%nat).
Context (i : Z) (Hi : 0 ≤ i < 512) (tf : Z) (Htf : table_flags_ok tf).

Lemma open_existing e :
  fetch m t i = Some e →
  opened rs m (write t i (Entry.add_flags e tf) m) b b r p t i tf (Entry.addr e).
Proof.
  intros Hfe. destruct Htf as (Hfl & HP & HW & HH & HX). set (e' := Entry.add_flags e tf).
  destruct (add_flags_bits e tf) as (BP & BW & BU & BH & BX). fold e' in BP, BW, BU, BH, BX.
  assert (present e' = true) as Hpe by (by rewrite BP, HP, orb_true_r).
  assert (Entry.addr e' = Entry.addr e) as Ha by (by apply addr_add_flags).
  destruct (sp_inner _ _ _ Hsp r p i e Hr Hlp) as (IH & IW & IX).
  { unfold entry_at. by rewrite Hp. }
  assert (writes rs m (write t i e' m) t i e') as Hw.
  { apply (write_writes m (fr_free b) rs Hsp r p t Hr Hp i Hi e' Hpe); [lia|]. right. eauto. }
  split; [done| | | | |done| |by rewrite Hfe].
  - apply (spaces_keep m _ (fr_free b) _ rs Hsp r p t Hr Hp i e' Hw); [by apply write_len, (sp_len _ _ _ Hsp)|done| |by rewrite Hfe].
    split_and!; [done|by rewrite BH, IH, HH|by rewrite BW, HW, orb_true_r|by rewrite BX, IX, HX|].
    intros e0 E0. rewrite Hfe in E0. simplify_eq. split; [done|]. rewrite BU. by intros ->.
  - exists e'. split_and!; [done|done|]. intros Hu. by rewrite BU, Hu, orb_true_r.
  - intros e0 E0. rewrite Hfe in E0. by simplify_eq.
  - constructor.
  - intros x Hx _. unfold write, pm_upd. by rewrite decide_False.
Qed.

Lemma open_new f b' :
  fetch m t i = None → fr_ok b' → frame_ok f → fr_free b (f / PAGE_SIZE) →
  (∀ j, fr_free b' j ↔ fr_free b j ∧ j ≠ f / PAGE_SIZE) → granted fr_free b b' f 0 →
  opened rs m (pm_upd f table_new (write t i (Entry.set_addr f tf) m)) b b' r p t i tf f.
Proof.
  intros Hnone Hok' Hf Hfr Hnow Hav. destruct Htf as (Hfl & HP & HW & HH & HX). set (e' := Entry.set_addr f tf).
  destruct (set_addr_bits f tf) as (BP & BW & BU & BH & BX). fold e' in BP, BW, BU, BH, BX.
  assert (present e' = true) as Hpe by (by rewrite BP).
  assert (Entry.addr e' = f) as Ha.
  { unfold e'. rewrite addr_set_addr by done. destruct Hf as (? & ? & ?). apply frame_mask; [done|done|lia]. }
  assert (writes rs m (pm_upd f table_new (write t i e' m)) t i e') as Hw.
  { by apply (create_writes m (fr_free b) rs Hsp). }
  split; [done| | | | |intros j Hj; by apply Hnow| |done].
  - apply (spaces_create m _ (fr_free b) _ rs Hsp r p t Hr Hp i e' Hw); [|intros j Hj; by apply Hnow| |done|..].
    + by apply new_len, write_len, (sp_len _ _ _ Hsp).
    + split_and!; [done|by rewrite BH|by rewrite BW|by rewrite BX|]. intros e0 E0. by rewrite Hnone in E0.
    + by rewrite Ha.
    + by rewrite Ha.
    + rewrite Ha, Hnow. tauto.
  - exists e'. split_and!; [done|done|]. intros Hu. by rewrite BU.
  - intros e0 E0. by rewrite Hnone in E0.
  - rewrite bool_decide_true by done. econstructor; [exact Hav|constructor].
  - intros x Hx Hxf. unfold write, pm_upd. rewrite !decide_False; [done|done|]. intros ->. done.
Qed.

Lemma get_or_create_table_spec total :
  (total = true → fetch m t i = None → available b 1) →
  ends total (Mapper.get_or_create_table t i tf m b) (λ '(t', m', b'), opened rs m m' b b' r p t i tf t').
Proof.
  intros Hav. pose proof (sp_len _ _ _ Hsp) as Hlen.
  destruct (entry_ok (m t) i (Hlen t) Hi) as (e & He & Hget). pose proof (fetch_get _ _ _ _ Hget) as Hfe.
  unfold Mapper.get_or_create_table. rewrite He, Ret_bind, is_present_spec.
  destruct (present e) eqn:Epe; cbn [negb].
  - pose proof (open_existing e Hfe) as Hop. rewrite (set_entry_ok m) by done. rewrite !Ret_bind.
    fold (write t i (Entry.add_flags e tf) m). set (m' := write t i (Entry.add_flags e tf) m) in *.
    assert (fetch m' t i = Some (Entry.add_flags e tf)) as Hf'.
    { unfold m'. rewrite fetch_write; [by rewrite bool_decide_true|done|done|].
      destruct (add_flags_bits e tf) as (-> & _). by rewrite Epe. }
    rewrite (entry_back m' t i _) by (try done; by apply write_len). rewrite Ret_bind.
    destruct Htf as (Hfl & _). rewrite addr_add_flags by done.
    destruct (sp_table _ _ _ Hsp r (p ++ [i]) (Entry.addr e) Hr) as [(_ & _ & Hmax) _].
    { rewrite length_app. simpl. lia. }
    { rewrite reach_snoc. unfold entry_at. rewrite Hp. simpl. by rewrite Hfe. }
    rewrite phys_to_virt_ok by done. rewrite Ret_bind. exact Hop.
  - pose proof (take_frame total b Hok (λ Ht, Hav Ht Hfe)) as Htake.
    destruct (frame_below 0 EARLY_PAGE_TABLE_LIMIT b) as [[[f|] b']| |]; try exact Htake. rewrite !Ret_bind. cbn [expect].
    destruct Htake as (Hok' & Hf & Hfr & Hnow & Hg). pose proof (open_new f b' Hfe Hok' Hf Hfr Hnow Hg) as Hop.
    rewrite Ret_bind, (set_entry_ok m) by done. rewrite !Ret_bind. fold (write t i (Entry.set_addr f tf) m).
    destruct Hf as (Hf0 & Hfd & Hf1). rewrite phys_to_virt_ok by done. rewrite !Ret_bind.
    set (m' := pm_upd f table_new (write t i (Entry.set_addr f tf) m)) in *.
    assert (fetch m' t i = Some (Entry.set_addr f tf)) as Hf'.
    { unfold m'. rewrite fetch_upd, decide_False, fetch_write; [by rewrite bool_decide_true|done|done| |].
      - destruct (set_addr_bits f tf) as (-> & _). by destruct Htf as (_ & ? & _).
      - intros ->. destruct (sp_table _ _ _ Hsp r p f Hr) as [_ Hn]; [lia|done|done]. }
    rewrite (entry_back m' t i _) by (try done; by apply new_len, write_len). rewrite Ret_bind.
    destruct Htf as (Hfl & _). rewrite addr_set_addr, frame_mask by (try done; lia).
    rewrite phys_to_virt_ok by done. rewrite Ret_bind. exact Hop.
Qed.

Lemma opened_other m' b' t' r2 q j :
  opened rs m m' b b' r p t i tf t' → r2 ∈ rs → (length q ≤ 3)%nat → q ≠ p →
  entry_at m' r2 q j = entry_at m r2 q j.
Proof.
  intros [_ _ (e' & Hw & _) _ _ _ _ _] Hr2 Hq Hne. rewrite Hw by done. case_bool_decide as Hat; [|done].
  destruct Hat as [Hat _]. exfalso. apply Hne. apply (only_path m _ rs Hsp r p t Hr Hp r2 q Hr2); [lia|done|done].
Qed.

Lemma opened_here m' b' t' :
  opened rs m m' b b' r p t i tf t' →
  ∃ e', entry_at m' r p i = Some e' ∧ Entry.addr e' = t' ∧ (user tf = true → user e' = true).
Proof.
  intros [_ _ (e' & Hw & Ha & Hu) _ _ _ _ _]. exists e'. split_and!; [|done|done].
  rewrite Hw by (try done; lia). by rewrite bool_decide_true.
Qed.

Lemma opened_reach m' b' t' :
  opened rs m m' b b' r p t i tf t' → reach m' r (p ++ [i]) = Some t'.
Proof. intros Hop. destruct (opened_here _ _ _ Hop) as (e' & He & <- & _). by rewrite reach_snoc, He. Qed.

(** Tables stay where they are. *)
Lemma opened_mono m' b' t' r2 q x :
  opened rs m m' b b' r p t i tf t' → r2 ∈ rs → (length q ≤ 3)%nat →
  reach m r2 q = Some x → reach m' r2 q = Some x.
Proof.
  intros [_ _ (e' & Hw & Ha & _) Hkeep _ _ _ _] Hr2 Hq. destruct q as [|j q _] using rev_ind; [done|].
  rewrite length_app in Hq. simpl in Hq. rewrite !reach_snoc, Hw by (try done; lia).
  case_bool_decide as Hat; [|done]. destruct Hat as [Hat ->]. unfold entry_at. rewrite Hat. simpl.
  destruct (fetch m t i) as [e|] eqn:E; simpl; [|done]. intros [= <-]. destruct (Hkeep e eq_refl) as [Hk _]. by rewrite Ha, Hk.
Qed.

(** A frame in use that is no table keeps its contents. *)
Lemma opened_data m' b' t' x :
  opened rs m m' b b' r p t i tf t' → data_frame rs m b x → m' x = m x ∧ data_frame rs m' b' x.
Proof.
  intros [_ _ (e' & Hw & Ha & _) Hkeep _ Hfree Hdata Hnew] [Hnt Hnf]. split.
  { apply Hdata; [|done]. intros ->. by apply (Hnt r p Hr); [lia|]. }
  split; [|auto]. intros r2 q Hr2 Hq Hx. destruct q as [|j q _] using rev_ind; [by apply (Hnt r2 [] Hr2 (Nat.le_0_l _))|].
  rewrite length_app in Hq. simpl in Hq. rewrite (reach_writes _ _ _ _ _ _ Hw) in Hx by (try done; lia).
  case_bool_decide as Hat; [|apply (Hnt r2 (q ++ [j]) Hr2); [rewrite length_app; simpl; lia|done]].
  destruct Hat as [Hat ->]. rewrite Ha in Hx. injection Hx as ->. destruct (fetch m t i) as [e|] eqn:E; [|by apply Hnf, Hnew].
  destruct (Hkeep e eq_refl) as [Hke _]. apply (Hnt r (p ++ [i]) Hr); [rewrite length_app; simpl; lia|].
  rewrite reach_snoc. unfold entry_at. rewrite Hp. simpl. by rewrite E, <- Hke.
Qed.

(** The same in terms of paths. *)
Record level (m' : pmem) (b' : B) (t' : Z) : Prop := {
  lv_ok : fr_ok b';
  lv_spaces : spaces m' (fr_free b') rs;
  lv_other : ∀ r2 q j, r2 ∈ rs → (length q ≤ 3)%nat → q ≠ p → entry_at m' r2 q j = entry_at m r2 q j;
  lv_here : ∃ e', entry_at m' r p i = Some e' ∧ (user tf = true → user e' = true);
  lv_reach : reach m' r (p ++ [i]) = Some t';
  lv_mono : ∀ r2 q x, r2 ∈ rs → (length q ≤ 3)%nat → reach m r2 q = Some x → reach m' r2 q = Some x;
  lv_takes : takes (if bool_decide (reach m r (p ++ [i]) = None) then 1 else 0) b b';
  lv_free : ∀ j, fr_free b' j → fr_free b j;
  lv_data : ∀ x, data_frame rs m b x → m' x = m x ∧ data_frame rs m' b' x;
}.

Lemma reach_None : reach m r (p ++ [i]) = None ↔ fetch m t i = None.
Proof. rewrite reach_snoc. unfold entry_at. rewrite Hp. simpl. by destruct (fetch m t i). Qed.

Lemma open_level total :
  (total = true → reach m r (p ++ [i]) = None → available b 1) →
  ends total (Mapper.get_or_create_table t i tf m b) (λ '(t', m', b'), level m' b' t').
Proof.
  rewrite reach_None. intros Hav. eapply ends_mono; [by apply get_or_create_table_spec|].
  intros [[t' m'] b'] Hop. split; try apply Hop.
  - intros r2 q j. by apply (opened_other m' b' t').
  - destruct (opened_here _ _ _ Hop) as (e' & ? & _ & ?). eauto.
  - by eapply opened_reach.
  - intros r2 q x. by apply (opened_mono m' b' t').
  - rewrite (bool_decide_ext _ _ reach_None). apply Hop.
  - intros x. by apply (opened_data m' b' t').
Qed.
End level.

(** ** Mapping a page *)

Definition prefixes (v : Z) : list (list Z) :=
  [[Mapper.pml4_idx v]; [Mapper.pml4_idx v; Mapper.pdpt_idx v]; path v].

(** How many tables are missing on the way to [v]. *)
Definition cost (m : pmem) (r v : Z) : nat := length (filter (λ q, reach m r q = None) (prefixes v)).

(** The effect of [Mapper.map]: the page of [v] gets the entry [e] in every
    space that shares its last table, and no other page changes. *)
Record mapped (rs : list Z) (m m' : pmem) (b b' : B) (r v e : Z) : Prop := {
  mp_ok : fr_ok b';
  mp_spaces : spaces m' (fr_free b') rs;
  mp_leaf : ∀ r2 w, r2 ∈ rs →
    leaf m' r2 w =
      if bool_decide (vpn w = vpn v ∧ reach m' r2 (path v) = reach m' r (path v)) then Some e
      else leaf m r2 w;
  mp_mono : ∀ r2 q x, r2 ∈ rs → (length q ≤ 3)%nat → reach m r2 q = Some x → reach m' r2 q = Some x;
  mp_way : ∀ q, q ∈ prefixes v → is_Some (reach m' r q);
  mp_takes : takes (cost m r v) b b';
  mp_free : ∀ j, fr_free b' j → fr_free b j;
  mp_data : ∀ x, data_frame rs m b x → m' x = m x ∧ data_frame rs m' b' x;
}.

Lemma table_flags_for_ok flags :
  table_flags_ok (Mapper.table_flags_for flags) ∧ user (Mapper.table_flags_for flags) = user flags.
Proof.
  assert (EntryFlags.contains flags EntryFlags.USER = user flags) as Hc.
  { unfold EntryFlags.contains, EntryFlags.USER, user. rewrite <- land_pow2_testbit by done.
    change (Z.shiftl 1 2) with 4. change (2 ^ 2) with 4. change 4 with (2 ^ 2).
    assert (Z.land flags (2 ^ 2) = 0 ∨ Z.land flags (2 ^ 2) = 4) as [-> | ->]; [|done..].
    assert (Z.land flags (2 ^ 2) = if Z.testbit flags 2 then 4 else 0) as ->; [|by destruct (Z.testbit flags 2); auto].
    apply Z.bits_inj'. intros k Hk. rewrite Z.land_spec. destruct (decide (k = 2)) as [->|Hk2].
    - by destruct (Z.testbit flags 2).
    - rewrite (Z.pow2_bits_false 2 k), andb_false_r by done. change 4 with (2 ^ 2).
      destruct (Z.testbit flags 2); [by rewrite Z.pow2_bits_false|by rewrite Z.bits_0]. }
  unfold Mapper.table_flags_for. rewrite Hc. destruct (user flags); by vm_compute.
Qed.

(** The three levels above a page: they keep every page, and admit user mode
    when the new page does. *)
Record way (rs : list Z) (m m3 : pmem) (b b3 : B) (r v tf t3 : Z) : Prop := {
  wy_ok : fr_ok b3;
  wy_spaces : spaces m3 (fr_free b3) rs;
  wy_reach : reach m3 r (path v) = Some t3;
  wy_leaf : ∀ r2 w, r2 ∈ rs → leaf m3 r2 w = leaf m r2 w;
  wy_mono : ∀ r2 q x, r2 ∈ rs → (length q ≤ 3)%nat → reach m r2 q = Some x → reach m3 r2 q = Some x;
  wy_user : user tf = true → ∀ q k s f, path v = q ++ k :: s → entry_at m3 r q k = Some f → user f = true;
  wy_takes : takes (cost m r v) b b3;
  wy_free : ∀ j, fr_free b3 j → fr_free b j;
  wy_data : ∀ x, data_frame rs m b x → m3 x = m x ∧ data_frame rs m3 b3 x;
}.

Lemma bool_cost (m : pmem) r p q s :
  length (filter (λ x, reach m r x = None) [p; q; s]) =
    ((if bool_decide (reach m r s = None) then 1 else 0) + (if bool_decide (reach m r q = None) then 1 else 0) +
     (if bool_decide (reach m r p = None) then 1 else 0))%nat.
Proof. rewrite !filter_cons, filter_nil. repeat (case_decide; case_bool_decide); simpl; done || lia. Qed.

Lemma map_way total rs m b r v tf :
  spaces m (fr_free b) rs → fr_ok b → r ∈ rs → table_flags_ok tf → (total = true → available b (cost m r v)) →
  ends total (
    '(t1, m1, b1) ← Mapper.get_or_create_table r (Mapper.pml4_idx v) tf m b;
    '(t2, m2, b2) ← Mapper.get_or_create_table t1 (Mapper.pdpt_idx v) tf m1 b1;
    Mapper.get_or_create_table t2 (Mapper.pd_idx v) tf m2 b2)
    (λ '(t3, m3, b3), way rs m m3 b b3 r v tf t3).
Proof.
  intros Hsp Hok Hr Htf Hav. set (a := Mapper.pml4_idx v). set (c := Mapper.pdpt_idx v). set (d := Mapper.pd_idx v).
  assert (0 ≤ a < 512 ∧ 0 ≤ c < 512 ∧ 0 ≤ d < 512) as (Ha & Hc & Hd) by (split_and!; apply idx_range).
  assert (cost m r v = ((if bool_decide (reach m r ([a; c] ++ [d]) = None) then 1 else 0) +
    (if bool_decide (reach m r ([a] ++ [c]) = None) then 1 else 0) +
    (if bool_decide (reach m r ([] ++ [a]) = None) then 1 else 0))%nat) as Hk by apply bool_cost.
  eapply ends_bind; [apply (open_level rs m b Hsp Hok r [] r Hr eq_refl (Nat.le_0_l _) a Ha tf Htf total)|].
  { intros Ht Hn. eapply available_le; [|exact (Hav Ht)]. rewrite Hk, (bool_decide_true _ Hn). lia. }
  intros [[t1 m1] b1] L1. pose proof L1 as [Hok1 Hsp1 X1 U1 R1 M1 T1 F1 D1].
  assert (∀ q j, q ≠ [] → (length q ≤ 2)%nat → reach m1 r (q ++ [j]) = reach m r (q ++ [j])) as S1.
  { intros q j Hq Hl. rewrite !reach_snoc, X1 by (done || lia). done. }
  rewrite <- !S1 in Hk by (simpl; done || lia).
  eapply ends_bind; [apply (open_level rs m1 b1 Hsp1 Hok1 r [a] t1 Hr R1 ltac:(simpl; lia) c Hc tf Htf total)|].
  { intros Ht Hn. eapply (takes_available _ _ _ _ T1), available_le; [|exact (Hav Ht)]. rewrite Hk, (bool_decide_true _ Hn). lia. }
  intros [[t2 m2] b2] L2. pose proof L2 as [Hok2 Hsp2 X2 U2 R2 M2 T2 F2 D2].
  assert (reach m2 r ([a; c] ++ [d]) = reach m1 r ([a; c] ++ [d])) as S2.
  { rewrite !reach_snoc, X2 by (simpl; done || lia). done. }
  rewrite <- S2 in Hk. pose proof (takes_trans _ _ _ _ _ T1 T2) as T12.
  eapply ends_mono; [apply (open_level rs m2 b2 Hsp2 Hok2 r [a; c] t2 Hr R2 ltac:(simpl; lia) d Hd tf Htf total)|].
  { intros Ht Hn. eapply (takes_available _ _ _ _ T12), available_le; [|exact (Hav Ht)]. rewrite Hk, (bool_decide_true _ Hn). lia. }
  intros [[t3 m3] b3] L3. pose proof L3 as [Hok3 Hsp3 X3 U3 R3 M3 T3 F3 D3].
  split; [done|done|exact R3| |auto| | |auto|].
  - intros r2 w Hr2. unfold leaf. by rewrite X3, X2, X1 by (simpl; done || lia).
  - intros Hu q k s f Hq Hf. destruct U1 as (e1 & E1 & V1), U2 as (e2 & E2 & V2), U3 as (e3 & E3 & V3).
    rewrite <- X2, <- X3 in E1 by (simpl; done || lia). rewrite <- X3 in E2 by (simpl; done || lia).
    change (path v) with [a; c; d] in Hq. destruct q as [|x0 [|x1 [|x2 q]]]; cbn [app] in Hq.
    + injection Hq as <- _. rewrite E1 in Hf. injection Hf as <-. auto.
    + injection Hq as <- <- _. rewrite E2 in Hf. injection Hf as <-. auto.
    + injection Hq as <- <- <- _. rewrite E3 in Hf. injection Hf as <-. auto.
    + apply (f_equal length) in Hq. simpl in Hq. rewrite length_app in Hq. simpl in Hq. lia.
  - eapply takes_le; [|exact (takes_trans _ _ _ _ _ T12 T3)]. rewrite Hk. lia.
  - intros x [E1 X1']%D1. destruct (D2 x X1') as [E2 X2']. destruct (D3 x X2') as [E3 X3']. by rewrite E3, E2, E1.
Qed.

(** The sharing of a table in the lower half is impossible. *)
Lemma low_private m free rs r r2 q t :
  spaces m free rs → r ∈ rs → r2 ∈ rs → (length q ≤ 3)%nat → ¬ high q →
  reach m r q = Some t → reach m r2 q = Some t → r2 = r.
Proof.
  intros Hsp Hr Hr2 Hq Hh H1 H2. by destruct (sp_tree _ _ _ Hsp r r2 q q t Hr Hr2 Hq Hq H1 H2) as [_ [<-|?]].
Qed.

Lemma map_spec total rs m b r v phys flags :
  spaces m (fr_free b) rs → fr_ok b → r ∈ rs → (user flags = true → Mapper.pml4_idx v < 256) →
  (total = true → available b (cost m r v)) →
  ends total (Mapper.map r v phys flags m b) (λ '(m', b'),
    mapped rs m m' b b' r v (Entry.set_addr phys (flags .| EntryFlags.PRESENT))).
Proof.
  intros Hsp Hok Hr Hlow Hav. destruct (table_flags_for_ok flags) as [Htf Hut]. set (tf := Mapper.table_flags_for flags) in *.
  pose proof (map_way total rs m b r v tf Hsp Hok Hr Htf Hav) as Hway. unfold Mapper.map. cbv zeta. fold tf.
  destruct (Mapper.get_or_create_table r _ tf m b) as [[[t1 m1] b1]| |]; [|exact Hway..]. rewrite Ret_bind in Hway. rewrite Ret_bind.
  destruct (Mapper.get_or_create_table t1 _ tf m1 b1) as [[[t2 m2] b2]| |]; [|exact Hway..]. rewrite Ret_bind in Hway. rewrite Ret_bind.
  destruct (Mapper.get_or_create_table t2 _ tf m2 b2) as [[[t3 m3] b3]| |]; [|exact Hway..]. rewrite Ret_bind.
  cbn [ends] in Hway. destruct Hway as [Hok3 Hsp3 R3 L3 M3 U3 A3 F3 D3].
  set (e := Entry.set_addr phys (flags .| EntryFlags.PRESENT)). assert (0 ≤ Mapper.pt_idx v < 512) as Hi by apply idx_range.
  destruct (set_addr_bits phys (flags .| EntryFlags.PRESENT)) as (BP & _ & BU & _). fold e in BP, BU.
  assert (present e = true) as Hpe.
  { rewrite BP. unfold present. rewrite Z.lor_spec. apply orb_true_r. }
  rewrite (set_entry_ok m3) by (try done; apply (sp_len _ _ _ Hsp3)). rewrite Ret_bind.
  fold (write t3 (Mapper.pt_idx v) e m3). set (m' := write t3 (Mapper.pt_idx v) e m3). cbn [ends].
  assert (writes rs m3 m' t3 (Mapper.pt_idx v) e) as Hw.
  { apply (write_writes m3 _ rs Hsp3 r (path v) t3 Hr R3 _ Hi e Hpe); [done|by left]. }
  assert (∀ r2 q, r2 ∈ rs → (length q ≤ 3)%nat → reach m' r2 q = reach m3 r2 q) as Hreach.
  { intros r2 q Hr2 Hq. destruct q as [|j q _] using rev_ind; [done|]. rewrite length_app in Hq. simpl in Hq.
    rewrite (reach_writes _ _ _ _ _ _ Hw) by (try done; lia). case_bool_decide as Hat; [|done]. destruct Hat as [Hat _].
    pose proof (only_path m3 _ rs Hsp3 r _ t3 Hr R3 r2 q Hr2 ltac:(done) ltac:(lia) Hat) as ->. simpl in Hq. lia. }
  split; [done| | | | |exact A3|done|].
  - apply (spaces_leaf m3 m' (fr_free b3) _ rs Hsp3 r (path v) t3 Hr R3 _ e Hw); [|done|done|].
    { apply write_len, (sp_len _ _ _ Hsp3). }
    intros Hu q k s f Hq r2 Hr2 Hr2t Hf. assert (user flags = true) as Huf.
    { rewrite BU in Hu. unfold user in *. rewrite Z.lor_spec in Hu. by rewrite orb_false_r in Hu. }
    assert (r2 = r) as ->.
    { eapply (low_private m3 _ rs r r2 (path v)); try done. intros (j & s' & [= <- _] & ?). specialize (Hlow Huf). lia. }
    eapply U3; [by rewrite Hut|exact Hq|exact Hf].
  - intros r2 w Hr2. rewrite !Hreach by done. rewrite R3. unfold leaf at 1. rewrite Hw by done.
    case_bool_decide as H1; case_bool_decide as H2; [done| | |by apply L3]; exfalso.
    + destruct H1 as [H1 Hj]. pose proof (only_path m3 _ rs Hsp3 r _ t3 Hr R3 r2 (path w) Hr2 (le_n 3) (le_n 3) H1) as Hpw.
      apply H2. split; [by apply same_page|by rewrite <- Hpw].
    + destruct H2 as [[Hpw Hj]%same_page H2]. apply H1. by rewrite Hpw.
  - intros r2 q x Hr2 Hq Hx. rewrite Hreach by done. by apply M3.
  - intros q Hq. unfold prefixes in Hq. rewrite !elem_of_cons, elem_of_nil in Hq.
    assert (∃ s, path v = q ++ s ∧ (length q ≤ 3)%nat) as (s & Hs & Hl).
    { destruct Hq as [->|[->|[->|[]]]];
      [exists [Mapper.pdpt_idx v; Mapper.pd_idx v]|exists [Mapper.pd_idx v]|exists []];
      split; first [reflexivity|simpl; lia]. }
    rewrite Hreach by done. rewrite Hs, reach_app in R3. destruct (reach m3 r q); [eauto|done].
  - intros x [E X]%D3. rewrite <- E. destruct X as [Hnt Hnf]. split.
    + unfold m', write, pm_upd. rewrite decide_False; [done|]. intros ->. by apply (Hnt r (path v)).
    + split; [|done]. intros r2 q Hr2 Hq. rewrite Hreach by done. by apply Hnt.
Qed.
End mapper.
