(* ===== verification/PagingPlan.v ===== *)
(** * Sequences of mappings

    Boot and process creation map many pages into one table.  A plan is the
    list of these requests; the last request for a page decides, and as many
    frames are consumed as there are tables missing on the ways to the pages,
    counted once each. *)

From S2P Require Import Prelude Buddy Address Paging PagingInv PagingMap.
Local Open Scope Z_scope.
Local Open Scope paging_scope.

Record req := mkReq { rq_virt : Z; rq_phys : Z; rq_flags : Z }.

Definition req_entry (q : req) : Z := Entry.set_addr (rq_phys q) (rq_flags q .| EntryFlags.PRESENT).

(** The entry a plan leaves for the page of [w]. *)
Definition planned (l : list req) (w : Z) (d : option Z) : option Z :=
  foldl (λ d q, if decide (vpn w = vpn (rq_virt q)) then Some (req_entry q) else d) d l.

(** The tables on the ways to the pages of a plan. *)
Definition tables (l : list req) : list (list Z) := remove_dups (l ≫= λ q, prefixes (rq_virt q)).
Definition missing (m : pmem) (r : Z) (l : list req) : nat :=
  length (filter (λ p, reach m r p = None) (tables l)).

Lemma planned_app l1 l2 w d : planned (l1 ++ l2) w d = planned l2 w (planned l1 w d).
Proof. apply foldl_app. Qed.
Lemma planned_none l w d : (∀ q, q ∈ l → vpn w ≠ vpn (rq_virt q)) → planned l w d = d.
Proof.
  induction l as [|q l IH] in d |- *; intros H; [done|]. simpl. rewrite decide_False by (apply H; by left).
  apply IH. intros q' Hq'. apply H. by right.
Qed.
(** All requests for the page agree. *)
Lemma planned_uniform l w d e :
  (∀ q, q ∈ l → vpn w = vpn (rq_virt q) → req_entry q = e) →
  planned l w d = if decide (Exists (λ q, vpn w = vpn (rq_virt q)) l) then Some e else d.
Proof.
  induction l as [|q l IH] in d |- *; intros H; [done|].
  assert (∀ q', q' ∈ l → vpn w = vpn (rq_virt q') → req_entry q' = e) as Hl by (intros q' Hq'; apply H; by right).
  simpl. rewrite IH by done. destruct (decide (vpn w = vpn (rq_virt q))) as [Hq|Hq].
  - rewrite (decide_True (P := Exists _ (q :: l))) by (by left). rewrite (H q ltac:(by left) Hq). by case_decide.
  - rewrite (decide_ext (Exists (λ q, vpn w = vpn (rq_virt q)) (q :: l)) (Exists (λ q, vpn w = vpn (rq_virt q)) l)); [done|].
    rewrite Exists_cons. naive_solver.
Qed.

(** Every planned entry comes from a request. *)
Lemma planned_from l w d : planned l w d = d ∨ ∃ q, q ∈ l ∧ vpn w = vpn (rq_virt q) ∧ planned l w d = Some (req_entry q).
Proof.
  induction l as [|q l IH] in d |- *; [by left|]. simpl.
  destruct (decide (vpn w = vpn (rq_virt q))) as [Hq|Hq].
  - destruct (IH (Some (req_entry q))) as [->|(q' & ? & ? & ->)]; right; [exists q|exists q']; split_and!; done || by constructor.
  - destruct (IH d) as [->|(q' & ? & ? & ->)]; [by left|right; exists q'; split_and!; done || by constructor].
Qed.

Lemma prefixes_NoDup v : NoDup (prefixes v).
Proof. unfold prefixes, path. repeat constructor; rewrite ?elem_of_cons, ?elem_of_nil; naive_solver. Qed.

Lemma missing_cons (m m' : pmem) r q l :
  (∀ p x, (length p ≤ 3)%nat → reach m r p = Some x → reach m' r p = Some x) →
  (∀ p, p ∈ prefixes (rq_virt q) → is_Some (reach m' r p)) →
  (missing m' r l + cost m r (rq_virt q) ≤ missing m r (q :: l))%nat.
Proof.
  intros Hmono Hway. unfold missing, cost. rewrite <- length_app. apply submseteq_length, NoDup_submseteq.
  - apply NoDup_app. split_and!.
    + apply NoDup_filter, NoDup_remove_dups.
    + intros p [Hp _]%list_elem_of_filter [_ Hp']%list_elem_of_filter. destruct (Hway p Hp') as [x Hx]. congruence.
    + apply NoDup_filter, prefixes_NoDup.
  - intros p. rewrite elem_of_app, !list_elem_of_filter. unfold tables. rewrite !elem_of_remove_dups, bind_cons, elem_of_app.
    intros [[Hp' Hin]|[Hp' Hin]]; [|by auto]. split; [|by auto]. destruct (reach m r p) as [x|] eqn:E; [|done].
    apply list_elem_of_bind in Hin as (q' & Hin & _). rewrite (Hmono p x) in Hp'; [done| |done].
    unfold prefixes in Hin. rewrite !elem_of_cons, elem_of_nil in Hin. destruct Hin as [->|[->|[->|[]]]]; simpl; lia.
Qed.

Section plan.
Context `{FS : FrameSource B, FL : !FrameLaws B}.

Definition map_all (r : Z) (l : list req) (s : pmem * B) : outcome (pmem * B) :=
  for_each l (λ q '(m, b), Mapper.map r (rq_virt q) (rq_phys q) (rq_flags q) m b) s.

Definition low_user (q : req) : Prop := user (rq_flags q) = true → Mapper.pml4_idx (rq_virt q) < 256.

Record mapped_all (rs : list Z) (m m' : pmem) (b b' : B) (r : Z) (l : list req) : Prop := {
  ma_ok : fr_ok b';
  ma_spaces : spaces m' (fr_free b') rs;
  ma_leaf : ∀ w, leaf m' r w = planned l w (leaf m r w);
  ma_other : ∀ r2 w, r2 ∈ rs → r2 ≠ r → (∀ q, q ∈ l → Mapper.pml4_idx (rq_virt q) < 256) → leaf m' r2 w = leaf m r2 w;
  ma_mono : ∀ r2 p x, r2 ∈ rs → (length p ≤ 3)%nat → reach m r2 p = Some x → reach m' r2 p = Some x;
  ma_takes : takes (missing m r l) b b';
  ma_free : ∀ j, fr_free b' j → fr_free b j;
  ma_data : ∀ x, data_frame rs m b x → m' x = m x ∧ data_frame rs m' b' x;
}.

Lemma mapped_here rs m m' b b' r v e w :
  r ∈ rs → mapped rs m m' b b' r v e → leaf m' r w = if decide (vpn w = vpn v) then Some e else leaf m r w.
Proof.
  intros Hr Hm. rewrite (mp_leaf _ _ _ _ _ _ _ _ Hm) by done.
  case_decide; [rewrite bool_decide_true by done|rewrite bool_decide_false by naive_solver]; done.
Qed.
Lemma mapped_low_other rs m m' b b' r v e r2 w :
  r ∈ rs → r2 ∈ rs → r2 ≠ r → mapped rs m m' b b' r v e → Mapper.pml4_idx v < 256 → leaf m' r2 w = leaf m r2 w.
Proof.
  intros Hr Hr2 Hne Hm Hlow. rewrite (mp_leaf _ _ _ _ _ _ _ _ Hm) by done. case_bool_decide as Hc; [|done].
  destruct Hc as [_ Hc]. destruct (mp_way _ _ _ _ _ _ _ _ Hm (path v)) as [t Ht]; [by right; right; left|].
  rewrite Ht in Hc. exfalso. apply Hne. eapply (low_private m' _ rs r r2 (path v) t); [apply Hm|done|done|done| |done|done].
  intros (j & s' & [= <- _] & ?). lia.
Qed.

Lemma map_all_spec total rs r l m b :
  spaces m (fr_free b) rs → fr_ok b → r ∈ rs → Forall low_user l → (total = true → available b (missing m r l)) →
  ends total (map_all r l (m, b)) (λ '(m', b'), mapped_all rs m m' b b' r l).
Proof.
  intros Hsp Hok Hr Hlow. revert m b Hsp Hok. induction Hlow as [|q l Hq Hlow IH]; intros m b Hsp Hok Hav.
  { split; try done. constructor. }
  unfold map_all. cbn [for_each]. eapply ends_bind; [apply (map_spec total rs m b r _ _ _ Hsp Hok Hr Hq)|].
  { intros Ht. eapply available_le; [|exact (Hav Ht)]. unfold missing, cost. apply submseteq_length, NoDup_submseteq.
    - apply NoDup_filter, prefixes_NoDup.
    - intros p. rewrite !list_elem_of_filter. unfold tables. rewrite elem_of_remove_dups, bind_cons, elem_of_app. tauto. }
  intros [m1 b1] H1. assert (missing m1 r l + cost m r (rq_virt q) ≤ missing m r (q :: l))%nat as Hcost.
  { apply missing_cons; [|apply H1]. intros p x. by apply (mp_mono _ _ _ _ _ _ _ _ H1). }
  eapply ends_mono; [apply (IH m1 b1)|]; [apply H1|apply H1| |].
  { intros Ht. eapply takes_available; [apply H1|]. eapply available_le; [exact Hcost|auto]. }
  intros [m' b'] [Aok Asp Aleaf Aother Amono Atk Afree Adata]. split; [done|done| | | | | |].
  - intros w. by rewrite Aleaf, (mapped_here rs m m1 b b1 r _ _ w Hr H1).
  - intros r2 w Hr2 Hne Hall. rewrite Aother; [|done|done|intros q' Hq'; apply Hall; by right].
    apply (mapped_low_other rs m m1 b b1 r _ _ r2 w Hr Hr2 Hne H1). apply Hall. by left.
  - intros r2 p x Hr2 Hp Hx. apply Amono; [done..|]. by apply (mp_mono _ _ _ _ _ _ _ _ H1).
  - eapply takes_le; [|eapply takes_trans; [apply H1|exact Atk]]. lia.
  - intros j Hj. by apply (mp_free _ _ _ _ _ _ _ _ H1), Afree.
  - intros x [E1 X1]%(mp_data _ _ _ _ _ _ _ _ H1). destruct (Adata x X1) as [E2 X2]. by rewrite E2, E1.
Qed.
End plan.
