(* ===== verification/PagingCorrect.v ===== *)
(** * User address spaces

    A new address space starts with the kernel's upper half and nothing else;
    mapping a page changes that page and no other, in one address space only
    as long as the page is in the lower half. *)

From S2P Require Import Prelude Links Buddy BuddyInv BuddyOps BuddyInit BuddyCorrect Address Paging PagingInv PagingMap PagingPlan.
Local Open Scope Z_scope.
Local Open Scope paging_scope.

Section correct.
Context `{FS : FrameSource B, FL : !FrameLaws B}.

(** The state of paging is sound for the address spaces [rs]. *)
Definition paging_ok (s : paging) (rs : list Z) : Prop :=
  ∃ b, pg_buddy s = Some b ∧ fr_ok b ∧ spaces (pg_mem s) (fr_free b) rs.

(** At least [n] frames for tables are left. *)
Definition spare (s : paging) (n : nat) : Prop := ∃ b, pg_buddy s = Some b ∧ available b n.

Definition pg_free (s : paging) (j : Z) : Prop := ∃ b, pg_buddy s = Some b ∧ fr_free b j.

(** The lower half of the address space. *)
Definition low_half (v : Z) : bool := Mapper.pml4_idx v <? 256.

(** ** A root with the kernel's half *)

Lemma copy_kernel_half_ok (m : pmem) kernel user :
  (∀ x, length (m x) = 512%nat) → user ≠ kernel →
  ∃ m', copy_kernel_half kernel user m = Ret m' ∧
    (∀ x, length (m' x) = 512%nat) ∧ (∀ x, x ≠ user → m' x = m x) ∧
    ∀ i, 0 ≤ i < 512 → arr_get (m' user) i = if 256 <=? i then arr_get (m kernel) i else arr_get (m user) i.
Proof.
  intros Hlen Hne. unfold copy_kernel_half, for_range. change (512 - 256) with (Z.of_nat 256).
  cut (∀ n : nat, (n ≤ 256)%nat → ∃ m', for_each (seqZ 256 (Z.of_nat n)) (λ index m,
      e ← entry index (m kernel); t ← set_entry index e (m user); Ret (pm_upd user t m)) m = Ret m' ∧
    (∀ x, length (m' x) = 512%nat) ∧ (∀ x, x ≠ user → m' x = m x) ∧
    ∀ i, 0 ≤ i < 512 → arr_get (m' user) i =
      if bool_decide (256 ≤ i < 256 + Z.of_nat n) then arr_get (m kernel) i else arr_get (m user) i).
  { intros Hn. destruct (Hn 256%nat (le_n _)) as (m' & -> & Hl & Ho & Hi). exists m'. split_and!; [done..|].
    intros i Hb. rewrite Hi by done. destruct (Z.leb_spec 256 i); [rewrite bool_decide_true by lia|rewrite bool_decide_false by lia]; done. }
  induction n as [|n IH]; intros Hn.
  { exists m. split_and!; [done..|]. intros i Hi. by rewrite bool_decide_false by lia. }
  destruct IH as (m1 & Hm1 & Hl1 & Ho1 & Hi1); [lia|].
  rewrite seqZ_S, for_each_app, Hm1, Ret_bind. cbn [for_each].
  destruct (entry_ok (m1 kernel) (256 + Z.of_nat n) (Hl1 kernel) ltac:(lia)) as (e & -> & Hg). rewrite Ret_bind.
  rewrite (set_entry_ok m1) by (done || lia). rewrite !Ret_bind. eexists. split; [done|]. split_and!.
  - apply write_len; done.
  - intros x Hx. unfold pm_upd. rewrite decide_False by done. by apply Ho1.
  - intros i Hi. unfold pm_upd. rewrite decide_True by done.
    assert (arr_set (m1 user) (256 + Z.of_nat n) e = Some (<[Z.to_nat (256 + Z.of_nat n) := e]> (m1 user))) as Hs.
    { unfold arr_set, zlen. rewrite Hl1. change (Z.of_nat 512) with 512. by replace ((0 <=? 256 + Z.of_nat n) && (256 + Z.of_nat n <? 512)) with true by lia. }
    rewrite (arr_set_get _ _ _ _ i Hs). case_decide as Hd.
    + subst i. rewrite bool_decide_true by lia. by rewrite <- Hg, Ho1 by done.
    + rewrite Hi1 by done. by rewrite (bool_decide_ext (256 ≤ i < 256 + Z.of_nat (S n)) (256 ≤ i < 256 + Z.of_nat n)) by lia.
Qed.

Section new_root.
Context (m m' : pmem) (free free' : Z → Prop) (rs : list Z) (Hsp : spaces m free rs) (k u : Z) (Hk : k ∈ rs).
Context (Hu : frame_ok u) (Hfree : free (u / PAGE_SIZE)) (Hfree' : ∀ j, free' j → free j ∧ j ≠ u / PAGE_SIZE).
Context (Hlen : ∀ x, length (m' x) = 512%nat) (Hother : ∀ x, x ≠ u → m' x = m x).
Context (Hnew : ∀ i, fetch m' u i = if 256 <=? i then fetch m k i else None).

Lemma table_not_new r p t : r ∈ rs → (length p ≤ 3)%nat → reach m r p = Some t → t ≠ u.
Proof. intros Hr Hp Ht ->. by destruct (sp_table _ _ _ Hsp r p u Hr Hp Ht). Qed.

Lemma fetch_other x i : x ≠ u → fetch m' x i = fetch m x i.
Proof. intros Hx. unfold fetch. by rewrite Hother. Qed.

Lemma old_entry r p i : r ∈ rs → (length p ≤ 3)%nat → entry_at m' r p i = entry_at m r p i ∧ reach m' r p = reach m r p.
Proof.
  intros Hr. revert i. induction p as [|j p IH] using rev_ind; intros i Hp.
  - unfold entry_at. simpl. rewrite fetch_other; [done|]. by apply (table_not_new r []).
  - rewrite length_app in Hp. simpl in Hp. assert (reach m' r (p ++ [j]) = reach m r (p ++ [j])) as E.
    { rewrite !reach_snoc. by rewrite (proj1 (IH j ltac:(lia))). }
    split; [|done]. unfold entry_at. rewrite E. destruct (reach m r (p ++ [j])) as [t|] eqn:Et; simpl; [|done].
    apply fetch_other. eapply (table_not_new r (p ++ [j])); [done|rewrite length_app; simpl; lia|done].
Qed.

Lemma new_entry p i : (length p ≤ 3)%nat →
  entry_at m' u p i = if 256 <=? hd i p then entry_at m k p i else None.
Proof.
  intros Hp. destruct p as [|j p]; unfold entry_at; cbn [reach hd mbind option_bind]; [apply Hnew|].
  rewrite Hnew. simpl in Hp. destruct (Z.leb_spec 256 j); [|done].
  pose proof (proj1 (old_entry k (j :: p) i Hk Hp)) as E. unfold entry_at in E. cbn [reach] in E.
  rewrite (fetch_other k j) in E; [exact E|]. by apply (table_not_new k []); [|apply Nat.le_0_l|].
Qed.

(** What a table or an entry of the new set of spaces was before. *)
Lemma new_entry_inv r p i e : r ∈ u :: rs → (length p ≤ 3)%nat → entry_at m' r p i = Some e →
  ∃ o, o ∈ rs ∧ entry_at m o p i = Some e ∧ (r = o ∨ (r = u ∧ o = k ∧ 256 ≤ hd i p)).
Proof.
  intros [->|Hr]%elem_of_cons Hp.
  - rewrite new_entry by done. destruct (Z.leb_spec 256 (hd i p)); [|done]. intros He. exists k. auto 6.
  - rewrite (proj1 (old_entry r p i Hr Hp)). eauto 6.
Qed.
Lemma new_reach_inv r p t : r ∈ u :: rs → (length p ≤ 3)%nat → reach m' r p = Some t →
  (r = u ∧ p = [] ∧ t = u) ∨ ∃ o, o ∈ rs ∧ reach m o p = Some t ∧ (r = o ∨ high p).
Proof.
  intros Hr Hp. destruct p as [|j q _] using rev_ind.
  - intros [= ->]. apply elem_of_cons in Hr as [->|Hr]; [by left|]. right. exists t. auto.
  - rewrite length_app in Hp. simpl in Hp. rewrite reach_snoc. intros (e & He & ->)%fmap_Some. right.
    destruct (new_entry_inv r q j e Hr ltac:(lia) He) as (o & Ho & Hoe & Hcase). exists o. split_and!; [done| |].
    { by rewrite reach_snoc, Hoe. }
    destruct Hcase as [?|(-> & -> & H)]; [by left|right]. destruct q as [|x q]; simpl in H; [by exists j, []|by exists x, (q ++ [j])].
Qed.

Lemma spaces_new_root : spaces m' free' (u :: rs).
Proof.
  split; [done| | | |].
  - intros r1 r2 p q t Hr1 Hr2 Hp Hq H1 H2. apply new_reach_inv in H1, H2; [|done..].
    destruct H1 as [(-> & -> & ->)|(o1 & Ho1 & H1 & C1)], H2 as [(-> & -> & E)|(o2 & Ho2 & H2 & C2)].
    + auto.
    + by destruct (table_not_new o2 q u).
    + subst t. by destruct (table_not_new o1 p u).
    + destruct (sp_tree _ _ _ Hsp o1 o2 p q t) as [<- Hc]; [done..|]. split; [done|]. naive_solver.
  - intros r p t Hr Hp H. apply new_reach_inv in H as [(_ & _ & ->)|(o & Ho & H & _)]; [|..|done|done].
    + split; [done|]. intros [_ ?]%Hfree'. done.
    + destruct (sp_table _ _ _ Hsp o p t Ho Hp H) as [? Hn]. split; [done|]. by intros [? _]%Hfree'.
  - intros r p i e Hr Hp He. destruct (new_entry_inv r p i e Hr ltac:(lia) He) as (o & Ho & Hoe & _).
    by apply (sp_inner _ _ _ Hsp o p i).
  - intros r p i e Hr Hp He Hue q j s f -> Hf. pose proof Hp as Hp'. rewrite length_app in Hp'. simpl in Hp'.
    destruct (new_entry_inv r (q ++ j :: s) i e Hr ltac:(lia) He) as (o & Ho & Hoe & Hcase).
    apply (sp_user _ _ _ Hsp o _ i e Ho Hp Hoe Hue q j s f eq_refl).
    destruct Hcase as [->|(-> & -> & _)]; [by rewrite (proj1 (old_entry o q j Ho ltac:(lia))) in Hf|].
    rewrite new_entry in Hf by lia. by destruct (256 <=? hd j q).
Qed.

Lemma old_leaf r v : r ∈ rs → leaf m' r v = leaf m r v.
Proof. intros Hr. by apply old_entry. Qed.
Lemma new_leaf v : leaf m' u v = if low_half v then None else leaf m k v.
Proof.
  unfold leaf. rewrite new_entry by done. unfold low_half, path. cbn [hd].
  destruct (Z.leb_spec 256 (Mapper.pml4_idx v)), (Z.ltb_spec (Mapper.pml4_idx v) 256); done || lia.
Qed.
Lemma new_reach i q : (length q ≤ 2)%nat → reach m' u (i :: q) = if 256 <=? i then reach m k (i :: q) else None.
Proof.
  intros Hq. destruct q as [|j q _] using rev_ind.
  - change [i] with ([] ++ [i]). rewrite !reach_snoc, new_entry by (simpl; lia). simpl. by destruct (256 <=? i).
  - rewrite length_app in Hq. simpl in Hq. change (i :: q ++ [j]) with ((i :: q) ++ [j]).
    rewrite !reach_snoc, new_entry by (simpl; lia). simpl hd. by destruct (256 <=? i).
Qed.
End new_root.

(** A single cleared root. *)
Lemma fetch_new m t i : m t = table_new → fetch m t i = None.
Proof.
  intros E. unfold fetch. rewrite E. destruct (arr_get table_new i) as [e|] eqn:Ee; [|done]. simpl.
  unfold arr_get in Ee. case_match; [|done]. apply lookup_replicate in Ee as [-> _]. done.
Qed.
Lemma entry_at_new m r p i : m r = table_new → entry_at m r p i = None.
Proof.
  intros E. destruct p as [|j p]; unfold entry_at; simpl; [by apply fetch_new|]. by rewrite fetch_new.
Qed.
Lemma reach_new m r p t : m r = table_new → reach m r p = Some t → p = [] ∧ t = r.
Proof.
  intros E. destruct p as [|j p _] using rev_ind; [by intros [= ->]|]. rewrite reach_snoc, entry_at_new by done. done.
Qed.
Lemma spaces_root (m : pmem) (free : Z → Prop) r :
  (∀ t, length (m t) = 512%nat) → m r = table_new → frame_ok r → ¬ free (r / PAGE_SIZE) → spaces m free [r].
Proof.
  intros Hlen Hr Hok Hfree. split; [done| | | |].
  - intros r1 r2 p q t ->%list_elem_of_singleton ->%list_elem_of_singleton _ _ [-> ->]%reach_new [-> _]%reach_new; auto.
  - intros r1 p t ->%list_elem_of_singleton _ [-> ->]%reach_new; auto.
  - intros r1 p i e ->%list_elem_of_singleton _. by rewrite entry_at_new.
  - intros r1 p i e ->%list_elem_of_singleton _. by rewrite entry_at_new.
Qed.

(** ** The operations *)

(** The new address space [u] in [s'], made from [s]. *)
Record new_space (rs : list Z) (s s' : paging) (u : Z) : Prop := {
  ns_ok : paging_ok s' (u :: rs);
  ns_kernel : KERNEL_PML4 s' = KERNEL_PML4 s;
  ns_fresh : u ∉ rs;
  ns_takes : ∃ b b', pg_buddy s = Some b ∧ pg_buddy s' = Some b' ∧ takes 1 b b';
  ns_free : ∀ j, pg_free s' j ↔ pg_free s j ∧ j ≠ u / PAGE_SIZE;
  ns_was : pg_free s (u / PAGE_SIZE);
  ns_leaf : ∀ v, leaf (pg_mem s') u v = if low_half v then None else leaf (pg_mem s) (KERNEL_PML4 s) v;
  ns_old : ∀ r v, r ∈ rs → leaf (pg_mem s') r v = leaf (pg_mem s) r v;
  ns_reach : ∀ i q, (length q ≤ 2)%nat →
    reach (pg_mem s') u (i :: q) = if 256 <=? i then reach (pg_mem s) (KERNEL_PML4 s) (i :: q) else None;
  ns_reach_old : ∀ r p, r ∈ rs → (length p ≤ 3)%nat → reach (pg_mem s') r p = reach (pg_mem s) r p;
  ns_data : ∀ x, x ≠ u → pg_mem s' x = pg_mem s x;
}.

Lemma create_user_page_table_spec total s rs :
  paging_ok s rs → KERNEL_PML4 s ∈ rs → KERNEL_PML4 s ≠ 0 → (total = true → spare s 1) →
  ends total (create_user_page_table s) (λ '(u, s'), new_space rs s s' u).
Proof.
  intros (b & Hb & Hok & Hsp) Hk Hk0 Hsp1.
  assert (total = true → available b 1) as Hav.
  { intros Ht. destruct (Hsp1 Ht) as (b0 & Hb0 & Hav). rewrite Hb in Hb0. by injection Hb0 as <-. }
  pose proof (take_frame total b Hok Hav) as Htake.
  unfold create_user_page_table, kernel_pml4. replace (KERNEL_PML4 s =? 0) with false by lia. cbn [negb assert_that].
  rewrite !Ret_bind, Hb. cbn [expect]. rewrite Ret_bind.
  destruct (frame_below 0 EARLY_PAGE_TABLE_LIMIT b) as [[[u|] b']| |]; try exact Htake. rewrite !Ret_bind. cbn [expect].
  rewrite Ret_bind. destruct Htake as (Hok' & Hu & Hfr & Hnow & Hg).
  destruct (sp_table _ _ _ Hsp (KERNEL_PML4 s) [] _ Hk ltac:(simpl; lia) eq_refl) as [(_ & _ & Hkm) Hkf].
  destruct Hu as (Hu0 & Hud & Hum). pose proof (phys_to_virt_ok _ Hkm) as E1. pose proof (phys_to_virt_ok _ Hum) as E2.
  unfold phys_to_virt in E1, E2. rewrite E1, Ret_bind, E2, Ret_bind.
  assert (u ≠ KERNEL_PML4 s) as Hne by (intros ->; done).
  destruct (copy_kernel_half_ok (pm_upd u table_new (pg_mem s)) (KERNEL_PML4 s) u) as (m' & -> & Hlen & Hother & Hcopy); [|done|].
  { apply new_len, (sp_len _ _ _ Hsp). }
  rewrite Ret_bind. cbn [ends].
  assert (∀ x, x ≠ u → m' x = pg_mem s x) as Hother'.
  { intros x Hx. rewrite Hother by done. unfold pm_upd. by rewrite decide_False. }
  assert (∀ i, fetch m' u i = if 256 <=? i then fetch (pg_mem s) (KERNEL_PML4 s) i else None) as Hnew.
  { intros i. destruct (decide (0 ≤ i < 512)) as [Hi|Hi].
    - unfold fetch. rewrite Hcopy by done. unfold pm_upd. rewrite decide_False, decide_True by done.
      destruct (256 <=? i); [done|]. pose proof (fetch_new (λ _, table_new) 0 i eq_refl) as E. exact E.
    - assert (∀ mm t, length (mm t : list Z) = 512%nat → fetch mm t i = None) as Hn.
      { intros mm t Hl. unfold fetch. rewrite (proj2 (arr_get_None _ _)); [done|]. unfold zlen. rewrite Hl. lia. }
      rewrite !Hn by (done || apply (sp_len _ _ _ Hsp)). by destruct (256 <=? i). }
  assert (spaces m' (fr_free b') (u :: rs)) as Hsp'.
  { eapply spaces_new_root; try done. intros j Hj. by apply Hnow. }
  split; cbn [pg_mem pg_buddy KERNEL_PML4].
  - by exists b'.
  - done.
  - intros Hin. by destruct (sp_table _ _ _ Hsp u [] u Hin ltac:(simpl; lia) eq_refl).
  - exists b, b'. split_and!; [done|done|]. econstructor; [exact Hg|constructor].
  - intros j. unfold pg_free. cbn [pg_buddy]. rewrite Hb. split.
    + intros (? & [= <-] & Hj). apply Hnow in Hj as [Hj ?]. eauto.
    + intros [(? & [= <-] & Hj) ?]. exists b'. split; [done|]. by apply Hnow.
  - by exists b.
  - intros v. by eapply new_leaf.
  - intros r v Hr. by eapply old_leaf.
  - intros i q Hq. by eapply new_reach.
  - intros r p Hr Hp. by eapply (old_entry _ _ _ _ Hsp u Hfr Hother' r p 0).
  - exact Hother'.
Qed.

(** One call of [map_into_page_table]. *)
Lemma map_into_spec total s rs r v phys flags :
  paging_ok s rs → r ∈ rs → (user flags = true → Mapper.pml4_idx v < 256) → (total = true → spare s (cost (pg_mem s) r v)) →
  ends total (map_into_page_table r v phys flags s) (λ s', ∃ b b',
    pg_buddy s = Some b ∧ pg_buddy s' = Some b' ∧ KERNEL_PML4 s' = KERNEL_PML4 s ∧
    mapped rs (pg_mem s) (pg_mem s') b b' r v (Entry.set_addr phys (flags .| EntryFlags.PRESENT))).
Proof.
  intros (b & Hb & Hok & Hsp) Hr Hlow Hav. unfold map_into_page_table, Mapper.new. rewrite Hb. cbn [expect].
  destruct (sp_table _ _ _ Hsp r [] r Hr ltac:(simpl; lia) eq_refl) as [(_ & _ & Hmax) _].
  rewrite !Ret_bind, phys_to_virt_ok by done. rewrite !Ret_bind.
  eapply ends_bind; [apply (map_spec total rs (pg_mem s) b r v phys flags Hsp Hok Hr Hlow)|].
  { intros Ht. destruct (Hav Ht) as (b0 & Hb0 & Hav0). rewrite Hb in Hb0. by injection Hb0 as <-. }
  intros [m' b'] Hm. exists b, b'. done.
Qed.

Lemma cost_le m r v : (cost m r v ≤ 3)%nat.
Proof. unfold cost. etransitivity; [apply length_filter|done]. Qed.

Lemma spare_cost s r v : spare s 3 → spare s (cost (pg_mem s) r v).
Proof. intros (b & Hb & Hav). exists b. split; [done|]. eapply available_le; [apply cost_le|done]. Qed.

(** The page an entry made by [set_addr] stands for. *)
Lemma set_addr_page phys flags :
  frame_ok phys → flags_ok flags →
  Entry.addr (Entry.set_addr phys (flags .| EntryFlags.PRESENT)) = phys ∧
  leaf_rights (Entry.set_addr phys (flags .| EntryFlags.PRESENT)) = leaf_rights flags.
Proof.
  intros (H0 & Hd & Hm) Hf. split.
  - rewrite addr_set_addr; [apply frame_mask; [done|done|lia]|]. unfold flags_ok. by rewrite Z.land_lor_distr_l, Hf.
  - destruct (set_addr_bits phys (flags .| EntryFlags.PRESENT)) as (_ & BW & BU & _ & BX). unfold leaf_rights.
    rewrite BW, BU, BX. unfold writable, user, no_exec. rewrite !Z.lor_spec. f_equal; apply orb_false_r.
Qed.

(** [create_user_page_table] returns a fresh root table: the lower half of
    the new address space is empty, its upper half translates as the
    kernel's, and no translation of an existing address space changes. *)
Theorem create_user_page_table_correct s rs :
  paging_ok s rs → KERNEL_PML4 s ∈ rs → KERNEL_PML4 s ≠ 0 → spare s 1 →
  ∃ u s', create_user_page_table s = Ret (u, s') ∧ paging_ok s' (u :: rs) ∧ KERNEL_PML4 s' = KERNEL_PML4 s ∧ u ∉ rs ∧
    (∀ v, translate (pg_mem s') u v =
       if low_half v then None else translate (pg_mem s) (KERNEL_PML4 s) v) ∧
    ∀ r v, r ∈ rs → translate (pg_mem s') r v = translate (pg_mem s) r v.
Proof.
  intros Hs Hk Hk0 Hsp.
  destruct (ends_total _ _ (create_user_page_table_spec true s rs Hs Hk Hk0 (λ _, Hsp))) as ([u s'] & Heq & [Hs' Hkk Hu _ _ _ Hnew Hold _ _ _]).
  exists u, s'. split_and!; [done..| |]; destruct Hs as (b & _ & _ & Hm), Hs' as (b' & _ & _ & Hm').
  - intros v. rewrite (translate_leaf _ _ _ u v Hm') by (by left). rewrite (translate_leaf _ _ _ _ v Hm Hk), Hnew.
    by destruct (low_half v).
  - intros r v Hr. rewrite (translate_leaf _ _ _ r v Hm') by (by right). by rewrite (translate_leaf _ _ _ _ v Hm Hr), Hold.
Qed.

(** C15: [map_into_page_table] on a page of the lower half makes exactly this
    page of this address space translate to the given frame with exactly the
    given rights.  Every other page keeps its translation and its rights,
    although the tables above it may have been opened for user mode, and no
    other address space changes. *)
Theorem map_into_page_table_correct s rs r v phys flags :
  paging_ok s rs → r ∈ rs → low_half v = true → frame_ok phys → flags_ok flags → spare s 3 →
  ∃ s', map_into_page_table r v phys flags s = Ret s' ∧ paging_ok s' rs ∧
    ∀ r2 w, r2 ∈ rs → translate (pg_mem s') r2 w =
      if decide (r2 = r ∧ vpn w = vpn v) then Some (phys + w mod PAGE_SIZE, leaf_rights flags)
      else translate (pg_mem s) r2 w.
Proof.
  intros Hs Hr Hlow Hph Hfl (b0 & Hb0 & Hav). unfold low_half in Hlow.
  destruct (ends_total _ _ (map_into_spec true s rs r v phys flags Hs Hr ltac:(lia) (λ _, spare_cost s r v (ex_intro _ b0 (conj Hb0 Hav)))))
    as (s' & Heq & b & b' & Hb & Hb' & Hk' & Hm).
  exists s'. split_and!; [done| |].
  { exists b'. split_and!; [done|apply Hm..]. }
  intros r2 w Hr2. cbn [pg_mem]. destruct Hs as (b1 & _ & _ & Hsp). destruct (set_addr_page phys flags Hph Hfl) as [Ha Hri].
  rewrite (translate_leaf _ _ _ r2 w (mp_spaces _ _ _ _ _ _ _ _ Hm) Hr2), (translate_leaf _ _ _ _ w Hsp Hr2).
  destruct (decide (r2 = r)) as [->|Hne].
  - rewrite (mapped_here _ _ _ _ _ _ _ _ w Hr Hm). case_decide; [rewrite decide_True by done|by rewrite decide_False by naive_solver].
    cbn [fmap option_fmap option_map]. by rewrite Ha, Hri.
  - rewrite (decide_False (P := _ ∧ _)) by naive_solver. by rewrite (mapped_low_other _ _ _ _ _ _ _ _ r2 w Hr Hr2 Hne Hm ltac:(lia)).
Qed.

(** A kernel page mapped in the upper half is seen in every address space
    that has the kernel's entry for it: all translate this page to the same
    frame with the same rights, and no other page changes anywhere. *)
Theorem kernel_half_shared s rs r v phys flags :
  paging_ok s rs → r ∈ rs → user flags = false → frame_ok phys → flags_ok flags → spare s 3 →
  is_Some (reach (pg_mem s) r [Mapper.pml4_idx v]) →
  (∀ r2, r2 ∈ rs → reach (pg_mem s) r2 [Mapper.pml4_idx v] = reach (pg_mem s) r [Mapper.pml4_idx v]) →
  ∃ s', map_into_page_table r v phys flags s = Ret s' ∧ paging_ok s' rs ∧
    ∀ r2 w, r2 ∈ rs → translate (pg_mem s') r2 w =
      if decide (vpn w = vpn v) then Some (phys + w mod PAGE_SIZE, leaf_rights flags)
      else translate (pg_mem s) r2 w.
Proof.
  intros Hs Hr Hnu Hph Hfl (b0 & Hb0 & Hav) [t Ht] Hsh.
  destruct (ends_total _ _ (map_into_spec true s rs r v phys flags Hs Hr ltac:(congruence) (λ _, spare_cost s r v (ex_intro _ b0 (conj Hb0 Hav)))))
    as (s' & Heq & b & b' & Hb & Hb' & Hk' & Hm).
  exists s'. split_and!; [done| |].
  { exists b'. split_and!; [done|apply Hm..]. }
  intros r2 w Hr2. cbn [pg_mem]. destruct Hs as (b1 & _ & _ & Hsp). destruct (set_addr_page phys flags Hph Hfl) as [Ha Hri].
  rewrite (translate_leaf _ _ _ r2 w (mp_spaces _ _ _ _ _ _ _ _ Hm) Hr2), (translate_leaf _ _ _ _ w Hsp Hr2).
  rewrite (mp_leaf _ _ _ _ _ _ _ _ Hm r2 w Hr2).
  assert (∀ r3, r3 ∈ rs → reach (pg_mem s') r3 [Mapper.pml4_idx v] = Some t) as Hone.
  { intros r3 Hr3. apply (mp_mono _ _ _ _ _ _ _ _ Hm); [done|simpl; lia|]. by rewrite Hsh. }
  assert (reach (pg_mem s') r2 (path v) = reach (pg_mem s') r (path v)) as Hsame.
  { change (path v) with ([Mapper.pml4_idx v] ++ [Mapper.pdpt_idx v; Mapper.pd_idx v]). rewrite !reach_app, !Hone by done. done. }
  case_decide; [rewrite bool_decide_true by done|by rewrite bool_decide_false by naive_solver].
  cbn [fmap option_fmap option_map]. by rewrite Ha, Hri.
Qed.
End correct.

(** ** A small machine

    The sixteen-frame machine of the page allocator; its reserved frame 3
    holds the kernel's root table. *)

Definition small_root : Z := 0x3000.
Definition small_paging : paging := mkPaging (λ _, table_new) (Some small) small_root.

Lemma small_free j : free_frame small j ↔ j ∈ [0; 1; 2] ++ seqZ 5 11.
Proof.
  destruct (buddy_new_spec (replicate 16 default_page) small_map small_reserved) as (b & Hb & _ & _ & _ & Honly & Hall);
    [done|exact small_reserved_ok|exact small_map_ok|exact small_map_disjoint|].
  assert (b = small) as -> by (vm_compute in Hb; by injection Hb as <-).
  rewrite elem_of_app, elem_of_seqZ, !elem_of_cons, elem_of_nil. split.
  - intros [(a & Ha & Hav) Hclear]%Honly. unfold avail_frame, small_map in *. unfold PAGE_SIZE in *.
    pose proof (λ a, Hclear 12544 16896 a ltac:(by left)) as Hc. unfold PAGE_SIZE in Hc.
    pose proof (Hc (j * 4096)). pose proof (Hc 12544). pose proof (Hc 16384).
    apply elem_of_cons in Ha as [->|[->|[]%elem_of_nil]%elem_of_cons]; simpl in Hav; lia.
  - intros Hj. apply (Hall (mkArea 1 0 65536)); [by left|by vm_compute|..].
    + unfold avail_frame, PAGE_SIZE. simpl. lia.
    + intros s e a [= -> ->]%list_elem_of_singleton. unfold PAGE_SIZE. lia.
Qed.

Lemma small_available : available small 14.
Proof.
  exists ([0; 1; 2] ++ seqZ 5 11). split_and!; [|done|].
  - apply NoDup_app. split_and!; [|intros x; rewrite elem_of_seqZ, !elem_of_cons, elem_of_nil; lia|apply NoDup_seqZ].
    repeat constructor; rewrite ?elem_of_cons, ?elem_of_nil; lia.
  - intros j Hj. split; [by apply small_free|]. rewrite elem_of_app, elem_of_seqZ, !elem_of_cons, elem_of_nil in Hj.
    unfold PAGE_SIZE, EARLY_PAGE_TABLE_LIMIT. lia.
Qed.

Lemma small_ok : fr_ok small.
Proof. split; [exact small_wf|exact small_coalesced]. Qed.

Lemma small_paging_ok : paging_ok small_paging [small_root].
Proof.
  exists small. split_and!; [done|exact small_ok|]. apply spaces_root; [done|done| |].
  - split_and!; [done|by exists 3|done].
  - intros H%small_free. change (small_root / PAGE_SIZE) with 3 in H.
    rewrite elem_of_app, elem_of_seqZ, !elem_of_cons, elem_of_nil in H. lia.
Qed.
Lemma small_spare n : (n ≤ 14)%nat → spare small_paging n.
Proof. intros Hn. exists small. split; [done|]. by eapply available_le, small_available. Qed.

Lemma create_user_page_table_correct_witness :
  ∃ u s', create_user_page_table small_paging = Ret (u, s') ∧ paging_ok s' [u; small_root].
Proof.
  destruct (create_user_page_table_correct small_paging [small_root]) as (u & s' & H1 & H2 & _);
    [exact small_paging_ok|by left|done|apply small_spare; lia|]. exists u, s'. auto.
Defined.

Lemma map_into_page_table_correct_witness :
  ∃ s', map_into_page_table small_root 0x400000 0x5000 EntryFlags.USER small_paging = Ret s' ∧
    translate (pg_mem s') small_root 0x400123 = Some (0x5123, mkRights true false false) ∧
    translate (pg_mem s') small_root 0x401123 = None.
Proof.
  destruct (map_into_page_table_correct small_paging [small_root] small_root 0x400000 0x5000 EntryFlags.USER)
    as (s' & H1 & _ & H2); [exact small_paging_ok|by left|done|split_and!; [done|by exists 5|done]|done|apply small_spare; lia|].
  exists s'. split; [done|]. rewrite !H2 by (by left). split; [done|]. vm_compute. reflexivity.
Defined.

(** The small machine with a kernel page at [KERNEL_VMA] and a user space. *)
Lemma small_two_spaces :
  ∃ s u, paging_ok s [u; small_root] ∧ spare s 3 ∧ u ≠ small_root ∧
    is_Some (reach (pg_mem s) small_root [Mapper.pml4_idx KERNEL_VMA]) ∧
    ∀ r2, r2 ∈ [u; small_root] →
      reach (pg_mem s) r2 [Mapper.pml4_idx KERNEL_VMA] = reach (pg_mem s) small_root [Mapper.pml4_idx KERNEL_VMA].
Proof.
  destruct (ends_total _ _ (map_into_spec true small_paging [small_root] small_root KERNEL_VMA 0 EntryFlags.NX
    small_paging_ok ltac:(by left) ltac:(done) (λ _, spare_cost _ _ _ (small_spare 3 ltac:(lia))))) as (s1 & _ & b & b1 & Hb & Hb1 & Hk1 & Hm).
  assert (spare s1 4) as (x & Hx & Hav1).
  { exists b1. split; [done|]. eapply takes_available; [apply Hm|]. injection Hb as <-. eapply available_le, small_available.
    pose proof (cost_le (pg_mem small_paging) small_root KERNEL_VMA). lia. }
  pose proof (create_user_page_table_spec true s1 [small_root]) as Hnew.
  destruct (ends_total _ _ (Hnew ltac:(exists b1; split_and!; [done|apply Hm..]) ltac:(rewrite Hk1; by left) ltac:(by rewrite Hk1)
    (λ _, ex_intro _ x (conj Hx (available_le x 1 4 ltac:(lia) Hav1))))) as ([u s2] & _ & [Hs2 Hk2 Hu Htk _ _ _ _ Hreach Hold _]).
  clear Hnew. rename Hreach into Hnew.
  exists s2, u. assert (reach (pg_mem s2) small_root [Mapper.pml4_idx KERNEL_VMA] = reach (pg_mem s1) small_root [Mapper.pml4_idx KERNEL_VMA]) as E.
  { apply Hold; [by left|simpl; lia]. }
  split_and!; [done| |set_solver| |].
  - destruct Htk as (b2 & b3 & E2 & E3 & Htk). rewrite Hx in E2. injection E2 as <-. exists b3. split; [done|].
    by eapply takes_available.
  - rewrite E. apply (mp_way _ _ _ _ _ _ _ _ Hm). by left.
  - intros r2 [-> | ->%list_elem_of_singleton]%elem_of_cons; [|done]. rewrite E, Hnew, Hk1 by (simpl; lia). done.
Qed.

Lemma kernel_half_shared_witness :
  ∃ s u s', u ≠ small_root ∧
    map_into_page_table small_root (KERNEL_VMA + 0x5000) 0x5000 EntryFlags.NX s = Ret s' ∧
    translate (pg_mem s') u (KERNEL_VMA + 0x5042) = Some (0x5042, mkRights false false true).
Proof.
  destruct small_two_spaces as (s & u & Hs & Hsp & Hne & Hat & Hsh).
  destruct (kernel_half_shared s [u; small_root] small_root (KERNEL_VMA + 0x5000) 0x5000 EntryFlags.NX)
    as (s' & H1 & _ & H2); [done|by right; left|done|split_and!; [done|by exists 5|done]|done|done|exact Hat|exact Hsh|].
  exists s, u, s'. split_and!; [done|done|]. rewrite H2 by (by left). done.
Defined.
