(* ===== verification/PagingInit.v ===== *)
(** * The kernel's page table

    [init_kernel_page_table] maps usable memory, the kernel image and the boot
    structures.  Its result is compared with a table of expected translations:
    the direct map, write-protected code, and no page both writable and
    executable. *)

From S2P Require Import Prelude Links Buddy BuddyInv BuddyCorrect Address Paging PagingInv PagingMap PagingPlan PagingCorrect.
Local Open Scope Z_scope.
Local Open Scope paging_scope.

(** ** The plan *)

Definition RW_NX : Z := EntryFlags.PRESENT .| EntryFlags.WRITABLE .| EntryFlags.NX.

Definition plan_range (start end_ flags : Z) : list req :=
  (λ a, mkReq a (a - KERNEL_VMA) flags) <$> pages_of (start - start mod PAGE_SIZE) (end_ + 4095 - (end_ + 4095) mod PAGE_SIZE).
Definition plan_identity (start end_ flags : Z) : list req :=
  (λ a, mkReq a a flags) <$> pages_of (start - start mod PAGE_SIZE) (end_ + 4095 - (end_ + 4095) mod PAGE_SIZE).
Definition plan_area (area : MemoryArea) : list req :=
  if area_typ area =? 1 then (λ p, mkReq (p + KERNEL_VMA) p RW_NX) <$> pages_of (area_start area) (area_end area) else [].

Definition kernel_plan (mem_map : list MemoryArea) (img : KernelImage) : list req :=
  (mem_map ≫= plan_area) ++
  plan_range ((kernel_range img).1 + KERNEL_VMA) ((kernel_range img).2 + KERNEL_VMA) (RW_NX .| EntryFlags.GLOBAL) ++
  plan_identity (bootdata_range img).1 (bootdata_range img).2 RW_NX ++
  plan_identity (mbi_range img).1 (mbi_range img).2 RW_NX ++
  plan_range (text_range img).1 (text_range img).2 (EntryFlags.PRESENT .| EntryFlags.GLOBAL) ++
  plan_range (rodata_range img).1 (rodata_range img).2 (EntryFlags.PRESENT .| EntryFlags.NX .| EntryFlags.GLOBAL) ++
  plan_range (data_range img).1 (data_range img).2 (RW_NX .| EntryFlags.GLOBAL) ++
  plan_range (bss_range img).1 (bss_range img).2 (RW_NX .| EntryFlags.GLOBAL).

(** What the boot loader and the linker script guarantee: memory lies in the
    directly mapped range, sections are linked above [KERNEL_VMA], and the
    boot structures are low. *)
Definition low_range (r : Z * Z) : Prop := 0 ≤ r.1 < 2 ^ 47 ∧ 0 ≤ r.2 < 2 ^ 47 - PAGE_SIZE.
Definition high_range (r : Z * Z) : Prop := KERNEL_VMA ≤ r.1 < 2 ^ 64 ∧ KERNEL_VMA ≤ r.2 < 2 ^ 64 - PAGE_SIZE.
Record image_ok (mem_map : list MemoryArea) (img : KernelImage) : Prop := {
  im_areas : ∀ a, a ∈ mem_map → area_typ a = 1 → 0 ≤ area_start a ∧ area_end a ≤ 2 ^ 47;
  im_kernel : low_range (kernel_range img);
  im_bootdata : low_range (bootdata_range img);
  im_mbi : low_range (mbi_range img);
  im_text : high_range (text_range img);
  im_rodata : high_range (rodata_range img);
  im_data : high_range (data_range img);
  im_bss : high_range (bss_range img);
}.

Lemma align_up_ok a : 0 ≤ a → a + PAGE_SIZE ≤ usize_max → align_up a PAGE_SIZE = Ret (a + 4095 - (a + 4095) mod PAGE_SIZE).
Proof.
  intros H0 H. unfold align_up. rewrite uadd_ok, Ret_bind, (usub_ok (a + PAGE_SIZE)), Ret_bind by (unfold PAGE_SIZE in *; lia).
  rewrite usub_ok, Ret_bind by done. change (PAGE_SIZE - 1) with (2 ^ 12 - 1).
  rewrite land_align by (unfold PAGE_SIZE, usize_max in *; lia). unfold PAGE_SIZE. do 2 f_equal; [lia|]. do 2 f_equal. lia.
Qed.
Lemma align_down_ok a : is_usize a → align_down a PAGE_SIZE = Ret (a - a mod PAGE_SIZE).
Proof.
  intros H. unfold align_down. rewrite usub_ok, Ret_bind by done. change (PAGE_SIZE - 1) with (2 ^ 12 - 1).
  by rewrite land_align by done.
Qed.

Lemma floor_eq a : a - a mod PAGE_SIZE = a / PAGE_SIZE * PAGE_SIZE.
Proof. rewrite Z.mod_eq by done. lia. Qed.
Lemma floor_le a n : n * PAGE_SIZE ≤ a → n * PAGE_SIZE ≤ a - a mod PAGE_SIZE.
Proof. intros H. rewrite floor_eq. apply Z.mul_le_mono_nonneg_r; [done|]. apply Z.div_le_lower_bound; [done|lia]. Qed.

Lemma elem_of_pages_of a s e : a ∈ pages_of s e ↔ ∃ i, 0 ≤ i < (e - s + 4095) / PAGE_SIZE ∧ a = s + i * PAGE_SIZE.
Proof.
  unfold pages_of. change (PAGE_SIZE - 1) with 4095. rewrite list_elem_of_fmap. setoid_rewrite elem_of_seqZ.
  split; intros (i & ? & ?); exists i; split; done || lia.
Qed.

Lemma pages_of_bounds a s e : a ∈ pages_of s e → s ≤ a < e.
Proof.
  intros (i & Hi & ->)%elem_of_pages_of. pose proof (Z.mul_div_le (e - s + 4095) PAGE_SIZE eq_refl). unfold PAGE_SIZE in *. lia.
Qed.

Section init.
Context `{FS : FrameSource B, FL : !FrameLaws B}.

Lemma for_each_requests {A} r (l : list A) (f : A → req) body s :
  (∀ a m b, a ∈ l → body a (m, b) = Mapper.map r (rq_virt (f a)) (rq_phys (f a)) (rq_flags (f a)) m b) →
  for_each l body s = map_all r (f <$> l) s.
Proof.
  unfold map_all. revert s. induction l as [|a l IH]; intros [m b] Hb; [done|]. rewrite fmap_cons. cbn [for_each].
  rewrite Hb by (by left). destruct (Mapper.map r _ _ _ m b); [|done|done]. rewrite !Ret_bind. apply IH.
  intros a' m' b' Ha'. apply Hb. by right.
Qed.

Lemma map_all_app r l1 l2 s : map_all r (l1 ++ l2) s = map_all r l1 s ≫= map_all r l2.
Proof. apply for_each_app. Qed.

Lemma map_all_app_inv r l1 l2 s x :
  map_all r (l1 ++ l2) s = Ret x → ∃ s1, map_all r l1 s = Ret s1 ∧ map_all r l2 s1 = Ret x.
Proof. rewrite map_all_app. apply bind_Ret. Qed.

Lemma set_range_plan r start end_ flags s :
  high_range (start, end_) → set_range r start end_ flags s = map_all r (plan_range start end_ flags) s.
Proof.
  intros [[Hs Hs'] He]. simpl in Hs, Hs', He. unfold set_range.
  rewrite align_down_ok, Ret_bind, align_up_ok, Ret_bind by (unfold is_usize, usize_max, KERNEL_VMA, PAGE_SIZE in *; lia).
  apply for_each_requests. intros a m b (i & Hi & ->)%elem_of_pages_of. cbn [rq_virt rq_phys rq_flags].
  rewrite usub_ok, Ret_bind; [done|]. pose proof (floor_le start (KERNEL_VMA / PAGE_SIZE) Hs) as Hf.
  change (KERNEL_VMA / PAGE_SIZE * PAGE_SIZE) with KERNEL_VMA in Hf. unfold PAGE_SIZE in *. lia.
Qed.
Lemma set_identity_range_plan r start end_ flags s :
  low_range (start, end_) → set_identity_range r start end_ flags s = map_all r (plan_identity start end_ flags) s.
Proof.
  intros [Hs He]. simpl in Hs, He. unfold set_identity_range. unfold PAGE_SIZE in *.
  rewrite align_down_ok, Ret_bind, align_up_ok, Ret_bind by (unfold is_usize, usize_max, PAGE_SIZE in *; lia).
  by apply for_each_requests.
Qed.
Lemma map_usable_plan r mem_map s :
  (∀ a, a ∈ mem_map → area_typ a = 1 → 0 ≤ area_start a ∧ area_end a ≤ 2 ^ 47) →
  map_usable r mem_map s = map_all r (mem_map ≫= plan_area) s.
Proof.
  unfold map_usable. revert s. induction mem_map as [|a l IH]; intros s Hok; [done|]. rewrite bind_cons, map_all_app. cbn [for_each].
  assert ((if area_typ a =? 1 then for_each (pages_of (area_start a) (area_end a)) (λ phys '(m, buddy),
      virt ← uadd phys KERNEL_VMA; Mapper.map r virt phys RW_NX m buddy) s else Ret s) = map_all r (plan_area a) s) as E.
  { unfold plan_area. destruct (Z.eqb_spec (area_typ a) 1) as [Ht|]; [|done]. destruct (Hok a ltac:(by left) Ht).
    apply for_each_requests. intros p m b Hp%pages_of_bounds. cbn [rq_virt rq_phys rq_flags].
    rewrite uadd_ok, Ret_bind by (unfold PAGE_SIZE, KERNEL_VMA, usize_max in *; lia). done. }
  fold RW_NX. rewrite E. destruct (map_all r (plan_area a) s); [|done|done]. rewrite !Ret_bind. apply IH.
  intros a' Ha'. apply Hok. by right.
Qed.

Lemma kernel_range_high img : low_range (kernel_range img) →
  high_range ((kernel_range img).1 + KERNEL_VMA, (kernel_range img).2 + KERNEL_VMA).
Proof. unfold low_range, high_range, KERNEL_VMA, PAGE_SIZE. simpl. lia. Qed.

Lemma plan_supervisor mem_map img : Forall (λ q, user (rq_flags q) = false) (kernel_plan mem_map img).
Proof.
  unfold kernel_plan, plan_range, plan_identity. rewrite !Forall_app, !Forall_fmap, Forall_bind. split_and!;
    try (by apply Forall_forall).
  apply Forall_forall. intros a _. unfold plan_area, compose. case_match; [|done]. rewrite Forall_fmap. by apply Forall_forall.
Qed.

Lemma missing_fresh m r l : m r = table_new → (missing m r l ≤ length (tables l))%nat.
Proof. intros _. apply length_filter. Qed.

(** The effect on the leaves: the plan on an empty table. *)
Lemma init_plan mem_map img s b :
  pg_buddy s = Some b → fr_ok b → (∀ t, length (pg_mem s t) = 512%nat) → image_ok mem_map img →
  available b (S (length (tables (kernel_plan mem_map img)))) →
  ∃ root s', init_kernel_page_table mem_map img s = Ret (root, s') ∧ paging_ok s' [root] ∧ KERNEL_PML4 s' = root ∧
    (∀ w, leaf (pg_mem s') root w = planned (kernel_plan mem_map img) w None) ∧
    ∃ b' k, pg_buddy s' = Some b' ∧ takes k b b' ∧ (k ≤ S (length (tables (kernel_plan mem_map img))))%nat.
Proof.
  intros Hb Hok Hlen Him Hav. set (plan := kernel_plan mem_map img) in *.
  destruct (ends_total _ _ (take_frame true b Hok (λ _, available_le b 1 _ (le_n_S _ _ (Nat.le_0_l _)) Hav))) as ([root b1] & Heq & Hok1 & Hf & Hfr & Hnow & Hg).
  set (m1 := pm_upd root table_new (pg_mem s)). assert (m1 root = table_new) as Hroot by (unfold m1, pm_upd; by rewrite decide_True).
  assert (spaces m1 (fr_free b1) [root]) as Hsp.
  { apply spaces_root; [by apply new_len|done|done|rewrite Hnow; tauto]. }
  assert (Forall low_user plan) as Hlow.
  { eapply Forall_impl; [apply plan_supervisor|]. intros q Hq Hu. congruence. }
  destruct (ends_total _ _ (map_all_spec true [root] root plan m1 b1 Hsp Hok1 ltac:(by left) Hlow
    (λ _, available_le b1 _ _ (missing_fresh m1 root plan Hroot) (available_take _ _ _ _ Hg Hav)))) as ([m2 b2] & Hmap & [A1 A2 A3 _ _ A6 _ _]).
  exists root, (mkPaging m2 (Some b2) root). split_and!; [|by exists b2|done| |].
  - unfold init_kernel_page_table. rewrite Hb. cbn [expect]. rewrite Ret_bind.
    destruct (frame_below 0 EARLY_PAGE_TABLE_LIMIT b) as [[[a|] b0]| |]; [|done..]. injection Heq as -> ->.
    rewrite Ret_bind. cbn [expect]. rewrite Ret_bind. destruct Hf as (_ & _ & Hmax). pose proof (phys_to_virt_ok _ Hmax) as E. unfold Mapper.new. rewrite E.
    unfold phys_to_virt in E. rewrite E, !Ret_bind. fold m1. destruct Him as [Hareas Hk Hbd Hmbi Ht Hro Hd Hbss].
    unfold plan, kernel_plan in Hmap. rewrite (map_usable_plan root mem_map) by done.
    rewrite !uadd_ok by (unfold low_range, KERNEL_VMA, PAGE_SIZE, usize_max in *; lia). apply map_all_app_inv in Hmap as (s1 & -> & Hmap).
    rewrite !Ret_bind. cbv zeta. fold RW_NX.
    rewrite set_range_plan by (by apply kernel_range_high). apply map_all_app_inv in Hmap as (s2 & -> & Hmap). rewrite Ret_bind.
    rewrite set_identity_range_plan by done. apply map_all_app_inv in Hmap as (s3 & -> & Hmap). rewrite Ret_bind.
    rewrite set_identity_range_plan by done. apply map_all_app_inv in Hmap as (s4 & -> & Hmap). rewrite Ret_bind.
    rewrite set_range_plan by done. apply map_all_app_inv in Hmap as (s5 & -> & Hmap). rewrite Ret_bind.
    rewrite set_range_plan by done. apply map_all_app_inv in Hmap as (s6 & -> & Hmap). rewrite Ret_bind.
    rewrite set_range_plan by done. apply map_all_app_inv in Hmap as (s7 & -> & Hmap). rewrite Ret_bind.
    rewrite set_range_plan by done. rewrite Hmap, Ret_bind. done.
  - intros w. cbn [pg_mem]. rewrite A3. unfold leaf. by rewrite entry_at_new.
  - exists b2, (S (missing m1 root plan)). split_and!; [done|by econstructor|]. pose proof (missing_fresh m1 root plan Hroot). lia.
Qed.
End init.

(** ** Expected translations *)

(** The page of [a] meets the range, rounded to pages. *)
Definition range_page (r : Z * Z) (a : Z) : bool :=
  (r.1 / PAGE_SIZE <=? a / PAGE_SIZE) && (a / PAGE_SIZE <? (r.2 + 4095) / PAGE_SIZE).
(** Areas are mapped in steps of a page from their start. *)
Definition area_page (p : Z) (a : MemoryArea) : bool :=
  (area_typ a =? 1) && (area_start a / PAGE_SIZE <=? p / PAGE_SIZE) &&
  (p / PAGE_SIZE <? area_start a / PAGE_SIZE + (area_end a - area_start a + 4095) / PAGE_SIZE).

Definition expected (mem_map : list MemoryArea) (img : KernelImage) (w : Z) : option (Z * rights) :=
  let p := w - KERNEL_VMA in
  if KERNEL_VMA <=? w then
    if range_page (data_range img) w || range_page (bss_range img) w then Some (p, mkRights false true true)
    else if range_page (rodata_range img) w then Some (p, mkRights false false true)
    else if range_page (text_range img) w then Some (p, mkRights false false false)
    else if range_page (kernel_range img) p || existsb (area_page p) mem_map then Some (p, mkRights false true true)
    else None
  else if range_page (bootdata_range img) w || range_page (mbi_range img) w then Some (w, mkRights false true true)
  else None.

Definition low_addr (w : Z) : Prop := 0 ≤ w < 2 ^ 47.
Definition high_addr (w : Z) : Prop := KERNEL_VMA ≤ w < 2 ^ 64.

Lemma vpn_low v : low_addr v → vpn v = v / PAGE_SIZE ∧ vpn v < 2 ^ 35.
Proof.
  intros [H0 H1]. unfold vpn. assert (0 ≤ v / PAGE_SIZE < 2 ^ 35).
  { split; [by apply Z.div_pos|]. apply Z.div_lt_upper_bound; [done|exact H1]. }
  rewrite Z.mod_small by lia. lia.
Qed.
Lemma vpn_high v : high_addr v → vpn v = v / PAGE_SIZE - KERNEL_VMA / PAGE_SIZE + 2 ^ 35 ∧ 2 ^ 35 ≤ vpn v.
Proof.
  intros [H0 H1]. unfold vpn. assert (2 ^ 52 - 2 ^ 35 ≤ v / PAGE_SIZE < 2 ^ 52).
  { split; [by apply Z.div_le_lower_bound|]. by apply Z.div_lt_upper_bound. }
  change (KERNEL_VMA / PAGE_SIZE) with (2 ^ 52 - 2 ^ 35).
  replace (v / PAGE_SIZE) with (v / PAGE_SIZE - (2 ^ 52 - 2 ^ 36) + 65535 * 2 ^ 36) at 1 3 by lia.
  rewrite Z.mod_add, Z.mod_small by lia. lia.
Qed.
Lemma vpn_high_eq v w : high_addr v → high_addr w → vpn w = vpn v ↔ w / PAGE_SIZE = v / PAGE_SIZE.
Proof. intros [-> _]%vpn_high [-> _]%vpn_high. lia. Qed.
Lemma vpn_low_eq v w : low_addr v → low_addr w → vpn w = vpn v ↔ w / PAGE_SIZE = v / PAGE_SIZE.
Proof. intros [-> _]%vpn_low [-> _]%vpn_low. lia. Qed.
Lemma vpn_halves v w : low_addr v → high_addr w → vpn w ≠ vpn v.
Proof. intros [_ ?]%vpn_low [_ ?]%vpn_high. lia. Qed.

Lemma mask_page p : Z.land p ADDR_MASK = Z.land (p / PAGE_SIZE * PAGE_SIZE) ADDR_MASK.
Proof.
  change ADDR_MASK with (Z.shiftl (Z.ones 40) 12). change PAGE_SIZE with (2 ^ 12).
  rewrite <- Z.shiftr_div_pow2, <- Z.shiftl_mul_pow2 by done. apply Z.bits_inj'. intros i Hi. rewrite !Z.land_spec.
  destruct (decide (i < 12)); [by rewrite (Z.shiftl_spec_low (Z.ones 40)), !andb_false_r by lia|].
  rewrite (Z.shiftl_spec (Z.shiftr p 12)), Z.shiftr_spec by lia. do 2 f_equal. lia.
Qed.
Lemma set_addr_same p q f : p / PAGE_SIZE = q / PAGE_SIZE → Entry.set_addr p f = Entry.set_addr q f.
Proof. intros E. unfold Entry.set_addr. by rewrite (mask_page p), (mask_page q), E. Qed.

(** A request whose page and frame lie at the same distance. *)
Lemma addr_of_page p w f :
  0 ≤ p < 2 ^ 47 → flags_ok f → w mod PAGE_SIZE = p mod PAGE_SIZE →
  Entry.addr (Entry.set_addr p (f .| EntryFlags.PRESENT)) + w mod PAGE_SIZE = p ∧
  leaf_rights (Entry.set_addr p (f .| EntryFlags.PRESENT)) = leaf_rights f.
Proof.
  intros Hp Hf Hw. assert (frame_ok (p / PAGE_SIZE * PAGE_SIZE)) as Hfr.
  { split_and!; [pose proof (Z.div_pos p PAGE_SIZE); unfold PAGE_SIZE in *; lia|by exists (p / PAGE_SIZE)|].
    rewrite <- floor_eq. pose proof (Z.mod_pos_bound p PAGE_SIZE eq_refl). lia. }
  rewrite (set_addr_same p (p / PAGE_SIZE * PAGE_SIZE)) by (by rewrite Z.div_mul).
  destruct (set_addr_page _ f Hfr Hf) as [-> ->]. split; [|done]. rewrite Hw, <- floor_eq. lia.
Qed.

Lemma planned_segment {A} (l : list A) (f : A → req) w d e (c : bool) :
  (∀ a, a ∈ l → vpn w = vpn (rq_virt (f a)) → req_entry (f a) = e) →
  (c = true ↔ ∃ a, a ∈ l ∧ vpn w = vpn (rq_virt (f a))) →
  planned (f <$> l) w d = if c then Some e else d.
Proof.
  intros He Hc. rewrite (planned_uniform _ _ _ e).
  - rewrite (decide_ext _ (c = true)); [by destruct c|]. rewrite Exists_exists, Hc. setoid_rewrite list_elem_of_fmap. naive_solver.
  - intros q (a & -> & Ha)%list_elem_of_fmap. by apply He.
Qed.

(** Rounded ranges: their pages, and where they lie. *)
Lemma range_pages s e w :
  range_page (s, e) w = true ↔
    ∃ a, a ∈ pages_of (s - s mod PAGE_SIZE) (e + 4095 - (e + 4095) mod PAGE_SIZE) ∧ w / PAGE_SIZE = a / PAGE_SIZE.
Proof.
  unfold range_page. simpl. rewrite !floor_eq, andb_true_iff, Z.leb_le, Z.ltb_lt. setoid_rewrite elem_of_pages_of.
  set (x := s / PAGE_SIZE). set (y := (e + 4095) / PAGE_SIZE).
  replace ((y * PAGE_SIZE - x * PAGE_SIZE + 4095) / PAGE_SIZE) with (y - x).
  2: { apply (Z.div_unique _ _ _ 4095); unfold PAGE_SIZE; lia. }
  split.
  - intros Hw. exists (x * PAGE_SIZE + (w / PAGE_SIZE - x) * PAGE_SIZE). split; [exists (w / PAGE_SIZE - x); split; [lia|done]|].
    rewrite Z.div_add, Z.div_mul by done. lia.
  - intros (a & (i & Hi & ->) & ->). rewrite Z.div_add, Z.div_mul by done. lia.
Qed.
Lemma range_bounds s e a n k :
  n * PAGE_SIZE ≤ s → e + PAGE_SIZE ≤ k * PAGE_SIZE →
  a ∈ pages_of (s - s mod PAGE_SIZE) (e + 4095 - (e + 4095) mod PAGE_SIZE) → n * PAGE_SIZE ≤ a < k * PAGE_SIZE.
Proof.
  intros Hs He Ha%pages_of_bounds. pose proof (floor_le s n Hs).
  pose proof (Z.mod_pos_bound (e + 4095) PAGE_SIZE eq_refl). unfold PAGE_SIZE in *. lia.
Qed.
Lemma high_pages s e a :
  high_range (s, e) → a ∈ pages_of (s - s mod PAGE_SIZE) (e + 4095 - (e + 4095) mod PAGE_SIZE) → high_addr a.
Proof.
  intros [Hs He] Ha. simpl in Hs, He. apply (range_bounds s e a (2 ^ 52 - 2 ^ 35) (2 ^ 52)) in Ha; [exact Ha|apply Hs|].
  unfold PAGE_SIZE in *. lia.
Qed.
Lemma low_pages s e a :
  low_range (s, e) → a ∈ pages_of (s - s mod PAGE_SIZE) (e + 4095 - (e + 4095) mod PAGE_SIZE) → low_addr a.
Proof.
  intros [Hs He] Ha. simpl in Hs, He. apply (range_bounds s e a 0 (2 ^ 35)) in Ha; [exact Ha|apply Hs|].
  unfold PAGE_SIZE in *. lia.
Qed.

(** The kernel's base is page-aligned. *)
Lemma vma_add a : (a + KERNEL_VMA) / PAGE_SIZE = a / PAGE_SIZE + KERNEL_VMA / PAGE_SIZE.
Proof. change KERNEL_VMA with (KERNEL_VMA / PAGE_SIZE * PAGE_SIZE) at 1. by rewrite Z.div_add. Qed.
Lemma vma_sub a : (a - KERNEL_VMA) / PAGE_SIZE = a / PAGE_SIZE - KERNEL_VMA / PAGE_SIZE.
Proof. pose proof (vma_add (a - KERNEL_VMA)). rewrite Z.sub_add in *. lia. Qed.
Lemma vma_mod a : (a - KERNEL_VMA) mod PAGE_SIZE = a mod PAGE_SIZE.
Proof. rewrite !Z.mod_eq, vma_sub by done. change KERNEL_VMA with (KERNEL_VMA / PAGE_SIZE * PAGE_SIZE) at 1. lia. Qed.

Lemma sub_vma_page a w : w / PAGE_SIZE = a / PAGE_SIZE → (a - KERNEL_VMA) / PAGE_SIZE = (w - KERNEL_VMA) / PAGE_SIZE.
Proof.
  intros E. by rewrite !vma_sub, E.
Qed.

Definition direct (w f : Z) : Z := Entry.set_addr (w - KERNEL_VMA) (f .| EntryFlags.PRESENT).

Lemma planned_range_high s e f w d :
  high_range (s, e) → high_addr w →
  planned (plan_range s e f) w d = if range_page (s, e) w then Some (direct w f) else d.
Proof.
  intros Hr Hw. apply planned_segment; cbn [rq_virt].
  - intros a Ha E. apply vpn_high_eq in E; [|by eapply high_pages|done]. unfold req_entry, direct. cbn [rq_phys rq_flags].
    by apply set_addr_same, sub_vma_page.
  - rewrite range_pages. split; intros (a & Ha & E); exists a; (split; [done|]); [apply vpn_high_eq|apply vpn_high_eq in E]; try done;
      by eapply high_pages.
Qed.
Lemma planned_range_low s e f w d : high_range (s, e) → low_addr w → planned (plan_range s e f) w d = d.
Proof.
  intros Hr Hw. apply planned_none. intros q (a & -> & Ha)%list_elem_of_fmap E. cbn [rq_virt] in E.
  apply (vpn_halves w a); [done|by eapply high_pages|done].
Qed.
Lemma planned_identity_low s e f w d :
  low_range (s, e) → low_addr w →
  planned (plan_identity s e f) w d = if range_page (s, e) w then Some (Entry.set_addr w (f .| EntryFlags.PRESENT)) else d.
Proof.
  intros Hr Hw. apply planned_segment; cbn [rq_virt].
  - intros a Ha E. apply vpn_low_eq in E; [|by eapply low_pages|done]. unfold req_entry. cbn [rq_phys rq_flags].
    by apply set_addr_same.
  - rewrite range_pages. split; intros (a & Ha & E); exists a; (split; [done|]); [apply vpn_low_eq|apply vpn_low_eq in E]; try done;
      by eapply low_pages.
Qed.
Lemma planned_identity_high s e f w d : low_range (s, e) → high_addr w → planned (plan_identity s e f) w d = d.
Proof.
  intros Hr Hw. apply planned_none. intros q (a & -> & Ha)%list_elem_of_fmap. cbn [rq_virt].
  apply vpn_halves; [by eapply low_pages|done].
Qed.

Lemma area_pages_high area a :
  0 ≤ area_start area → area_end area ≤ 2 ^ 47 → a ∈ pages_of (area_start area) (area_end area) → high_addr (a + KERNEL_VMA).
Proof. intros H0 H1 Ha%pages_of_bounds. unfold high_addr, KERNEL_VMA. lia. Qed.

Lemma add_vma_page a w : w / PAGE_SIZE = (a + KERNEL_VMA) / PAGE_SIZE ↔ (w - KERNEL_VMA) / PAGE_SIZE = a / PAGE_SIZE.
Proof. rewrite vma_add, vma_sub. lia. Qed.

Lemma planned_area_high area w d :
  (area_typ area = 1 → 0 ≤ area_start area ∧ area_end area ≤ 2 ^ 47) → high_addr w →
  planned (plan_area area) w d = if area_page (w - KERNEL_VMA) area then Some (direct w RW_NX) else d.
Proof.
  intros Har Hw. unfold plan_area, area_page. destruct (Z.eqb_spec (area_typ area) 1) as [Ht|]; [|done].
  destruct (Har Ht) as [H0 H1]. apply planned_segment; cbn [rq_virt].
  - intros a Ha E. apply vpn_high_eq in E; [|by eapply area_pages_high|done]. unfold req_entry, direct. cbn [rq_phys rq_flags].
    symmetry. by apply set_addr_same, add_vma_page.
  - rewrite !andb_true_iff, Z.leb_le, Z.ltb_lt. split.
    + intros [[_ Hlo] Hhi]. set (i := (w - KERNEL_VMA) / PAGE_SIZE - area_start area / PAGE_SIZE).
      assert (area_start area + i * PAGE_SIZE ∈ pages_of (area_start area) (area_end area)) as Hin.
      { apply elem_of_pages_of. exists i. split; [lia|done]. }
      exists (area_start area + i * PAGE_SIZE). split; [done|]. apply vpn_high_eq; [by eapply area_pages_high|done|].
      rewrite add_vma_page, Z.div_add by done. lia.
    + intros (a & Ha & E). apply vpn_high_eq in E; [|by eapply area_pages_high|done]. apply add_vma_page in E. rewrite E.
      apply elem_of_pages_of in Ha as (i & Hi & ->). rewrite Z.div_add by done. lia.
Qed.
Lemma planned_usable_high mem_map w d :
  (∀ a, a ∈ mem_map → area_typ a = 1 → 0 ≤ area_start a ∧ area_end a ≤ 2 ^ 47) → high_addr w →
  planned (mem_map ≫= plan_area) w d = if existsb (area_page (w - KERNEL_VMA)) mem_map then Some (direct w RW_NX) else d.
Proof.
  intros Hok Hw. revert d. induction mem_map as [|a l IH]; intros d; [done|]. rewrite bind_cons, planned_app.
  rewrite IH by (intros a' Ha'; apply Hok; by right). rewrite planned_area_high by (done || (intros; apply Hok; [by left|done])).
  cbn [existsb]. by destruct (area_page (w - KERNEL_VMA) a), (existsb (area_page (w - KERNEL_VMA)) l).
Qed.
Lemma planned_usable_low mem_map w d :
  (∀ a, a ∈ mem_map → area_typ a = 1 → 0 ≤ area_start a ∧ area_end a ≤ 2 ^ 47) → low_addr w →
  planned (mem_map ≫= plan_area) w d = d.
Proof.
  intros Hok Hw. apply planned_none. intros q (a & Hq & Ha)%list_elem_of_bind. unfold plan_area in Hq.
  destruct (Z.eqb_spec (area_typ a) 1) as [Ht|]; [|by apply elem_of_nil in Hq]. destruct (Hok a Ha Ht) as [H0 H1].
  apply list_elem_of_fmap in Hq as (p & -> & Hp). cbn [rq_virt]. intros E.
  apply (vpn_halves w (p + KERNEL_VMA)); [done|by eapply area_pages_high|done].
Qed.

Section table.
Context `{FS : FrameSource B, FL : !FrameLaws B}.
Context (mem_map : list MemoryArea) (img : KernelImage) (s : paging (B := B)) (b : B).
Context (Hb : pg_buddy s = Some b) (Hok : fr_ok b) (Hlen : ∀ t, length (pg_mem s t) = 512%nat) (Him : image_ok mem_map img).
Context (Hav : available b (S (length (tables (kernel_plan mem_map img))))).

Lemma expected_high w :
  high_addr w →
  planned (kernel_plan mem_map img) w None =
    if range_page (data_range img) w || range_page (bss_range img) w then Some (direct w (RW_NX .| EntryFlags.GLOBAL))
    else if range_page (rodata_range img) w then Some (direct w (EntryFlags.PRESENT .| EntryFlags.NX .| EntryFlags.GLOBAL))
    else if range_page (text_range img) w then Some (direct w (EntryFlags.PRESENT .| EntryFlags.GLOBAL))
    else if range_page ((kernel_range img).1 + KERNEL_VMA, (kernel_range img).2 + KERNEL_VMA) w then Some (direct w (RW_NX .| EntryFlags.GLOBAL))
    else if existsb (area_page (w - KERNEL_VMA)) mem_map then Some (direct w RW_NX) else None.
Proof.
  intros Hw. destruct Him as [Ha Hk Hbd Hmbi Ht Hro Hd Hbss]. unfold kernel_plan. rewrite !planned_app.
  assert (∀ r : Z * Z, (r.1, r.2) = r) as Hp by (by intros []).
  rewrite planned_usable_high, !planned_range_high, !planned_identity_high; rewrite ?Hp; try done; [|by apply kernel_range_high].
  by destruct (range_page (data_range img) w), (range_page (bss_range img) w), (range_page (rodata_range img) w), (range_page (text_range img) w).
Qed.
Lemma expected_low w :
  low_addr w →
  planned (kernel_plan mem_map img) w None =
    if range_page (bootdata_range img) w || range_page (mbi_range img) w
    then Some (Entry.set_addr w (RW_NX .| EntryFlags.PRESENT)) else None.
Proof.
  intros Hw. destruct Him as [Ha Hk Hbd Hmbi Ht Hro Hd Hbss]. unfold kernel_plan. rewrite !planned_app.
  assert (∀ r : Z * Z, (r.1, r.2) = r) as Hp by (by intros []).
  rewrite planned_usable_low, !planned_range_low, !planned_identity_low; rewrite ?Hp; try done; [|by apply kernel_range_high].
  by destruct (range_page (bootdata_range img) w), (range_page (mbi_range img) w).
Qed.

Lemma kernel_range_page w :
  range_page ((kernel_range img).1 + KERNEL_VMA, (kernel_range img).2 + KERNEL_VMA) w = range_page (kernel_range img) (w - KERNEL_VMA).
Proof.
  unfold range_page. cbn [fst snd]. replace ((kernel_range img).2 + KERNEL_VMA + 4095) with ((kernel_range img).2 + 4095 + KERNEL_VMA) by lia.
  rewrite !vma_add, vma_sub. lia.
Qed.

Lemma direct_page w f :
  high_addr w → flags_ok f → Entry.addr (direct w f) + w mod PAGE_SIZE = w - KERNEL_VMA ∧ leaf_rights (direct w f) = leaf_rights f.
Proof.
  intros Hw Hf. apply addr_of_page; [unfold high_addr, KERNEL_VMA in *; lia|done|by rewrite vma_mod].
Qed.

Definition translation (w : Z) (e : option Z) : option (Z * rights) :=
  (λ e, (Entry.addr e + w mod PAGE_SIZE, leaf_rights e)) <$> e.

Lemma translation_direct w f : high_addr w → flags_ok f → translation w (Some (direct w f)) = Some (w - KERNEL_VMA, leaf_rights f).
Proof. intros Hw Hf. destruct (direct_page w f Hw Hf) as [Ha Hr]. unfold translation. cbn [fmap option_fmap option_map]. by rewrite Ha, Hr. Qed.

Lemma expected_planned w :
  low_addr w ∨ high_addr w → translation w (planned (kernel_plan mem_map img) w None) = expected mem_map img w.
Proof.
  unfold expected. cbv zeta. intros [Hw|Hw].
  - rewrite expected_low by done. replace (KERNEL_VMA <=? w) with false by (unfold low_addr, KERNEL_VMA in *; lia).
    destruct (_ || _); [|done]. unfold translation. cbn [fmap option_fmap option_map].
    destruct (addr_of_page w w RW_NX Hw eq_refl eq_refl) as [-> ->]. done.
  - rewrite expected_high, kernel_range_page by done. replace (KERNEL_VMA <=? w) with true by (unfold high_addr in *; lia).
    destruct (range_page (data_range img) w || _); [by apply translation_direct|].
    destruct (range_page (rodata_range img) w); [by apply translation_direct|].
    destruct (range_page (text_range img) w); [by apply translation_direct|].
    destruct (range_page (kernel_range img) _); [by apply translation_direct|]. cbn [orb].
    destruct (existsb _ mem_map); [by apply translation_direct|done].
Qed.

Lemma init_table :
  ∃ root s', init_kernel_page_table mem_map img s = Ret (root, s') ∧ paging_ok s' [root] ∧ KERNEL_PML4 s' = root ∧
    (∀ w, low_addr w ∨ high_addr w → translate (pg_mem s') root w = expected mem_map img w) ∧
    ∃ b' k, pg_buddy s' = Some b' ∧ takes k b b' ∧ (k ≤ S (length (tables (kernel_plan mem_map img))))%nat.
Proof.
  destruct (init_plan mem_map img s b Hb Hok Hlen Him Hav) as (root & s' & Heq & Hs' & Hk & Hleaf & Htk).
  exists root, s'. split_and!; [done..| |done]. intros w Hw. destruct Hs' as (b' & _ & _ & Hsp).
  rewrite (translate_leaf _ _ _ root w Hsp) by (by left). rewrite Hleaf. by apply expected_planned.
Qed.

Lemma expected_rights w p r :
  low_addr w ∨ high_addr w → expected mem_map img w = Some (p, r) →
  r_user r = false ∧ (r_write r = true → r_nx r = true) ∧ (high_addr w → p = w - KERNEL_VMA) ∧ (low_addr w → p = w).
Proof.
  intros Hw. unfold expected. cbv zeta.
  assert (high_addr w → (KERNEL_VMA <=? w) = true) as Hh by (unfold high_addr; lia).
  assert (low_addr w → (KERNEL_VMA <=? w) = false) as Hl by (unfold low_addr, KERNEL_VMA; lia).
  destruct (KERNEL_VMA <=? w); repeat case_match; intros; simplify_eq; split_and!; naive_solver.
Qed.

(** C16: given a frame for every table it needs, [init_kernel_page_table]
    returns, and the new table translates every canonical address as the table
    of expected translations says: usable memory and the kernel at
    [KERNEL_VMA], code read-only, constants read-only and not executable, data
    writable and not executable, the boot structures at their own addresses,
    and nothing else. *)
Theorem kernel_page_table_correct :
  ∃ root s', init_kernel_page_table mem_map img s = Ret (root, s') ∧ paging_ok s' [root] ∧ KERNEL_PML4 s' = root ∧
    ∀ w, low_addr w ∨ high_addr w → translate (pg_mem s') root w = expected mem_map img w.
Proof.
  destruct init_table as (root & s' & Heq & Hs' & Hk & Htr & _). by exists root, s'.
Qed.

(** C33: no page of the kernel's table is both writable and executable, none
    admits user mode, and the upper half is a direct map: whatever is mapped
    at [KERNEL_VMA + p] is physical address [p]. *)
Theorem kernel_write_xor_execute :
  ∃ root s', init_kernel_page_table mem_map img s = Ret (root, s') ∧
    ∀ w p r, low_addr w ∨ high_addr w → translate (pg_mem s') root w = Some (p, r) →
      r_user r = false ∧ (r_write r = true → r_nx r = true) ∧ (high_addr w → p = w - KERNEL_VMA) ∧ (low_addr w → p = w).
Proof.
  destruct init_table as (root & s' & Heq & _ & _ & Htr & _). exists root, s'. split; [done|].
  intros w p r Hw. rewrite Htr by done. by apply expected_rights.
Qed.
End table.

(** ** The small machine *)

Definition small_image : KernelImage :=
  mkImage (0x3100, 0x4200) (0x3100, 0x3200) (0x4000, 0x4100)
    (KERNEL_VMA + 0x3000, KERNEL_VMA + 0x3800) (KERNEL_VMA + 0x4000, KERNEL_VMA + 0x4100)
    (KERNEL_VMA + 0x5000, KERNEL_VMA + 0x5100) (KERNEL_VMA + 0x6000, KERNEL_VMA + 0x7000).
Definition small_boot : paging := mkPaging (λ _, table_new) (Some small) 0.

Lemma small_image_ok : image_ok small_map small_image.
Proof.
  split; [|split; vm_compute; split; congruence..].
  intros a [->|[->|[]%elem_of_nil]%elem_of_cons]%elem_of_cons; [done|]. by intros [=].
Qed.
Lemma small_tables : available small (S (length (tables (kernel_plan small_map small_image)))).
Proof. eapply available_le, small_available. vm_compute. lia. Qed.

Lemma kernel_page_table_correct_witness :
  ∃ root s', init_kernel_page_table small_map small_image small_boot = Ret (root, s') ∧
    translate (pg_mem s') root (KERNEL_VMA + 0x3456) = Some (0x3456, mkRights false false false) ∧
    translate (pg_mem s') root (KERNEL_VMA + 0x9456) = Some (0x9456, mkRights false true true) ∧
    translate (pg_mem s') root 0x9456 = None.
Proof.
  destruct (kernel_page_table_correct small_map small_image small_boot small)
    as (root & s' & H1 & _ & _ & H2); [done|exact small_ok|done|exact small_image_ok|exact small_tables|].
  exists root, s'. split; [exact H1|]. split_and!; (rewrite H2; [vm_compute; reflexivity|]);
    [right|right|left]; split; vm_compute; congruence.
Defined.

Lemma kernel_write_xor_execute_witness :
  ∃ root s', init_kernel_page_table small_map small_image small_boot = Ret (root, s') ∧
    ∀ p r, translate (pg_mem s') root (KERNEL_VMA + 0x5000) = Some (p, r) → r_user r = false.
Proof.
  destruct (kernel_write_xor_execute small_map small_image small_boot small)
    as (root & s' & H1 & H2); [done|exact small_ok|done|exact small_image_ok|exact small_tables|].
  exists root, s'. split; [exact H1|]. intros p r Hp. apply H2 in Hp; [apply Hp|]. right. split; vm_compute; congruence.
Defined.
