(* ===== verification/RamFs.v ===== *)
(** * The in-memory file system ([src/fs/ramfs.rs])

    The tree of nodes, path splitting, and one definition per operation of
    [RamFs].  An operation returns its [Result] together with the new file
    system, since some of them change it before they fail. *)

From S2P Require Import Prelude Bytes.
From stdpp Require Import sorting.
From Stdlib Require Import Strings.Byte Ascii.
Local Open Scope string_scope.
Local Open Scope list_scope.

Inductive FsError :=
  | InvalidPath
  | NotFound
  | AlreadyExists
  | NotDirectory
  | IsDirectory
  | DirectoryNotEmpty.

#[global] Instance FsError_eq_dec : EqDecision FsError.
Proof. solve_decision. Defined.

Abbreviation FsResult A := (Result A FsError).

(** A [BTreeMap<String, Node>] is a finite map; the order of its keys only
    shows in [list]. *)
Inductive Node :=
  | File (content : bytes)
  | Dir (entries : gmap string Node).

Record RamFs := mkRamFs { root : Node }.

(** ** Paths *)

(** [str::split(c)]: always at least one piece. *)
Fixpoint split_on (c : ascii) (s : string) : list string :=
  match s with
  | EmptyString => [EmptyString]
  | String a s' =>
      if bool_decide (a = c) then EmptyString :: split_on c s'
      else match split_on c s' with
           | w :: ws => String a w :: ws
           | [] => [String a EmptyString]
           end
  end.

Definition starts_with_char (c : ascii) (s : string) : bool :=
  match s with String a _ => bool_decide (a = c) | EmptyString => false end.

Definition keep_part (part : string) : bool :=
  negb (bool_decide (part = "")) && negb (bool_decide (part = ".")).

Definition split_path (path : string) : FsResult (list string) :=
  if starts_with_char "/" path
  then Ok (List.filter keep_part (split_on "/" path))
  else Err InvalidPath.

(** [(&parts[..len - 1], parts[len - 1])] *)
Fixpoint split_last (parts : list string) : option (list string * string) :=
  match parts with
  | [] => None
  | [x] => Some ([], x)
  | x :: rest =>
      match split_last rest with
      | Some (p, n) => Some (x :: p, n)
      | None => None
      end
  end.
Definition split_parent (parts : list string) : FsResult (list string * string) :=
  ok_or (split_last parts) InvalidPath.

(** ** Walking the tree *)

(** The loop of [RamFs::node]. *)
Fixpoint walk (current : Node) (parts : list string) : FsResult Node :=
  match parts with
  | [] => Ok current
  | part :: rest =>
      match current with
      | File _ => Err NotDirectory
      | Dir entries =>
          match entries !! part with
          | Some child => walk child rest
          | None => Err NotFound
          end
      end
  end.

Definition node (fs : RamFs) (path : string) : FsResult Node :=
  match split_path path with
  | Ok parts => walk (root fs) parts
  | Err e => Err e
  end.

(** [dir_mut(parts)] followed by the code that uses the borrowed map: [f]
    gets the map and returns its result and the map it leaves behind. *)
Fixpoint with_dir {A} (current : Node) (parts : list string)
    (f : gmap string Node → FsResult A * gmap string Node) : FsResult A * Node :=
  match current with
  | File _ => (Err NotDirectory, current)
  | Dir entries =>
      match parts with
      | [] => let '(r, entries') := f entries in (r, Dir entries')
      | part :: rest =>
          match entries !! part with
          | None => (Err NotFound, current)
          | Some child =>
              let '(r, child') := with_dir child rest f in
              (r, Dir (<[part := child']> entries))
          end
      end
  end.

Definition dir_mut {A} (fs : RamFs) (parts : list string)
    (f : gmap string Node → FsResult A * gmap string Node) : FsResult A * RamFs :=
  let '(r, n) := with_dir (root fs) parts f in (r, mkRamFs n).

(** The prologue the mutating operations share: split the path, split off the
    last component, borrow the parent directory. *)
Definition at_parent {A} (fs : RamFs) (parts : list string)
    (f : string → gmap string Node → FsResult A * gmap string Node) : FsResult A * RamFs :=
  match split_parent parts with
  | Err e => (Err e, fs)
  | Ok (parent, name) => dir_mut fs parent (f name)
  end.

(** The keys of a [BTreeMap<String, _>] in order: by bytes. *)
Definition sorted_keys (entries : gmap string Node) : list string :=
  merge_sort String.le (elements (dom entries)).

(** ** Operations *)

Module Fs.

Definition mkdir (fs : RamFs) (path : string) : FsResult unit * RamFs :=
  match split_path path with
  | Err e => (Err e, fs)
  | Ok parts =>
      if bool_decide (parts = []) then (Err AlreadyExists, fs)
      else at_parent fs parts (λ name dir,
        match dir !! name with
        | Some _ => (Err AlreadyExists, dir)
        | None => (Ok (), <[name := Dir ∅]> dir)
        end)
  end.

Definition touch (fs : RamFs) (path : string) : FsResult unit * RamFs :=
  match split_path path with
  | Err e => (Err e, fs)
  | Ok parts => at_parent fs parts (λ name dir,
      match dir !! name with
      | Some (Dir _) => (Err IsDirectory, dir)
      | Some (File _) => (Ok (), dir)
      | None => (Ok (), <[name := File []]> dir)
      end)
  end.

Definition write (fs : RamFs) (path : string) (data : bytes) : FsResult unit * RamFs :=
  match split_path path with
  | Err e => (Err e, fs)
  | Ok parts => at_parent fs parts (λ name dir,
      match dir !! name with
      | Some (Dir _) => (Err IsDirectory, dir)
      | Some (File content) => (Ok (), <[name := File ([] ++ data)]> dir)
      | None => (Ok (), <[name := File data]> dir)
      end)
  end.

Definition append (fs : RamFs) (path : string) (data : bytes) : FsResult unit * RamFs :=
  match split_path path with
  | Err e => (Err e, fs)
  | Ok parts => at_parent fs parts (λ name dir,
      match dir !! name with
      | Some (Dir _) => (Err IsDirectory, dir)
      | Some (File content) => (Ok (), <[name := File (content ++ data)]> dir)
      | None => (Ok (), <[name := File data]> dir)
      end)
  end.

Definition read (fs : RamFs) (path : string) : FsResult bytes :=
  match node fs path with
  | Ok (File content) => Ok content
  | Ok (Dir _) => Err IsDirectory
  | Err e => Err e
  end.


Definition list (fs : RamFs) (path : string) : FsResult (list string) :=
  match node fs path with
  | Ok (File _) => Err NotDirectory
  | Ok (Dir entries) => Ok (sorted_keys entries)
  | Err e => Err e
  end.

Definition remove (fs : RamFs) (path : string) : FsResult unit * RamFs :=
  match split_path path with
  | Err e => (Err e, fs)
  | Ok parts => at_parent fs parts (λ name dir,
      match dir !! name with
      | None => (Err NotFound, dir)
      | Some (Dir entries) =>
          if bool_decide (entries = ∅) then (Ok (), delete name dir)
          else (Err DirectoryNotEmpty, dir)
      | Some (File _) => (Ok (), delete name dir)
      end)
  end.

(** The node is taken out of the old directory before the new one is
    looked at. *)
Definition rename (fs : RamFs) (old new : string) : FsResult unit * RamFs :=
  match split_path old with
  | Err e => (Err e, fs)
  | Ok old_parts =>
  match split_path new with
  | Err e => (Err e, fs)
  | Ok new_parts =>
  match split_parent old_parts with
  | Err e => (Err e, fs)
  | Ok (old_parent, old_name) =>
  match split_parent new_parts with
  | Err e => (Err e, fs)
  | Ok (new_parent, new_name) =>
      let '(r, fs1) := dir_mut fs old_parent (λ dir,
        match dir !! old_name with
        | Some n => (Ok n, delete old_name dir)
        | None => (Err NotFound, dir)
        end) in
      match r with
      | Err e => (Err e, fs1)
      | Ok n => dir_mut fs1 new_parent (λ dir,
          match dir !! new_name with
          | Some _ => (Err AlreadyExists, dir)
          | None => (Ok (), <[new_name := n]> dir)
          end)
      end
  end end end end.

Definition copy (fs : RamFs) (src dst : string) : FsResult unit * RamFs :=
  match read fs src with
  | Ok data => write fs dst data
  | Err e => (Err e, fs)
  end.

(** [fs.mkdir(path).expect(..)] *)
Definition mkdir_expect (path : string) (fs : RamFs) : outcome RamFs :=
  match mkdir fs path with
  | (Ok _, fs') => Ret fs'
  | (Err _, _) => Panic
  end.
Definition new : outcome RamFs :=
  for_each ["/bin"; "/lib"; "/home"; "/tmp"] mkdir_expect (mkRamFs (Dir ∅)).
End Fs.
