(* ===== verification/RamFsCorrect.v ===== *)
(** * Correctness of the in-memory file system

    The abstract state is [stat]: for a list of path components, what is
    there (a file with its content, or a directory) or why nothing is.  Each
    operation is characterised by its effect on [stat] at every path. *)

From S2P Require Import Prelude Bytes RamFs.
From stdpp Require Import sorting.
From Stdlib Require Import Strings.Byte Ascii.
Local Open Scope string_scope.
Local Open Scope list_scope.

Inductive kind := KFile (content : bytes) | KDir.

Definition kind_of (n : Node) : kind :=
  match n with File c => KFile c | Dir _ => KDir end.

Definition stat (n : Node) (q : list string) : FsResult kind :=
  match walk n q with Ok m => Ok (kind_of m) | Err e => Err e end.

(** ** Path components *)

Lemma split_last_snoc p x : split_last (p ++ [x]) = Some (p, x).
Proof.
  induction p as [|y p IH]; [done|]. simpl. rewrite IH. by destruct p.
Qed.
Lemma split_last_Some l p x : split_last l = Some (p, x) → l = p ++ [x].
Proof.
  intros H. destruct l as [|y l _] using rev_ind; [done|].
  rewrite split_last_snoc in H. by simplify_eq.
Qed.

(** ** Walking *)

Lemma walk_app n p q :
  walk n (p ++ q) = match walk n p with Ok m => walk m q | Err e => Err e end.
Proof.
  revert n. induction p as [|x p IH]; intros n; [done|]. simpl.
  destruct n as [c|es]; [done|]. destruct (es !! x); [apply IH|done].
Qed.

(** Replacing the directory at [p]. *)
Fixpoint set_dir (n : Node) (p : list string) (es' : gmap string Node) : Node :=
  match p with
  | [] => Dir es'
  | x :: p' =>
      match n with
      | File _ => n
      | Dir es =>
          match es !! x with
          | Some child => Dir (<[x := set_dir child p' es']> es)
          | None => n
          end
      end
  end.

Lemma with_dir_walk {A} n p (f : gmap string Node → FsResult A * gmap string Node) :
  with_dir n p f =
    match walk n p with
    | Ok (Dir es) => (fst (f es), set_dir n p (snd (f es)))
    | Ok (File _) => (Err NotDirectory, n)
    | Err e => (Err e, n)
    end.
Proof.
  revert n. induction p as [|x p IH]; intros n; destruct n as [c|es]; simpl; try done.
  - by destruct (f es).
  - destruct (es !! x) as [child|] eqn:E; [|done]. rewrite IH.
    destruct (walk child p) as [[c|es']|e]; simpl; by rewrite ?(insert_id es x child).
Qed.

Lemma walk_set_dir_below n p es es' q :
  walk n p = Ok (Dir es) → walk (set_dir n p es') (p ++ q) = walk (Dir es') q.
Proof.
  revert n. induction p as [|x p IH]; intros n H; [done|]. simpl in H |- *.
  destruct n as [c|es0]; [done|]. destruct (es0 !! x) as [child|] eqn:E; [|done].
  simpl. rewrite lookup_insert_eq. by apply IH.
Qed.

Lemma stat_set_dir_beside n p es es' q :
  walk n p = Ok (Dir es) → ¬ p `prefix_of` q → stat (set_dir n p es') q = stat n q.
Proof.
  revert n q. induction p as [|x p IH]; intros n q H Hq; [by destruct Hq; apply prefix_nil|].
  simpl in H |- *. destruct n as [c|es0]; [done|].
  destruct (es0 !! x) as [child|] eqn:E; [|done]. destruct q as [|y q]; [done|].
  unfold stat. simpl. destruct (decide (x = y)) as [<-|Hne].
  - rewrite lookup_insert_eq, E. apply (IH child q H). intros Hp. apply Hq. by apply prefix_cons.
  - by rewrite lookup_insert_ne.
Qed.

(** ** The abstract file system

    A [view] gives for every list of path components what is there.  [put]
    replaces everything at and below one path. *)

Definition view := list string → FsResult kind.

Definition put (s : view) (p : list string) (sub : view) : view := λ q,
  if decide (p `prefix_of` q) then sub (drop (length p) q) else s q.

Definition absent : view := λ _, Err NotFound.
Definition leaf_file (content : bytes) : view := stat (File content).
Definition leaf_dir : view := stat (Dir ∅).

Lemma put_at s p sub q : put s p sub (p ++ q) = sub q.
Proof.
  unfold put. rewrite decide_True by (by apply prefix_app_r). by rewrite drop_app_length.
Qed.
Lemma put_here s p sub : put s p sub p = sub [].
Proof. unfold put. rewrite decide_True by done. by rewrite drop_all. Qed.
Lemma put_beside s p sub q : ¬ p `prefix_of` q → put s p sub q = s q.
Proof. intros H. unfold put. by rewrite decide_False. Qed.

Lemma prefix_snoc_not (p : list string) x : ¬ p ++ [x] `prefix_of` p.
Proof. intros H%prefix_length. rewrite length_app in H. simpl in H. lia. Qed.

(** An edit of one entry of the directory at [p] is a [put] at that entry. *)
Lemma stat_set_entry n p x es es' q :
  walk n p = Ok (Dir es) → (∀ y, y ≠ x → es' !! y = es !! y) →
  stat (set_dir n p es') q =
    put (stat n) (p ++ [x])
      (match es' !! x with Some m => stat m | None => absent end) q.
Proof.
  intros H Hes. destruct (decide (p `prefix_of` q)) as [[q' ->]|Hp].
  2: { rewrite put_beside; [by apply (stat_set_dir_beside _ _ es)|].
       intros [k ->]. apply Hp. exists ([x] ++ k). by rewrite app_assoc. }
  unfold stat at 1. rewrite (walk_set_dir_below _ _ es) by done.
  destruct q' as [|y q'].
  - rewrite app_nil_r, put_beside by apply prefix_snoc_not. unfold stat. by rewrite H.
  - destruct (decide (y = x)) as [->|Hne].
    + replace (p ++ x :: q') with ((p ++ [x]) ++ q') by (by rewrite <- app_assoc). rewrite put_at. simpl. by destruct (es' !! x).
    + rewrite put_beside.
      2: { intros [k Hk]. rewrite <- app_assoc in Hk. by simplify_list_eq. }
      unfold stat. rewrite walk_app, H. simpl. by rewrite Hes.
Qed.

Lemma stat_child n p es x : walk n p = Ok (Dir es) →
  stat n (p ++ [x]) = match es !! x with Some m => Ok (kind_of m) | None => Err NotFound end.
Proof. intros H. unfold stat. rewrite walk_app, H. simpl. by destruct (es !! x). Qed.

Lemma put_same n p x es q : walk n p = Ok (Dir es) →
  stat n q = put (stat n) (p ++ [x]) (match es !! x with Some m => stat m | None => absent end) q.
Proof.
  intros H. unfold put. case_decide as Hp; [|done]. destruct Hp as [k ->].
  rewrite drop_app_length. unfold stat. rewrite <- app_assoc, walk_app, H. simpl.
  by destruct (es !! x).
Qed.

(** ** The abstract operations

    What the operations that edit one entry have in common: the errors of
    path splitting and of finding the parent directory, then an edit that
    depends on what is at the path. *)
Definition edit_entry (s : view) (path : string)
    (k : FsResult kind → FsResult unit * option view) : FsResult unit * view :=
  match split_path path with
  | Err e => (Err e, s)
  | Ok parts =>
      match split_last parts with
      | None => (Err InvalidPath, s)
      | Some (parent, _) =>
          match s parent with
          | Err e => (Err e, s)
          | Ok (KFile _) => (Err NotDirectory, s)
          | Ok KDir =>
              match k (s parts) with
              | (r, Some sub) => (r, put s parts sub)
              | (r, None) => (r, s)
              end
          end
      end
  end.

Definition abs_mkdir (s : view) (path : string) : FsResult unit * view :=
  if decide (split_path path = Ok []) then (Err AlreadyExists, s)
  else edit_entry s path (λ cur,
    match cur with
    | Ok _ => (Err AlreadyExists, None)
    | Err _ => (Ok (), Some leaf_dir)
    end).

Definition abs_touch (s : view) (path : string) : FsResult unit * view :=
  edit_entry s path (λ cur,
    match cur with
    | Ok KDir => (Err IsDirectory, None)
    | Ok (KFile _) => (Ok (), None)
    | Err _ => (Ok (), Some (leaf_file []))
    end).

Definition abs_write (s : view) (path : string) (data : bytes) : FsResult unit * view :=
  edit_entry s path (λ cur,
    match cur with
    | Ok KDir => (Err IsDirectory, None)
    | _ => (Ok (), Some (leaf_file data))
    end).

Definition abs_append (s : view) (path : string) (data : bytes) : FsResult unit * view :=
  edit_entry s path (λ cur,
    match cur with
    | Ok KDir => (Err IsDirectory, None)
    | Ok (KFile old) => (Ok (), Some (leaf_file (old ++ data)))
    | Err _ => (Ok (), Some (leaf_file data))
    end).

(** [empty] says whether a directory at the path has no entry. *)
Definition abs_remove (s : view) (path : string) (empty : bool) : FsResult unit * view :=
  edit_entry s path (λ cur,
    match cur with
    | Err _ => (Err NotFound, None)
    | Ok KDir => if empty then (Ok (), Some absent) else (Err DirectoryNotEmpty, None)
    | Ok (KFile _) => (Ok (), Some absent)
    end).

Definition fs_view (fs : RamFs) : view := stat (root fs).

(** The concrete result and state against the abstract ones; a failed
    operation leaves the tree itself alone. *)
Record refines (fs : RamFs) (c : FsResult unit * RamFs) (a : FsResult unit * view) : Prop := {
  rf_result : c.1 = a.1;
  rf_state : ∀ q, fs_view c.2 q = a.2 q;
  rf_error : ∀ e, c.1 = Err e → c.2 = fs;
}.

Lemma at_parent_refines fs path parts f k :
  split_path path = Ok parts →
  (∀ parent name es, parts = parent ++ [name] → walk (root fs) parent = Ok (Dir es) →
     match k (match es !! name with Some m => Ok (kind_of m) | None => Err NotFound end) with
     | (r, Some sub) => r = Ok () ∧ fst (f name es) = r ∧
         (∀ y, y ≠ name → snd (f name es) !! y = es !! y) ∧
         (∀ q, match snd (f name es) !! name with Some m => stat m | None => absent end q = sub q)
     | (r, None) => f name es = (r, es)
     end) →
  refines fs (at_parent fs parts f) (edit_entry (fs_view fs) path k).
Proof.
  intros Hp Hf. unfold at_parent, edit_entry, split_parent, dir_mut. rewrite Hp.
  destruct (split_last parts) as [[p x]|] eqn:E; simpl; [|by split].
  apply split_last_Some in E as ->. rewrite with_dir_walk. unfold fs_view at 1.
  unfold stat at 1. destruct (walk (root fs) p) as [[c|es]|e] eqn:W; simpl;
    [by split; destruct fs| |by split; destruct fs].
  specialize (Hf p x es eq_refl W). unfold fs_view at 1. rewrite (stat_child _ _ es) by done.
  destruct (k _) as [r [sub|]].
  - destruct Hf as (-> & Hr & He & Hs). split; simpl; [done| |congruence].
    intros q. unfold fs_view. simpl. rewrite (stat_set_entry _ _ x es) by done.
    unfold put. case_decide; [apply Hs|done].
  - rewrite Hf. simpl.
    assert (set_dir (root fs) p es = root fs) as ->; [|by split; destruct fs].
    clear -W. revert W. generalize (root fs). induction p as [|y p IH]; intros n; simpl; [congruence|].
    destruct n as [c|es0]; [done|]. destruct (es0 !! y) as [m|] eqn:E; [|done].
    intros W. rewrite IH by done. by rewrite insert_id.
Qed.

(** Solves the side condition of [at_parent_refines] by cases on the entry. *)
Ltac entry_cases :=
  intros parent name es -> Hwalk; destruct (es !! name) as [[?|?]|] eqn:?; simpl; try done;
  try (split_and!; [done|done| |]);
  try (intros; by simplify_map_eq); try (intros; by rewrite lookup_insert_eq);
  try (intros; by rewrite lookup_delete_eq).

Lemma mkdir_refines fs path : refines fs (Fs.mkdir fs path) (abs_mkdir (fs_view fs) path).
Proof.
  unfold Fs.mkdir, abs_mkdir.
  destruct (split_path path) as [parts|e] eqn:E.
  2: { rewrite decide_False by done. unfold edit_entry. rewrite E. by split. }
  destruct (decide (parts = [])) as [->|Hne].
  - rewrite bool_decide_true, decide_True by done. by split.
  - rewrite bool_decide_false, decide_False by congruence.
    apply at_parent_refines; [done|]. entry_cases.
Qed.

Lemma touch_refines fs path : refines fs (Fs.touch fs path) (abs_touch (fs_view fs) path).
Proof.
  unfold Fs.touch, abs_touch. destruct (split_path path) as [parts|e] eqn:E.
  - apply at_parent_refines; [done|]. entry_cases.
  - unfold edit_entry. rewrite E. by split.
Qed.

Lemma write_refines fs path data :
  refines fs (Fs.write fs path data) (abs_write (fs_view fs) path data).
Proof.
  unfold Fs.write, abs_write. destruct (split_path path) as [parts|e] eqn:E.
  - apply at_parent_refines; [done|]. entry_cases.
  - unfold edit_entry. rewrite E. by split.
Qed.

Lemma append_refines fs path data :
  refines fs (Fs.append fs path data) (abs_append (fs_view fs) path data).
Proof.
  unfold Fs.append, abs_append. destruct (split_path path) as [parts|e] eqn:E.
  - apply at_parent_refines; [done|]. entry_cases.
  - unfold edit_entry. rewrite E. by split.
Qed.

(** Whether a directory has no entry, read off the view. *)
Definition empty_at (s : view) (path : string) (empty : bool) : Prop :=
  ∀ parts, split_path path = Ok parts →
    (empty = true ↔ ∀ x, s (parts ++ [x]) = Err NotFound).

Definition computed_empty (fs : RamFs) (path : string) : bool :=
  match node fs path with
  | Ok (Dir es) => bool_decide (es = ∅)
  | Ok (File _) => false
  | Err NotDirectory => false
  | Err _ => true
  end.

Lemma walk_errors n q e : walk n q = Err e → e = NotFound ∨ e = NotDirectory.
Proof.
  revert n. induction q as [|x q IH]; intros n; simpl; [done|].
  destruct n as [c|es]; [naive_solver|]. destruct (es !! x); naive_solver.
Qed.

Lemma computed_empty_at fs path : empty_at (fs_view fs) path (computed_empty fs path).
Proof.
  intros parts Hp. unfold computed_empty, node. rewrite Hp. unfold fs_view, stat.
  setoid_rewrite walk_app. destruct (walk (root fs) parts) as [[c|es]|e] eqn:W; simpl.
  - split; [done|]. intros H. by specialize (H "").
  - rewrite bool_decide_eq_true. split.
    + intros -> x. by rewrite lookup_empty.
    + intros H. apply map_empty. intros x. specialize (H x). by destruct (es !! x).
  - apply walk_errors in W as [-> | ->]; split; try done. intros H. by specialize (H "").
Qed.

Lemma remove_refines fs path :
  refines fs (Fs.remove fs path) (abs_remove (fs_view fs) path (computed_empty fs path)).
Proof.
  unfold Fs.remove, abs_remove. destruct (split_path path) as [parts|e] eqn:E.
  - apply at_parent_refines; [done|]. unfold computed_empty, node. rewrite E.
    intros parent name es -> Hwalk. rewrite walk_app, Hwalk. simpl.
    destruct (es !! name) as [[c|es']|] eqn:Ees; simpl; [|case_bool_decide|done]; try done;
      (split_and!; [done|done| |]); intros; by simplify_map_eq.
  - unfold edit_entry. rewrite E. by split.
Qed.

Definition abs_copy (s : view) (src dst : string) : FsResult unit * view :=
  match split_path src with
  | Err e => (Err e, s)
  | Ok parts =>
      match s parts with
      | Ok (KFile data) => abs_write s dst data
      | Ok KDir => (Err IsDirectory, s)
      | Err e => (Err e, s)
      end
  end.

Lemma read_view fs path :
  Fs.read fs path =
    match split_path path with
    | Err e => Err e
    | Ok parts =>
        match fs_view fs parts with
        | Ok (KFile data) => Ok data
        | Ok KDir => Err IsDirectory
        | Err e => Err e
        end
    end.
Proof.
  unfold Fs.read, node, fs_view, stat. destruct (split_path path) as [parts|e]; [|done].
  by destruct (walk (root fs) parts) as [[c|es]|e].
Qed.

Lemma copy_refines fs src dst : refines fs (Fs.copy fs src dst) (abs_copy (fs_view fs) src dst).
Proof.
  unfold Fs.copy, abs_copy. rewrite read_view.
  destruct (split_path src) as [parts|e]; [|by split].
  destruct (fs_view fs parts) as [[c|]|e]; [apply write_refines|by split..].
Qed.

(** ** Rename *)

Definition abs_rename (s : view) (old new : string) : FsResult unit * view :=
  match split_path old with Err e => (Err e, s) | Ok old_parts =>
  match split_path new with Err e => (Err e, s) | Ok new_parts =>
  match split_last old_parts with None => (Err InvalidPath, s) | Some (old_parent, _) =>
  match split_last new_parts with None => (Err InvalidPath, s) | Some (new_parent, _) =>
  match s old_parent with
  | Err e => (Err e, s)
  | Ok (KFile _) => (Err NotDirectory, s)
  | Ok KDir =>
      match s old_parts with
      | Err _ => (Err NotFound, s)
      | Ok _ =>
          let s1 := put s old_parts absent in
          match s1 new_parent with
          | Err e => (Err e, s1)
          | Ok (KFile _) => (Err NotDirectory, s1)
          | Ok KDir =>
              match s1 new_parts with
              | Ok _ => (Err AlreadyExists, s1)
              | Err _ => (Ok (), put s1 new_parts (λ q, s (old_parts ++ q)))
              end
          end
      end
  end end end end end.

Definition same_view (c : FsResult unit * RamFs) (a : FsResult unit * view) : Prop :=
  c.1 = a.1 ∧ ∀ q, fs_view c.2 q = a.2 q.

Lemma put_ext (s s' : view) p sub sub' q :
  (∀ q, s q = s' q) → (∀ q, sub q = sub' q) → put s p sub q = put s' p sub' q.
Proof. intros H H'. unfold put. by case_decide. Qed.

(** The second half of [rename]: inserting a node under a free name. *)
Lemma insert_same_view n p x m (s : view) :
  (∀ q, stat n q = s q) →
  same_view (dir_mut (mkRamFs n) p (λ dir : gmap string Node,
      match dir !! x with
      | Some _ => (Err AlreadyExists, dir)
      | None => (Ok (), <[x := m]> dir)
      end))
    (match s p with
     | Err e => (Err e, s)
     | Ok (KFile _) => (Err NotDirectory, s)
     | Ok KDir =>
         match s (p ++ [x]) with
         | Ok _ => (Err AlreadyExists, s)
         | Err _ => (Ok (), put s (p ++ [x]) (stat m))
         end
     end).
Proof.
  intros Hs. unfold dir_mut. rewrite with_dir_walk. rewrite <- !Hs. simpl.
  unfold stat at 1. destruct (walk n p) as [[c|es]|e] eqn:W; simpl; [by split| |by split].
  rewrite (stat_child _ _ es) by done. destruct (es !! x) as [m'|] eqn:Ex; simpl.
  - split; [done|]. intros q. unfold fs_view. simpl. rewrite (stat_set_entry _ _ x es) by done.
    rewrite <- Hs. symmetry. by apply put_same.
  - split; [done|]. intros q. unfold fs_view. simpl.
    rewrite (stat_set_entry _ _ x es); [|done|intros; by simplify_map_eq].
    rewrite lookup_insert_eq. by apply put_ext.
Qed.

Lemma rename_same_view fs old new :
  same_view (Fs.rename fs old new) (abs_rename (fs_view fs) old new).
Proof.
  unfold Fs.rename, abs_rename, split_parent.
  destruct (split_path old) as [ol|e]; [|done]. destruct (split_path new) as [nw|e]; [|done].
  destruct (split_last ol) as [[p x]|] eqn:Eo; simpl; [|done].
  destruct (split_last nw) as [[p' x']|] eqn:En; simpl; [|done].
  apply split_last_Some in Eo as ->, En as ->.
  unfold dir_mut at 1. rewrite with_dir_walk. unfold fs_view at 1, stat at 1.
  destruct (walk (root fs) p) as [[c|es]|e] eqn:W; simpl; [done| |done].
  unfold fs_view at 1. rewrite (stat_child _ _ es) by done.
  destruct (es !! x) as [m|] eqn:Ex; simpl.
  2: { split; [done|]. intros q. unfold fs_view. simpl.
       rewrite (stat_set_entry _ _ x es) by done. symmetry. by apply put_same. }
  assert (∀ q, stat m q = fs_view fs ((p ++ [x]) ++ q)) as Hm.
  { intros q. unfold fs_view, stat. rewrite <- app_assoc, walk_app, W. simpl. by rewrite Ex. }
  pose proof (insert_same_view (set_dir (root fs) p (delete x es)) p' x' m
    (put (fs_view fs) (p ++ [x]) absent)) as [Hr Hq].
  { intros q. rewrite (stat_set_entry _ _ x es); [|done|intros; by simplify_map_eq].
    by rewrite lookup_delete_eq. }
  split; [rewrite Hr|intros q; rewrite Hq]; repeat case_match; simplify_eq; try done.
  by apply put_ext.
Qed.

(** ** Names

    A proper component can be reached by a path: it is not empty, is not
    ["."] and contains no slash. *)
Fixpoint has_char (c : ascii) (s : string) : bool :=
  match s with
  | EmptyString => false
  | String a s' => bool_decide (a = c) || has_char c s'
  end.

Definition good_name (x : string) : Prop := keep_part x = true ∧ has_char "/" x = false.

(** The path that names a list of components. *)
Fixpoint render (q : list string) : string :=
  match q with
  | [] => "/"
  | [x] => String "/" x
  | x :: q' => String "/" x +:+ render q'
  end.

Lemma split_on_no_char c s : has_char c s = false → split_on c s = [s].
Proof.
  induction s as [|a s IH]; simpl; [done|]. case_bool_decide; simpl; [done|].
  intros H'. by rewrite IH.
Qed.

Lemma split_on_app c s t :
  has_char c s = false → split_on c (s +:+ String c t) = s :: split_on c t.
Proof.
  induction s as [|a s IH]; simpl; [by rewrite bool_decide_true|].
  case_bool_decide; simpl; [done|]. intros H'. by rewrite IH.
Qed.

Lemma split_on_pieces c s : Forall (λ x, has_char c x = false) (split_on c s).
Proof.
  induction s as [|a s IH]; simpl; [by repeat constructor|].
  case_bool_decide; [by constructor|].
  destruct (split_on c s) as [|w ws]; inversion_clear IH; constructor; simpl;
    rewrite ?bool_decide_false by done; done.
Qed.

Lemma split_path_good path parts : split_path path = Ok parts → Forall good_name parts.
Proof.
  unfold split_path. destruct (starts_with_char _ _); intros H; simplify_eq.
  pose proof (split_on_pieces "/" path) as Hp. induction Hp as [|x l Hx Hl IH]; simpl; [done|].
  destruct (keep_part x) eqn:E; [|done]. by constructor.
Qed.

Lemma render_split q : Forall good_name q → split_path (render q) = Ok q.
Proof.
  intros H. unfold split_path. destruct q as [|x0 q0] eqn:Eq; [done|].
  rewrite <- Eq in *. assert (starts_with_char "/" (render q) = true) as ->.
  { subst. by destruct q0. }
  f_equal. assert (∃ t, render q = String "/" t ∧
    List.filter keep_part (split_on "/" t) = q) as (t & -> & Ht); [|done].
  clear Eq x0 q0. induction H as [|x q [Hk Hc] Hq (t & Et & IH)]; [by exists ""|].
  destruct q as [|y q].
  - exists x. split; [done|]. rewrite split_on_no_char by done. simpl. by rewrite Hk.
  - exists (x +:+ render (y :: q)). split; [done|]. rewrite Et, split_on_app by done.
    simpl. by rewrite Hk, IH.
Qed.

(** Everything in the view lies under proper names. *)
Definition names_ok (s : view) : Prop := ∀ q k, s q = Ok k → Forall good_name q.

Lemma names_put s p sub :
  names_ok s → Forall good_name p → names_ok sub → names_ok (put s p sub).
Proof.
  intros Hs Hp Hsub q k. unfold put. case_decide as Hpre; [|apply Hs].
  destruct Hpre as [q' ->]. rewrite drop_app_length. intros Hk.
  apply Forall_app. split; [done|by eapply Hsub].
Qed.

Lemma names_absent : names_ok absent.
Proof. by intros q k. Qed.
Lemma names_leaf_file c : names_ok (leaf_file c).
Proof. by intros [|x q] k. Qed.
Lemma names_leaf_dir : names_ok leaf_dir.
Proof. intros [|x q] k; [done|]. unfold leaf_dir, stat. simpl. by rewrite lookup_empty. Qed.

Create HintDb fsview.
#[export] Hint Resolve names_put names_absent names_leaf_file names_leaf_dir split_path_good : fsview.

Lemma names_edit s path k :
  names_ok s → (∀ cur r sub, k cur = (r, Some sub) → names_ok sub) →
  names_ok (edit_entry s path k).2.
Proof.
  intros Hs Hk. unfold edit_entry. repeat (case_match; simpl; try done).
  apply names_put; eauto with fsview.
Qed.

Lemma names_sub s p : names_ok s → names_ok (λ q, s (p ++ q)).
Proof. intros Hs q k H. apply Hs in H. by apply Forall_app in H as [_ H]. Qed.

Lemma names_ext s s' : (∀ q, s q = s' q) → names_ok s' → names_ok s.
Proof. intros He Hs q k. rewrite He. apply Hs. Qed.

(** ** One step of a client *)

Inductive fs_op :=
  | OpMkdir (path : string)
  | OpTouch (path : string)
  | OpWrite (path : string) (data : bytes)
  | OpAppend (path : string) (data : bytes)
  | OpRemove (path : string)
  | OpRename (old new : string)
  | OpCopy (src dst : string).

Definition fs_run (fs : RamFs) (op : fs_op) : FsResult unit * RamFs :=
  match op with
  | OpMkdir p => Fs.mkdir fs p
  | OpTouch p => Fs.touch fs p
  | OpWrite p d => Fs.write fs p d
  | OpAppend p d => Fs.append fs p d
  | OpRemove p => Fs.remove fs p
  | OpRename a b => Fs.rename fs a b
  | OpCopy a b => Fs.copy fs a b
  end.

Definition abs_run (s : view) (op : fs_op) (empty : string → bool) : FsResult unit * view :=
  match op with
  | OpMkdir p => abs_mkdir s p
  | OpTouch p => abs_touch s p
  | OpWrite p d => abs_write s p d
  | OpAppend p d => abs_append s p d
  | OpRemove p => abs_remove s p (empty p)
  | OpRename a b => abs_rename s a b
  | OpCopy a b => abs_copy s a b
  end.

Definition is_rename (op : fs_op) : bool := match op with OpRename _ _ => true | _ => false end.

Lemma fs_run_refines fs op :
  is_rename op = false →
  refines fs (fs_run fs op) (abs_run (fs_view fs) op (computed_empty fs)).
Proof.
  destruct op; simpl; intros; eauto using mkdir_refines, touch_refines, write_refines,
    append_refines, remove_refines, copy_refines. done.
Qed.

Lemma fs_run_same_view fs op :
  same_view (fs_run fs op) (abs_run (fs_view fs) op (computed_empty fs)).
Proof.
  destruct (is_rename op) eqn:E.
  - destruct op; try done. apply rename_same_view.
  - by destruct (fs_run_refines fs op E).
Qed.

Lemma names_abs_run s op empty : names_ok s → names_ok (abs_run s op empty).2.
Proof.
  intros Hs. destruct op; simpl; unfold abs_mkdir, abs_touch, abs_write, abs_append, abs_remove.
  6: { unfold abs_rename. repeat (case_match; simpl; try done);
         repeat apply names_put; eauto using names_sub with fsview. }
  6: { unfold abs_copy, abs_write. repeat (case_match; simpl; try done).
       apply names_edit; [done|]. intros. repeat case_match; simplify_eq; auto with fsview. }
  1: { case_decide; [done|]. apply names_edit; [done|].
       intros. repeat case_match; simplify_eq; auto with fsview. }
  all: apply names_edit; [done|]; intros; repeat case_match; simplify_eq; auto with fsview.
Qed.

(** ** Claims *)

(** C25: every operation of the file system refines the abstract one on views:
    same result, and after it every path shows what the abstract operation
    says; whether a removed directory counts as empty is decided by its
    entries; and every operation but [rename] leaves the tree unchanged when
    it fails. *)
Theorem fs_ops_refine fs op :
  ∃ empty, (∀ path, empty_at (fs_view fs) path (empty path)) ∧
    same_view (fs_run fs op) (abs_run (fs_view fs) op empty) ∧
    (is_rename op = false → ∀ e, (fs_run fs op).1 = Err e → (fs_run fs op).2 = fs).
Proof.
  exists (computed_empty fs). split_and!.
  - apply computed_empty_at.
  - apply fs_run_same_view.
  - intros H. by destruct (fs_run_refines fs op H).
Qed.

(** A file system with a file [/home/a], for the witnesses. *)
Definition sample_fs : RamFs :=
  match Fs.new with
  | Ret fs => (Fs.write fs "/home/a" [x61; x62]).2
  | _ => mkRamFs (Dir ∅)
  end.

Lemma fs_ops_refine_witness :
  (fs_run sample_fs (OpRemove "/home")).1 = Err DirectoryNotEmpty ∧
  (fs_run sample_fs (OpRemove "/home")).2 = sample_fs.
Proof.
  destruct (fs_ops_refine sample_fs (OpRemove "/home")) as (_ & _ & _ & H).
  assert ((fs_run sample_fs (OpRemove "/home")).1 = Err DirectoryNotEmpty) as E
    by (vm_compute; reflexivity).
  split; [exact E|]. exact (H eq_refl _ E).
Defined.

Lemma put_file_reads s p data q d :
  q ≠ p → (∀ k r, p `prefix_of` r → r ≠ p → s r = Ok k → False) →
  put s p (leaf_file data) q = Ok (KFile d) ↔ s q = Ok (KFile d).
Proof.
  intros Hne Hleaf. unfold put. case_decide as Hp; [|done]. destruct Hp as [k ->].
  rewrite drop_app_length. destruct k as [|y k]; [by rewrite app_nil_r in Hne|].
  split; [done|]. intros H. exfalso. eapply Hleaf, H; [by apply prefix_app_r|done].
Qed.

Lemma view_below_file fs p r k :
  (∀ es, walk (root fs) p ≠ Ok (Dir es)) → p `prefix_of` r → r ≠ p → fs_view fs r = Ok k → False.
Proof.
  intros Hw [q ->] Hne. unfold fs_view, stat. rewrite walk_app.
  destruct q as [|y q]; [by rewrite app_nil_r in Hne|].
  destruct (walk (root fs) p) as [[c|es]|e]; [done|by destruct (Hw es)|done].
Qed.

(** What a successful [write] or [append] has done, in terms of [edit_entry]. *)
Lemma edit_file_inv fs path k r s' :
  edit_entry (fs_view fs) path k = (r, s') → r = Ok () →
  (∀ x y, k (Ok KDir) = (x, y) → x = Err IsDirectory) →
  ∃ parts, split_path path = Ok parts ∧
    (∀ es, walk (root fs) parts ≠ Ok (Dir es)) ∧
    k (fs_view fs parts) = (Ok (), (k (fs_view fs parts)).2) ∧
    s' = match (k (fs_view fs parts)).2 with
         | Some sub => put (fs_view fs) parts sub
         | None => fs_view fs
         end.
Proof.
  unfold edit_entry. intros H -> Hk. destruct (split_path path) as [parts|e]; [|done].
  destruct (split_last parts) as [[p x]|]; [|done].
  destruct (fs_view fs p) as [[c|]|]; [done| |done].
  exists parts. split_and!; [done|..].
  - intros es Hw. unfold fs_view, stat in H. rewrite Hw in H. simpl in H.
    destruct (k (Ok KDir)) as [x' y'] eqn:E. specialize (Hk _ _ eq_refl). subst.
    destruct y'; simplify_eq.
  - destruct (k (fs_view fs parts)) as [x' [sub|]]; by simplify_eq.
  - destruct (k (fs_view fs parts)) as [x' [sub|]]; by simplify_eq.
Qed.

Lemma view_parent fs p x k : fs_view fs (p ++ [x]) = Ok k → fs_view fs p = Ok KDir.
Proof.
  unfold fs_view, stat. rewrite walk_app.
  destruct (walk (root fs) p) as [[c|es]|e]; simpl; done.
Qed.

(** The root of a file system is a directory. *)
Definition root_ok (fs : RamFs) : Prop := fs_view fs [] = Ok KDir.

(** One file was stored: it reads back, and nothing else reads differently. *)
Record stored (fs fs' : RamFs) (path : string) (data : bytes) : Prop := {
  st_read : Fs.read fs' path = Ok data;
  st_frame : ∀ path' d, split_path path' ≠ split_path path →
    (Fs.read fs' path' = Ok d ↔ Fs.read fs path' = Ok d);
  st_root : root_ok fs → root_ok fs';
}.

Lemma stored_view fs fs' path parts data :
  split_path path = Ok parts → (∀ es, walk (root fs) parts ≠ Ok (Dir es)) →
  (∀ q, fs_view fs' q = put (fs_view fs) parts (leaf_file data) q) →
  stored fs fs' path data.
Proof.
  intros Hp Hw Hv. split.
  - by rewrite read_view, Hp, Hv, put_here.
  - intros path' d Hne. rewrite !read_view. destruct (split_path path') as [parts'|e]; [|done].
    rewrite Hv. assert (parts' ≠ parts) as Hne' by congruence.
    pose proof (put_file_reads (fs_view fs) parts data parts' d Hne') as Hput.
    repeat case_match; naive_solver eauto using view_below_file.
  - unfold root_ok. intros Hr. rewrite Hv. destruct parts as [|x p].
    + unfold fs_view, stat in Hr. simpl in *. destruct (root fs) as [c|es]; [done|by destruct (Hw es)].
    + rewrite put_beside; [done|]. by intros [k Hk].
Qed.

Lemma write_stored fs path data fs' :
  Fs.write fs path data = (Ok (), fs') → stored fs fs' path data.
Proof.
  intros H. pose proof (write_refines fs path data) as [Hr Hs _]. rewrite H in Hr, Hs.
  destruct (abs_write (fs_view fs) path data) as [r s'] eqn:E. simpl in *. subst r.
  unfold abs_write in E. apply edit_file_inv in E as (parts & Hp & Hw & Hk & ->); [|done|by intros ?? [= <-]].
  apply (stored_view _ _ _ parts); [done..|].
  intros q. rewrite Hs. by destruct (fs_view fs parts) as [[]|].
Qed.

(** The content an append starts from. *)
Definition old_content (r : FsResult bytes) : bytes :=
  match r with Ok d => d | Err _ => [] end.

Lemma append_stored fs path data fs' :
  Fs.append fs path data = (Ok (), fs') →
  stored fs fs' path (old_content (Fs.read fs path) ++ data).
Proof.
  intros H. pose proof (append_refines fs path data) as [Hr Hs _]. rewrite H in Hr, Hs.
  destruct (abs_append (fs_view fs) path data) as [r s'] eqn:E. simpl in *. subst r.
  unfold abs_append in E. apply edit_file_inv in E as (parts & Hp & Hw & Hk & ->); [|done|by intros ?? [= <-]].
  apply (stored_view _ _ _ parts); [done..|].
  intros q. rewrite Hs, read_view, Hp. by destruct (fs_view fs parts) as [[]|].
Qed.

(** A file that can be read can be written. *)
Lemma readable_writable fs path d data :
  root_ok fs → Fs.read fs path = Ok d → ∃ fs', Fs.write fs path data = (Ok (), fs').
Proof.
  intros Hroot. rewrite read_view. destruct (split_path path) as [parts|e] eqn:Hp; [|done].
  destruct (fs_view fs parts) as [[c|]|e] eqn:E; intros; simplify_eq.
  destruct parts as [|x p _] using rev_ind; [unfold root_ok in Hroot; congruence|].
  destruct (write_refines fs path data) as [Hr _ _].
  destruct (Fs.write fs path data) as [r fs']. simpl in Hr. exists fs'. rewrite Hr.
  unfold abs_write, edit_entry. rewrite Hp, split_last_snoc, (view_parent _ _ _ _ E), E. done.
Qed.

Lemma write_error_unchanged fs path data e fs' : Fs.write fs path data = (Err e, fs') → fs' = fs.
Proof. intros H. destruct (write_refines fs path data) as [_ _ He]. rewrite H in He. by eapply He. Qed.
Lemma append_error_unchanged fs path data e fs' : Fs.append fs path data = (Err e, fs') → fs' = fs.
Proof. intros H. destruct (append_refines fs path data) as [_ _ He]. rewrite H in He. by eapply He. Qed.
Lemma touch_error_unchanged fs path e fs' : Fs.touch fs path = (Err e, fs') → fs' = fs.
Proof. intros H. destruct (touch_refines fs path) as [_ _ He]. rewrite H in He. by eapply He. Qed.

(** A path that [touch] accepts can be written. *)
Lemma touch_then_write fs path fs1 data e fs2 :
  Fs.touch fs path = (Ok (), fs1) → Fs.write fs1 path data = (Err e, fs2) → False.
Proof.
  intros Ht Hw. pose proof (touch_refines fs path) as [Hr Hs _]. rewrite Ht in Hr, Hs.
  pose proof (write_refines fs1 path data) as [Hr' _ _]. rewrite Hw in Hr'. simpl in *.
  unfold abs_touch, abs_write, edit_entry in *.
  destruct (split_path path) as [parts|e']; [|done].
  destruct (split_last parts) as [[p x]|] eqn:E; [|done].
  apply split_last_Some in E as ->.
  destruct (fs_view fs p) as [[c|]|e'] eqn:Ep; [done| |done].
  destruct (fs_view fs (p ++ [x])) as [[c|]|e'] eqn:Ex; simpl in *; [|done|];
    rewrite !Hs, ?put_here, ?put_beside, Ep, ?Ex in Hr' by apply prefix_snoc_not; done.
Qed.

(** After a successful [write] the file reads back exactly the data that
    was written, and every path that names another node reads the same data
    as before (no other file appears, disappears or changes). *)
Theorem write_read fs path data fs' :
  Fs.write fs path data = (Ok (), fs') →
  Fs.read fs' path = Ok data ∧
  ∀ path' d, split_path path' ≠ split_path path →
    (Fs.read fs' path' = Ok d ↔ Fs.read fs path' = Ok d).
Proof. intros H. by destruct (write_stored _ _ _ _ H). Qed.

Lemma write_read_witness :
  Fs.read (Fs.write sample_fs "/home/b" [x63]).2 "/home//./b" = Ok [x63] ∧
  Fs.read (Fs.write sample_fs "/home/b" [x63]).2 "/home/a" = Ok [x61; x62].
Proof.
  destruct (write_read sample_fs "/home/b" [x63] (Fs.write sample_fs "/home/b" [x63]).2) as [H1 H2];
    [vm_compute; reflexivity|].
  split; [exact H1|]. apply (H2 "/home/a"); [vm_compute; discriminate|vm_compute; reflexivity].
Defined.

(** After a successful [append] the file holds its old content (nothing,
    for a file the call creates) followed by the data, and no other path
    reads differently. *)
Theorem append_read fs path data fs' :
  Fs.append fs path data = (Ok (), fs') →
  Fs.read fs' path = Ok (old_content (Fs.read fs path) ++ data) ∧
  ∀ path' d, split_path path' ≠ split_path path →
    (Fs.read fs' path' = Ok d ↔ Fs.read fs path' = Ok d).
Proof. intros H. by destruct (append_stored _ _ _ _ H). Qed.

Lemma append_read_witness :
  Fs.read (Fs.append sample_fs "/home/a" [x63]).2 "/home/a" = Ok [x61; x62; x63].
Proof.
  destruct (append_read sample_fs "/home/a" [x63] (Fs.append sample_fs "/home/a" [x63]).2) as [H _];
    [vm_compute; reflexivity|]. rewrite H. vm_compute. reflexivity.
Defined.

(** A call of [rename] whose paths are valid and whose source is there. *)
Record renamable (s : view) (old new : string) (o n : list string) : Prop := {
  rn_old : split_path old = Ok o;
  rn_new : split_path new = Ok n;
  rn_root : o ≠ [];
  rn_source : ∃ k, s o = Ok k;
}.

(** What [rename] does once its source is known to be there. *)
Lemma rename_source_gone fs old new o p x :
  renamable (fs_view fs) old new o (p ++ [x]) →
  abs_rename (fs_view fs) old new =
    let s1 := put (fs_view fs) o absent in
    match s1 p with
    | Err e => (Err e, s1)
    | Ok (KFile _) => (Err NotDirectory, s1)
    | Ok KDir =>
        match s1 (p ++ [x]) with
        | Ok _ => (Err AlreadyExists, s1)
        | Err _ => (Ok (), put s1 (p ++ [x]) (λ q, fs_view fs (o ++ q)))
        end
    end.
Proof.
  intros [Ho Hn Hne [k Hk]]. unfold abs_rename. rewrite Ho, Hn, split_last_snoc.
  destruct o as [|y o _] using rev_ind; [done|]. rewrite split_last_snoc.
  by rewrite (view_parent _ _ _ _ Hk), Hk.
Qed.

(** When the source exists, the parent of the target is a directory that
    is not inside the source, and the target is free, [rename] succeeds: the
    whole subtree is found under the new path, the old path is gone, and
    everything else is as before. *)
Theorem rename_moves fs old new o p x :
  renamable (fs_view fs) old new o (p ++ [x]) →
  fs_view fs p = Ok KDir → ¬ o `prefix_of` p →
  (∃ e, fs_view fs (p ++ [x]) = Err e) →
  (Fs.rename fs old new).1 = Ok () ∧
  ∀ q, fs_view (Fs.rename fs old new).2 q =
    put (put (fs_view fs) o absent) (p ++ [x]) (λ r, fs_view fs (o ++ r)) q.
Proof.
  intros Hren Hp Hin [e He].
  destruct (rename_same_view fs old new) as [Hr Hs].
  rewrite (rename_source_gone _ _ _ _ _ _ Hren) in Hr, Hs. simpl in Hr, Hs.
  rewrite put_beside, Hp in Hr, Hs by done.
  assert (put (fs_view fs) o absent (p ++ [x]) =
    if decide (o `prefix_of` p ++ [x]) then Err NotFound else Err e) as Hx.
  { unfold put. by case_decide. }
  rewrite Hx in Hr, Hs. case_decide; done.
Qed.

Lemma rename_moves_witness :
  (Fs.rename sample_fs "/home/a" "/tmp/c").1 = Ok () ∧
  Fs.read (Fs.rename sample_fs "/home/a" "/tmp/c").2 "/tmp/c" = Ok [x61; x62] ∧
  Fs.read (Fs.rename sample_fs "/home/a" "/tmp/c").2 "/home/a" = Err NotFound.
Proof.
  destruct (rename_moves sample_fs "/home/a" "/tmp/c" ["home"; "a"] ["tmp"] "c") as [H1 H2].
  - split; [vm_compute; reflexivity..|discriminate|]. exists (KFile [x61; x62]). vm_compute. reflexivity.
  - vm_compute. reflexivity.
  - intros [k Hk]. discriminate.
  - exists NotFound. vm_compute. reflexivity.
  - rewrite !read_view. change (split_path "/tmp/c") with (Ok (E:=FsError) ["tmp"; "c"]).
    change (split_path "/home/a") with (Ok (E:=FsError) ["home"; "a"]). cbn iota.
    rewrite !H2. split_and!; [exact H1|vm_compute; reflexivity..].
Defined.

(** C26: a [rename] that fails because the target is taken, because its parent
    is missing or a file, or because the target lies inside the source, has
    already removed the source: nothing is left at the old path. *)
Theorem rename_failure_loses_source fs old new o p x e :
  renamable (fs_view fs) old new o (p ++ [x]) →
  (Fs.rename fs old new).1 = Err e →
  ∀ q, fs_view (Fs.rename fs old new).2 (o ++ q) = Err NotFound.
Proof.
  intros Hren He q. destruct (rename_same_view fs old new) as [Hr Hs].
  rewrite He in Hr. rewrite Hs, (rename_source_gone _ _ _ _ _ _ Hren) in *. simpl in *.
  repeat case_match; simplify_eq; simpl; by rewrite put_at.
Qed.

Lemma rename_failure_loses_source_witness :
  Fs.rename sample_fs "/home/a" "/bin" = (Err AlreadyExists, (Fs.rename sample_fs "/home/a" "/bin").2) ∧
  fs_view sample_fs ["home"; "a"] = Ok (KFile [x61; x62]) ∧
  fs_view (Fs.rename sample_fs "/home/a" "/bin").2 ["home"; "a"] = Err NotFound.
Proof.
  split_and!; [vm_compute; reflexivity..|].
  apply (rename_failure_loses_source sample_fs "/home/a" "/bin" ["home"; "a"] [] "bin" AlreadyExists)
    with (q := []).
  - split; [vm_compute; reflexivity..|discriminate|]. exists (KFile [x61; x62]). vm_compute. reflexivity.
  - vm_compute. reflexivity.
Defined.

(** ** Reachable file systems *)

Definition fs_runs (fs : RamFs) (ops : list fs_op) : RamFs :=
  fold_left (λ fs op, (fs_run fs op).2) ops fs.

Lemma fs_new_names fs : Fs.new = Ret fs → names_ok (fs_view fs).
Proof.
  intros H. assert (fs_view (mkRamFs (Dir ∅)) = leaf_dir) as E by done.
  unfold Fs.new in H. revert H. generalize ["/bin"; "/lib"; "/home"; "/tmp"].
  assert (names_ok (fs_view (mkRamFs (Dir ∅)))) as Hok by (rewrite E; auto with fsview).
  revert Hok. generalize (mkRamFs (Dir ∅)). clear E. intros fs0 Hok l. revert fs0 Hok.
  induction l as [|path l IH]; intros fs0 Hok; simpl; [by intros [= <-]|].
  intros (fs1 & H & H')%bind_Ret. apply (IH fs1); [|done].
  unfold Fs.mkdir_expect in H. destruct (fs_run_same_view fs0 (OpMkdir path)) as [_ Hs].
  simpl in Hs. destruct (Fs.mkdir fs0 path) as [[] fs2]; simplify_eq.
  eapply names_ext, (names_abs_run _ (OpMkdir path)), Hok. done.
  Unshelve. exact (λ _, true).
Qed.

(** [RamFs::new] succeeds and creates the four standard directories, and
    after any sequence of operations every node can be named: whatever is at
    a list of components is what the path built from them leads to. *)
Theorem reachable_nodes_addressable :
  ∃ fs0, Fs.new = Ret fs0 ∧
    (∀ d, d ∈ ["/bin"; "/lib"; "/home"; "/tmp"] → Fs.list fs0 d = Ok []) ∧
    Fs.list fs0 "/" = Ok ["bin"; "home"; "lib"; "tmp"] ∧
    ∀ ops q k, fs_view (fs_runs fs0 ops) q = Ok k →
      split_path (render q) = Ok q ∧
      ∃ n, node (fs_runs fs0 ops) (render q) = Ok n ∧ kind_of n = k.
Proof.
  destruct Fs.new as [fs0| |] eqn:E; [|by vm_compute in E..]. exists fs0. split_and!; [done|..].
  - assert (fs0 = match Fs.new with Ret f => f | _ => fs0 end) as -> by (by rewrite E).
    intros d Hd. repeat (apply elem_of_cons in Hd as [->|Hd]; [vm_compute; reflexivity|]).
    by apply elem_of_nil in Hd.
  - assert (fs0 = match Fs.new with Ret f => f | _ => fs0 end) as -> by (by rewrite E).
    vm_compute. reflexivity.
  - intros ops. apply fs_new_names in E. revert fs0 E. induction ops as [|op ops IH]; simpl.
    + intros fs Hok q k Hk. pose proof (render_split q (Hok _ _ Hk)) as Hr. split; [done|].
      unfold node. rewrite Hr. unfold fs_view, stat in Hk.
      destruct (walk (root fs) q) as [n|e]; simplify_eq. eauto.
    + intros fs Hok. apply IH. destruct (fs_run_same_view fs op) as [_ Hs].
      eapply names_ext; [apply Hs|by apply names_abs_run].
Qed.

(** [list] of a directory returns exactly the names of its entries, each
    once and in ascending byte order. *)
Theorem list_complete fs path parts names :
  split_path path = Ok parts → Fs.list fs path = Ok names →
  (∀ x, x ∈ names ↔ ∃ k, fs_view fs (parts ++ [x]) = Ok k) ∧
  NoDup names ∧ StronglySorted String.le names.
Proof.
  intros Hp. unfold Fs.list, node. rewrite Hp.
  destruct (walk (root fs) parts) as [[c|es]|e] eqn:W; [done| |done]. intros [= <-].
  unfold sorted_keys. split_and!.
  - intros x. rewrite merge_sort_Permutation, elem_of_elements, elem_of_dom.
    unfold fs_view. rewrite (stat_child _ _ es) by done.
    split; [intros [n Hn]|intros [k Hk]]; [rewrite Hn; by eexists|by destruct (es !! x)].
  - rewrite merge_sort_Permutation. apply NoDup_elements.
  - apply StronglySorted_merge_sort; apply _.
Qed.

Lemma list_complete_witness :
  Fs.list sample_fs "/" = Ok ["bin"; "home"; "lib"; "tmp"] ∧ NoDup ["bin"; "home"; "lib"; "tmp"].
Proof.
  destruct (list_complete sample_fs "/" [] ["bin"; "home"; "lib"; "tmp"]) as (_ & H & _);
    [vm_compute; reflexivity..|].
  split; [vm_compute; reflexivity|exact H].
Defined.
