(* ===== verification/FdTable.v ===== *)
(** * Per-process file descriptor tables ([src/syscall/fd.rs])

    A table is a vector of optional open files.  An operation returns its
    [Result] with the table (and, where it borrows it mutably, the file
    system) it leaves behind; the outer [outcome] carries the panics of
    indexing and of offset arithmetic.  How long the vector of entries can get
    depends on the kernel heap: [room] is the number of entries it has memory
    for, and growing beyond panics.  Running out of heap memory elsewhere is
    not modelled. *)

From S2P Require Import Prelude Bytes RamFs.
From Stdlib Require Import Strings.Byte.
Local Open Scope Z_scope.

(** ** [OpenFlags]: a set of bits in a [u8] *)

Record OpenFlags := mkFlags { bits : Z }.

#[global] Instance OpenFlags_eq_dec : EqDecision OpenFlags.
Proof. solve_decision. Defined.

Module Flags.

Definition READ := mkFlags (Z.shiftl 1 0).
Definition WRITE := mkFlags (Z.shiftl 1 1).
Definition CREATE := mkFlags (Z.shiftl 1 2).
Definition TRUNC := mkFlags (Z.shiftl 1 3).
Definition APPEND := mkFlags (Z.shiftl 1 4).
Definition empty := mkFlags 0.

Definition contains (self other : OpenFlags) : bool :=
  Z.land (bits self) (bits other) =? bits other.

(** [BitOr::bitor]; [BitOrAssign::bitor_assign] stores the same value. *)
Definition bitor (self rhs : OpenFlags) : OpenFlags :=
  mkFlags (Z.lor (bits self) (bits rhs)).
End Flags.

(** ** Errors and open files *)

Inductive FdError :=
  | FdBad
  | FdPermission
  | FdFs (e : FsError).

#[global] Instance FdError_eq_dec : EqDecision FdError.
Proof. solve_decision. Defined.

Abbreviation FdResult A := (Result A FdError).

Inductive OpenFile :=
  | Stdin (data : bytes) (offset : Z)
  | Stdout (data : bytes)
  | Stderr (data : bytes)
  | OpenedFile (path : string) (offset : Z) (flags : OpenFlags).

Record FileDescriptorTable := mkTable { entries : list (option OpenFile) }.

Definition copy_from_offset (src : bytes) (offset : Z) (dst : bytes) : outcome (Z * bytes) :=
  if bool_decide (offset >= zlen src) then Ret (0, dst)
  else
    let n := Z.min (zlen dst) (zlen src - offset) in
    dst' ← copy_into dst 0 (take (Z.to_nat n) (drop (Z.to_nat offset) src));
    Ret (n, dst').

Module Fd.

Definition new : FileDescriptorTable :=
  mkTable [Some (Stdin [] 0); Some (Stdout []); Some (Stderr [])].

Definition set_stdin (t : FileDescriptorTable) (data : bytes) : outcome FileDescriptorTable :=
  es ← expect (arr_set (entries t) 0 (Some (Stdin data 0)));
  Ret (mkTable es).

(** [self.entries.get(fd).and_then(Option::as_ref)] *)
Definition get (t : FileDescriptorTable) (fd : Z) : option OpenFile :=
  match arr_get (entries t) fd with Some o => o | None => None end.

Definition stdout (t : FileDescriptorTable) : bytes :=
  match get t 1 with Some (Stdout data) => data | _ => [] end.
Definition stderr (t : FileDescriptorTable) : bytes :=
  match get t 2 with Some (Stderr data) => data | _ => [] end.

(** The loop of [insert]: the first free slot, or none. *)
Fixpoint first_free (es : list (option OpenFile)) : option nat :=
  match es with
  | [] => None
  | None :: _ => Some 0%nat
  | Some _ :: es' => S <$> first_free es'
  end.

(** [Vec::push] on the entries: a vector that does not get the memory it asks
    for panics, in [alloc_error] or for a capacity overflow. *)
Definition push (room : Z) (es : list (option OpenFile)) (o : option OpenFile) : outcome (list (option OpenFile)) :=
  if zlen es <? room then Ret (es ++ [o]) else Panic.

Definition insert (room : Z) (t : FileDescriptorTable) (file : OpenFile) : outcome (Z * FileDescriptorTable) :=
  match first_free (entries t) with
  | Some fd => Ret (Z.of_nat fd, mkTable (<[fd := Some file]> (entries t)))
  | None =>
      es ← push room (entries t) (Some file);
      Ret (zlen es - 1, mkTable es)
  end.

(** [entry_mut(fd)] is [get], with [BadFd] for a missing entry; the callers
    store the entry back with [set]. *)
Definition entry_mut (t : FileDescriptorTable) (fd : Z) : FdResult OpenFile :=
  ok_or (get t fd) FdBad.
Definition set (t : FileDescriptorTable) (fd : Z) (f : OpenFile) : outcome FileDescriptorTable :=
  es ← expect (arr_set (entries t) fd (Some f));
  Ret (mkTable es).

(** [fs.touch(path)?] and the like: go on only if the call succeeded. *)
Definition try_fs {A} (r : FsResult unit * RamFs)
    (t : FileDescriptorTable) (k : RamFs → outcome (FdResult A * FileDescriptorTable * RamFs))
    : outcome (FdResult A * FileDescriptorTable * RamFs) :=
  match r with
  | (Ok _, fs) => k fs
  | (Err e, fs) => Ret (Err (FdFs e), t, fs)
  end.

Definition open (room : Z) (t : FileDescriptorTable) (fs : RamFs) (path : string) (flags : OpenFlags)
    : outcome (FdResult Z * FileDescriptorTable * RamFs) :=
  let finish (fs : RamFs) :=
    '(fd, t') ← insert room t (OpenedFile path 0 flags); Ret (Ok fd, t', fs) in
  let after_create (fs : RamFs) :=
    if Flags.contains flags Flags.TRUNC then try_fs (Fs.write fs path []) t finish
    else if negb (Flags.contains flags Flags.CREATE) then
      match Fs.read fs path with
      | Ok _ => finish fs
      | Err e => Ret (Err (FdFs e), t, fs)
      end
    else finish fs in
  if Flags.contains flags Flags.CREATE then try_fs (Fs.touch fs path) t after_create
  else after_create fs.

Definition close (t : FileDescriptorTable) (fd : Z) : outcome (FdResult Z * FileDescriptorTable) :=
  if bool_decide (fd >= zlen (entries t)) then Ret (Err FdBad, t)
  else
    slot ← expect (arr_get (entries t) fd);
    if bool_decide (slot = None) then Ret (Err FdBad, t)
    else
      es ← expect (arr_set (entries t) fd None);
      Ret (Ok 0, mkTable es).

(** The [while] loop pushes [None] until the table is longer than [new_fd];
    [n] is the number of iterations that takes. *)
Fixpoint grow (room : Z) (n : nat) (es : list (option OpenFile)) : outcome (list (option OpenFile)) :=
  match n with
  | O => Ret es
  | S n => es ← push room es None; grow room n es
  end.

Definition dup2 (room : Z) (t : FileDescriptorTable) (old_fd new_fd : Z)
    : outcome (FdResult Z * FileDescriptorTable) :=
  match get t old_fd with
  | None => Ret (Err FdBad, t)
  | Some old =>
      es ← grow room (Z.to_nat (new_fd + 1 - zlen (entries t))) (entries t);
      es ← expect (arr_set es new_fd (Some old));
      Ret (Ok new_fd, mkTable es)
  end.

Definition read (t : FileDescriptorTable) (fs : RamFs) (fd : Z) (buf : bytes)
    : outcome (FdResult Z * FileDescriptorTable * bytes) :=
  match entry_mut t fd with
  | Err e => Ret (Err e, t, buf)
  | Ok (Stdin data offset) =>
      '(n, buf') ← copy_from_offset data offset buf;
      offset' ← uadd offset n;
      t' ← set t fd (Stdin data offset');
      Ret (Ok n, t', buf')
  | Ok (OpenedFile path offset flags) =>
      if negb (Flags.contains flags Flags.READ) then Ret (Err FdPermission, t, buf)
      else
        match Fs.read fs path with
        | Err e => Ret (Err (FdFs e), t, buf)
        | Ok data =>
            '(n, buf') ← copy_from_offset data offset buf;
            offset' ← uadd offset n;
            t' ← set t fd (OpenedFile path offset' flags);
            Ret (Ok n, t', buf')
        end
  | Ok (Stdout _ | Stderr _) => Ret (Err FdPermission, t, buf)
  end.

(** The data a positional write stores: the old content, padded with zeros up
    to the offset and to the end of the write, with [buf] copied in. *)
Definition write_at (data : bytes) (offset : Z) (buf : bytes) : outcome (bytes * Z) :=
  let data := if bool_decide (offset > zlen data) then vec_resize data offset else data in
  end_ ← uadd offset (zlen buf);
  let data := if bool_decide (end_ > zlen data) then vec_resize data end_ else data in
  data ← copy_into data offset buf;
  Ret (data, end_).

Definition write (t : FileDescriptorTable) (fs : RamFs) (fd : Z) (buf : bytes)
    : outcome (FdResult Z * FileDescriptorTable * RamFs) :=
  match entry_mut t fd with
  | Err e => Ret (Err e, t, fs)
  | Ok (Stdout data) =>
      t' ← set t fd (Stdout (data ++ buf));
      Ret (Ok (zlen buf), t', fs)
  | Ok (Stderr data) =>
      t' ← set t fd (Stderr (data ++ buf));
      Ret (Ok (zlen buf), t', fs)
  | Ok (OpenedFile path offset flags) =>
      if negb (Flags.contains flags Flags.WRITE) then Ret (Err FdPermission, t, fs)
      else if Flags.contains flags Flags.APPEND then
        match Fs.append fs path buf with
        | (Err e, fs') => Ret (Err (FdFs e), t, fs')
        | (Ok _, fs') => Ret (Ok (zlen buf), t, fs')
        end
      else
        let old := match Fs.read fs path with Ok d => d | Err _ => [] end in
        '(data, offset') ← write_at old offset buf;
        match Fs.write fs path data with
        | (Err e, fs') => Ret (Err (FdFs e), t, fs')
        | (Ok _, fs') =>
            t' ← set t fd (OpenedFile path offset' flags);
            Ret (Ok (zlen buf), t', fs')
        end
  | Ok (Stdin _ _) => Ret (Err FdPermission, t, fs)
  end.
End Fd.

(** The redirection of [fd.rs]'s own test: open, [dup2] onto stdout, write. *)
Example dup2_redirects :
  let fs := match Fs.new with Ret f => f | _ => mkRamFs (Dir ∅) end in
  match Fd.open 64 Fd.new fs "/home/out" (Flags.bitor Flags.CREATE (Flags.bitor Flags.WRITE Flags.TRUNC)) with
  | Ret (Ok fd, t, fs) =>
      '(_, t) ← Fd.dup2 64 t fd 1;
      '(_, t, fs) ← Fd.write t fs 1 [x6f; x6b];
      Ret (fd, Fs.read fs "/home/out")
  | _ => Panic
  end = Ret (3, Ok [x6f; x6b]).
Proof. vm_compute. reflexivity. Qed.
