(* ===== verification/FdCorrect.v ===== *)
(** * Correctness of file descriptor tables

    No operation panics while sizes fit a [usize], errors change nothing,
    descriptors are allocated lowest first, and sequences of reads and writes
    through a descriptor behave like a sequential file. *)

From S2P Require Import Prelude Bytes RamFs RamFsCorrect FdTable.
From Stdlib Require Import Strings.Byte.
Local Open Scope Z_scope.

(** ** Entries *)

Lemma get_lt t fd f : Fd.get t fd = Some f → 0 ≤ fd < zlen (entries t).
Proof.
  unfold Fd.get. destruct (arr_get _ _) as [o|] eqn:E; [|done]. intros _. by eapply arr_get_lt.
Qed.

Lemma arr_set_table t fd o :
  0 ≤ fd < zlen (entries t) →
  ∃ es, arr_set (entries t) fd o = Some es ∧ zlen es = zlen (entries t) ∧
    ∀ fd', Fd.get (mkTable es) fd' = if decide (fd = fd') then o else Fd.get t fd'.
Proof.
  intros H. destruct (arr_set_is_Some (entries t) fd o H) as [es Hes].
  exists es. split_and!; [done|by eapply arr_set_zlen|].
  intros fd'. unfold Fd.get. simpl. rewrite (arr_set_get _ _ _ _ _ Hes). by case_decide.
Qed.

Lemma set_ok t fd f f' :
  Fd.get t fd = Some f →
  ∃ t', Fd.set t fd f' = Ret t' ∧ zlen (entries t') = zlen (entries t) ∧
    ∀ fd', Fd.get t' fd' = if decide (fd = fd') then Some f' else Fd.get t fd'.
Proof.
  intros H. apply get_lt in H. destruct (arr_set_table t fd (Some f') H) as (es & E & Hz & Hg).
  exists (mkTable es). unfold Fd.set. by rewrite E.
Qed.

Lemma first_free_spec es :
  match Fd.first_free es with
  | Some i => es !! i = Some None ∧ ∀ j, (j < i)%nat → ∃ f, es !! j = Some (Some f)
  | None => ∀ j o, es !! j = Some o → ∃ f, o = Some f
  end.
Proof.
  induction es as [|[f|] es IH]; simpl; [done| |by split; [|lia]].
  destruct (Fd.first_free es) as [i|]; simpl.
  - destruct IH as [Hi Hl]. split; [done|]. intros [|j] Hj; simpl; [eauto|apply Hl; lia].
  - intros [|j] o; simpl; [naive_solver|apply IH].
Qed.

(** The lowest descriptor that denotes nothing. *)
Definition lowest_free (t : FileDescriptorTable) (fd : Z) : Prop :=
  0 ≤ fd ∧ Fd.get t fd = None ∧ ∀ fd', 0 ≤ fd' < fd → ∃ f, Fd.get t fd' = Some f.

Lemma get_lookup t (i : nat) : Fd.get t (Z.of_nat i) =
  match entries t !! i with Some o => o | None => None end.
Proof.
  unfold Fd.get, arr_get. rewrite Nat2Z.id. unfold zlen.
  destruct ((0 <=? Z.of_nat i) && (Z.of_nat i <? Z.of_nat (length (entries t)))) eqn:E; [done|].
  by rewrite lookup_ge_None_2 by lia.
Qed.

Lemma get_neg t fd : fd < 0 → Fd.get t fd = None.
Proof. intros H. unfold Fd.get, arr_get. by replace (0 <=? fd) with false by lia. Qed.

(** There is a free slot, or memory for one more. *)
Definition insertable (room : Z) (t : FileDescriptorTable) : Prop :=
  is_Some (Fd.first_free (entries t)) ∨ zlen (entries t) < room.

#[global] Instance insertable_dec room t : Decision (insertable room t) := decide (_ ∨ _).

Lemma push_ok room es o : zlen es < room → Fd.push room es o = Ret (es ++ [o]).
Proof. intros H. unfold Fd.push. by replace (zlen es <? room) with true by lia. Qed.

Lemma insert_spec room t f :
  insertable room t →
  ∃ fd t', Fd.insert room t f = Ret (fd, t') ∧ lowest_free t fd ∧
    zlen (entries t) ≤ zlen (entries t') ∧
    ∀ fd', Fd.get t' fd' = if decide (fd = fd') then Some f else Fd.get t fd'.
Proof.
  unfold Fd.insert, insertable. pose proof (first_free_spec (entries t)) as Hff. intros Hroom.
  destruct (Fd.first_free (entries t)) as [i|].
  - destruct Hff as [Hi Hl]. eexists _, _. split_and!; [done| | |].
    + split_and!; [lia|by rewrite get_lookup, Hi|]. intros fd' Hfd.
      rewrite <- (Z2Nat.id fd'), get_lookup by lia.
      destruct (Hl (Z.to_nat fd')) as [f' ->]; [lia|eauto].
    + unfold zlen. simpl. rewrite length_insert. lia.
    + intros fd'. destruct (decide (fd' < 0)) as [Hneg|Hpos].
      * rewrite decide_False, !get_neg by lia. done.
      * rewrite <- (Z2Nat.id fd'), !get_lookup by lia. simpl.
        apply lookup_lt_Some in Hi. case_decide as Heq.
        -- apply Nat2Z.inj in Heq as <-. by rewrite list_lookup_insert_eq.
        -- rewrite list_lookup_insert_ne by lia. done.
  - destruct Hroom as [[? [=]]|Hroom]. rewrite push_ok by done. rewrite Ret_bind.
    assert (zlen (entries t ++ [Some f]) - 1 = zlen (entries t)) as -> by (unfold zlen; rewrite length_app; simpl; lia).
    eexists _, _. split_and!; [done| | |].
    + split_and!; [apply zlen_nonneg|unfold zlen; rewrite get_lookup, lookup_ge_None_2 by lia; done|].
      intros fd' Hfd. unfold zlen in Hfd. rewrite <- (Z2Nat.id fd'), get_lookup by lia.
      destruct (lookup_lt_is_Some_2 (entries t) (Z.to_nat fd')) as [o Ho]; [lia|].
      rewrite Ho. by destruct (Hff _ _ Ho) as [f' ->]; eauto.
    + unfold zlen. simpl. rewrite length_app. lia.
    + intros fd'. destruct (decide (fd' < 0)) as [Hneg|Hpos].
      * pose proof (zlen_nonneg (entries t)). rewrite decide_False, !get_neg by lia. done.
      * rewrite <- (Z2Nat.id fd'), !get_lookup by lia. simpl. unfold zlen.
        case_decide as Heq; [apply Nat2Z.inj in Heq as <-; by rewrite list_lookup_middle|].
        destruct (decide (Z.to_nat fd' < length (entries t))%nat).
        -- by rewrite lookup_app_l by lia.
        -- rewrite !lookup_ge_None_2; [done|lia|rewrite length_app; simpl; lia].
Qed.

(** The loop of [dup2]: it pads the table, and panics where it needs more room
    than there is. *)
Lemma grow_eq room n es :
  Fd.grow room n es = if bool_decide (n = O ∨ zlen es + Z.of_nat n ≤ room) then Ret (es ++ replicate n None) else Panic.
Proof.
  revert es. induction n as [|n IH]; intros es; cbn [Fd.grow].
  { rewrite bool_decide_true by auto. by rewrite app_nil_r. }
  unfold Fd.push. destruct (Z.ltb_spec (zlen es) room) as [Hlt|Hge]; cbn [mbind outcome_bind].
  - assert (zlen (es ++ [None]) = zlen es + 1) as Hz by (unfold zlen; rewrite length_app; simpl; lia).
    rewrite IH, Hz, <- app_assoc. simpl replicate. rewrite (bool_decide_ext _ (S n = O ∨ zlen es + Z.of_nat (S n) ≤ room)); [done|].
    destruct n; [split; [right|auto]|split; intros [|]]; lia.
  - rewrite bool_decide_false; [done|]. intros [|]; lia.
Qed.
Lemma grow_ok room n es : n = O ∨ zlen es + Z.of_nat n ≤ room → Fd.grow room n es = Ret (es ++ replicate n None).
Proof. intros H. rewrite grow_eq. by rewrite bool_decide_true. Qed.
Lemma grow_no_diverge room n es : Fd.grow room n es ≠ Diverge.
Proof. rewrite grow_eq. by case_bool_decide. Qed.

Lemma pad_get es n t : t = mkTable es → ∀ fd, Fd.get (mkTable (es ++ replicate n None)) fd = Fd.get t fd.
Proof.
  intros -> fd. destruct (decide (fd < 0)) as [Hneg|Hpos]; [by rewrite !get_neg|].
  rewrite <- (Z2Nat.id fd), !get_lookup by lia. simpl.
  destruct (decide (Z.to_nat fd < length es)%nat) as [Hlt|Hge].
  - by rewrite lookup_app_l by lia.
  - rewrite (lookup_ge_None_2 es), lookup_app_r by lia.
    destruct (replicate _ _ !! _) as [o|] eqn:E; [|done]. by apply lookup_replicate in E as [-> _].
Qed.

(** The table has the slot [new], or there is memory for it. *)
Definition growable (room : Z) (t : FileDescriptorTable) (new : Z) : Prop := 0 ≤ new < Z.max room (zlen (entries t)).

#[global] Instance growable_dec room t new : Decision (growable room t new) := decide (_ ∧ _).

Lemma dup2_ok room t old new f :
  Fd.get t old = Some f → growable room t new →
  ∃ t', Fd.dup2 room t old new = Ret (Ok new, t') ∧ zlen (entries t) ≤ zlen (entries t') ∧
    ∀ fd, Fd.get t' fd = if decide (new = fd) then Some f else Fd.get t fd.
Proof.
  unfold growable. intros Hf Hnew. unfold Fd.dup2. rewrite Hf, grow_ok by lia. rewrite Ret_bind.
  set (n := Z.to_nat (new + 1 - zlen (entries t))).
  destruct (arr_set_table (mkTable (entries t ++ replicate n None)) new (Some f)) as (es & E & Hz & Hg).
  { unfold n, zlen. simpl. rewrite length_app, length_replicate. unfold zlen. lia. }
  simpl in E, Hz. exists (mkTable es). rewrite E. split_and!; [done| |].
  - simpl. rewrite Hz. unfold zlen. rewrite length_app. lia.
  - intros fd. rewrite Hg, (pad_get _ _ t) by (by destruct t). done.
Qed.

(** Without the memory the loop panics, [usize::MAX] for example. *)
Lemma dup2_out_of_room room t old new f :
  Fd.get t old = Some f → zlen (entries t) ≤ new → room ≤ new → Fd.dup2 room t old new = Panic.
Proof. intros Hf Hlen Hroom. unfold Fd.dup2. rewrite Hf, grow_eq, bool_decide_false; [done|]. intros [|]; lia. Qed.

Lemma close_ok t fd f :
  Fd.get t fd = Some f →
  ∃ t', Fd.close t fd = Ret (Ok 0, t') ∧ zlen (entries t') = zlen (entries t) ∧
    ∀ fd', Fd.get t' fd' = if decide (fd = fd') then None else Fd.get t fd'.
Proof.
  intros Hf. pose proof (get_lt _ _ _ Hf) as Hlt. unfold Fd.close.
  rewrite bool_decide_false by lia. unfold Fd.get in Hf.
  destruct (arr_get (entries t) fd) as [o|]; simplify_eq. simpl.
  destruct (arr_set_table t fd None Hlt) as (es & E & Hz & Hg). rewrite E. by exists (mkTable es).
Qed.

Lemma close_bad t fd : 0 ≤ fd → Fd.get t fd = None → Fd.close t fd = Ret (Err FdBad, t).
Proof.
  intros H0 Hf. unfold Fd.close. case_bool_decide as Hge; [done|].
  unfold Fd.get in Hf. destruct (arr_get (entries t) fd) as [o|] eqn:E; simplify_eq; simpl.
  - done.
  - apply arr_get_None in E. lia.
Qed.

(** ** Data *)

(** The number of bytes a read delivers. *)
Definition read_count (src : bytes) (offset : Z) (dst : bytes) : Z :=
  Z.max 0 (Z.min (zlen dst) (zlen src - offset)).

Lemma copy_from_offset_ok src offset dst :
  0 ≤ offset →
  let n := read_count src offset dst in
  copy_from_offset src offset dst =
    Ret (n, take (Z.to_nat n) (drop (Z.to_nat offset) src) ++ drop (Z.to_nat n) dst).
Proof.
  intros H n. unfold copy_from_offset. pose proof (zlen_nonneg src). pose proof (zlen_nonneg dst).
  case_bool_decide.
  - assert (n = 0) as -> by (unfold n, read_count; lia). done.
  - assert (Z.min (zlen dst) (zlen src - offset) = n) as -> by (unfold n, read_count; lia).
    assert (zlen (take (Z.to_nat n) (drop (Z.to_nat offset) src)) = n) as Hl.
    { unfold zlen in *. rewrite length_take, length_drop. unfold n, read_count, zlen. lia. }
    rewrite copy_into_ok by (rewrite ?Hl; unfold n, read_count; lia). rewrite Hl. done.
Qed.

Lemma write_at_ok old offset buf :
  0 ≤ offset → offset + zlen buf ≤ usize_max →
  Fd.write_at old offset buf =
    Ret (vec_resize old offset ++ buf ++ drop (Z.to_nat (offset + zlen buf)) old,
         offset + zlen buf).
Proof.
  intros H0 Hmax. unfold Fd.write_at. rewrite uadd_ok by done. rewrite Ret_bind.
  set (d1 := if bool_decide (offset > zlen old) then vec_resize old offset else old).
  set (d2 := if bool_decide (offset + zlen buf > zlen d1) then _ else d1).
  pose proof (zlen_nonneg old). pose proof (zlen_nonneg buf).
  assert (take (Z.to_nat offset) d2 = vec_resize old offset ∧ offset + zlen buf ≤ zlen d2 ∧
    drop (Z.to_nat (offset + zlen buf)) d2 = drop (Z.to_nat (offset + zlen buf)) old) as (Ht & Hl & Hd).
  { unfold d2, d1, vec_resize, zlen in *. repeat case_bool_decide;
      rewrite ?length_resize in *; split_and!; try lia.
    - rewrite take_resize_le by lia. by rewrite resize_idemp.
    - rewrite !drop_ge; rewrite ?length_resize; [done|lia..].
    - by rewrite take_resize_le by lia.
    - rewrite !drop_ge; rewrite ?length_resize; [done|lia..].
    - by rewrite take_ge by (rewrite length_resize; lia).
    - rewrite !drop_ge; rewrite ?length_resize; [done|lia..].
    - by rewrite resize_le by lia.
    - done. }
  rewrite copy_into_ok by done. by rewrite Ht, Hd.
Qed.

(** ** One call of a client *)

Inductive fd_op :=
  | FdSetStdin (data : bytes)
  | FdOpen (path : string) (flags : OpenFlags)
  | FdClose (fd : Z)
  | FdDup2 (old_fd new_fd : Z)
  | FdRead (fd : Z) (buf : bytes)
  | FdWrite (fd : Z) (buf : bytes).

Definition error_of {A} (r : FdResult A) : option FdError :=
  match r with Ok _ => None | Err e => Some e end.

Section clients.
Context (room : Z).

Definition fd_step (t : FileDescriptorTable) (fs : RamFs) (op : fd_op)
    : outcome (option FdError * FileDescriptorTable * RamFs) :=
  match op with
  | FdSetStdin data => t' ← Fd.set_stdin t data; Ret (None, t', fs)
  | FdOpen path flags => '(r, t', fs') ← Fd.open room t fs path flags; Ret (error_of r, t', fs')
  | FdClose fd => '(r, t') ← Fd.close t fd; Ret (error_of r, t', fs)
  | FdDup2 a b => '(r, t') ← Fd.dup2 room t a b; Ret (error_of r, t', fs)
  | FdRead fd buf => '(r, t', _) ← Fd.read t fs fd buf; Ret (error_of r, t', fs)
  | FdWrite fd buf => '(r, t', fs') ← Fd.write t fs fd buf; Ret (error_of r, t', fs')
  end.

Definition offset_ok (f : OpenFile) : Prop :=
  match f with
  | Stdin _ offset | OpenedFile _ offset _ => is_usize offset
  | Stdout _ | Stderr _ => True
  end.

(** The invariant: the three standard slots exist and offsets are [usize]. *)
Record table_ok (t : FileDescriptorTable) : Prop := {
  to_len : 3 ≤ zlen (entries t);
  to_offset : ∀ fd f, Fd.get t fd = Some f → offset_ok f;
}.

(** The sizes a call involves fit a [usize] (no [Vec] is longer), and there is
    memory for the entry that [open] or [dup2] adds to the table. *)
Definition fits (t : FileDescriptorTable) (fs : RamFs) (op : fd_op) : Prop :=
  match op with
  | FdSetStdin _ => True
  | FdOpen _ _ => insertable room t
  | FdClose fd => 0 ≤ fd
  | FdDup2 a b => growable room t b
  | FdRead fd buf =>
      match Fd.get t fd with
      | Some (Stdin data _) => zlen data ≤ usize_max
      | Some (OpenedFile path _ _) => ∀ data, Fs.read fs path = Ok data → zlen data ≤ usize_max
      | _ => True
      end
  | FdWrite fd buf =>
      match Fd.get t fd with
      | Some (OpenedFile _ offset _) => offset + zlen buf ≤ usize_max
      | _ => True
      end
  end.

(** A call that returns, keeps the invariant, and changes nothing on error. *)
Definition safe_result (t : FileDescriptorTable) (fs : RamFs)
    (c : outcome (option FdError * FileDescriptorTable * RamFs)) : Prop :=
  ∃ r t' fs', c = Ret (r, t', fs') ∧ table_ok t' ∧ (is_Some r → t' = t ∧ fs' = fs).

Lemma safe_error t fs e : table_ok t → safe_result t fs (Ret (Some e, t, fs)).
Proof. intros H. by exists (Some e), t, fs. Qed.

(** Replacing or adding one entry keeps the invariant. *)
Lemma table_ok_update t t' fd o :
  table_ok t → zlen (entries t) ≤ zlen (entries t') →
  (∀ f, o = Some f → offset_ok f) →
  (∀ fd', Fd.get t' fd' = if decide (fd = fd') then o else Fd.get t fd') →
  table_ok t'.
Proof.
  intros [Hl Ho] Hz Hf Hg. split; [lia|]. intros fd' f. rewrite Hg. case_decide; eauto.
Qed.

Lemma safe_update t fs fs' t' fd o :
  table_ok t → zlen (entries t) ≤ zlen (entries t') →
  (∀ f, o = Some f → offset_ok f) →
  (∀ fd', Fd.get t' fd' = if decide (fd = fd') then o else Fd.get t fd') →
  safe_result t fs (Ret (None, t', fs')).
Proof.
  intros. exists None, t', fs'. split_and!; [done|by eapply table_ok_update|by intros []].
Qed.

Lemma set_safe t fs fs' fd f f' :
  table_ok t → Fd.get t fd = Some f → offset_ok f' →
  safe_result t fs (t' ← Fd.set t fd f'; Ret (None, t', fs')).
Proof.
  intros Ht Hf Hf'. destruct (set_ok t fd f f' Hf) as (t' & -> & Hz & Hg).
  eapply safe_update; [done|lia| |done]. by intros ? [= <-].
Qed.

Lemma open_safe t fs path flags :
  table_ok t → insertable room t → safe_result t fs (fd_step t fs (FdOpen path flags)).
Proof.
  intros Ht Hroom. unfold fd_step, Fd.open, Fd.try_fs.
  destruct (insert_spec room t (OpenedFile path 0 flags) Hroom) as (fd & t' & -> & _ & Hz & Hg). rewrite !Ret_bind.
  assert (∀ fs', safe_result t fs (Ret (None, t', fs'))) as Hins.
  { intros fs'. eapply safe_update; [done..| |done]. by intros ? [= <-]. }
  destruct (Flags.contains flags Flags.CREATE).
  - destruct (Fs.touch fs path) as [[[]|e] fs1] eqn:Et; simpl.
    2: { apply touch_error_unchanged in Et as ->. by apply safe_error. }
    destruct (Flags.contains flags Flags.TRUNC); [|apply Hins].
    destruct (Fs.write fs1 path []) as [[[]|e] fs2] eqn:Ew; [apply Hins|].
    exfalso. by eapply touch_then_write.
  - destruct (Flags.contains flags Flags.TRUNC); simpl.
    + destruct (Fs.write fs path []) as [[[]|e] fs2] eqn:Ew; [apply Hins|].
      apply write_error_unchanged in Ew as ->. by apply safe_error.
    + destruct (Fs.read fs path); [apply Hins|by apply safe_error].
Qed.

Lemma read_offset_ok data offset buf :
  is_usize offset → zlen data ≤ usize_max → is_usize (offset + read_count data offset buf).
Proof.
  unfold is_usize, read_count. pose proof (zlen_nonneg data). pose proof (zlen_nonneg buf). lia.
Qed.

Lemma read_safe t fs fd buf :
  table_ok t → fits t fs (FdRead fd buf) → safe_result t fs (fd_step t fs (FdRead fd buf)).
Proof.
  intros Ht Hfit. simpl in *. unfold Fd.read, Fd.entry_mut.
  destruct (Fd.get t fd) as [f|] eqn:Hf; simpl; [|by apply safe_error].
  pose proof (to_offset t Ht _ _ Hf) as Hoff.
  destruct f as [data offset|data|data|path offset flags]; simpl in *; try by apply safe_error.
  - rewrite copy_from_offset_ok by apply Hoff. simpl.
    pose proof (read_offset_ok data offset buf Hoff Hfit) as Hn.
    rewrite uadd_ok by apply Hn. simpl.
    destruct (set_ok t fd _ (Stdin data (offset + read_count data offset buf)) Hf) as (t' & -> & Hz & Hg).
    eapply safe_update; [done|lia| |done]. by intros ? [= <-].
  - destruct (Flags.contains flags Flags.READ); simpl; [|by apply safe_error].
    destruct (Fs.read fs path) as [data|e]; simpl; [|by apply safe_error].
    rewrite copy_from_offset_ok by apply Hoff. simpl.
    pose proof (read_offset_ok data offset buf Hoff (Hfit _ eq_refl)) as Hn.
    rewrite uadd_ok by apply Hn. simpl.
    destruct (set_ok t fd _ (OpenedFile path (offset + read_count data offset buf) flags) Hf)
      as (t' & -> & Hz & Hg).
    eapply safe_update; [done|lia| |done]. by intros ? [= <-].
Qed.

Lemma write_safe t fs fd buf :
  table_ok t → fits t fs (FdWrite fd buf) → safe_result t fs (fd_step t fs (FdWrite fd buf)).
Proof.
  intros Ht Hfit. simpl in *. unfold Fd.write, Fd.entry_mut.
  destruct (Fd.get t fd) as [f|] eqn:Hf; simpl; [|by apply safe_error].
  pose proof (to_offset t Ht _ _ Hf) as Hoff. pose proof (zlen_nonneg buf).
  destruct f as [data offset|data|data|path offset flags]; simpl in *; try by apply safe_error.
  - destruct (set_ok t fd _ (Stdout (data ++ buf)) Hf) as (t' & -> & Hz & Hg).
    eapply safe_update; [done|lia| |done]. by intros ? [= <-].
  - destruct (set_ok t fd _ (Stderr (data ++ buf)) Hf) as (t' & -> & Hz & Hg).
    eapply safe_update; [done|lia| |done]. by intros ? [= <-].
  - destruct (Flags.contains flags Flags.WRITE); simpl; [|by apply safe_error].
    destruct (Flags.contains flags Flags.APPEND); simpl.
    + destruct (Fs.append fs path buf) as [[[]|e] fs'] eqn:Ea; simpl.
      * exists None, t, fs'. split_and!; [done|done|by intros []].
      * apply append_error_unchanged in Ea as ->. by apply safe_error.
    + rewrite write_at_ok by (apply Hoff || done). simpl.
      destruct (Fs.write _ _ _) as [[[]|e] fs'] eqn:Ew; simpl.
      * destruct (set_ok t fd _ (OpenedFile path (offset + zlen buf) flags) Hf) as (t' & -> & Hz & Hg).
        eapply safe_update; [done|lia| |done]. intros ? [= <-].
        unfold offset_ok, is_usize in *. lia.
      * apply write_error_unchanged in Ew as ->. by apply safe_error.
Qed.

Lemma fd_step_safe_lemma t fs op :
  table_ok t → fits t fs op → safe_result t fs (fd_step t fs op).
Proof.
  intros Ht Hfit. destruct op as [data|path flags|fd|a c|fd buf|fd buf].
  - simpl. unfold Fd.set_stdin.
    destruct (arr_set_table t 0 (Some (Stdin data 0))) as (es & -> & Hz & Hg).
    { pose proof (to_len t Ht). lia. }
    eapply safe_update; [done|simpl; lia| |done]. by intros ? [= <-].
  - by apply open_safe.
  - simpl. destruct (Fd.get t fd) as [f|] eqn:Hf.
    + destruct (close_ok t fd f Hf) as (t' & -> & Hz & Hg).
      eapply safe_update with (o := None); [done|lia|done|done].
    + rewrite close_bad by done. by apply safe_error.
  - simpl. destruct (Fd.get t a) as [f|] eqn:Hf.
    + destruct (dup2_ok room t a c f Hf Hfit) as (t' & -> & Hz & Hg).
      eapply safe_update; [done|lia| |done]. intros ? [= <-]. by eapply to_offset.
    + unfold Fd.dup2. rewrite Hf. by apply safe_error.
  - by apply read_safe.
  - by apply write_safe.
Qed.

Lemma table_ok_new : table_ok Fd.new.
Proof.
  split; [done|]. intros fd f Hf. pose proof (get_lt _ _ _ Hf) as Hlt. simpl in Hlt.
  unfold zlen in Hlt. simpl in Hlt.
  assert (fd = 0 ∨ fd = 1 ∨ fd = 2) as [-> |[-> | ->]] by lia; by injection Hf as <-.
Qed.

(** ** Claims *)

End clients.

(** C27: let the kernel heap have memory for a table of [room] entries.  From
    a table that has its three standard slots and offsets in range (as [new]
    does), every call whose sizes fit a [usize], with a free slot or memory
    for one more entry in [open] and a new descriptor below [room] (or in the
    table) in [dup2], returns: no index or offset computation panics, the
    table keeps that invariant, and a call that reports an error has changed
    neither the table nor the file system.  The condition on [dup2] is needed:
    from an open descriptor to one that is neither in the table nor below
    [room], such as [usize::MAX], its loop panics. *)
Theorem fd_calls_safe room t fs op :
  table_ok t →
  table_ok Fd.new ∧
  (fits room t fs op → ∃ r t' fs', fd_step room t fs op = Ret (r, t', fs') ∧ table_ok t' ∧
    (is_Some r → t' = t ∧ fs' = fs)) ∧
  (∀ old new f, Fd.get t old = Some f → 0 ≤ new → ¬ growable room t new → fd_step room t fs (FdDup2 old new) = Panic).
Proof.
  intros Ht. split_and!; [apply table_ok_new|by apply fd_step_safe_lemma|]. unfold growable. intros old new f Hf Hn Hg.
  cbn [fd_step]. by rewrite (dup2_out_of_room room t old new f) by (done || lia).
Qed.

Lemma fd_calls_safe_witness :
  table_ok Fd.new ∧ fits 64 Fd.new sample_fs (FdDup2 1 9) ∧
  (∃ r t' fs', fd_step 64 Fd.new sample_fs (FdDup2 1 9) = Ret (r, t', fs') ∧ table_ok t') ∧
  fd_step 64 Fd.new sample_fs (FdDup2 1 usize_max) = Panic.
Proof.
  assert (fits 64 Fd.new sample_fs (FdDup2 1 9)) as Hfit by (split; [vm_compute; discriminate|reflexivity]).
  split; [apply table_ok_new|]. split; [exact Hfit|].
  destruct (fd_calls_safe 64 Fd.new sample_fs (FdDup2 1 9) table_ok_new) as (_ & H1 & H2). split.
  - destruct (H1 Hfit) as (r & t' & fs' & H & Hok & _). exists r, t', fs'. split; [exact H|exact Hok].
  - apply (H2 1 usize_max (Stdout [])); [reflexivity|vm_compute; discriminate|]. intros [_ H]. vm_compute in H. discriminate H.
Defined.

(** A successful [open] returns the lowest descriptor that was free, makes
    it denote the path at offset 0 with exactly the requested flags, and
    leaves every other descriptor alone. *)
Theorem open_lowest room t fs path flags fd t' fs' :
  Fd.open room t fs path flags = Ret (Ok fd, t', fs') →
  lowest_free t fd ∧
  ∀ fd', Fd.get t' fd' = if decide (fd = fd') then Some (OpenedFile path 0 flags) else Fd.get t fd'.
Proof.
  intros H. assert (Fd.insert room t (OpenedFile path 0 flags) = Ret (fd, t')) as Hi.
  { unfold Fd.open, Fd.try_fs in H. destruct (Fd.insert room t (OpenedFile path 0 flags)) as [[fd0 t0]| |]; cbn in H; repeat case_match; by simplify_eq. }
  assert (insertable room t) as Hroom.
  { unfold insertable. unfold Fd.insert, Fd.push in Hi. destruct (Fd.first_free (entries t)) eqn:E; [left; by eexists|right].
    destruct (Z.ltb_spec (zlen (entries t)) room); [done|discriminate Hi]. }
  destruct (insert_spec room t (OpenedFile path 0 flags) Hroom) as (fd0 & t0 & E & Hl & _ & Hg). rewrite Hi in E. by injection E as <- <-.
Qed.

Lemma open_lowest_witness :
  lowest_free (mkTable [Some (Stdin [] 0); None; Some (Stderr [])]) 1.
Proof.
  apply (open_lowest 64 _ sample_fs "/home/a" Flags.READ 1
    (mkTable [Some (Stdin [] 0); Some (OpenedFile "/home/a" 0 Flags.READ); Some (Stderr [])])
    sample_fs).
  vm_compute. reflexivity.
Defined.

(** ** Sequences of writes and reads through one descriptor *)

Fixpoint write_all (t : FileDescriptorTable) (fs : RamFs) (fd : Z) (chunks : list bytes)
    : outcome (FdResult (FileDescriptorTable * RamFs)) :=
  match chunks with
  | [] => Ret (Ok (t, fs))
  | c :: rest =>
      '(r, t', fs') ← Fd.write t fs fd c;
      match r with
      | Ok _ => write_all t' fs' fd rest
      | Err e => Ret (Err e)
      end
  end.

(** Reads into buffers of the given sizes; the bytes delivered, in order. *)
Fixpoint read_all (t : FileDescriptorTable) (fs : RamFs) (fd : Z) (sizes : list nat)
    : outcome (FdResult (list bytes * FileDescriptorTable)) :=
  match sizes with
  | [] => Ret (Ok ([], t))
  | n :: rest =>
      '(r, t', buf) ← Fd.read t fs fd (replicate n x00);
      match r with
      | Err e => Ret (Err e)
      | Ok got =>
          more ← read_all t' fs fd rest;
          match more with
          | Ok (ds, t'') => Ret (Ok (take (Z.to_nat got) buf :: ds, t''))
          | Err e => Ret (Err e)
          end
      end
  end.

(** The content after writing [data] at [offset] into [old]: what was before
    the offset (padded with zeros if the file was shorter), the data, and
    what lay beyond its end. *)
Definition spliced (old : bytes) (offset : Z) (data : bytes) : bytes :=
  vec_resize old offset ++ data ++ drop (Z.to_nat (offset + zlen data)) old.

Lemma spliced_spliced old offset c d :
  0 ≤ offset → spliced (spliced old offset c) (offset + zlen c) d = spliced old offset (c ++ d).
Proof.
  intros H. unfold spliced, vec_resize. rewrite !zlen_app.
  pose proof (zlen_nonneg c). pose proof (zlen_nonneg d).
  assert (length (resize (Z.to_nat offset) x00 old ++ c) = Z.to_nat (offset + zlen c)) as Hl.
  { rewrite length_app, length_resize. unfold zlen. lia. }
  rewrite (app_assoc _ c), <- Hl, resize_app_le, resize_all by lia.
  rewrite <- !app_assoc. do 3 f_equal.
  replace (Z.to_nat (offset + zlen c + zlen d)) with
    (length (resize (Z.to_nat offset) x00 old ++ c) + length d)%nat by (unfold zlen in *; lia).
  rewrite app_assoc, drop_app_add', drop_drop by done. f_equal. rewrite Hl. unfold zlen in *. lia.
Qed.

(** A file open for positional writing. *)
Record writing (t : FileDescriptorTable) (fs : RamFs) (fd : Z)
    (path : string) (offset : Z) (flags : OpenFlags) (old : bytes) : Prop := {
  wr_entry : Fd.get t fd = Some (OpenedFile path offset flags);
  wr_write : Flags.contains flags Flags.WRITE = true;
  wr_append : Flags.contains flags Flags.APPEND = false;
  wr_root : root_ok fs;
  wr_file : Fs.read fs path = Ok old;
  wr_offset : 0 ≤ offset;
}.

Lemma write_once t fs fd path offset flags old c :
  writing t fs fd path offset flags old → offset + zlen c ≤ usize_max →
  ∃ t' fs', Fd.write t fs fd c = Ret (Ok (zlen c), t', fs') ∧
    writing t' fs' fd path (offset + zlen c) flags (spliced old offset c) ∧
    (∀ fd', fd' ≠ fd → Fd.get t' fd' = Fd.get t fd') ∧
    stored fs fs' path (spliced old offset c).
Proof.
  intros [Hf Hw Ha Hr Hold H0] Hmax. unfold Fd.write, Fd.entry_mut. rewrite Hf. simpl.
  rewrite Hw, Ha, Hold. simpl. rewrite write_at_ok by done. simpl. fold (spliced old offset c).
  destruct (readable_writable fs path old (spliced old offset c) Hr Hold) as [fs' Ew]. rewrite Ew.
  destruct (set_ok t fd _ (OpenedFile path (offset + zlen c) flags) Hf) as (t' & -> & _ & Hg).
  pose proof (write_stored _ _ _ _ Ew) as [Hread Hframe Hroot].
  exists t', fs'. split_and!; [done| | |done].
  - pose proof (zlen_nonneg c). split; [by rewrite Hg, decide_True|done..|by apply Hroot|done|lia].
  - intros fd' Hne. by rewrite Hg, decide_False by congruence.
Qed.

Lemma stored_trans fs1 fs2 fs3 path d d' :
  stored fs1 fs2 path d → stored fs2 fs3 path d' → stored fs1 fs3 path d'.
Proof. intros [] []. split; naive_solver. Qed.

(** Writing a sequence of chunks through a descriptor opened for writing
    succeeds chunk by chunk and has the effect of one write of their
    concatenation at the starting offset: bytes before it stay (zeros fill a
    gap), bytes after the end stay, the offset advances by the total, and no
    other file or descriptor changes. *)
Theorem writes_concat chunks t fs fd path offset flags old :
  writing t fs fd path offset flags old → chunks ≠ [] →
  offset + zlen (concat chunks) ≤ usize_max →
  ∃ t' fs', write_all t fs fd chunks = Ret (Ok (t', fs')) ∧
    Fd.get t' fd = Some (OpenedFile path (offset + zlen (concat chunks)) flags) ∧
    (∀ fd', fd' ≠ fd → Fd.get t' fd' = Fd.get t fd') ∧
    Fs.read fs' path = Ok (spliced old offset (concat chunks)) ∧
    ∀ path' d, split_path path' ≠ split_path path →
      (Fs.read fs' path' = Ok d ↔ Fs.read fs path' = Ok d).
Proof.
  intros Hw Hne Hmax.
  assert (∃ t' fs', write_all t fs fd chunks = Ret (Ok (t', fs')) ∧
    Fd.get t' fd = Some (OpenedFile path (offset + zlen (concat chunks)) flags) ∧
    (∀ fd', fd' ≠ fd → Fd.get t' fd' = Fd.get t fd') ∧
    stored fs fs' path (spliced old offset (concat chunks))) as (t' & fs' & ? & ? & ? & []).
  2: { by exists t', fs'. }
  revert t fs offset old Hw Hmax.
  induction chunks as [|c chunks IH]; [done|]. intros t fs offset old Hw Hmax. simpl in *.
  rewrite zlen_app in Hmax. pose proof (zlen_nonneg (concat chunks)).
  destruct (write_once t fs fd path offset flags old c Hw ltac:(lia)) as (t1 & fs1 & -> & Hw1 & Hg & Hs).
  simpl. destruct chunks as [|c' chunks].
  - simpl. rewrite app_nil_r. exists t1, fs1. split_and!; [done|apply Hw1|done|done].
  - destruct (IH ltac:(done) t1 fs1 _ _ Hw1 ltac:(lia)) as (t2 & fs2 & -> & He & Hg' & Hs').
    exists t2, fs2. rewrite spliced_spliced in Hs' by apply Hw.
    split_and!; [done| | |by eapply stored_trans].
    + by rewrite He, zlen_app, Z.add_assoc.
    + intros fd' Hfd. by rewrite Hg', Hg.
Qed.

Lemma writes_concat_witness :
  let t := mkTable [None; None; None; Some (OpenedFile "/home/a" 3 Flags.WRITE)] in
  ∃ t' fs', write_all t sample_fs 3 [[x63]; [x64; x65]] = Ret (Ok (t', fs')) ∧
    Fs.read fs' "/home/a" = Ok [x61; x62; x00; x63; x64; x65].
Proof.
  intros t.
  destruct (writes_concat [[x63]; [x64; x65]] t sample_fs 3 "/home/a" 3 Flags.WRITE [x61; x62])
    as (t' & fs' & H & _ & _ & Hr & _).
  - split; vm_compute; try reflexivity; discriminate.
  - discriminate.
  - vm_compute. discriminate.
  - exists t', fs'. split; [exact H|]. rewrite Hr. vm_compute. reflexivity.
Defined.

(** A file open for reading. *)
Record reading (t : FileDescriptorTable) (fs : RamFs) (fd : Z)
    (path : string) (offset : Z) (flags : OpenFlags) (data : bytes) : Prop := {
  rd_entry : Fd.get t fd = Some (OpenedFile path offset flags);
  rd_read : Flags.contains flags Flags.READ = true;
  rd_file : Fs.read fs path = Ok data;
  rd_offset : is_usize offset;
  rd_size : zlen data ≤ usize_max;
}.

Lemma take_read_count data offset (n : nat) rest :
  0 ≤ offset →
  let k := read_count data offset (replicate n x00) in
  take (Z.to_nat k) (take (Z.to_nat k) (drop (Z.to_nat offset) data) ++ rest) =
    take n (drop (Z.to_nat offset) data) ∧
  k = zlen (take n (drop (Z.to_nat offset) data)).
Proof.
  intros H0 k. set (X := drop (Z.to_nat offset) data).
  assert (k = Z.min (Z.of_nat n) (zlen X)) as Hk.
  { unfold k, read_count, X, zlen. rewrite length_replicate, length_drop. lia. }
  assert (zlen (take n X) = k) as Hl by (rewrite Hk; unfold zlen; rewrite length_take; lia).
  assert (take (Z.to_nat k) X = take n X) as Ht.
  { rewrite Hk. unfold zlen. destruct (decide (n ≤ length X)%nat).
    - f_equal. lia.
    - rewrite !take_ge; [done|lia..]. }
  rewrite Ht. split; [|done]. rewrite take_app_length'; [done|]. unfold zlen in Hl. lia.
Qed.

Lemma read_once t fs fd path offset flags data n :
  reading t fs fd path offset flags data →
  let got := take n (drop (Z.to_nat offset) data) in
  ∃ t' buf, Fd.read t fs fd (replicate n x00) = Ret (Ok (zlen got), t', buf) ∧
    take (Z.to_nat (zlen got)) buf = got ∧ (length buf = n)%nat ∧
    reading t' fs fd path (offset + zlen got) flags data ∧
    (∀ fd', fd' ≠ fd → Fd.get t' fd' = Fd.get t fd').
Proof.
  intros [Hf Hr Hd Ho Hs] got. unfold Fd.read, Fd.entry_mut. rewrite Hf. simpl.
  rewrite Hr, Hd. simpl. rewrite copy_from_offset_ok by apply Ho. simpl.
  pose proof (read_offset_ok data offset (replicate n x00) Ho Hs) as Hn.
  rewrite uadd_ok by apply Hn. simpl.
  pose proof (λ rest, take_read_count data offset n rest (proj1 Ho)) as Ht.
  pose proof (proj2 (Ht [])) as Hk. rewrite Hk in *. fold got in Ht, Hn |- *.
  destruct (set_ok t fd _ (OpenedFile path (offset + zlen got) flags) Hf) as (t' & -> & _ & Hg).
  eexists t', _. split_and!; [done|by apply Ht| | |].
  - rewrite length_app, length_take, !length_drop, length_replicate.
    unfold got, zlen. rewrite length_take, length_drop. lia.
  - split; [by rewrite Hg, decide_True|done..].
  - intros fd' Hne. by rewrite Hg, decide_False by congruence.
Qed.

(** A sequence of reads through a descriptor opened for reading succeeds
    and delivers, concatenated, exactly the next bytes of the file: as many
    as the buffers hold, or all up to its end; the offset advances by what
    was delivered and no other descriptor changes. *)
Theorem reads_sequential sizes t fs fd path offset flags data :
  reading t fs fd path offset flags data →
  ∃ ds t', read_all t fs fd sizes = Ret (Ok (ds, t')) ∧
    concat ds = take (sum_list sizes) (drop (Z.to_nat offset) data) ∧
    Fd.get t' fd = Some (OpenedFile path (offset + zlen (concat ds)) flags) ∧
    (∀ fd', fd' ≠ fd → Fd.get t' fd' = Fd.get t fd').
Proof.
  revert t offset. induction sizes as [|n sizes IH]; intros t offset Hrd; simpl.
  - exists [], t. split_and!; [done|done| |done]. simpl. rewrite Z.add_0_r. apply Hrd.
  - destruct (read_once t fs fd path offset flags data n Hrd) as (t1 & buf & -> & Hb & _ & Hrd1 & Hg).
    simpl. destruct (IH t1 _ Hrd1) as (ds & t2 & -> & Hc & He & Hg'). simpl. rewrite Hb.
    eexists _, t2. split_and!; [done| | |].
    + simpl. rewrite Hc. pose proof (rd_offset _ _ _ _ _ _ _ Hrd) as [Ho _].
      rewrite Z2Nat.inj_add, <- drop_drop by (done || apply zlen_nonneg).
      unfold zlen. rewrite Nat2Z.id. set (X := drop (Z.to_nat offset) data).
      rewrite length_take. destruct (decide (n ≤ length X)%nat).
      * rewrite Nat.min_l by lia. by rewrite take_take_drop.
      * rewrite Nat.min_r, drop_all, take_nil, app_nil_r by lia. by rewrite !take_ge by lia.
    + simpl. rewrite He, zlen_app. by rewrite Z.add_assoc.
    + intros fd' Hne. by rewrite Hg', Hg.
Qed.

Lemma reads_sequential_witness :
  let t := mkTable [None; None; None; Some (OpenedFile "/home/a" 0 Flags.READ)] in
  ∃ ds t', read_all t sample_fs 3 [1; 3; 2]%nat = Ret (Ok (ds, t')) ∧ concat ds = [x61; x62].
Proof.
  intros t.
  destruct (reads_sequential [1; 3; 2]%nat t sample_fs 3 "/home/a" 0 Flags.READ [x61; x62])
    as (ds & t' & H & Hc & _).
  - split; [vm_compute; reflexivity..|split; vm_compute; discriminate|vm_compute; discriminate].
  - exists ds, t'. split; [exact H|]. rewrite Hc. reflexivity.
Defined.

(** [dup2] makes the new descriptor denote the same open file as the old
    one, growing the table if needed, and changes no other descriptor; [close]
    frees exactly the descriptor it is given; both report [BadFd] for a
    descriptor that denotes nothing, and then change nothing. *)
Theorem dup2_close_effect room t fd new :
  0 ≤ fd → growable room t new →
  match Fd.get t fd with
  | None => Fd.dup2 room t fd new = Ret (Err FdBad, t) ∧ Fd.close t fd = Ret (Err FdBad, t)
  | Some f =>
      (∃ t', Fd.dup2 room t fd new = Ret (Ok new, t') ∧
        ∀ fd', Fd.get t' fd' = if decide (new = fd') then Some f else Fd.get t fd') ∧
      (∃ t', Fd.close t fd = Ret (Ok 0, t') ∧
        ∀ fd', Fd.get t' fd' = if decide (fd = fd') then None else Fd.get t fd')
  end.
Proof.
  intros H0 Hn. destruct (Fd.get t fd) as [f|] eqn:Hf.
  - destruct (dup2_ok room t fd new f Hf Hn) as (t1 & ? & _ & ?).
    destruct (close_ok t fd f Hf) as (t2 & ? & _ & ?). split; eauto.
  - split; [unfold Fd.dup2; by rewrite Hf|by apply close_bad].
Qed.

Lemma dup2_close_effect_witness :
  ∃ t', Fd.dup2 64 Fd.new 1 5 = Ret (Ok 5, t') ∧ Fd.get t' 5 = Some (Stdout []).
Proof.
  pose proof (dup2_close_effect 64 Fd.new 1 5) as H.
  destruct H as [(t' & E & Hg) _]; [lia|split; [lia|reflexivity]|].
  exists t'. split; [exact E|]. rewrite Hg. reflexivity.
Defined.

(** A write through a descriptor changes the file system only if the
    descriptor denotes a file opened with [WRITE], and then only at that
    file's path. *)
Theorem write_confined t fs fd buf r t' fs' :
  Fd.write t fs fd buf = Ret (r, t', fs') →
  fs' = fs ∨
  ∃ path offset flags, Fd.get t fd = Some (OpenedFile path offset flags) ∧
    Flags.contains flags Flags.WRITE = true ∧ r = Ok (zlen buf) ∧
    ∀ path' d, split_path path' ≠ split_path path →
      (Fs.read fs' path' = Ok d ↔ Fs.read fs path' = Ok d).
Proof.
  unfold Fd.write, Fd.entry_mut.
  destruct (Fd.get t fd) as [f|]; simpl; [|intros [= <- <- <-]; by left].
  destruct f as [data offset|data|data|path offset flags]; simpl.
  - intros [= <- <- <-]; by left.
  - intros (? & _ & [= <- <- <-])%bind_Ret. by left.
  - intros (? & _ & [= <- <- <-])%bind_Ret. by left.
  - destruct (Flags.contains flags Flags.WRITE) eqn:Hw; simpl; [|intros [= <- <- <-]; by left].
    destruct (Flags.contains flags Flags.APPEND); simpl.
    + destruct (Fs.append fs path buf) as [[[]|e] fs1] eqn:Ea; intros [= <- <- <-].
      * right. exists path, offset, flags. split_and!; [done..|]. by destruct (append_stored _ _ _ _ Ea).
      * left. by apply append_error_unchanged in Ea.
    + intros ([d o'] & _ & H)%bind_Ret.
      destruct (Fs.write fs path d) as [[[]|e] fs1] eqn:Ew.
      * apply bind_Ret in H as (? & _ & [= <- <- <-]). right. exists path, offset, flags.
        split_and!; [done..|]. by destruct (write_stored _ _ _ _ Ew).
      * injection H as <- <- <-. left. by apply write_error_unchanged in Ew.
Qed.

Lemma write_confined_witness :
  let t := mkTable [None; Some (OpenedFile "/home/a" 0 Flags.READ)] in
  Fd.write t sample_fs 1 [x00] = Ret (Err FdPermission, t, sample_fs).
Proof.
  intros t. assert (Fd.write t sample_fs 1 [x00] = Ret (Err FdPermission, t, sample_fs)) as E
    by (vm_compute; reflexivity).
  destruct (write_confined t sample_fs 1 [x00] (Err FdPermission) t sample_fs E) as [_|_]; exact E.
Defined.
