(* ===== verification/Elf.v ===== *)
(** * ELF images of the user programs ([src/user/elf.rs], [src/user.rs])

    The parser of [exec], the builder of the images installed in [/bin], and
    the machine code it puts into them. *)

From S2P Require Import Prelude Bytes RamFs.
From Stdlib Require Import Strings.Byte.
Local Open Scope Z_scope.

Definition ELF_HEADER_SIZE : Z := 64.
Definition PROGRAM_HEADER_SIZE : Z := 56.
Definition PT_LOAD : Z := 1.
Definition ET_EXEC : Z := 2.
Definition EM_X86_64 : Z := 62.
Definition EV_CURRENT : Z := 1.
Definition ENTRY_BASE : Z := 0x400000.
Definition ENTRY_STRIDE : Z := 0x1000.

Inductive ElfError :=
  | TooSmall
  | BadMagic
  | Unsupported
  | Truncated
  | MissingLoadSegment
  | UnknownProgram.

#[global] Instance ElfError_eq_dec : EqDecision ElfError.
Proof. solve_decision. Defined.

Abbreviation ElfResult A := (Result A ElfError).

(** ** Program identities *)

Inductive ProgramId := Shell | Ls | Rm | Mv | Cp | Touch | Cat | Echo | Sleep | Count.

#[global] Instance ProgramId_eq_dec : EqDecision ProgramId.
Proof. solve_decision. Defined.

Module Program.

(** The discriminant, [self as u64]. *)
Definition id (p : ProgramId) : Z :=
  match p with
  | Shell => 1 | Ls => 2 | Rm => 3 | Mv => 4 | Cp => 5
  | Touch => 6 | Cat => 7 | Echo => 8 | Sleep => 9 | Count => 10
  end.

Definition ALL : list ProgramId := [Shell; Ls; Rm; Mv; Cp; Touch; Cat; Echo; Sleep; Count].

Definition name (p : ProgramId) : string :=
  match p with
  | Shell => "shell" | Ls => "ls" | Rm => "rm" | Mv => "mv" | Cp => "cp"
  | Touch => "touch" | Cat => "cat" | Echo => "echo" | Sleep => "sleep" | Count => "count"
  end.

Definition from_name (n : string) : option ProgramId :=
  List.find (λ p, bool_decide (name p = n)) ALL.

Definition entry (p : ProgramId) : Z := ENTRY_BASE + id p * ENTRY_STRIDE.

Definition from_entry (e : Z) : option ProgramId :=
  offset ← checked_sub e ENTRY_BASE;
  if negb (offset mod ENTRY_STRIDE =? 0) then None
  else
    let id' := offset / ENTRY_STRIDE in
    List.find (λ p, id p =? id') ALL.
End Program.

(** ** Reading and writing fields *)

(** [image.get(offset..offset + n).ok_or(Truncated)?], decoded. *)
Definition read_le (n : Z) (image : bytes) (offset : Z) : outcome (ElfResult Z) :=
  end_ ← uadd offset n;
  match slice_get image offset end_ with
  | Some b => Ret (Ok (from_le b))
  | None => Ret (Err Truncated)
  end.
Definition read_u16 := read_le 2.
Definition read_u32 := read_le 4.
Definition read_u64 := read_le 8.

Definition write_u16 (offset value : Z) (image : bytes) : outcome bytes :=
  copy_into image offset (to_le 2 value).
Definition write_u32 (offset value : Z) (image : bytes) : outcome bytes :=
  copy_into image offset (to_le 4 value).
Definition write_u64 (offset value : Z) (image : bytes) : outcome bytes :=
  copy_into image offset (to_le 8 value).

(** [image[i] = v] *)
Definition store_byte (i : Z) (v : byte) (image : bytes) : outcome bytes :=
  expect (arr_set image i v).

(** ** Parsing *)

Record LoadSegment := mkLoad {
  offset : Z;
  virt_addr : Z;
  file_size : Z;
  mem_size : Z;
  flags : Z;
}.

Record ParsedElf := mkParsed {
  p_entry : Z;
  p_program : ProgramId;
  p_load : LoadSegment;
}.

#[global] Instance LoadSegment_eq_dec : EqDecision LoadSegment.
Proof. solve_decision. Defined.
#[global] Instance ParsedElf_eq_dec : EqDecision ParsedElf.
Proof. solve_decision. Defined.

(** The body of the loop over the program headers once the header at
    [offset] is a [PT_LOAD]. *)
Definition parse_load (image : bytes) (offset : Z) : outcome (ElfResult LoadSegment) :=
  o4 ← uadd offset 4; p_flags ←? read_u32 image o4;
  o8 ← uadd offset 8; p_offset ←? read_u64 image o8;
  o16 ← uadd offset 16; p_vaddr ←? read_u64 image o16;
  o32 ← uadd offset 32; p_filesz ←? read_u64 image o32;
  o40 ← uadd offset 40; p_memsz ←? read_u64 image o40;
  match checked_add p_offset p_filesz with
  | None => Ret (Err Truncated)
  | Some end_ =>
      if bool_decide (end_ > zlen image) then Ret (Err Truncated)
      else if bool_decide (p_memsz < p_filesz) then Ret (Err Unsupported)
      else Ret (Ok (mkLoad p_offset p_vaddr p_filesz p_memsz p_flags))
  end.

(** [for index in 0..phnum]: [continue] on other types, [break] on the first
    loadable segment. *)
Fixpoint find_load (image : bytes) (phoff phentsize : Z) (indices : list Z)
    : outcome (ElfResult (option LoadSegment)) :=
  match indices with
  | [] => Ret (Ok None)
  | index :: rest =>
      prod ← umul index phentsize;
      offset ← uadd phoff prod;
      end_ ← uadd offset PROGRAM_HEADER_SIZE;
      if bool_decide (end_ > zlen image) then Ret (Err Truncated)
      else
        p_type ←? read_u32 image offset;
        if negb (p_type =? PT_LOAD) then find_load image phoff phentsize rest
        else
          load ←? parse_load image offset;
          Ret (Ok (Some load))
  end.

Definition ELF_MAGIC : bytes := [x7f; x45; x4c; x46].

Definition parse (image : bytes) : outcome (ElfResult ParsedElf) :=
  if bool_decide (zlen image < ELF_HEADER_SIZE) then Ret (Err TooSmall)
  else
  magic ← expect (slice_get image 0 4);
  if bool_decide (magic ≠ ELF_MAGIC) then Ret (Err BadMagic)
  else
  b4 ← expect (arr_get image 4);
  b5 ← expect (arr_get image 5);
  b6 ← expect (arr_get image 6);
  if negb (Z_of_byte b4 =? 2) || negb (Z_of_byte b5 =? 1) || negb (Z_of_byte b6 =? 1)
  then Ret (Err Unsupported)
  else
  e_type ←? read_u16 image 16;
  e_machine ←? read_u16 image 18;
  e_version ←? read_u32 image 20;
  if negb (e_type =? ET_EXEC) || negb (e_machine =? EM_X86_64) || negb (e_version =? EV_CURRENT)
  then Ret (Err Unsupported)
  else
  entry ←? read_u64 image 24;
  phoff ←? read_u64 image 32;
  ehsize ←? read_u16 image 52;
  phentsize ←? read_u16 image 54;
  phnum ←? read_u16 image 56;
  if negb (ehsize =? ELF_HEADER_SIZE) || negb (phentsize =? PROGRAM_HEADER_SIZE) || (phnum =? 0)
  then Ret (Err Unsupported)
  else
  match Program.from_entry entry with
  | None => Ret (Err UnknownProgram)
  | Some program =>
      load ←? find_load image phoff phentsize (seqZ 0 phnum);
      match load with
      | None => Ret (Err MissingLoadSegment)
      | Some load => Ret (Ok (mkParsed entry program load))
      end
  end.

(** ** Building *)

Definition user_program_code (program : ProgramId) : outcome bytes :=
  let SYS_EXIT := 3 in
  let SYS_WRITE := 6 in
  let STDOUT := 1 in
  let message := str_bytes "exec /bin/" in
  let message := message ++ str_bytes (Program.name program) in
  let message := message ++ str_bytes " ok" ++ [x0d; x0a] in
  let code := [] in
  (* mov eax, SYS_WRITE *)
  let code := code ++ [xb8] ++ to_le 4 SYS_WRITE in
  (* mov edi, STDOUT *)
  let code := code ++ [xbf] ++ to_le 4 STDOUT in
  (* lea rsi, [rip + message] *)
  let lea_start := zlen code in
  let code := code ++ [x48; x8d; x35; x00; x00; x00; x00] in
  let lea_next := zlen code in
  (* mov edx, message.len() *)
  let code := code ++ [xba] ++ to_le 4 (as_u32 (zlen message)) in
  (* syscall *)
  let code := code ++ [x0f; x05] in
  (* mov eax, SYS_EXIT *)
  let code := code ++ [xb8] ++ to_le 4 SYS_EXIT in
  (* xor edi, edi *)
  let code := code ++ [x31; xff] in
  (* syscall *)
  let code := code ++ [x0f; x05] in
  (* jmp $ *)
  let code := code ++ [xeb; xfe] in
  let message_offset := zlen code in
  let displacement := message_offset - lea_next in
  code ← copy_into code (lea_start + 3) (to_le 4 displacement);
  Ret (code ++ message).

Definition MESSAGE : bytes :=
  [x0d; x0a] ++ str_bytes "user syscall write ok" ++ [x0d; x0a] ++ str_bytes "zeronix:/home$ ".

(** [user::syscall_write_smoke_program]. *)
Definition syscall_write_smoke_program : outcome bytes :=
  let SYS_WRITE := 6 in
  let STDOUT := 1 in
  let code := [] in
  (* mov eax, SYS_WRITE *)
  let code := code ++ [xb8] ++ to_le 4 SYS_WRITE in
  (* mov edi, STDOUT *)
  let code := code ++ [xbf] ++ to_le 4 STDOUT in
  (* lea rsi, [rip + message] *)
  let lea_start := zlen code in
  let code := code ++ [x48; x8d; x35; x00; x00; x00; x00] in
  let lea_next := zlen code in
  (* mov edx, MESSAGE.len() *)
  let code := code ++ [xba] ++ to_le 4 (as_u32 (zlen MESSAGE)) in
  (* syscall *)
  let code := code ++ [x0f; x05] in
  (* jmp $ *)
  let code := code ++ [xeb; xfe] in
  let message_offset := zlen code in
  let displacement := message_offset - lea_next in
  code ← copy_into code (lea_start + 3) (to_le 4 displacement);
  Ret (code ++ MESSAGE).

Definition build_program_image (program : ProgramId) : outcome bytes :=
  payload ← user_program_code program;
  payload_offset ← uadd ELF_HEADER_SIZE PROGRAM_HEADER_SIZE;
  size ← uadd payload_offset (zlen payload);
  let image := replicate (Z.to_nat size) x00 in
  image ← copy_into image 0 ELF_MAGIC;
  image ← store_byte 4 x02 image;
  image ← store_byte 5 x01 image;
  image ← store_byte 6 x01 image;
  image ← store_byte 7 x00 image;
  image ← write_u16 16 ET_EXEC image;
  image ← write_u16 18 EM_X86_64 image;
  image ← write_u32 20 EV_CURRENT image;
  image ← write_u64 24 (Program.entry program) image;
  image ← write_u64 32 ELF_HEADER_SIZE image;
  image ← write_u64 40 0 image;
  image ← write_u64 48 0 image;
  image ← write_u16 52 ELF_HEADER_SIZE image;
  image ← write_u16 54 PROGRAM_HEADER_SIZE image;
  image ← write_u16 56 1 image;
  image ← write_u16 58 0 image;
  image ← write_u16 60 0 image;
  image ← write_u16 62 0 image;
  let ph := ELF_HEADER_SIZE in
  image ← write_u32 ph PT_LOAD image;
  image ← write_u32 (ph + 4) 0x5 image;
  image ← write_u64 (ph + 8) payload_offset image;
  image ← write_u64 (ph + 16) (Program.entry program) image;
  image ← write_u64 (ph + 24) (Program.entry program) image;
  image ← write_u64 (ph + 32) (zlen payload) image;
  image ← write_u64 (ph + 40) (zlen payload) image;
  image ← write_u64 (ph + 48) 0x1000 image;
  copy_into image payload_offset payload.

(** Errors of [fs.write] are ignored, [let _ = ..]. *)
Definition install_programs (fs : RamFs) : outcome RamFs :=
  for_each Program.ALL (λ program fs,
    image ← build_program_image program;
    let path := ("/bin/" +:+ Program.name program)%string in
    Ret (Fs.write fs path image).2) fs.

Example parse_build_ls :
  (image ← build_program_image Ls; parse image) =
    Ret (Ok (mkParsed 0x402000 Ls (mkLoad 120 0x402000 52 52 5))).
Proof. vm_compute. reflexivity. Qed.
