(* ===== verification/ElfCorrect.v ===== *)
(** * Correctness of the ELF parser and of the program images

    What [parse] accepts, exactly when it panics, that the images built for
    [/bin] parse back to their program, and what their machine code does. *)

From S2P Require Import Prelude Bytes RamFs Elf.
From Stdlib Require Import Strings.Byte.
Local Open Scope Z_scope.

(** No slice is longer than [isize::MAX] bytes. *)
Definition isize_max : Z := 2 ^ 63 - 1.

(** ** Program identities *)

Lemma from_entry_entry p : Program.from_entry (Program.entry p) = Some p.
Proof. by destruct p. Qed.

Lemma from_entry_Some e p : Program.from_entry e = Some p ↔ e = Program.entry p.
Proof.
  split; [|intros ->; apply from_entry_entry].
  unfold Program.from_entry, checked_sub. destruct (ENTRY_BASE <=? e) eqn:Hle; [|done].
  change (Some ?x ≫= ?f) with (f x). cbv beta.
  destruct (negb _) eqn:Hm; [done|]. intros [Hin Hid]%List.find_some.
  apply Z.eqb_eq in Hid. apply negb_false_iff, Z.eqb_eq in Hm.
  unfold Program.entry. rewrite Hid, Z.mul_comm, <- Z_div_exact_2 by done. lia.
Qed.

Lemma from_name_name p : Program.from_name (Program.name p) = Some p.
Proof. by destruct p. Qed.

(** ** Fields *)

(** The little-endian field of [n] bytes at [off]. *)
Definition field (n : Z) (image : bytes) (off : Z) : Z :=
  from_le (take (Z.to_nat n) (drop (Z.to_nat off) image)).

Lemma field_range n image off : 0 ≤ n → 0 ≤ field n image off < 2 ^ (8 * n).
Proof.
  intros Hn. unfold field. pose proof (from_le_range (take (Z.to_nat n) (drop (Z.to_nat off) image))) as [H0 H].
  split; [done|]. eapply Z.lt_le_trans; [done|]. apply Z.pow_le_mono_r; [lia|].
  unfold zlen. rewrite length_take. lia.
Qed.

Lemma read_le_ok n image off :
  0 ≤ n → 0 ≤ off → off + n ≤ zlen image → zlen image ≤ isize_max →
  read_le n image off = Ret (Ok (field n image off)).
Proof.
  intros Hn Ho Hl Hi. unfold read_le. rewrite uadd_ok by (unfold usize_max, isize_max in *; lia).
  rewrite Ret_bind. unfold slice_get.
  replace ((0 <=? off) && (off <=? off + n) && (off + n <=? zlen image)) with true by lia.
  unfold field. by replace (off + n - off) with n by lia.
Qed.

(** ** Program headers *)

Section headers.
Context (image : bytes) (Hlen : zlen image ≤ isize_max).

(** The segment a program header at [off] describes. *)
Definition segment_at (off : Z) : LoadSegment :=
  mkLoad (field 8 image (off + 8)) (field 8 image (off + 16)) (field 8 image (off + 32))
    (field 8 image (off + 40)) (field 4 image (off + 4)).

(** Its bytes lie inside the image and fit its memory size. *)
Definition segment_ok (s : LoadSegment) : Prop :=
  offset s + file_size s ≤ zlen image ∧ file_size s ≤ mem_size s.

Lemma parse_load_spec off :
  0 ≤ off → off + 56 ≤ zlen image →
  ∃ r, parse_load image off = Ret r ∧
    ∀ s, r = Ok s ↔ s = segment_at off ∧ segment_ok s.
Proof.
  intros H0 Hin. unfold parse_load, read_u32, read_u64.
  rewrite !uadd_ok by (unfold isize_max, usize_max in *; lia). simpl.
  rewrite !read_le_ok by lia. simpl.
  pose proof (field_range 8 image (off + 8) ltac:(lia)) as Ho.
  pose proof (field_range 8 image (off + 32) ltac:(lia)) as Hf.
  unfold checked_add, segment_ok, segment_at.
  destruct (field 8 image (off + 8) + field 8 image (off + 32) <=? usize_max) eqn:Hc.
  - case_bool_decide as He; [|case_bool_decide as Hm]; (eexists; split; [done|]); intros s.
    + split; [done|]. intros [-> [H _]]. simpl in H. lia.
    + split; [done|]. intros [-> [_ H]]. simpl in H. lia.
    + split; [intros [= <-]; simpl; split_and!; [done|lia..]|by intros [-> _]].
  - eexists; split; [done|]. intros s. split; [done|]. intros [-> [H _]]. simpl in H.
    unfold isize_max, usize_max in *. lia.
Qed.

Context (phoff : Z) (Hphoff : 0 ≤ phoff).

Definition header_at (i : Z) : Z := phoff + 56 * i.
Definition is_load (i : Z) : Prop := field 4 image (header_at i) = PT_LOAD.

(** The first loadable header among those from [lo] up to [hi]. *)
Definition first_load (lo hi : Z) (s : LoadSegment) : Prop :=
  ∃ k, lo ≤ k < hi ∧ header_at k + 56 ≤ zlen image ∧ is_load k ∧
    (∀ j, lo ≤ j < k → ¬ is_load j) ∧ s = segment_at (header_at k) ∧ segment_ok s.

Lemma find_load_spec (n : nat) i :
  0 ≤ i → i + Z.of_nat n ≤ 65535 → header_at i + 56 ≤ usize_max →
  ∃ r, find_load image phoff PROGRAM_HEADER_SIZE (seqZ i (Z.of_nat n)) = Ret r ∧
    ∀ s, r = Ok (Some s) ↔ first_load i (i + Z.of_nat n) s.
Proof.
  revert i. induction n as [|n IH]; intros i Hi Hn Hov.
  { exists (Ok None). split; [done|]. intros s. split; [done|]. intros (k & ? & _). lia. }
  rewrite seqZ_cons by lia. cbn [find_load]. unfold PROGRAM_HEADER_SIZE in *.
  rewrite umul_ok by (unfold usize_max in *; lia). rewrite Ret_bind.
  replace (phoff + i * 56) with (header_at i) by (unfold header_at; lia).
  rewrite (uadd_ok phoff) by (unfold header_at in *; lia). rewrite Ret_bind.
  replace (phoff + i * 56) with (header_at i) by (unfold header_at; lia).
  rewrite uadd_ok by lia. rewrite Ret_bind.
  assert (0 ≤ header_at i) as Hpos by (unfold header_at; lia).
  case_bool_decide as Hout.
  { exists (Err Truncated). split; [done|]. intros s. split; [done|].
    intros (k & Hk & Hin & _). unfold header_at in *. lia. }
  unfold read_u32. rewrite read_le_ok by lia. simpl.
  destruct (field 4 image (header_at i) =? PT_LOAD) eqn:Ht; simpl.
  - destruct (parse_load_spec (header_at i)) as (r & -> & Hr); [lia..|].
    destruct r as [s0|e]; simpl; (eexists; split; [done|]); intros s; split; try done.
    + intros [= ->]. destruct (Hr s) as [H _]. destruct (H eq_refl). exists i.
      split_and!; [lia|lia|lia|unfold is_load; lia| |done|done]. intros; lia.
    + intros (k & Hk & _ & Hl & Hj & Hs). destruct (decide (k = i)) as [->|].
      * apply Hr in Hs. congruence.
      * exfalso. apply (Hj i); [lia|]. unfold is_load. lia.
    + intros (k & Hk & _ & Hl & Hj & Hs). destruct (decide (k = i)) as [->|].
      * apply Hr in Hs. congruence.
      * exfalso. apply (Hj i); [lia|]. unfold is_load. lia.
  - apply Z.eqb_neq in Ht.
    replace (Z.pred (Z.of_nat (S n))) with (Z.of_nat n) by lia.
    destruct (IH (Z.succ i)) as (r & Hr & Hs); [lia..| |].
    { unfold header_at in *. unfold isize_max, usize_max in *. lia. }
    exists r. split; [exact Hr|]. intros s. rewrite Hs. unfold is_load in *.
    split; intros (k & Hk & Hin & Hl & Hj & Hrest); exists k.
    + split_and!; [lia|lia|done|done| |apply Hrest|apply Hrest]. intros j Hji.
      destruct (decide (j = i)) as [->|]; [done|apply Hj; lia].
    + assert (k ≠ i) by (intros ->; done).
      split_and!; [lia|lia|done|done| |apply Hrest|apply Hrest]. intros j Hji. apply Hj. lia.
Qed.

(** When the very first header lies beyond the address space, the addition
    overflows. *)
Lemma find_load_overflow (n : nat) :
  (0 < n)%nat → phoff ≤ usize_max → usize_max < phoff + 56 →
  find_load image phoff PROGRAM_HEADER_SIZE (seqZ 0 (Z.of_nat n)) = Panic.
Proof.
  intros Hn Hle Hov. destruct n as [|n]; [lia|]. rewrite seqZ_cons by lia. cbn [find_load].
  rewrite umul_ok by done. rewrite Ret_bind, uadd_ok by lia. rewrite Ret_bind.
  unfold uadd, checked_add, PROGRAM_HEADER_SIZE. case_match eqn:E; [lia|done].
Qed.
End headers.

(** ** The file header *)

(** What the checks before the loop ask of the image. *)
Record header_ok (image : bytes) : Prop := {
  hd_len : ELF_HEADER_SIZE ≤ zlen image;
  hd_magic : take 4 image = ELF_MAGIC;
  hd_class : field 1 image 4 = 2;
  hd_data : field 1 image 5 = 1;
  hd_ident : field 1 image 6 = 1;
  hd_type : field 2 image 16 = ET_EXEC;
  hd_machine : field 2 image 18 = EM_X86_64;
  hd_version : field 4 image 20 = EV_CURRENT;
  hd_ehsize : field 2 image 52 = ELF_HEADER_SIZE;
  hd_phentsize : field 2 image 54 = PROGRAM_HEADER_SIZE;
  hd_phnum : field 2 image 56 ≠ 0;
}.

Lemma arr_get_field image i :
  0 ≤ i < zlen image → ∃ x, arr_get image i = Some x ∧ field 1 image i = Z_of_byte x.
Proof.
  intros H. destruct (proj2 (arr_get_is_Some image i) H) as [x Hx]. exists x. split; [done|].
  unfold arr_get in Hx. replace ((0 <=? i) && (i <? zlen image)) with true in Hx by lia.
  unfold field. erewrite drop_S by done. simpl. lia.
Qed.

(** Everything after the header checks. *)
Definition parse_body (image : bytes) : outcome (ElfResult ParsedElf) :=
  match Program.from_entry (field 8 image 24) with
  | None => Ret (Err UnknownProgram)
  | Some program =>
      load ←? find_load image (field 8 image 32) PROGRAM_HEADER_SIZE (seqZ 0 (field 2 image 56));
      match load with
      | None => Ret (Err MissingLoadSegment)
      | Some load => Ret (Ok (mkParsed (field 8 image 24) program load))
      end
  end.

Lemma parse_header image :
  zlen image ≤ isize_max →
  (header_ok image ∧ parse image = parse_body image) ∨
  (¬ header_ok image ∧ ∃ e, parse image = Ret (Err e)).
Proof.
  intros Hlen. unfold parse.
  case_bool_decide as Hsz; [right; split; [intros []; lia|eauto]|].
  unfold ELF_HEADER_SIZE in Hsz. unfold slice_get.
  replace ((0 <=? 0) && (0 <=? 4) && (4 <=? zlen image)) with true by lia. cbn [expect].
  rewrite Ret_bind. change (take (Z.to_nat (4 - 0)) (drop (Z.to_nat 0) image)) with (take 4 image).
  case_bool_decide as Hm; [right; split; [by intros []|eauto]|].
  destruct (arr_get_field image 4) as (b4 & -> & H4); [lia|].
  destruct (arr_get_field image 5) as (b5 & -> & H5); [lia|].
  destruct (arr_get_field image 6) as (b6 & -> & H6); [lia|]. cbn [expect].
  rewrite !Ret_bind, <- H4, <- H5, <- H6. unfold read_u16, read_u32, read_u64.
  destruct (negb (field 1 image 4 =? 2) || negb (field 1 image 5 =? 1) || negb (field 1 image 6 =? 1))
    eqn:Hc; [right; split; [intros []; lia|eauto]|].
  rewrite !read_le_ok by lia. unfold try_bind. rewrite !Ret_bind.
  destruct (negb (field 2 image 16 =? ET_EXEC) || negb (field 2 image 18 =? EM_X86_64) ||
    negb (field 4 image 20 =? EV_CURRENT)) eqn:Ht; [right; split; [intros []; lia|eauto]|].
  rewrite ?Ret_bind.
  destruct (negb (field 2 image 52 =? ELF_HEADER_SIZE) || negb (field 2 image 54 =? PROGRAM_HEADER_SIZE)
    || (field 2 image 56 =? 0)) eqn:Hp; [right; split; [intros []; lia|eauto]|].
  left. split; [split; unfold ELF_HEADER_SIZE in *; try lia; done|].
  unfold parse_body, try_bind. destruct (Program.from_entry (field 8 image 24)); [|done].
  by replace (field 2 image 54) with PROGRAM_HEADER_SIZE by lia.
Qed.

(** What it means for an image to be accepted as [e]. *)
Record accepted (image : bytes) (e : ParsedElf) : Prop := {
  ac_header : header_ok image;
  ac_entry : p_entry e = field 8 image 24;
  ac_program : p_entry e = Program.entry (p_program e);
  ac_load : first_load image (field 8 image 32) 0 (field 2 image 56) (p_load e);
}.

Lemma find_load_whole image :
  zlen image ≤ isize_max → field 8 image 32 + 56 ≤ usize_max →
  ∃ r, find_load image (field 8 image 32) PROGRAM_HEADER_SIZE (seqZ 0 (field 2 image 56)) = Ret r ∧
    ∀ s, r = Ok (Some s) ↔ first_load image (field 8 image 32) 0 (field 2 image 56) s.
Proof.
  intros Hlen Hov.
  pose proof (field_range 8 image 32 ltac:(lia)) as Hoff.
  pose proof (field_range 2 image 56 ltac:(lia)) as Hnum.
  destruct (find_load_spec image Hlen (field 8 image 32) (proj1 Hoff) (Z.to_nat (field 2 image 56)) 0)
    as (r & Hr & Hs); [lia..|unfold header_at; lia|].
  rewrite !Z2Nat.id, ?Z.add_0_l in * by lia. eauto.
Qed.

(** When the parser panics: a program header table past the end of the
    address space, in an otherwise acceptable header. *)
Definition phoff_overflows (image : bytes) : Prop :=
  header_ok image ∧ is_Some (Program.from_entry (field 8 image 24)) ∧
  usize_max < field 8 image 32 + PROGRAM_HEADER_SIZE.

Lemma parse_accepts image e :
  zlen image ≤ isize_max → parse image = Ret (Ok e) ↔ accepted image e.
Proof.
  intros Hlen. destruct (parse_header image Hlen) as [[Hh ->]|[Hh [err ->]]].
  2: { split; [done|by intros []]. }
  unfold parse_body. destruct (Program.from_entry (field 8 image 24)) as [p|] eqn:Hp.
  2: { split; [done|]. intros [_ He Hpr _]. rewrite <- He, Hpr, from_entry_entry in Hp. done. }
  apply from_entry_Some in Hp. pose proof (hd_phnum _ Hh) as Hn.
  pose proof (field_range 2 image 56 ltac:(lia)) as Hnum.
  pose proof (field_range 8 image 32 ltac:(lia)) as Hoff.
  destruct (decide (field 8 image 32 + 56 ≤ usize_max)) as [Hov|Hov].
  - destruct (find_load_whole image Hlen Hov) as (r & -> & Hr). unfold try_bind. rewrite Ret_bind.
    split.
    + intros H. destruct r as [[s|]|err]; simplify_eq. split; [done..|]. by apply Hr.
    + intros [_ He Hpr Hl]. apply Hr in Hl as ->. do 2 f_equal.
      rewrite <- He, Hpr in Hp. destruct e; simpl in *. f_equal; [done|].
      apply (inj Some). by rewrite <- !from_entry_entry, Hp.
  - rewrite <- (Z2Nat.id (field 2 image 56)), find_load_overflow by (unfold usize_max in *; lia).
    split; [done|]. intros [_ _ _ (k & Hk & Hin & _)].
    unfold header_at, isize_max, usize_max in *. lia.
Qed.

(** ** Claims *)

(** C28: [parse] accepts an image exactly when its header is that of a 64-bit
    little-endian x86-64 executable, its entry point is that of a known
    program, and one of its program headers is loadable; it then returns that
    program and the first loadable segment, whose bytes lie inside the image
    and fit its memory size. *)
Theorem parse_accepts_iff image e :
  zlen image ≤ isize_max → parse image = Ret (Ok e) ↔ accepted image e.
Proof. apply parse_accepts. Qed.

Lemma parse_accepts_iff_witness :
  match build_program_image Cat with
  | Ret image => zlen image ≤ isize_max ∧ accepted image (mkParsed 0x407000 Cat (mkLoad 120 0x407000 53 53 5))
  | _ => False
  end.
Proof.
  destruct (build_program_image Cat) as [image| |] eqn:E; vm_compute in E; [|discriminate E..].
  injection E as <-. split; [vm_compute; discriminate|].
  apply (parse_accepts_iff _ _); [vm_compute; discriminate|]. vm_compute. reflexivity.
Defined.

(** [parse] ends on every image. *)
Lemma parse_no_diverge image : zlen image ≤ isize_max → parse image ≠ Diverge.
Proof.
  intros Hlen. destruct (parse_header image Hlen) as [[Hh ->]|[Hh [err ->]]]; [|done].
  unfold parse_body. destruct (Program.from_entry (field 8 image 24)) as [p|] eqn:Hp; [|done].
  pose proof (hd_phnum _ Hh) as Hn. pose proof (field_range 2 image 56 ltac:(lia)) as Hnum.
  pose proof (field_range 8 image 32 ltac:(lia)) as Hoff.
  destruct (decide (field 8 image 32 + 56 ≤ usize_max)) as [Hov|Hov].
  - destruct (find_load_whole image Hlen Hov) as (r & -> & _). by destruct r as [[]|].
  - rewrite <- (Z2Nat.id (field 2 image 56)), find_load_overflow by (unfold usize_max in *; lia). done.
Qed.

(** C29: [parse] always ends, and panics exactly on the images whose program
    header offset lies within 56 bytes of the top of the address space: the
    unchecked [offset + PROGRAM_HEADER_SIZE] overflows there. *)
Theorem parse_panics_iff image :
  zlen image ≤ isize_max →
  parse image ≠ Diverge ∧ (parse image = Panic ↔ phoff_overflows image).
Proof.
  intros Hlen. split; [by apply parse_no_diverge|]. unfold phoff_overflows.
  destruct (parse_header image Hlen) as [[Hh ->]|[Hh [err ->]]]; [|by split; [|intros []]].
  unfold parse_body. destruct (Program.from_entry (field 8 image 24)) as [p|] eqn:Hp.
  2: { split; [done|]. by intros (_ & [] & _). }
  pose proof (hd_phnum _ Hh) as Hn.
  pose proof (field_range 2 image 56 ltac:(lia)) as Hnum.
  pose proof (field_range 8 image 32 ltac:(lia)) as Hoff.
  destruct (decide (field 8 image 32 + 56 ≤ usize_max)) as [Hov|Hov].
  - destruct (find_load_whole image Hlen Hov) as (r & -> & _).
    unfold PROGRAM_HEADER_SIZE. split; [by destruct r as [[]|]|]. intros (_ & _ & ?). lia.
  - rewrite <- (Z2Nat.id (field 2 image 56)), find_load_overflow by (unfold usize_max in *; lia).
    split; [|done]. intros _. unfold PROGRAM_HEADER_SIZE. split_and!; [done|eauto|lia].
Qed.

(** The image of [/bin/ls] with its program header offset set to [2^64 - 1]. *)
Definition crafted_image : outcome bytes :=
  image ← build_program_image Ls; write_u64 32 usize_max image.

Lemma parse_panics_iff_witness :
  match crafted_image with
  | Ret image => zlen image ≤ isize_max ∧ phoff_overflows image
  | _ => False
  end.
Proof.
  destruct crafted_image as [image| |] eqn:E; vm_compute in E; [|discriminate E..].
  injection E as <-. split; [vm_compute; discriminate|].
  apply parse_panics_iff; [vm_compute; discriminate|]. vm_compute. reflexivity.
Defined.

(** C30: for every program, the image built for it is accepted by [parse] as
    that program, with its entry point as load address, and the segment it
    loads is exactly the program's machine code. *)
Theorem parse_build_roundtrip program :
  ∃ image code, build_program_image program = Ret image ∧
    user_program_code program = Ret code ∧
    parse image = Ret (Ok (mkParsed (Program.entry program) program
      (mkLoad 120 (Program.entry program) (zlen code) (zlen code) 5))) ∧
    slice_get image 120 (120 + zlen code) = Some code.
Proof.
  destruct (build_program_image program) as [image| |] eqn:Hi;
    [|by destruct program; vm_compute in Hi..].
  destruct (user_program_code program) as [code| |] eqn:Hc;
    [|by destruct program; vm_compute in Hc..].
  exists image, code. destruct program; vm_compute in Hi; vm_compute in Hc;
    injection Hi as <-; injection Hc as <-; split_and!; vm_compute; reflexivity.
Qed.

(** Seeding a fresh file system puts into [/bin], for every program, a
    file named after it that reads back as its image and parses as the
    program. *)
Theorem install_programs_correct :
  ∃ fs0 fs, Fs.new = Ret fs0 ∧ install_programs fs0 = Ret fs ∧
    ∀ program, ∃ image e, Fs.read fs ("/bin/" +:+ Program.name program)%string = Ok image ∧
      build_program_image program = Ret image ∧
      parse image = Ret (Ok e) ∧ p_program e = program.
Proof.
  eexists _, _. split; [vm_compute; reflexivity|]. split; [vm_compute; reflexivity|].
  intros program; destruct program; eexists _, _;
    (split; [vm_compute; reflexivity|split; [vm_compute; reflexivity|split; vm_compute; reflexivity]]).
Qed.
