(* ===== verification/UserCode.v ===== *)
(** * What the generated user programs do

    [user_program_code] and [syscall_write_smoke_program] emit machine code
    byte by byte.  This file gives the meaning of the few x86-64 instructions
    they use and shows which system calls the emitted bytes make. *)

From S2P Require Import Prelude Bytes Elf.
From Stdlib Require Import Strings.Byte.
Local Open Scope Z_scope.

(** A register holds a number, or an address given relative to where the code
    was loaded; the code is position independent. *)
Inductive val := Num (z : Z) | Rel (off : Z).

Definition at_base (base : Z) (v : val) : Z :=
  match v with Num z => z | Rel off => base + off end.

Inductive reg := RAX | RDX | RDI | RSI.

Inductive instr :=
  | MovImm (r : reg) (imm : Z)   (* mov r32, imm32: zero-extends *)
  | LeaRsi (disp : Z)            (* lea rsi, [rip + disp32] *)
  | XorEdi                       (* xor edi, edi *)
  | Syscall
  | Jmp (rel : Z).               (* jmp rel8 *)

(** A two's complement number of [n] bits. *)
Definition signed (n z : Z) : Z := if z <? 2 ^ (n - 1) then z else z - 2 ^ n.

(** The instruction at the head of the bytes, and its length. *)
Definition decode (code : bytes) : option (instr * Z) :=
  match code with
  | xb8 :: a :: b :: c :: d :: _ => Some (MovImm RAX (from_le [a; b; c; d]), 5)
  | xba :: a :: b :: c :: d :: _ => Some (MovImm RDX (from_le [a; b; c; d]), 5)
  | xbf :: a :: b :: c :: d :: _ => Some (MovImm RDI (from_le [a; b; c; d]), 5)
  | x48 :: x8d :: x35 :: a :: b :: c :: d :: _ =>
      Some (LeaRsi (signed 32 (from_le [a; b; c; d])), 7)
  | x31 :: xff :: _ => Some (XorEdi, 2)
  | x0f :: x05 :: _ => Some (Syscall, 2)
  | xeb :: r :: _ => Some (Jmp (signed 8 (Z_of_byte r)), 2)
  | _ => None
  end.

Record cpu := mkCpu { pc : Z; rax : val; rdx : val; rdi : val; rsi : val }.

#[global] Instance val_eq_dec : EqDecision val.
Proof. solve_decision. Defined.
#[global] Instance cpu_eq_dec : EqDecision cpu.
Proof. solve_decision. Defined.

Definition set_reg (s : cpu) (r : reg) (v : val) : cpu :=
  match r with
  | RAX => mkCpu (pc s) v (rdx s) (rdi s) (rsi s)
  | RDX => mkCpu (pc s) (rax s) v (rdi s) (rsi s)
  | RDI => mkCpu (pc s) (rax s) (rdx s) v (rsi s)
  | RSI => mkCpu (pc s) (rax s) (rdx s) (rdi s) v
  end.
Definition set_pc (s : cpu) (p : Z) : cpu := mkCpu p (rax s) (rdx s) (rdi s) (rsi s).

(** A system call as the kernel sees it: number and first three arguments. *)
Record call := mkCall { nr : val; arg0 : val; arg1 : val; arg2 : val }.

(** How a run ends: the exit call was made, the code spins in place, or it ran
    into bytes that are none of the instructions above. *)
Inductive ending := Exited | Spinning | Stuck | OutOfSteps.

(** Runs the code, with [ret] as the value the kernel returns in [rax]. *)
Fixpoint run (fuel : nat) (code : bytes) (ret : val) (s : cpu) (trace : list call)
    : ending * list call :=
  match fuel with
  | O => (OutOfSteps, trace)
  | S fuel' =>
      match decode (drop (Z.to_nat (pc s)) code) with
      | None => (Stuck, trace)
      | Some (i, len) =>
          let s' := set_pc s (pc s + len) in
          match i with
          | MovImm r imm => run fuel' code ret (set_reg s' r (Num imm)) trace
          | LeaRsi disp => run fuel' code ret (set_reg s' RSI (Rel (pc s + len + disp))) trace
          | XorEdi => run fuel' code ret (set_reg s' RDI (Num 0)) trace
          | Jmp rel =>
              if bool_decide (pc s + len + rel = pc s) then (Spinning, trace)
              else run fuel' code ret (set_pc s (pc s + len + rel)) trace
          | Syscall =>
              let trace' := trace ++ [mkCall (rax s) (rdi s) (rsi s) (rdx s)] in
              if bool_decide (rax s = Num 3) then (Exited, trace')
              else run fuel' code ret (set_reg s' RAX ret) trace'
          end
      end
  end.

(** Entry at the first byte; the registers hold anything. *)
Definition start (g : val) : cpu := mkCpu 0 g g g g.

(** The call [write(1, p, len)] where [len] bytes at [p] are the message. *)
Definition writes_message (code : bytes) (message : bytes) (base : Z) (c : call) : Prop :=
  at_base base (nr c) = 6 ∧ at_base base (arg0 c) = 1 ∧
  at_base base (arg2 c) = zlen message ∧
  ∃ off, at_base base (arg1 c) = base + off ∧
    slice_get code off (off + zlen message) = Some message.

Definition exec_message (program : ProgramId) : bytes :=
  str_bytes "exec /bin/" ++ str_bytes (Program.name program) ++ str_bytes " ok" ++ [x0d; x0a].

(** ** Claims *)

(** Wherever it is loaded, whatever the registers hold and whatever the
    kernel returns, the code generated for a program makes exactly two system
    calls: [write] of the message naming the program to standard output, then
    [exit] with status 0. *)
Theorem user_program_behaviour program base ret g :
  ∃ code c1 c2, user_program_code program = Ret code ∧
    run 20 code ret (start g) [] = (Exited, [c1; c2]) ∧
    writes_message code (exec_message program) base c1 ∧
    nr c2 = Num 3 ∧ arg0 c2 = Num 0.
Proof.
  unfold writes_message.
  destruct program; (eexists _, _, _; split; [vm_compute; reflexivity|]);
    (split; [vm_compute; reflexivity|]); simpl; split_and!; try reflexivity;
    exists 35; vm_compute; done.
Qed.

(** The smoke-test code makes one system call, the [write] of its
    message, and then spins in place; it fits one page. *)
Theorem smoke_program_behaviour base ret g :
  ∃ code c, syscall_write_smoke_program = Ret code ∧
    run 20 code ret (start g) [] = (Spinning, [c]) ∧
    writes_message code MESSAGE base c ∧ zlen code < 4096.
Proof.
  unfold writes_message. eexists _, _. split; [vm_compute; reflexivity|].
  split; [vm_compute; reflexivity|]. simpl. split_and!; try reflexivity.
  exists 26. vm_compute. done.
Qed.
