(* ===== verification/ProcLayout.v ===== *)
(** * Process layout arithmetic and time slices ([src/task/proc_layout.rs]) *)

From S2P Require Import Prelude.
Local Open Scope Z_scope.

Definition USER_CODE_BASE : Z := 0x400000.
Definition USER_SLOT_SIZE : Z := 0x200000.
Definition USER_STACK_TOP : Z := 0x7ffffffff000.
Definition DEFAULT_TIME_SLICE_TICKS : Z := 5.

Definition user_code_base (pid : Z) : outcome Z :=
  slot ← umul pid USER_SLOT_SIZE; uadd USER_CODE_BASE slot.

Definition user_stack_top (pid : Z) : outcome Z :=
  slot ← umul pid USER_SLOT_SIZE; usub USER_STACK_TOP slot.

(** Returns the new [ticks_left] and whether the slice is over. *)
Definition consume_tick (ticks_left default_slice : Z) : Z * bool :=
  let ticks_left := if 0 <? ticks_left then ticks_left - 1 else ticks_left in
  if ticks_left =? 0 then (default_slice, true) else (ticks_left, false).

Definition align_down (addr align : Z) : outcome Z :=
  mask ← usub align 1; Ret (Z.land addr (not64 mask)).

(** [n] timer ticks: the reading left, and how many of them ended a slice. *)
Fixpoint ticks (n : nat) (left slice : Z) : Z * nat :=
  match n with
  | O => (left, O)
  | S n' =>
      let '(left', over) := consume_tick left slice in
      let '(last, count) := ticks n' left' slice in
      (last, (if over then S count else count))
  end.

(** The largest process id whose stack slot lies above address 0. *)
Definition MAX_SLOT_PID : Z := USER_STACK_TOP / USER_SLOT_SIZE.

Lemma user_code_base_ok pid :
  0 ≤ pid ≤ MAX_SLOT_PID → user_code_base pid = Ret (USER_CODE_BASE + pid * USER_SLOT_SIZE).
Proof.
  intros H. unfold user_code_base, MAX_SLOT_PID, USER_STACK_TOP, USER_SLOT_SIZE, USER_CODE_BASE in *.
  change (140737488351232 / 2097152) with 67108863 in H.
  rewrite umul_ok by (unfold usize_max; lia). simpl. rewrite uadd_ok by (unfold usize_max; lia). done.
Qed.

Lemma user_stack_top_ok pid :
  0 ≤ pid ≤ MAX_SLOT_PID → user_stack_top pid = Ret (USER_STACK_TOP - pid * USER_SLOT_SIZE).
Proof.
  intros H. unfold user_stack_top, MAX_SLOT_PID, USER_STACK_TOP, USER_SLOT_SIZE in *.
  change (140737488351232 / 2097152) with 67108863 in H.
  rewrite umul_ok by (unfold usize_max; lia). simpl. rewrite usub_ok by lia. done.
Qed.

(** Up to [left] ticks, the slice only runs down. *)
Lemma ticks_countdown (n : nat) left slice :
  Z.of_nat n < left → ticks n left slice = (left - Z.of_nat n, O).
Proof.
  revert left. induction n as [|n IH]; intros left H; simpl; [by rewrite Z.sub_0_r|].
  unfold consume_tick. replace (0 <? left) with true by lia.
  replace (left - 1 =? 0) with false by lia. rewrite IH by lia. f_equal. lia.
Qed.

Lemma ticks_app n m left slice :
  ticks (n + m) left slice =
    (let '(l1, c1) := ticks n left slice in
     let '(l2, c2) := ticks m l1 slice in (l2, (c1 + c2)%nat)).
Proof.
  revert left. induction n as [|n IH]; intros left; simpl; [by destruct (ticks m left slice)|].
  destruct (consume_tick left slice) as [l0 over]. rewrite IH.
  destruct (ticks n l0 slice) as [l1 c1]. destruct (ticks m l1 slice) as [l2 c2]. by destruct over.
Qed.

Lemma ticks_slice slice : 0 < slice → ticks (Z.to_nat slice) slice slice = (slice, 1%nat).
Proof.
  intros H. replace (Z.to_nat slice) with (Z.to_nat (slice - 1) + 1)%nat by lia.
  rewrite ticks_app, ticks_countdown by lia. simpl. unfold consume_tick.
  replace (slice - Z.of_nat (Z.to_nat (slice - 1))) with 1 by lia. done.
Qed.

(** A slice of [s] ticks ends exactly every [s] ticks: from a fresh
    slice, [k] full slices and [j < s] further ticks end exactly [k] slices
    and leave [s - j] ticks. *)
Theorem time_slices_exact slice (k j : nat) :
  0 < slice → Z.of_nat j < slice →
  ticks (k * Z.to_nat slice + j) slice slice = (slice - Z.of_nat j, k).
Proof.
  intros Hs Hj. rewrite ticks_app. assert (ticks (k * Z.to_nat slice) slice slice = (slice, k)) as ->.
  { induction k as [|k IH]; [done|]. rewrite Nat.mul_succ_l, ticks_app, IH, ticks_slice by done.
    f_equal. lia. }
  rewrite ticks_countdown by done. f_equal. lia.
Qed.

Lemma time_slices_exact_witness :
  ticks 17 DEFAULT_TIME_SLICE_TICKS DEFAULT_TIME_SLICE_TICKS = (3, 3%nat).
Proof. apply (time_slices_exact 5 3 2); reflexivity. Defined.

(** The code and stack slots of different processes do not overlap, as
    long as the process ids have slots at all (up to [MAX_SLOT_PID]); beyond
    that the stack address underflows and the kernel panics. *)
Theorem process_slots_disjoint p q :
  0 ≤ p → p < q → is_usize q →
  (q ≤ MAX_SLOT_PID → ∃ cp cq sp sq,
     user_code_base p = Ret cp ∧ user_code_base q = Ret cq ∧
     user_stack_top p = Ret sp ∧ user_stack_top q = Ret sq ∧
     cp + USER_SLOT_SIZE ≤ cq ∧ sq + USER_SLOT_SIZE ≤ sp ∧ 0 ≤ sq) ∧
  (MAX_SLOT_PID < q → user_stack_top q = Panic).
Proof.
  intros Hp Hpq Hq. split.
  - intros Hmax. exists (USER_CODE_BASE + p * USER_SLOT_SIZE), (USER_CODE_BASE + q * USER_SLOT_SIZE),
      (USER_STACK_TOP - p * USER_SLOT_SIZE), (USER_STACK_TOP - q * USER_SLOT_SIZE).
    rewrite !user_code_base_ok, !user_stack_top_ok by lia.
    unfold MAX_SLOT_PID, USER_SLOT_SIZE, USER_STACK_TOP, USER_CODE_BASE in *.
    change (140737488351232 / 2097152) with 67108863 in Hmax. split_and!; try done; lia.
  - intros Hmax. unfold user_stack_top, umul, usub, checked_mul, checked_sub.
    unfold MAX_SLOT_PID, USER_SLOT_SIZE, USER_STACK_TOP in *.
    change (140737488351232 / 2097152) with 67108863 in Hmax.
    destruct (q * 2097152 <=? usize_max); simpl; [|done].
    by replace (q * 2097152 <=? 140737488351232) with false by lia.
Qed.

Lemma process_slots_disjoint_witness :
  ∃ s1 s2, user_stack_top 1 = Ret s1 ∧ user_stack_top 2 = Ret s2 ∧ s2 + USER_SLOT_SIZE ≤ s1.
Proof.
  destruct (process_slots_disjoint 1 2) as [H _]; [lia|lia|split; vm_compute; discriminate|].
  destruct H as (cp & cq & sp & sq & _ & _ & H1 & H2 & _ & H3 & _); [vm_compute; discriminate|].
  exists sp, sq. split; [exact H1|]. split; [exact H2|exact H3].
Defined.
