(* ===== verification/Proc.v ===== *)
(** * Processes and the scheduler ([src/task/proc.rs])

    Process control blocks are leaked boxes: they are never freed, so a
    [ProcRef] is the position of its block in the list of all blocks.  The
    processor's part of the state is what the scheduler touches: the
    callee-saved registers, the interrupt flag, CR3 and the stack pointer for
    entries from user mode.  Physical memory and the page allocator are those
    of [Paging].  The run queue's lock is the spin lock of [SpinLock]. *)

From S2P Require Import Prelude Bytes Buddy Address Paging ProcLayout Elf.
Local Open Scope Z_scope.
Local Open Scope paging_scope.

Definition KERNEL_STACK_ORDER : Z := 2.
Definition KERNEL_STACK_SIZE : Z := Z.shiftl 1 KERNEL_STACK_ORDER * PAGE_SIZE.
Definition USER_STACK_ORDER : Z := 1.
Definition USER_STACK_SIZE : Z := Z.shiftl 1 USER_STACK_ORDER * PAGE_SIZE.

(** Selectors of [src/trap/gdt.rs]. *)
Definition USER_DATA_SELECTOR : Z := Z.lor 0x18 3.
Definition USER_CODE_SELECTOR : Z := Z.lor 0x20 3.

Inductive ProcState := Ready | Running | Blocked | Exited.
Inductive ProcKind := KernelProc | UserProc.
Inductive SpawnError := BadElf | ProgramTooLarge | NoMemory.

#[global] Instance ProcState_eq_dec : EqDecision ProcState.
Proof. solve_decision. Defined.
#[global] Instance ProcKind_eq_dec : EqDecision ProcKind.
Proof. solve_decision. Defined.
#[global] Instance SpawnError_eq_dec : EqDecision SpawnError.
Proof. solve_decision. Defined.

Record Context := mkContext {
  c_r15 : Z; c_r14 : Z; c_r13 : Z; c_r12 : Z; c_rbx : Z; c_rbp : Z; c_rsp : Z; c_rip : Z;
}.
Definition Context_new : Context := mkContext 0 0 0 0 0 0 0 0.

Record TrapFrame := mkTrapFrame {
  t_r15 : Z; t_r14 : Z; t_r13 : Z; t_r12 : Z; t_r11 : Z; t_r10 : Z; t_r9 : Z; t_r8 : Z;
  t_rdi : Z; t_rsi : Z; t_rbp : Z; t_rdx : Z; t_rcx : Z; t_rbx : Z; t_rax : Z;
  t_rip : Z; t_cs : Z; t_rflags : Z; t_rsp : Z; t_ss : Z;
}.
Definition new_user (rip rsp : Z) : TrapFrame :=
  mkTrapFrame 0 0 0 0 0 0 0 0 0 0 0 0 0 0 0 rip USER_CODE_SELECTOR 0x202 rsp USER_DATA_SELECTOR.

(** The words of a frame in memory ([repr(C)]). *)
Definition tf_words (t : TrapFrame) : list Z :=
  [t_r15 t; t_r14 t; t_r13 t; t_r12 t; t_r11 t; t_r10 t; t_r9 t; t_r8 t; t_rdi t; t_rsi t; t_rbp t; t_rdx t;
   t_rcx t; t_rbx t; t_rax t; t_rip t; t_cs t; t_rflags t; t_rsp t; t_ss t].
Definition TRAP_FRAME_SIZE : Z := 160.

Abbreviation ProcRef := nat (only parsing).

Record Proc := mkProc {
  pid : Z;
  state : ProcState;
  context : Context;
  pagetable : PhysAddr;
  kstack_phys : Z;
  kstack_top : Z;
  kind : ProcKind;
  ticks_left : Z;
  entry : option Z;
  trap_frame : option Z;
  user_code_phys : option Z;
  user_stack_phys : option Z;
}.

Definition set_state (st : ProcState) (p : Proc) : Proc :=
  mkProc (pid p) st (context p) (pagetable p) (kstack_phys p) (kstack_top p) (kind p) (ticks_left p)
    (entry p) (trap_frame p) (user_code_phys p) (user_stack_phys p).
Definition set_ticks (n : Z) (p : Proc) : Proc :=
  mkProc (pid p) (state p) (context p) (pagetable p) (kstack_phys p) (kstack_top p) (kind p) n
    (entry p) (trap_frame p) (user_code_phys p) (user_stack_phys p).
Definition set_context (c : Context) (p : Proc) : Proc :=
  mkProc (pid p) (state p) c (pagetable p) (kstack_phys p) (kstack_top p) (kind p) (ticks_left p)
    (entry p) (trap_frame p) (user_code_phys p) (user_stack_phys p).

(** ** Writing through the direct map *)

(** The words of a page of bytes. *)
Fixpoint page_words (l : bytes) : list Z :=
  match l with
  | b0 :: b1 :: b2 :: b3 :: b4 :: b5 :: b6 :: b7 :: l => from_le [b0; b1; b2; b3; b4; b5; b6; b7] :: page_words l
  | _ => []
  end.

(** [write_bytes(dst, 0, PAGE_SIZE)], then a copy of [code] to its start. *)
Definition page_of (code : bytes) : bytes := code ++ replicate (Z.to_nat PAGE_SIZE - length code) Byte.x00.

(** A 64-bit store at a kernel virtual address. *)
Definition kstore (v w : Z) (m : pmem) : pmem :=
  let p := v - KERNEL_VMA in
  let frame := p - p mod PAGE_SIZE in
  pm_upd frame (<[Z.to_nat (p mod PAGE_SIZE / 8) := w]> (m frame)) m.
Definition kload (v : Z) (m : pmem) : option Z :=
  let p := v - KERNEL_VMA in m (p - p mod PAGE_SIZE) !! Z.to_nat (p mod PAGE_SIZE / 8).
Fixpoint kstores (v : Z) (ws : list Z) (m : pmem) : pmem :=
  match ws with
  | [] => m
  | w :: ws => kstores (v + 8) ws (kstore v w m)
  end.

(** ** State *)

(** Why a process is not running: it has not started yet, or an activation of
    [schedule] on its stack waits, called from the timer interrupt or
    directly, with its local [interrupts_were_enabled]. *)
Inductive caller := FromIrq | FromCall.
Inductive pending := NotStarted | InSchedule (from : caller) (interrupts_were_enabled : bool).

Section proc.
Context `{FS : FrameSource B}.

Record tasks := mkTasks {
  procs : list Proc;
  READY_QUEUE : list ProcRef;
  NEXT_PID : Z;
  CURRENT : option ProcRef;
  pendings : list pending;
  cpu : Context;
  IF : bool;
  CR3 : Z;
  rsp0 : Z;
  pg : paging (B := B);
}.

Definition with_procs (ps : list Proc) (s : tasks) : tasks :=
  mkTasks ps (READY_QUEUE s) (NEXT_PID s) (CURRENT s) (pendings s) (cpu s) (IF s) (CR3 s) (rsp0 s) (pg s).
Definition with_queue (q : list ProcRef) (s : tasks) : tasks :=
  mkTasks (procs s) q (NEXT_PID s) (CURRENT s) (pendings s) (cpu s) (IF s) (CR3 s) (rsp0 s) (pg s).
Definition with_next_pid (n : Z) (s : tasks) : tasks :=
  mkTasks (procs s) (READY_QUEUE s) n (CURRENT s) (pendings s) (cpu s) (IF s) (CR3 s) (rsp0 s) (pg s).
Definition with_pendings (l : list pending) (s : tasks) : tasks :=
  mkTasks (procs s) (READY_QUEUE s) (NEXT_PID s) (CURRENT s) l (cpu s) (IF s) (CR3 s) (rsp0 s) (pg s).
Definition with_if (f : bool) (s : tasks) : tasks :=
  mkTasks (procs s) (READY_QUEUE s) (NEXT_PID s) (CURRENT s) (pendings s) (cpu s) f (CR3 s) (rsp0 s) (pg s).
Definition with_cpu (c : Context) (s : tasks) : tasks :=
  mkTasks (procs s) (READY_QUEUE s) (NEXT_PID s) (CURRENT s) (pendings s) c (IF s) (CR3 s) (rsp0 s) (pg s).
Definition with_pg (p : paging) (s : tasks) : tasks :=
  mkTasks (procs s) (READY_QUEUE s) (NEXT_PID s) (CURRENT s) (pendings s) (cpu s) (IF s) (CR3 s) (rsp0 s) p.

Definition write_current (c : option ProcRef) (s : tasks) : tasks :=
  mkTasks (procs s) (READY_QUEUE s) (NEXT_PID s) c (pendings s) (cpu s) (IF s) (CR3 s) (rsp0 s) (pg s).
Definition set_kernel_stack (top : Z) (s : tasks) : tasks :=
  mkTasks (procs s) (READY_QUEUE s) (NEXT_PID s) (CURRENT s) (pendings s) (cpu s) (IF s) (CR3 s) top (pg s).
Definition load_cr3 (v : Z) (s : tasks) : tasks :=
  mkTasks (procs s) (READY_QUEUE s) (NEXT_PID s) (CURRENT s) (pendings s) (cpu s) (IF s) v (rsp0 s) (pg s).

Definition disable_interrupts : tasks → tasks := with_if false.
Definition enable_interrupts : tasks → tasks := with_if true.

(** A write to a field through the raw pointer. *)
Definition upd_proc (r : ProcRef) (f : Proc → Proc) (s : tasks) : tasks := with_procs (alter f r (procs s)) s.

(** [Box::leak(Box::new(p))]. *)
Definition new_proc (p : Proc) (s : tasks) : ProcRef * tasks :=
  (length (procs s), with_pendings (pendings s ++ [NotStarted]) (with_procs (procs s ++ [p]) s)).

Definition push_ready (r : ProcRef) (s : tasks) : tasks :=
  let s := upd_proc r (set_state Ready) s in with_queue (READY_QUEUE s ++ [r]) s.

(** Addresses the linker decides: the two entry routines, the label behind
    the switch, the initial ring 0 stack and the boot data. *)
Record addresses := mkAddresses {
  kernel_task_bootstrap : Z;
  user_task_bootstrap : Z;
  switch_return : Z;
  ring0_stack_top : Z;
  bootdata : Z * Z;
}.
Context (A : addresses).

(** ** Process creation *)

Definition init (s : tasks) : outcome tasks :=
  match CURRENT s with
  | Some _ => Ret s
  | None =>
      pml4 ← kernel_pml4 (pg s);
      let '(boot_proc, s) := new_proc
        (mkProc 0 Running Context_new pml4 0 (ring0_stack_top A) KernelProc DEFAULT_TIME_SLICE_TICKS None None None None) s in
      Ret (write_current (Some boot_proc) s)
  end.

(** [NEXT_PID.fetch_add(1)], which wraps. *)
Definition fetch_pid (s : tasks) : Z * tasks := (NEXT_PID s, with_next_pid ((NEXT_PID s + 1) mod 2 ^ 64) s).

(** [buddy.allocate(order)] on the allocator behind the lock. *)
Definition allocate_frames (order : Z) (p : paging) : outcome (option Z * paging) :=
  buddy ← expect (pg_buddy p);
  '(r, buddy) ← frame_alloc order buddy;
  Ret (r, mkPaging (pg_mem p) (Some buddy) (KERNEL_PML4 p)).

Definition spawn_kernel (entry : Z) (s : tasks) : outcome (ProcRef * tasks) :=
  s ← init s;
  let '(pid, s) := fetch_pid s in
  '(r, p) ← allocate_frames KERNEL_STACK_ORDER (pg s);
  kstack_phys ← expect r;
  let s := with_pg p s in
  kstack_top ← uadd kstack_phys KERNEL_VMA;
  kstack_top ← uadd kstack_top KERNEL_STACK_SIZE;
  rsp ← ProcLayout.align_down kstack_top 16;
  pml4 ← kernel_pml4 (pg s);
  let '(r, s) := new_proc (mkProc pid Ready (mkContext 0 0 0 0 0 0 rsp (kernel_task_bootstrap A)) pml4 kstack_phys
    kstack_top KernelProc DEFAULT_TIME_SLICE_TICKS (Some entry) None None None) s in
  Ret (r, push_ready r s).

Definition map_bootdata_identity (pt : PhysAddr) (p : paging) : outcome paging :=
  start ← ProcLayout.align_down (bootdata A).1 PAGE_SIZE;
  e ← uadd (bootdata A).2 PAGE_SIZE;
  e ← usub e 1;
  let end_ := Z.land e (not64 (PAGE_SIZE - 1)) in
  for_each (pages_of start end_) (λ addr p,
    map_into_page_table pt addr addr (EntryFlags.PRESENT .| EntryFlags.WRITABLE .| EntryFlags.NX) p) p.

Definition map_user_stack_page (pt : PhysAddr) (virt phys : Z) (p : paging) : outcome paging :=
  map_into_page_table pt virt phys
    (EntryFlags.PRESENT .| EntryFlags.WRITABLE .| EntryFlags.USER .| EntryFlags.NX) p.

Definition map_user_stack (pt : PhysAddr) (stack_top stack_phys : Z) (p : paging) : outcome paging :=
  stack_bottom ← usub stack_top USER_STACK_SIZE;
  for_range 0 (Z.shiftl 1 USER_STACK_ORDER) (λ i p,
    o ← umul i PAGE_SIZE;
    v ← uadd stack_bottom o;
    q ← uadd stack_phys o;
    map_user_stack_page pt v q p) p.

(** The last part of [spawn_user] and [spawn_elf]: the trap frame at the top
    of the kernel stack, the control block, the run queue. *)
Definition enter_queue (pid pt kstack_phys code_phys ustack_phys rip rsp : Z) (s : tasks) : outcome (ProcRef * tasks) :=
  kstack_top ← uadd kstack_phys KERNEL_VMA;
  kstack_top ← uadd kstack_top KERNEL_STACK_SIZE;
  trap_frame ← usub kstack_top TRAP_FRAME_SIZE;
  let p := pg s in
  let s := with_pg (mkPaging (kstores trap_frame (tf_words (new_user rip rsp)) (pg_mem p)) (pg_buddy p) (KERNEL_PML4 p)) s in
  krsp ← ProcLayout.align_down trap_frame 16;
  let '(r, s) := new_proc (mkProc pid Ready (mkContext 0 0 0 0 0 0 krsp (user_task_bootstrap A)) pt kstack_phys
    kstack_top UserProc DEFAULT_TIME_SLICE_TICKS None (Some trap_frame) (Some code_phys) (Some ustack_phys)) s in
  Ret (r, push_ready r s).

(** The zeroed code page with the program at its start. *)
Definition load_code (code_phys : Z) (code : bytes) (p : paging (B := B)) : outcome paging :=
  _ ← uadd code_phys KERNEL_VMA;
  Ret (mkPaging (pm_upd code_phys (page_words (page_of code)) (pg_mem p)) (pg_buddy p) (KERNEL_PML4 p)).

Definition spawn_user (code : bytes) (s : tasks) : outcome (ProcRef * tasks) :=
  s ← init s;
  _ ← assert_that (zlen code <=? PAGE_SIZE);
  let '(pid, s) := fetch_pid s in
  user_code_base ← user_code_base pid;
  user_stack_top ← user_stack_top pid;
  '(pt, p) ← create_user_page_table (pg s);
  p ← map_bootdata_identity pt p;
  '(r, p) ← allocate_frames KERNEL_STACK_ORDER p;
  kstack_phys ← expect r;
  '(r, p) ← allocate_frames 0 p;
  code_phys ← expect r;
  '(r, p) ← allocate_frames USER_STACK_ORDER p;
  ustack_phys ← expect r;
  p ← load_code code_phys (match code with [] => [Byte.xeb; Byte.xfe] | _ => code end) p;
  p ← map_into_page_table pt user_code_base code_phys (EntryFlags.PRESENT .| EntryFlags.USER) p;
  p ← map_user_stack pt user_stack_top ustack_phys p;
  enter_queue pid pt kstack_phys code_phys ustack_phys user_code_base user_stack_top (with_pg p s).

(** On [NoMemory] the page table and the frames allocated so far are lost. *)
Definition spawn_elf (image : bytes) (s : tasks) : outcome (Result ProcRef SpawnError * tasks) :=
  s ← init s;
  parsed ← parse image;
  match parsed with
  | Err _ => Ret (Err BadElf, s)
  | Ok parsed =>
      let load := p_load parsed in
      if (PAGE_SIZE <? file_size load) || (PAGE_SIZE <? mem_size load) then Ret (Err ProgramTooLarge, s)
      else
        let '(pid, s) := fetch_pid s in
        user_stack_top ← user_stack_top pid;
        '(pt, p) ← create_user_page_table (pg s);
        p ← map_bootdata_identity pt p;
        '(r, p) ← allocate_frames KERNEL_STACK_ORDER p;
        match r with
        | None => Ret (Err NoMemory, with_pg p s)
        | Some kstack_phys =>
            '(r, p) ← allocate_frames 0 p;
            match r with
            | None => Ret (Err NoMemory, with_pg p s)
            | Some code_phys =>
                '(r, p) ← allocate_frames USER_STACK_ORDER p;
                match r with
                | None => Ret (Err NoMemory, with_pg p s)
                | Some ustack_phys =>
                    rest ← expect (slice_get image (offset load) (zlen image));
                    p ← load_code code_phys (take (Z.to_nat (file_size load)) rest) p;
                    p ← map_into_page_table pt (virt_addr load) code_phys (EntryFlags.PRESENT .| EntryFlags.USER) p;
                    p ← map_user_stack pt user_stack_top ustack_phys p;
                    '(r, s) ← enter_queue pid pt kstack_phys code_phys ustack_phys (p_entry parsed) user_stack_top (with_pg p s);
                    Ret (Ok r, s)
                end
            end
        end
  end.

(** ** Scheduling *)

Definition current_proc (s : tasks) : outcome ProcRef := expect (CURRENT s).

(** [__switch_context]: the callee-saved registers and the stack pointer go
    to the old context, together with the address behind the jump. *)
Definition switch_context (old next : ProcRef) (s : tasks) : outcome tasks :=
  let c := cpu s in
  let s := upd_proc old (set_context (mkContext (c_r15 c) (c_r14 c) (c_r13 c) (c_r12 c) (c_rbx c) (c_rbp c) (c_rsp c) (switch_return A))) s in
  p ← expect (procs s !! next);
  Ret (with_cpu (context p) s).

(** [schedule] up to the switch.  The result tells whether it has switched;
    [from] is who called it. *)
Definition schedule (from : caller) (s : tasks) : outcome (bool * tasks) :=
  let ie := IF s in
  let s := disable_interrupts s in
  match READY_QUEUE s with
  | [] => Ret (false, if ie then enable_interrupts s else s)
  | next :: q =>
      let s := with_queue q s in
      old ← current_proc s;
      if decide (old = next) then Ret (false, if ie then enable_interrupts s else s)
      else
        po ← expect (procs s !! old);
        let s := if decide (state po = Running)
          then let s := upd_proc old (set_state Ready) s in with_queue (READY_QUEUE s ++ [old]) s
          else s in
        let s := upd_proc next (set_state Running) s in
        let s := upd_proc next (set_ticks DEFAULT_TIME_SLICE_TICKS) s in
        let s := write_current (Some next) s in
        pn ← expect (procs s !! next);
        let s := set_kernel_stack (kstack_top pn) s in
        let s := load_cr3 (switch_cr3 (pagetable pn)) s in
        let s := with_pendings (<[old := InSchedule from ie]> (pendings s)) s in
        s ← switch_context old next s;
        Ret (true, s)
  end.

(** What the process that has the processor after a switch does first: it
    starts ([kernel_task_bootstrap], [user_task_bootstrap]), or its activation
    of [schedule] ends, and with it the timer interrupt it was called from,
    whose [iretq] sets the interrupt flag the interrupted code had. *)
Definition RFLAGS_IF : Z := 9.
Definition resume (s : tasks) : outcome tasks :=
  r ← current_proc s;
  p ← expect (procs s !! r);
  if c_rip (cpu s) =? switch_return A then
    w ← expect (pendings s !! r);
    match w with
    | NotStarted => Panic
    | InSchedule from ie =>
        let s := if ie then enable_interrupts s else s in
        Ret (match from with FromIrq => with_if true s | FromCall => s end)
    end
  else if c_rip (cpu s) =? kernel_task_bootstrap A then
    _ ← expect (entry p); Ret (enable_interrupts s)
  else
    tf ← expect (trap_frame p);
    rflags ← expect (kload (tf + 136) (pg_mem (pg s)));
    Ret (with_if (Z.testbit rflags RFLAGS_IF) s).

Definition run_schedule (from : caller) (s : tasks) : outcome (bool * tasks) :=
  '(switched, s) ← schedule from s;
  if switched : bool then s ← resume s; Ret (true, s) else Ret (false, s).

Definition yield_now (s : tasks) : outcome tasks :=
  '(_, s) ← run_schedule FromCall s; Ret s.

(** The process stays in the final loop when nobody else is ready. *)
Definition exit_current (_status : Z) (s : tasks) : outcome tasks :=
  let s := disable_interrupts s in
  let s := match CURRENT s with Some r => upd_proc r (set_state Exited) s | None => s end in
  '(switched, s) ← run_schedule FromCall s;
  Ret (if switched : bool then s else enable_interrupts s).

Definition on_timer_tick (s : tasks) : outcome (bool * tasks) :=
  match CURRENT s with
  | None => Ret (false, s)
  | Some r =>
      p ← expect (procs s !! r);
      let '(remaining, over) := consume_tick (ticks_left p) DEFAULT_TIME_SLICE_TICKS in
      let s := upd_proc r (set_ticks remaining) s in
      if over then run_schedule FromIrq s else Ret (false, s)
  end.

(** The timer interrupt as the processor takes it: only with the flag set,
    which is clear in the handler and set again by its [iretq]. *)
Definition timer_interrupt (s : tasks) : outcome tasks :=
  if IF s then
    '(switched, s) ← on_timer_tick (with_if false s);
    Ret (if switched : bool then s else with_if true s)
  else Ret s.
End proc.
