(* ===== verification/SpaceBuild.v ===== *)
(** * Building an address space step by step

    Process creation alternates between the page tables, the page allocator
    and plain memory.  Each step is described by its effect on one address
    space under construction, on the others, on free frames and on frames
    that hold data. *)

From S2P Require Import Prelude Bytes Buddy Address Paging PagingInv PagingMap PagingPlan PagingCorrect ProcLayout Elf Proc.
Local Open Scope Z_scope.
Local Open Scope paging_scope.

Section build.
Context `{FS : FrameSource B, FL : !FrameLaws B}.
Implicit Types (p : paging (B := B)).

(** A frame in use that is no table of the address spaces [rs]. *)
Definition data_page (rs : list Z) p (x : Z) : Prop :=
  (∀ r q, r ∈ rs → (length q ≤ 3)%nat → reach (pg_mem p) r q ≠ Some x) ∧ ¬ pg_free p (x / PAGE_SIZE).

(** ** Room *)

(** At least [n] free aligned groups of four frames in early memory. *)
Definition roomy (b : B) (n : nat) : Prop :=
  ∃ l : list Z, NoDup l ∧ length l = n ∧ ∀ h, h ∈ l →
    (4 | h) ∧ (∀ j, h ≤ j < h + 4 → fr_free b j) ∧ (h + 4) * PAGE_SIZE ≤ EARLY_PAGE_TABLE_LIMIT.
Definition room p (n : nat) : Prop := ∃ b, pg_buddy p = Some b ∧ roomy b n.

Lemma roomy_le b n k : (n ≤ k)%nat → roomy b k → roomy b n.
Proof.
  intros Hle (l & Hnd & Hl & Hfr). exists (take n l). split_and!.
  - rewrite <- (take_drop n l) in Hnd. by apply NoDup_app in Hnd as [? _].
  - rewrite length_take. lia.
  - intros j Hj. apply Hfr. rewrite <- (take_drop n l). apply elem_of_app. by left.
Qed.
Lemma room_le p n k : (n ≤ k)%nat → room p k → room p n.
Proof. intros Hle (b & Hb & Hr). exists b. split; [done|]. by eapply roomy_le. Qed.

Lemma roomy_available b n : roomy b n → available b n.
Proof.
  intros (l & Hnd & Hl & Hfr). exists l. split_and!; [done|done|]. intros j Hj. destruct (Hfr j Hj) as (_ & Hf & Hle).
  split; [apply Hf; lia|]. unfold PAGE_SIZE in *. lia.
Qed.

(** A block of at most four frames lies in one group. *)
Lemma block_one_group a order h h' j j' :
  0 ≤ order ≤ 2 → (2 ^ order * PAGE_SIZE | a) → (4 | h) → (4 | h') →
  block_frame a order j → block_frame a order j' → h ≤ j < h + 4 → h' ≤ j' < h' + 4 → h = h'.
Proof.
  unfold block_frame. intros Ho [c Ha] [x ->] [y ->]. set (f := a / PAGE_SIZE).
  assert (f = c * 2 ^ order) as ->.
  { unfold f. rewrite Ha, Z.mul_assoc, Z.div_mul by done. done. }
  assert (order = 0 ∨ order = 1 ∨ order = 2) as [->|[->| ->]] by lia; change (2 ^ 0) with 1; change (2 ^ 1) with 2; change (2 ^ 2) with 4; lia.
Qed.

Lemma roomy_granted b b' a order n :
  0 ≤ order ≤ 2 → granted fr_free b b' a order → roomy b (S n) → roomy b' n.
Proof.
  intros Ho [_ _ Hal _ Hnow] (l & Hnd & Hl & Hfr).
  assert (∀ k, NoDup k → length k = n → k ⊆ l → (∀ h j, h ∈ k → h ≤ j < h + 4 → ¬ block_frame a order j) → roomy b' n) as Hgo.
  { intros k Hk Hlk Hsub Hout. exists k. split_and!; [done|done|]. intros h Hh. destruct (Hfr h (Hsub h Hh)) as (H4 & Hf & Hle).
    split_and!; [done| |done]. intros j Hj. apply Hnow. split; [by apply Hf|]. by apply (Hout h). }
  assert (0 < 2 ^ order) as Hpos by (apply Z.pow_pos_nonneg; lia). set (f := a / PAGE_SIZE).
  destruct (decide (Exists (λ h, h < f + 2 ^ order ∧ f < h + 4) l)) as [He|Hn].
  - apply Exists_exists in He as (h & Hin & Hov). assert (∃ j, h ≤ j < h + 4 ∧ block_frame a order j) as (j & Hj & Hbj).
    { exists (Z.max h f). unfold block_frame. fold f. lia. }
    apply list_elem_of_split in Hin as (l1 & l2 & ->).
    rewrite length_app in Hl. simpl in Hl. rewrite <- Permutation_middle in Hnd. apply NoDup_cons in Hnd as [Hh Hnd].
    apply (Hgo (l1 ++ l2)); [done|rewrite length_app; lia|set_solver|]. intros h' j' Hh' Hj' Hbj'.
    assert (h = h') as ->; [|done]. destruct (Hfr h ltac:(set_solver)) as (H4 & _). destruct (Hfr h' ltac:(set_solver)) as (H4' & _).
    by eapply (block_one_group a order h h' j j').
  - destruct l as [|y l]; [done|]. apply NoDup_cons in Hnd as [_ Hnd]. simpl in Hl.
    apply (Hgo l); [done|lia|set_solver|]. intros h j Hh Hj Hb. apply Hn, Exists_exists. exists h. unfold block_frame in Hb. fold f in Hb. split; [by right|lia].
Qed.
Lemma roomy_takes k b b' n : takes k b b' → roomy b (n + k) → roomy b' n.
Proof.
  induction 1 as [k b|k b b1 b2 a Hg Ht IH]; [apply roomy_le; lia|].
  rewrite Nat.add_succ_r. intros Hav. by eapply IH, roomy_granted.
Qed.
Lemma room_spare p n : room p n → spare p n.
Proof. intros (b & Hb & Hr). exists b. split; [done|]. by apply roomy_available. Qed.

(** ** What every step keeps *)

Record grows (rs : list Z) p p' : Prop := {
  gw_ok : paging_ok p' rs;
  gw_kernel : KERNEL_PML4 p' = KERNEL_PML4 p;
  gw_free : ∀ j, pg_free p' j → pg_free p j;
  gw_data : ∀ x, data_page rs p x → pg_mem p' x = pg_mem p x ∧ data_page rs p' x;
}.
Lemma grows_refl rs p : paging_ok p rs → grows rs p p.
Proof. intros Hp. split; auto. Qed.
Lemma grows_trans rs p1 p2 p3 : grows rs p1 p2 → grows rs p2 p3 → grows rs p1 p3.
Proof.
  intros [_ K1 F1 D1] [H2 K2 F2 D2]. split; [done|congruence|auto|]. intros x [E1 X1]%D1. destruct (D2 x X1) as [E2 X2]. by rewrite E2, E1.
Qed.

Lemma data_frame_page rs p b x : pg_buddy p = Some b → data_page rs p x ↔ data_frame rs (pg_mem p) b x.
Proof.
  intros Hb. unfold data_page, data_frame, pg_free. rewrite Hb. split; intros [H1 H2]; split; try done.
  - intros Hf. apply H2. eauto.
  - intros (b0 & [= <-] & Hf). done.
Qed.

(** Fewer address spaces are easier to keep. *)
Lemma spaces_subset m free rs rs' : rs' ⊆ rs → spaces m free rs → spaces m free rs'.
Proof.
  intros Hsub [H1 H2 H3 H4 H5]. split; [done| | | |].
  - intros r1 r2 p q t Hr1 Hr2. apply H2; by apply Hsub.
  - intros r p t Hr. apply H3; by apply Hsub.
  - intros r p i e Hr. apply H4; by apply Hsub.
  - intros r p i e Hr. apply H5; by apply Hsub.
Qed.
Lemma paging_ok_subset p rs rs' : rs' ⊆ rs → paging_ok p rs → paging_ok p rs'.
Proof. intros Hsub (b & Hb & Hok & Hsp). exists b. split_and!; [done|done|]. by eapply spaces_subset. Qed.

(** ** Steps *)

(** A new root. *)
Lemma new_space_grows rs p p' u :
  paging_ok p rs → KERNEL_PML4 p ∈ rs → new_space rs p p' u →
  paging_ok p' (u :: rs) ∧ (∀ j, pg_free p' j → pg_free p j) ∧
  (∀ x, data_page rs p x → pg_mem p' x = pg_mem p x ∧ data_page (u :: rs) p' x) ∧ (∀ n, room p (S n) → room p' n).
Proof.
  intros Hp Hk [Hok _ Hu Htk Hfree Hwas _ _ Hr Hold Hdata]. split_and!; [done|intros j Hj; by apply Hfree| |].
  - intros x [Hnt Hnf]. assert (x ≠ u) as Hxu by (intros ->; done). split; [by apply Hdata|]. split; [|by intros [? _]%Hfree].
    intros r q [->|Hin]%elem_of_cons Hq; [|rewrite Hold by done; by apply Hnt].
    destruct q as [|i q]; [by intros [= ->]|]. simpl in Hq. rewrite Hr by lia. destruct (256 <=? i); [apply Hnt; [done|simpl; lia]|done].
  - intros n (b & Hb & Hroom). destruct Htk as (b0 & b' & Hb0 & Hb' & Ht). rewrite Hb in Hb0. injection Hb0 as <-.
    exists b'. split; [done|]. eapply (roomy_takes 1); [done|]. by rewrite Nat.add_1_r.
Qed.

(** A sequence of mappings. *)
Definition map_many (r : Z) (l : list req) p : outcome paging :=
  for_each l (λ q p, map_into_page_table r (rq_virt q) (rq_phys q) (rq_flags q) p) p.

Lemma map_into_map r v phys flags m b k :
  r < 2 ^ 47 → map_into_page_table r v phys flags (mkPaging m (Some b) k) =
    '(m', b') ← Mapper.map r v phys flags m b; Ret (mkPaging m' (Some b') k).
Proof.
  intros Hr. unfold map_into_page_table, Mapper.new. cbn [pg_buddy expect pg_mem KERNEL_PML4].
  by rewrite !Ret_bind, phys_to_virt_ok.
Qed.
Lemma map_many_all r l m b k :
  r < 2 ^ 47 → map_many r l (mkPaging m (Some b) k) = '(m', b') ← map_all r l (m, b); Ret (mkPaging m' (Some b') k).
Proof.
  intros Hr. unfold map_many, map_all. revert m b. induction l as [|q l IH]; intros m b; [done|]. cbn [for_each].
  rewrite map_into_map by done. destruct (Mapper.map r (rq_virt q) (rq_phys q) (rq_flags q) m b) as [[m1 b1]| |]; [|done|done]. rewrite !Ret_bind. apply IH.
Qed.

Record remapped (rs : list Z) p p' (r : Z) (l : list req) : Prop := {
  rm_grows : grows rs p p';
  rm_leaf : ∀ w, leaf (pg_mem p') r w = planned l w (leaf (pg_mem p) r w);
  rm_other : ∀ r2 w, r2 ∈ rs → r2 ≠ r → leaf (pg_mem p') r2 w = leaf (pg_mem p) r2 w;
  rm_room : ∀ n, room p (n + missing (pg_mem p) r l) → room p' n;
  rm_mono : ∀ q x, (length q ≤ 3)%nat → reach (pg_mem p) r q = Some x → reach (pg_mem p') r q = Some x;
}.

Lemma map_many_spec total rs p r l :
  paging_ok p rs → r ∈ rs → Forall (λ q, Mapper.pml4_idx (rq_virt q) < 256) l →
  (total = true → room p (missing (pg_mem p) r l)) →
  ends total (map_many r l p) (λ p', remapped rs p p' r l).
Proof.
  intros (b & Hb & Hok & Hsp) Hr Hlow Hroom. destruct p as [m ob k]. cbn in Hb. subst ob. cbn [pg_mem] in *.
  destruct (sp_table _ _ _ Hsp r [] r Hr (Nat.le_0_l _) eq_refl) as [(_ & _ & Hmax) _]. rewrite map_many_all by done.
  eapply ends_bind; [apply (map_all_spec total rs r l m b Hsp Hok Hr)|].
  { eapply Forall_impl; [exact Hlow|]. intros q Hq _. exact Hq. }
  { intros Ht. destruct (Hroom Ht) as (b0 & [= <-] & Hr0). by apply roomy_available. }
  intros [m' b'] [Aok Asp Aleaf Aother Amono Atk Afree Adata]. cbn [ends]. split; cbn [pg_mem].
  - split; [by exists b'|done| |].
    + intros j (? & [= <-] & Hj). exists b. auto.
    + intros x Hx%(data_frame_page _ _ b); [|done]. destruct (Adata x Hx) as [E X]. split; [done|]. by apply (data_frame_page _ _ b').
  - done.
  - intros r2 w Hr2 Hne. apply Aother; [done|done|]. by apply Forall_forall.
  - intros n (b0 & [= <-] & Hn). exists b'. split; [done|]. by eapply roomy_takes.
  - intros q x. by apply Amono.
Qed.

(** Frames from the allocator. *)
Record gave (rs : list Z) p p' (a order : Z) : Prop := {
  gv_grows : grows rs p p';
  gv_mem : pg_mem p' = pg_mem p;
  gv_align : (2 ^ order * PAGE_SIZE | a);
  gv_range : 0 ≤ a ∧ a + 2 ^ order * PAGE_SIZE ≤ 2 ^ 44;
  gv_block : ∀ j, block_frame a order j → pg_free p j ∧ ¬ pg_free p' j ∧ data_page rs p' (j * PAGE_SIZE);
  gv_room : ∀ n, room p (S n) → room p' n;
}.

Lemma allocate_frames_spec rs p order :
  paging_ok p rs → 0 ≤ order ≤ 2 →
  ∃ r p', allocate_frames order p = Ret (r, p') ∧
    match r with Some a => gave rs p p' a order | None => p' = p ∧ ¬ room p 1 end.
Proof.
  intros (b & Hb & Hok & Hsp) Ho. destruct p as [m ob k]. cbn in Hb. subst ob. unfold allocate_frames. cbn [pg_buddy pg_mem expect KERNEL_PML4].
  destruct (fr_alloc b order Hok ltac:(lia)) as (r & b' & Heq & Hok' & Hr). rewrite Ret_bind, Heq, Ret_bind.
  exists r, (mkPaging m (Some b') k). split; [done|]. destruct r as [a|].
  - pose proof Hr as [Hpos Hmax Hal Hwas Hnow].
    assert (∀ x, data_page rs (mkPaging m (Some b) k) x → data_page rs (mkPaging m (Some b') k) x) as Hkeep.
    { intros x [Hnt Hnf]. split; [done|]. intros (? & [= <-] & Hf). apply Hnf. exists b. split; [done|]. by apply Hnow. }
    assert (grows rs (mkPaging m (Some b) k) (mkPaging m (Some b') k)) as Hg.
    { split; [|done| |by auto].
      - exists b'. split_and!; [done|done|]. destruct Hsp as [S1 S2 S3 S4 S5]. split; [done|done| |done|done].
        intros r0 q t Hr0 Hq Ht. destruct (S3 r0 q t Hr0 Hq Ht) as [? Hn]. split; [done|]. by intros [? _]%Hnow.
      - intros j (? & [= <-] & Hf). exists b. split; [done|]. by apply Hnow. }
    split; [done|done|done|done| |].
    + intros j Hj. split; [exists b; auto|]. split; [intros (? & [= <-] & Hf); by apply Hnow in Hf as [_ ?]|]. split.
      * intros r0 q Hr0 Hq Ht. destruct (sp_table _ _ _ Hsp r0 q _ Hr0 Hq Ht) as [_ Hn]. apply Hn. rewrite Z.div_mul by done. auto.
      * intros (? & [= <-] & Hf). rewrite Z.div_mul in Hf by done. by apply Hnow in Hf as [_ ?].
    + intros n (? & [= <-] & Hn). exists b'. split; [done|]. by eapply roomy_granted.
  - destruct Hr as [-> Hnone]. split; [done|]. intros (? & [= <-] & ([|h l] & _ & Hl & Hfr)); [done|].
    destruct (Hfr h ltac:(by left)) as ([c Hc] & Hf & _).
    assert (order = 0 ∨ order = 1 ∨ order = 2) as Ho' by lia.
    apply (Hnone ltac:(unfold MAX_ORDER; lia) h).
    + destruct Ho' as [->|[->| ->]]; [apply Z.divide_1_l|exists (2 * c); lia|by exists c].
    + intros j Hj. apply Hf. destruct Ho' as [->|[->| ->]]; simpl in Hj; lia.
Qed.

(** [allocate(order).expect(..)]. *)
Lemma expect_frames total rs p order :
  paging_ok p rs → 0 ≤ order ≤ 2 → (total = true → room p 1) →
  ends total ('(r, p') ← allocate_frames order p; a ← expect r; Ret (a, p')) (λ '(a, p'), gave rs p p' a order).
Proof.
  intros Hp Ho Hroom. destruct (allocate_frames_spec rs p order Hp Ho) as (r & p' & -> & Hr). rewrite Ret_bind.
  destruct r as [a|]; [exact Hr|]. destruct Hr as [_ Hr]. simpl. destruct total; [|done]. exfalso. auto.
Qed.

(** Contents of a data frame change. *)
Definition write_frame (x : Z) (tb : list Z) p : paging := mkPaging (pm_upd x tb (pg_mem p)) (pg_buddy p) (KERNEL_PML4 p).

Lemma data_write_entries rs p x tb r q i :
  data_page rs p x → r ∈ rs → (length q ≤ 3)%nat →
  entry_at (pm_upd x tb (pg_mem p)) r q i = entry_at (pg_mem p) r q i ∧ reach (pm_upd x tb (pg_mem p)) r q = reach (pg_mem p) r q.
Proof.
  intros [Hnt _] Hr. revert i. induction q as [|j q IH] using rev_ind; intros i Hq.
  - split; [|done]. unfold entry_at. simpl. rewrite fetch_upd, decide_False; [done|]. intros ->. by apply (Hnt x []); [|apply Nat.le_0_l|].
  - rewrite length_app in Hq. simpl in Hq. assert (reach (pm_upd x tb (pg_mem p)) r (q ++ [j]) = reach (pg_mem p) r (q ++ [j])) as E.
    { rewrite !reach_snoc. by rewrite (proj1 (IH j ltac:(lia))). }
    split; [|done]. unfold entry_at. rewrite E. destruct (reach (pg_mem p) r (q ++ [j])) as [t|] eqn:Et; simpl; [|done].
    rewrite fetch_upd, decide_False; [done|]. intros ->. by apply (Hnt r (q ++ [j])); [|rewrite length_app; simpl; lia|].
Qed.

Record wrote (rs : list Z) p p' (x : Z) : Prop := {
  wr_ok : paging_ok p' rs;
  wr_kernel : KERNEL_PML4 p' = KERNEL_PML4 p;
  wr_free : ∀ j, pg_free p' j ↔ pg_free p j;
  wr_leaf : ∀ r v, r ∈ rs → leaf (pg_mem p') r v = leaf (pg_mem p) r v;
  wr_reach : ∀ r q, r ∈ rs → (length q ≤ 3)%nat → reach (pg_mem p') r q = reach (pg_mem p) r q;
  wr_data : ∀ y, data_page rs p y → data_page rs p' y;
  wr_mem : ∀ y, y ≠ x → pg_mem p' y = pg_mem p y;
  wr_room : ∀ n, room p n → room p' n;
}.

Lemma write_frame_spec rs p x tb :
  paging_ok p rs → data_page rs p x → length tb = 512%nat → wrote rs p (write_frame x tb p) x.
Proof.
  intros (b & Hb & Hok & Hsp) Hx Hl. pose proof (λ r q i, data_write_entries rs p x tb r q i Hx) as He.
  assert (∀ r q, r ∈ rs → (length q ≤ 3)%nat → reach (pm_upd x tb (pg_mem p)) r q = reach (pg_mem p) r q) as Hreach.
  { intros r q Hr Hq. by apply (He r q 0). }
  assert (∀ r q i, r ∈ rs → (length q ≤ 3)%nat → entry_at (pm_upd x tb (pg_mem p)) r q i = entry_at (pg_mem p) r q i) as Hent.
  { intros r q i Hr Hq. by apply (He r q i). }
  split; cbn [write_frame pg_mem KERNEL_PML4 pg_buddy]; [|done|done|by intros; apply Hent|done| | |].
  - exists b. split_and!; [done|done|]. cbn [pg_mem write_frame]. destruct Hsp as [S1 S2 S3 S4 S5]. split.
    + intros t. unfold pm_upd. by case_decide.
    + intros r1 r2 q1 q2 t Hr1 Hr2 Hq1 Hq2. rewrite !Hreach by done. by apply S2.
    + intros r q t Hr Hq. rewrite Hreach by done. by apply S3.
    + intros r q i e Hr Hq. rewrite Hent by (try done; lia). by apply S4.
    + intros r q i e Hr Hq. rewrite Hent by (try done; lia). intros H1 H2 q' j s f Eq. rewrite Hent; [by apply (S5 r q i e Hr Hq H1 H2 q' j s)|done|].
      rewrite Eq, length_app in Hq. simpl in Hq. lia.
  - intros y [Hnt Hnf]. split; [|done]. intros r q Hr Hq. cbn [pg_mem]. rewrite Hreach by done. by apply Hnt.
  - intros y Hy. unfold pm_upd. by rewrite decide_False.
  - intros n (b0 & Hb0 & Hn). by exists b0.
Qed.
End build.

(** ** Pages of bytes *)

Lemma length_page_words n l : length l = (8 * n)%nat → length (page_words l) = n.
Proof.
  revert l. induction n as [|n IH]; intros l Hl; [by destruct l|].
  do 8 (destruct l as [|? l]; [simpl in Hl; lia|]). simpl. f_equal. apply IH. simpl in Hl. lia.
Qed.
Lemma length_page_of code : zlen code ≤ PAGE_SIZE → length (page_of code) = 4096%nat.
Proof. unfold zlen, PAGE_SIZE. intros H. unfold page_of. rewrite length_app, length_replicate. change (Z.to_nat PAGE_SIZE) with 4096%nat. lia. Qed.

(** Byte [o] of the physical memory. *)
Definition read_byte (m : pmem) (o : Z) : option Byte.byte :=
  w ← m (o - o mod PAGE_SIZE) !! Z.to_nat (o mod PAGE_SIZE / 8); to_le 8 w !! Z.to_nat (o mod 8).

Lemma page_words_lookup l n k i :
  length l = (8 * n)%nat → (k < n)%nat → (i < 8)%nat →
  (w ← page_words l !! k; to_le 8 w !! i) = l !! (8 * k + i)%nat.
Proof.
  revert l k. induction n as [|n IH]; intros l k Hl Hk Hi; [lia|].
  destruct l as [|b0 [|b1 [|b2 [|b3 [|b4 [|b5 [|b6 [|b7 l]]]]]]]]; try (simpl in Hl; lia).
  destruct k as [|k].
  - change (page_words (b0 :: b1 :: b2 :: b3 :: b4 :: b5 :: b6 :: b7 :: l) !! 0%nat) with (Some (from_le [b0; b1; b2; b3; b4; b5; b6; b7])).
    cbn [mbind option_bind]. change 8%nat with (length [b0; b1; b2; b3; b4; b5; b6; b7]) at 1. rewrite to_from_le.
    do 8 (destruct i as [|i]; [done|]). lia.
  - replace (8 * S k + i)%nat with (8 + (8 * k + i))%nat by lia.
    change ((b0 :: b1 :: b2 :: b3 :: b4 :: b5 :: b6 :: b7 :: l) !! (8 + (8 * k + i))%nat) with (l !! (8 * k + i)%nat).
    rewrite <- (IH l k); [done|simpl in Hl; lia|lia|done].
Qed.

(** A loaded page reads as its bytes. *)
Lemma read_page m x l i :
  (PAGE_SIZE | x) → length l = 4096%nat → m x = page_words l → 0 ≤ i < PAGE_SIZE → read_byte m (x + i) = l !! Z.to_nat i.
Proof.
  intros [c ->] Hl Hm Hi. unfold read_byte. assert ((c * PAGE_SIZE + i) mod PAGE_SIZE = i) as E.
  { rewrite Z.add_comm, Z.mod_add by done. by apply Z.mod_small. }
  rewrite E. replace (c * PAGE_SIZE + i - i) with (c * PAGE_SIZE) by lia. rewrite Hm.
  assert ((c * PAGE_SIZE + i) mod 8 = i mod 8) as ->.
  { change PAGE_SIZE with (512 * 8). rewrite Z.mul_assoc, Z.add_comm. by apply Z.mod_add. }
  pose proof (Z.div_mod i 8 ltac:(lia)) as Hdm. pose proof (Z.mod_pos_bound i 8 ltac:(lia)). unfold PAGE_SIZE in Hi.
  rewrite (page_words_lookup l 512); [f_equal; lia|done|..].
  - assert (i / 8 < 512) by (apply Z.div_lt_upper_bound; lia). assert (0 ≤ i / 8) by (apply Z.div_pos; lia). lia.
  - lia.
Qed.

(** ** Words on a kernel stack *)

Lemma kstore_page m x o w :
  (PAGE_SIZE | x) → (o < 512)%nat → kstore (x + KERNEL_VMA + 8 * Z.of_nat o) w m = pm_upd x (<[o := w]> (m x)) m.
Proof.
  intros Hx Ho. unfold kstore. cbv zeta. replace (x + KERNEL_VMA + 8 * Z.of_nat o - KERNEL_VMA) with (x + 8 * Z.of_nat o) by lia.
  destruct Hx as [c ->]. assert ((c * PAGE_SIZE + 8 * Z.of_nat o) mod PAGE_SIZE = 8 * Z.of_nat o) as ->.
  { rewrite Z.add_comm, Z.mod_add by done. apply Z.mod_small. unfold PAGE_SIZE. lia. }
  replace (c * PAGE_SIZE + 8 * Z.of_nat o - 8 * Z.of_nat o) with (c * PAGE_SIZE) by lia.
  by rewrite (Z.mul_comm 8), Z.div_mul, Nat2Z.id by lia.
Qed.
Lemma kstores_page m x o ws :
  (PAGE_SIZE | x) → (o + length ws ≤ 512)%nat →
  ∀ y, kstores (x + KERNEL_VMA + 8 * Z.of_nat o) ws m y = if decide (y = x) then list_inserts o ws (m x) else m y.
Proof.
  intros Hx. revert o m. induction ws as [|w ws IH]; intros o m Ho y; [by case_decide; subst|]. simpl in Ho. cbn [kstores list_inserts].
  replace (x + KERNEL_VMA + 8 * Z.of_nat o + 8) with (x + KERNEL_VMA + 8 * Z.of_nat (S o)) by lia.
  rewrite IH, kstore_page by (done || lia).
  unfold pm_upd. destruct (decide (y = x)) as [->|Hy]; [|by rewrite ?decide_False].
  rewrite decide_True by done. symmetry. apply list_insert_inserts_lt. lia.
Qed.
Lemma kload_page m x o : (PAGE_SIZE | x) → (o < 512)%nat → kload (x + KERNEL_VMA + 8 * Z.of_nat o) m = m x !! o.
Proof.
  intros [c ->] Ho. unfold kload. cbv zeta. replace (c * PAGE_SIZE + KERNEL_VMA + 8 * Z.of_nat o - KERNEL_VMA) with (c * PAGE_SIZE + 8 * Z.of_nat o) by lia.
  assert ((c * PAGE_SIZE + 8 * Z.of_nat o) mod PAGE_SIZE = 8 * Z.of_nat o) as ->.
  { rewrite Z.add_comm, Z.mod_add by done. apply Z.mod_small. unfold PAGE_SIZE. lia. }
  replace (c * PAGE_SIZE + 8 * Z.of_nat o - 8 * Z.of_nat o) with (c * PAGE_SIZE) by lia.
  by rewrite (Z.mul_comm 8), Z.div_mul, Nat2Z.id by lia.
Qed.

Section stacks.
Context `{FS : FrameSource B, FL : !FrameLaws B}.
Implicit Types (p : paging (B := B)).

Lemma wrote_trans rs p1 p2 p3 x : wrote rs p1 p2 x → wrote rs p2 p3 x → wrote rs p1 p3 x.
Proof.
  intros [A1 A2 A3 A4 A5 A6 A7 A8] [B1 B2 B3 B4 B5 B6 B7 B8]. split; [done|congruence| | | |auto| |auto].
  - intros j. by rewrite B3.
  - intros r v Hr. by rewrite B4, A4.
  - intros r q Hr Hq. by rewrite B5, A5.
  - intros y Hy. by rewrite B7, A7.
Qed.
Lemma wrote_refl rs p x : paging_ok p rs → wrote rs p p x.
Proof. by split. Qed.

Lemma kstores_wrote rs p x o ws :
  paging_ok p rs → data_page rs p x → (PAGE_SIZE | x) → (o + length ws ≤ 512)%nat →
  wrote rs p (mkPaging (kstores (x + KERNEL_VMA + 8 * Z.of_nat o) ws (pg_mem p)) (pg_buddy p) (KERNEL_PML4 p)) x.
Proof.
  intros Hok Hx Hd. revert o p Hok Hx. induction ws as [|w ws IH]; intros o p Hok Hx Ho; [destruct p; by apply wrote_refl|].
  simpl in Ho. cbn [kstores]. rewrite kstore_page by (done || lia).
  replace (x + KERNEL_VMA + 8 * Z.of_nat o + 8) with (x + KERNEL_VMA + 8 * Z.of_nat (S o)) by lia.
  assert (wrote rs p (write_frame x (<[o := w]> (pg_mem p x)) p) x) as Hw.
  { apply write_frame_spec; [done|done|]. rewrite length_insert. destruct Hok as (b & _ & _ & Hsp). apply (sp_len _ _ _ Hsp). }
  eapply wrote_trans; [exact Hw|]. apply (IH (S o) (write_frame x (<[o := w]> (pg_mem p x)) p)); [apply Hw|by apply Hw|lia].
Qed.
End stacks.
