(* ===== verification/Spawn.v ===== *)
(** * Creating processes

    The address space of a new user process, its frames and their contents,
    for [spawn_user] and [spawn_elf]. *)

From S2P Require Import Prelude Bytes Buddy Address Paging PagingInv PagingMap PagingPlan PagingCorrect PagingInit ProcLayout Elf Proc SpaceBuild.
Local Open Scope Z_scope.
Local Open Scope paging_scope.

Section spawn.
Context `{FS : FrameSource B, FL : !FrameLaws B}.
Context (A : addresses) (Hboot : low_range (bootdata A)).
Implicit Types (p : paging (B := B)).

(** ** Plans *)

Definition CODE_FLAGS : Z := EntryFlags.PRESENT .| EntryFlags.USER.
Definition STACK_FLAGS : Z := EntryFlags.PRESENT .| EntryFlags.WRITABLE .| EntryFlags.USER .| EntryFlags.NX.

Definition boot_plan : list req := plan_identity (bootdata A).1 (bootdata A).2 RW_NX.
Definition stack_plan (top phys : Z) : list req :=
  [mkReq (top - USER_STACK_SIZE) phys STACK_FLAGS;
   mkReq (top - USER_STACK_SIZE + PAGE_SIZE) (phys + PAGE_SIZE) STACK_FLAGS].
Definition user_plan (v c top u : Z) : list req := boot_plan ++ [mkReq v c CODE_FLAGS] ++ stack_plan top u.

Lemma map_bootdata_plan pt p : map_bootdata_identity A pt p = map_many pt boot_plan p.
Proof.
  destruct Hboot as [H1 H2]. unfold map_bootdata_identity, ProcLayout.align_down. unfold PAGE_SIZE in *.
  rewrite usub_ok, Ret_bind by lia. change (4096 - 1) with (2 ^ 12 - 1). rewrite land_align, Ret_bind by (unfold usize_max; lia).
  rewrite uadd_ok, Ret_bind by (unfold usize_max; lia). rewrite usub_ok, Ret_bind by lia. cbv zeta.
  rewrite land_align by (unfold usize_max; lia). unfold map_many, boot_plan, plan_identity. change (2 ^ 12) with PAGE_SIZE.
  replace ((bootdata A).2 + 4096 - 1) with ((bootdata A).2 + 4095) by lia.
  generalize (pages_of ((bootdata A).1 - (bootdata A).1 mod PAGE_SIZE) ((bootdata A).2 + 4095 - ((bootdata A).2 + 4095) mod PAGE_SIZE)).
  intros l. revert p. induction l as [|x l IH]; intros p; [done|]. rewrite fmap_cons. cbn [for_each rq_virt rq_phys rq_flags].
  fold RW_NX. destruct (map_into_page_table pt x x RW_NX p); [|done|done]. rewrite !Ret_bind. apply IH.
Qed.
Lemma map_user_stack_plan pt top u p :
  USER_STACK_SIZE ≤ top → top < 2 ^ 63 → u < 2 ^ 63 → map_user_stack pt top u p = map_many pt (stack_plan top u) p.
Proof.
  intros H1 H2 H3. unfold map_user_stack. rewrite usub_ok, Ret_bind by done. unfold for_range.
  change (seqZ 0 (Z.shiftl 1 USER_STACK_ORDER - 0)) with [0; 1]. cbn [for_each]. change USER_STACK_SIZE with 8192 in *.
  rewrite !umul_ok, !Ret_bind by (unfold usize_max, PAGE_SIZE; lia). rewrite !uadd_ok, !Ret_bind by (unfold usize_max, PAGE_SIZE; lia).
  unfold map_many, stack_plan. cbn [for_each rq_virt rq_phys rq_flags]. unfold map_user_stack_page. fold STACK_FLAGS.
  rewrite !Z.mul_0_l, !Z.mul_1_l, !Z.add_0_r. change USER_STACK_SIZE with 8192.
  destruct (map_into_page_table pt (top - 8192) u STACK_FLAGS p) as [p1| |]; [|done|done].
  rewrite !Ret_bind, !uadd_ok by (unfold usize_max, PAGE_SIZE; lia). by rewrite !Ret_bind.
Qed.

(** ** Stages *)

(** A root with the boot data mapped. *)
Record started (rs : list Z) p p' (u : Z) : Prop := {
  st_ok : paging_ok p' (u :: rs);
  st_kernel : KERNEL_PML4 p' = KERNEL_PML4 p;
  st_fresh : u ∉ rs;
  st_free : ∀ j, pg_free p' j → pg_free p j;
  st_data : ∀ x, data_page rs p x → pg_mem p' x = pg_mem p x ∧ data_page (u :: rs) p' x;
  st_leaf : ∀ w, leaf (pg_mem p') u w = planned boot_plan w (if low_half w then None else leaf (pg_mem p) (KERNEL_PML4 p) w);
  st_other : ∀ r w, r ∈ rs → leaf (pg_mem p') r w = leaf (pg_mem p) r w;
  st_room : ∀ n, room p (S (n + length (tables boot_plan))) → room p' n;
}.

Lemma low_addr_idx v : low_addr v → Mapper.pml4_idx v < 256.
Proof.
  intros Hv. pose proof (vpn_low v Hv) as [_ H]. rewrite vpn_digits in H.
  pose proof (idx_range v 39) as H1. pose proof (idx_range v 30) as H2. pose proof (idx_range v 21) as H3. pose proof (idx_range v 12) as H4.
  fold (Mapper.pml4_idx v) in H1. fold (Mapper.pdpt_idx v) in H2. fold (Mapper.pd_idx v) in H3. fold (Mapper.pt_idx v) in H4. lia.
Qed.
Lemma boot_plan_low : Forall (λ q, Mapper.pml4_idx (rq_virt q) < 256) boot_plan.
Proof.
  unfold boot_plan, plan_identity. rewrite Forall_fmap. apply Forall_forall. intros a Ha. cbn. apply low_addr_idx.
  eapply low_pages; [|exact Ha]. by destruct (bootdata A).
Qed.

Lemma start_spec total rs p :
  paging_ok p rs → KERNEL_PML4 p ∈ rs → KERNEL_PML4 p ≠ 0 → (total = true → room p (S (length (tables boot_plan)))) →
  ends total ('(u, p1) ← create_user_page_table p; p2 ← map_bootdata_identity A u p1; Ret (u, p2)) (λ '(u, p2), started rs p p2 u).
Proof.
  intros Hp Hk Hk0 Hroom. eapply ends_bind; [apply (create_user_page_table_spec total p rs Hp Hk Hk0)|].
  { intros Ht. apply room_spare. eapply room_le; [|by apply Hroom]. lia. }
  intros [u p1] Hns. destruct (new_space_grows rs p p1 u Hp Hk Hns) as (Hok1 & Hfree1 & Hdata1 & Hroom1).
  destruct Hns as [_ Hk1 Hfresh _ _ _ Hleaf1 Hold1 _ _ _]. rewrite map_bootdata_plan.
  eapply ends_bind; [apply (map_many_spec total (u :: rs) p1 u boot_plan Hok1 ltac:(by left) boot_plan_low)|].
  { intros Ht. eapply room_le; [apply length_filter|]. by apply Hroom1, Hroom. }
  intros p2 [[Hok2 Hk2 Hfree2 Hdata2] Hleaf2 Hother2 Hroom2 _]. cbn [ends]. split; [done|congruence|done|auto| | | |].
  - intros x [E1 X1]%Hdata1. destruct (Hdata2 x X1) as [E2 X2]. by rewrite E2, E1.
  - intros w. by rewrite Hleaf2, Hleaf1.
  - intros r w Hr. rewrite Hother2; [by apply Hold1|by right|]. intros ->. done.
  - intros n Hn. apply Hroom2. eapply room_le; [|by apply Hroom1, Hn]. unfold missing.
    pose proof (length_filter (λ q, reach (pg_mem p1) u q = None) (tables boot_plan)). lia.
Qed.

(** The program is loaded and mapped, and the stack is mapped. *)
Definition program_plan (v c top st : Z) : list req := mkReq v c CODE_FLAGS :: stack_plan top st.

Record placed (rs : list Z) p p' (u v c top st : Z) (code : bytes) : Prop := {
  pl_ok : paging_ok p' (u :: rs);
  pl_kernel : KERNEL_PML4 p' = KERNEL_PML4 p;
  pl_free : ∀ j, pg_free p' j → pg_free p j;
  pl_data : ∀ x, data_page (u :: rs) p x → data_page (u :: rs) p' x ∧ (x ≠ c → pg_mem p' x = pg_mem p x);
  pl_code : pg_mem p' c = page_words (page_of code);
  pl_leaf : ∀ w, leaf (pg_mem p') u w = planned (program_plan v c top st) w (leaf (pg_mem p) u w);
  pl_other : ∀ r w, r ∈ rs → leaf (pg_mem p') r w = leaf (pg_mem p) r w;
  pl_room : ∀ n, room p (n + 9) → room p' n;
}.

Lemma tables_bound l : (length (tables l) ≤ 3 * length l)%nat.
Proof.
  assert (length (l ≫= λ q, prefixes (rq_virt q)) = 3 * length l)%nat as <-.
  { induction l as [|q l IH]; [done|]. rewrite bind_cons, length_app, IH. simpl. lia. }
  apply submseteq_length, NoDup_submseteq; [apply NoDup_remove_dups|]. intros x. unfold tables. by rewrite elem_of_remove_dups.
Qed.

Lemma place_spec total rs p u v c top st code :
  paging_ok p (u :: rs) → u ∉ rs → data_page (u :: rs) p c → 0 ≤ c < 2 ^ 44 → zlen code ≤ PAGE_SIZE →
  low_addr v → USER_STACK_SIZE ≤ top < 2 ^ 47 → st < 2 ^ 44 → (total = true → room p 9) →
  ends total (p1 ← load_code c code p; p2 ← map_into_page_table u v c CODE_FLAGS p1; map_user_stack u top st p2)
    (λ p3, placed rs p p3 u v c top st code).
Proof.
  intros Hok Hu Hc Hcb Hlen Hv Htop Hst Hroom. unfold load_code. rewrite uadd_ok, !Ret_bind by (unfold KERNEL_VMA, usize_max; lia).
  assert (wrote (u :: rs) p (write_frame c (page_words (page_of code)) p) c) as [W1 W2 W3 W4 W5 W6 W7 W8].
  { apply write_frame_spec; [done|done|]. apply length_page_words. by rewrite length_page_of. }
  set (p1 := write_frame c (page_words (page_of code)) p) in *.
  change (mkPaging (pm_upd c (page_words (page_of code)) (pg_mem p)) (pg_buddy p) (KERNEL_PML4 p)) with p1.
  assert ((p2 ← map_into_page_table u v c CODE_FLAGS p1; map_user_stack u top st p2) = map_many u (program_plan v c top st) p1) as ->.
  { unfold map_many, program_plan. cbn [for_each rq_virt rq_phys rq_flags].
    destruct (map_into_page_table u v c CODE_FLAGS p1); [|done|done]. rewrite !Ret_bind. apply map_user_stack_plan; lia. }
  eapply ends_mono; [apply (map_many_spec total (u :: rs) p1 u _ W1 ltac:(by left))|].
  { unfold program_plan, stack_plan. repeat constructor; cbn [rq_virt]; apply low_addr_idx; [done|..];
      unfold low_addr, USER_STACK_SIZE in *; change (Z.shiftl 1 USER_STACK_ORDER * PAGE_SIZE) with 8192 in *; unfold PAGE_SIZE; lia. }
  { intros Ht. eapply room_le; [|by apply W8, Hroom]. etransitivity; [apply length_filter|]. apply tables_bound. }
  intros p3 [[G1 G2 G3 G4] L1 L2 L3 _]. split.
  - done.
  - congruence.
  - intros j Hj. by apply W3, G3.
  - intros x Hx. destruct (G4 x (W6 x Hx)) as [E X]. split; [done|]. intros Hne. by rewrite E, W7.
  - destruct (G4 c (W6 c Hc)) as [E _]. rewrite E. unfold p1, write_frame. cbn. unfold pm_upd. by rewrite decide_True.
  - intros w. rewrite L1. f_equal. apply W4. by left.
  - intros r w Hr. rewrite L2; [apply W4; by right|by right|]. intros ->. done.
  - intros n Hn. apply L3. eapply room_le; [|by apply W8, Hn].
    assert (missing (pg_mem p1) u (program_plan v c top st) ≤ 9)%nat; [|lia]. etransitivity; [apply length_filter|]. apply tables_bound.
Qed.

(** ** The whole address space *)

(** The frames of a user process: kernel stack, code, user stack. *)
Definition user_frames (k c st j : Z) : Prop := block_frame k 2 j ∨ block_frame c 0 j ∨ block_frame st 1 j.

Record three (rs : list Z) p p' (k c st : Z) : Prop := {
  th_grows : grows rs p p';
  th_mem : pg_mem p' = pg_mem p;
  th_k : (4 * PAGE_SIZE | k) ∧ 0 ≤ k ∧ k + 4 * PAGE_SIZE ≤ 2 ^ 44;
  th_c : (PAGE_SIZE | c) ∧ 0 ≤ c ∧ c + PAGE_SIZE ≤ 2 ^ 44;
  th_st : (2 * PAGE_SIZE | st) ∧ 0 ≤ st ∧ st + 2 * PAGE_SIZE ≤ 2 ^ 44;
  th_frames : ∀ j, user_frames k c st j → pg_free p j ∧ data_page rs p' (j * PAGE_SIZE);
  th_disjoint : ∀ j, (block_frame k 2 j → ¬ block_frame c 0 j) ∧ (block_frame k 2 j → ¬ block_frame st 1 j) ∧
    (block_frame c 0 j → ¬ block_frame st 1 j);
  th_room : ∀ n, room p (3 + n) → room p' n;
}.

Lemma gave_three rs p p1 p2 p3 k c st :
  gave rs p p1 k KERNEL_STACK_ORDER → gave rs p1 p2 c 0 → gave rs p2 p3 st USER_STACK_ORDER → three rs p p3 k c st.
Proof.
  intros [G1 M1 A1 R1 B1 N1] [G2 M2 A2 R2 B2 N2] [G3 M3 A3 R3 B3 N3].
  unfold KERNEL_STACK_ORDER, USER_STACK_ORDER in *. change (2 ^ 2) with 4 in *. change (2 ^ 0) with 1 in *. change (2 ^ 1) with 2 in *.
  rewrite Z.mul_1_l in *. split; [by eapply grows_trans, G3; eapply grows_trans|congruence|done|done|done| | |].
  - intros j [Hj|[Hj|Hj]].
    + destruct (B1 j Hj) as (? & _ & Hd). split; [done|]. by apply (gw_data _ _ _ G3), (gw_data _ _ _ G2).
    + destruct (B2 j Hj) as (? & _ & Hd). split; [by apply (gw_free _ _ _ G1)|]. by apply (gw_data _ _ _ G3).
    + destruct (B3 j Hj) as (? & _ & Hd). split; [by apply (gw_free _ _ _ G1), (gw_free _ _ _ G2)|done].
  - intros j. split_and!; intros H1 H2.
    + destruct (B1 j H1) as (_ & Hn & _). by destruct (B2 j H2) as (? & _).
    + destruct (B1 j H1) as (_ & Hn & _). destruct (B3 j H2) as (Hf & _). by apply Hn, (gw_free _ _ _ G2).
    + destruct (B2 j H1) as (_ & Hn & _). by destruct (B3 j H2) as (? & _).
  - intros n Hn. by apply N3, N2, N1.
Qed.

Lemma three_spec total rs p :
  paging_ok p rs → (total = true → room p 3) →
  ends total (
    '(r, p1) ← allocate_frames KERNEL_STACK_ORDER p; k ← expect r;
    '(r, p2) ← allocate_frames 0 p1; c ← expect r;
    '(r, p3) ← allocate_frames USER_STACK_ORDER p2; st ← expect r; Ret (k, c, st, p3))
    (λ '(k, c, st, p3), three rs p p3 k c st).
Proof.
  intros Hp Hroom. pose proof (expect_frames total rs p KERNEL_STACK_ORDER Hp ltac:(done)) as G1.
  destruct (allocate_frames KERNEL_STACK_ORDER p) as [[[k|] p1]| |]; try (apply G1; intros Ht; eapply room_le, Hroom, Ht; lia).
  rewrite Ret_bind. cbn [expect]. rewrite Ret_bind. specialize (G1 ltac:(intros Ht; eapply room_le, Hroom, Ht; lia)). cbn [ends mbind outcome_bind expect] in G1.
  pose proof (gw_ok _ _ _ (gv_grows _ _ _ _ _ G1)) as Hp1.
  assert (total = true → room p1 2) as Hroom1 by (intros Ht; by apply (gv_room _ _ _ _ _ G1), Hroom).
  pose proof (expect_frames total rs p1 0 Hp1 ltac:(done)) as G2.
  destruct (allocate_frames 0 p1) as [[[c|] p2]| |]; try (apply G2; intros Ht; eapply room_le, Hroom1, Ht; lia).
  rewrite Ret_bind. cbn [expect]. rewrite Ret_bind. specialize (G2 ltac:(intros Ht; eapply room_le, Hroom1, Ht; lia)). cbn [ends mbind outcome_bind expect] in G2.
  pose proof (gw_ok _ _ _ (gv_grows _ _ _ _ _ G2)) as Hp2.
  assert (total = true → room p2 1) as Hroom2 by (intros Ht; by apply (gv_room _ _ _ _ _ G2), Hroom1).
  pose proof (expect_frames total rs p2 USER_STACK_ORDER Hp2 ltac:(done) Hroom2) as G3.
  destruct (allocate_frames USER_STACK_ORDER p2) as [[[st|] p3]| |]; try exact G3.
  rewrite Ret_bind. cbn [expect]. rewrite Ret_bind. by eapply gave_three.
Qed.

Record built (rs : list Z) p p' (u k c st v top : Z) (code : bytes) : Prop := {
  bt_ok : paging_ok p' (u :: rs);
  bt_kernel : KERNEL_PML4 p' = KERNEL_PML4 p;
  bt_fresh : u ∉ rs;
  bt_data : ∀ x, data_page rs p x → pg_mem p' x = pg_mem p x ∧ data_page (u :: rs) p' x;
  bt_frames : ∀ j, user_frames k c st j → pg_free p j ∧ data_page (u :: rs) p' (j * PAGE_SIZE);
  bt_disjoint : ∀ j, (block_frame k 2 j → ¬ block_frame c 0 j) ∧ (block_frame k 2 j → ¬ block_frame st 1 j) ∧
    (block_frame c 0 j → ¬ block_frame st 1 j);
  bt_k : (4 * PAGE_SIZE | k) ∧ 0 ≤ k ∧ k + 4 * PAGE_SIZE ≤ 2 ^ 44;
  bt_c : (PAGE_SIZE | c) ∧ 0 ≤ c ∧ c + PAGE_SIZE ≤ 2 ^ 44;
  bt_st : (2 * PAGE_SIZE | st) ∧ 0 ≤ st ∧ st + 2 * PAGE_SIZE ≤ 2 ^ 44;
  bt_code : pg_mem p' c = page_words (page_of code);
  bt_leaf : ∀ w, leaf (pg_mem p') u w =
    planned (user_plan v c top st) w (if low_half w then None else leaf (pg_mem p) (KERNEL_PML4 p) w);
  bt_other : ∀ r w, r ∈ rs → leaf (pg_mem p') r w = leaf (pg_mem p) r w;
  bt_room : ∀ n, room p (n + (13 + length (tables boot_plan))) → room p' n;
}.

Lemma built_from rs p p1 p2 p3 u k c st v top code :
  started rs p p1 u → three (u :: rs) p1 p2 k c st → placed rs p2 p3 u v c top st code → built rs p p3 u k c st v top code.
Proof.
  intros [S1 S2 S3 S4 S5 S6 S7 S8] [[T1 T2 T3 T4] Tm Tk Tc Ts Tf Td Tr] [P1 P2 P3 P4 P5 P6 P7 P8].
  assert ((c / PAGE_SIZE) * PAGE_SIZE = c) as Ec.
  { destruct Tc as [[x ->] _]. by rewrite Z.div_mul. }
  assert (block_frame c 0 (c / PAGE_SIZE)) as Bc by (unfold block_frame; change (2 ^ 0) with 1; lia).
  split; [done|congruence|done| | |done|done|done|done|done| | |].
  - intros x Hx. destruct (S5 x Hx) as [E1 X1]. destruct (T4 x X1) as [E2 X2]. destruct (P4 x X2) as [X3 E3]. split; [|done].
    rewrite E3, E2, E1; [done|]. intros ->. destruct (Tf _ (or_intror (or_introl Bc))) as [Hf _]. destruct Hx as [_ Hnf]. by apply Hnf, S4.
  - intros j Hj. destruct (Tf j Hj) as [Hf Hd]. split; [by apply S4|]. by apply P4.
  - intros w. rewrite P6, Tm, S6. unfold user_plan. by rewrite planned_app.
  - intros r w Hr. by rewrite P7, Tm, S7.
  - intros n Hn. apply P8, Tr, S8. eapply room_le, Hn. lia.
Qed.
End spawn.
