(* ===== verification/SpawnView.v ===== *)
(** * What a new process sees *)

From S2P Require Import Prelude Bytes Buddy Address Paging PagingInv PagingMap PagingPlan PagingCorrect PagingInit ProcLayout Elf Proc SpaceBuild Spawn.
Local Open Scope Z_scope.
Local Open Scope paging_scope.

Section view.
Context `{FS : FrameSource B, FL : !FrameLaws B}.
Context (A : addresses) (Hboot : low_range (bootdata A)).

(** The lower half of the address space: two writable stack pages below
    [top], the program's page, and the boot data for the kernel alone. *)
Definition user_view (v c top st w : Z) : option (Z * rights) :=
  if w / PAGE_SIZE =? top / PAGE_SIZE - 1 then Some (st + PAGE_SIZE + w mod PAGE_SIZE, mkRights true true true)
  else if w / PAGE_SIZE =? top / PAGE_SIZE - 2 then Some (st + w mod PAGE_SIZE, mkRights true true true)
  else if w / PAGE_SIZE =? v / PAGE_SIZE then Some (c + w mod PAGE_SIZE, mkRights true false false)
  else if range_page (bootdata A) w then Some (w, mkRights false true true)
  else None.

Context (v c top st : Z) (Hv : low_addr v) (Hc : frame_ok c) (Hst : frame_ok st) (Hst' : frame_ok (st + PAGE_SIZE)).
Context (Htop : USER_STACK_SIZE ≤ top < 2 ^ 47) (Hal : (PAGE_SIZE | top)).

Lemma stack_low : low_addr (top - USER_STACK_SIZE) ∧ low_addr (top - USER_STACK_SIZE + PAGE_SIZE).
Proof.
  unfold low_addr. unfold USER_STACK_SIZE in *. change (Z.shiftl 1 USER_STACK_ORDER * PAGE_SIZE) with 8192 in *. unfold PAGE_SIZE. lia.
Qed.
Lemma stack_pages :
  (top - USER_STACK_SIZE) / PAGE_SIZE = top / PAGE_SIZE - 2 ∧ (top - USER_STACK_SIZE + PAGE_SIZE) / PAGE_SIZE = top / PAGE_SIZE - 1.
Proof.
  destruct Hal as [n ->]. change USER_STACK_SIZE with (2 * PAGE_SIZE).
  replace (n * PAGE_SIZE - 2 * PAGE_SIZE) with ((n - 2) * PAGE_SIZE) by lia.
  replace ((n - 2) * PAGE_SIZE + PAGE_SIZE) with ((n - 1) * PAGE_SIZE) by lia. by rewrite !Z.div_mul.
Qed.

Lemma plan_high w d : high_addr w → planned (user_plan A v c top st) w d = d.
Proof.
  intros Hw. apply planned_none. intros q Hq E. destruct stack_low as [L1 L2].
  assert (low_addr (rq_virt q)) as Hlow; [|by apply (vpn_halves _ _ Hlow Hw)].
  unfold user_plan, stack_plan in Hq. rewrite !elem_of_app, !elem_of_cons, elem_of_nil in Hq.
  destruct Hq as [Hq|[[->|[]]|[->|[->|[]]]]]; [|done..]. unfold boot_plan, plan_identity in Hq.
  apply list_elem_of_fmap in Hq as (a & -> & Ha). eapply low_pages; [|exact Ha]. by destruct (bootdata A).
Qed.

Lemma plan_low w :
  low_addr w → translation w (planned (user_plan A v c top st) w None) = user_view v c top st w.
Proof.
  intros Hw. unfold user_plan, stack_plan. rewrite planned_app. unfold boot_plan.
  rewrite planned_identity_low by (done || by destruct (bootdata A)). cbn [app planned foldl rq_virt].
  destruct stack_low as [L1 L2]. destruct stack_pages as [E1 E2].
  assert (∀ x (a b : option Z), low_addr x → (if decide (vpn w = vpn x) then a else b) = if decide (w / PAGE_SIZE = x / PAGE_SIZE) then a else b) as Hpage.
  { intros x a b Hx. apply decide_ext. by apply vpn_low_eq. }
  rewrite !Hpage by done. rewrite E1, E2. unfold user_view.
  assert (∀ ph f, frame_ok ph → flags_ok f → translation w (Some (req_entry (mkReq 0 ph f))) = Some (ph + w mod PAGE_SIZE, leaf_rights f)) as Htr.
  { intros ph f Hph Hf. destruct (set_addr_page ph f Hph Hf) as [Ea Er]. unfold translation, req_entry. cbn [fmap option_fmap option_map rq_phys rq_flags].
    by rewrite Ea, Er. }
  destruct (Z.eqb_spec (w / PAGE_SIZE) (top / PAGE_SIZE - 1)); [rewrite decide_True by done; by apply (Htr (st + PAGE_SIZE) STACK_FLAGS)|].
  rewrite decide_False by done.
  destruct (Z.eqb_spec (w / PAGE_SIZE) (top / PAGE_SIZE - 2)); [rewrite decide_True by done; by apply (Htr st STACK_FLAGS)|].
  rewrite decide_False by done.
  destruct (Z.eqb_spec (w / PAGE_SIZE) (v / PAGE_SIZE)); [rewrite decide_True by done; by apply (Htr c CODE_FLAGS)|].
  rewrite decide_False by done.
  destruct (bootdata A) as [b1 b2] eqn:Eb. cbn [fst snd]. destruct (range_page (b1, b2) w); [|done].
  unfold translation. cbn [fmap option_fmap option_map]. by destruct (addr_of_page w w RW_NX Hw eq_refl eq_refl) as [-> ->].
Qed.
End view.
