(* ===== verification/Sched.v ===== *)
(** * The scheduler

    Invariant of the process table and the run queue, the effect of a switch,
    and round-robin fairness. *)

From S2P Require Import Prelude Bytes Buddy Address Paging ProcLayout Elf Proc.
Local Open Scope Z_scope.

Section sched.
Context `{FS : FrameSource B}.
Context (A : addresses).

(** The two entry routines and the label behind the switch are different
    places in the kernel's code. *)
Definition addresses_ok : Prop :=
  switch_return A ≠ kernel_task_bootstrap A ∧ switch_return A ≠ user_task_bootstrap A ∧
  kernel_task_bootstrap A ≠ user_task_bootstrap A.

(** A process that has not started has an entry routine and what the routine
    expects; any other waits in [schedule], and will have interrupts on when
    it goes on. *)
Definition startable (s : tasks (B := B)) (p : Proc) : Prop :=
  (c_rip (context p) = kernel_task_bootstrap A ∧ is_Some (entry p)) ∨
  (c_rip (context p) = user_task_bootstrap A ∧ ∃ tf rflags, trap_frame p = Some tf ∧
     kload (tf + 136) (pg_mem (pg s)) = Some rflags ∧ Z.testbit rflags RFLAGS_IF = true).
Definition can_resume (s : tasks) (r : nat) : Prop :=
  ∃ p w, procs s !! r = Some p ∧ pendings s !! r = Some w ∧
    match w with
    | NotStarted => startable s p
    | InSchedule from ie => c_rip (context p) = switch_return A ∧ (from = FromIrq ∨ ie = true)
    end.

(** The process [c] has the processor. *)
Record sched_ok (s : tasks) (c : nat) : Prop := {
  so_len : length (pendings s) = length (procs s);
  so_current : CURRENT s = Some c;
  so_run : ∃ p, procs s !! c = Some p ∧ (state p = Running ∨ state p = Exited) ∧
    CR3 s = switch_cr3 (pagetable p) ∧ rsp0 s = kstack_top p ∧ 0 < ticks_left p ≤ DEFAULT_TIME_SLICE_TICKS;
  so_nodup : NoDup (c :: READY_QUEUE s);
  so_ready : ∀ r, r ∈ READY_QUEUE s → ∃ p, procs s !! r = Some p ∧ state p = Ready;
  so_rest : ∀ r p, procs s !! r = Some p → r ∉ c :: READY_QUEUE s → state p = Exited;
  so_wait : ∀ r, r ∈ READY_QUEUE s → can_resume s r;
}.

(** What no step changes in a control block: everything but its state, its
    time slice and its saved registers. *)
Definition same_block (p q : Proc) : Prop :=
  pid q = pid p ∧ pagetable q = pagetable p ∧ kstack_phys q = kstack_phys p ∧ kstack_top q = kstack_top p ∧
  kind q = kind p ∧ entry q = entry p ∧ trap_frame q = trap_frame p ∧
  user_code_phys q = user_code_phys p ∧ user_stack_phys q = user_stack_phys p.
#[global] Instance same_block_po : PreOrder same_block.
Proof. split; [by intros p; repeat split|]. intros p q r. unfold same_block. intuition congruence. Qed.

(** What is left of the processes when [c] hands over to [n]: the blocks are
    the same, and only the saved registers of [c] change. *)
Definition switched_procs (c : nat) (saved : Context) (l l' : list Proc) : Prop :=
  length l' = length l ∧
  ∀ r p, l !! r = Some p → ∃ q, l' !! r = Some q ∧ same_block p q ∧
    context q = if decide (r = c) then saved else context p.

Definition saved_context (s : tasks (B := B)) : Context :=
  let c := cpu s in
  mkContext (c_r15 c) (c_r14 c) (c_r13 c) (c_r12 c) (c_rbx c) (c_rbp c) (c_rsp c) (switch_return A).

Definition runs (s : tasks (B := B)) (c : nat) : bool :=
  match procs s !! c with Some p => bool_decide (state p = Running) | None => false end.

(** The effect of a switch from [c] to the head [n] of the queue. *)
Record switched (s s' : tasks) (c n : nat) (q : list nat) : Prop := {
  sw_ok : sched_ok s' n;
  sw_queue : READY_QUEUE s' = q ++ (if runs s c then [c] else []);
  sw_runs : runs s' n = true;
  sw_if : IF s' = true;
  sw_pg : pg s' = pg s;
  sw_pid : NEXT_PID s' = NEXT_PID s;
  sw_procs : switched_procs c (saved_context s) (procs s) (procs s');
  sw_ticks : ∀ p, procs s' !! n = Some p → ticks_left p = DEFAULT_TIME_SLICE_TICKS;
  sw_cpu : ∀ p, procs s !! n = Some p → cpu s' = context p;
}.

(** ** One switch *)

(** The control block of [r] after the switch. *)
Definition after_switch (s : tasks) (c n r : nat) (p : Proc) : Proc :=
  if decide (r = c) then set_context (saved_context s) (if runs s c then set_state Ready p else p)
  else if decide (r = n) then set_ticks DEFAULT_TIME_SLICE_TICKS (set_state Running p)
  else p.

Lemma schedule_switches from (s : tasks (B := B)) c n q pc pn :
  READY_QUEUE s = n :: q → CURRENT s = Some c → c ≠ n → procs s !! c = Some pc → procs s !! n = Some pn →
  ∃ ps, schedule A from s = Ret (true,
      mkTasks ps (q ++ (if runs s c then [c] else [])) (NEXT_PID s) (Some n)
        (<[c := InSchedule from (IF s)]> (pendings s)) (context pn) false
        (switch_cr3 (pagetable pn)) (kstack_top pn) (pg s)) ∧
    length ps = length (procs s) ∧ ∀ r, ps !! r = after_switch s c n r <$> procs s !! r.
Proof.
  intros Hq Hc Hne Hpc Hpn. destruct s as [ps queue np cur pend cp ie cr r0 pgs]. cbn [procs READY_QUEUE CURRENT IF pg NEXT_PID pendings] in *. subst queue cur.
  assert (runs (mkTasks ps (n :: q) np (Some c) pend cp ie cr r0 pgs) c = bool_decide (state pc = Running)) as Hruns.
  { unfold runs. cbn [procs]. by rewrite Hpc. }
  unfold schedule, current_proc, disable_interrupts, with_if, with_queue.
  cbn [procs READY_QUEUE NEXT_PID CURRENT pendings cpu IF CR3 rsp0 pg expect]. rewrite Ret_bind, decide_False, Hpc by done.
  cbn [expect]. rewrite Ret_bind.
  set (l1 := if runs (mkTasks ps (n :: q) np (Some c) pend cp ie cr r0 pgs) c then alter (set_state Ready) c ps else ps).
  set (l2 := alter (set_ticks DEFAULT_TIME_SLICE_TICKS) n (alter (set_state Running) n l1)).
  assert (l1 !! n = Some pn) as Hn1.
  { unfold l1. case_match; [by rewrite list_lookup_alter_ne|done]. }
  assert (l2 !! n = Some (set_ticks DEFAULT_TIME_SLICE_TICKS (set_state Running pn))) as Hn2.
  { unfold l2. by rewrite !list_lookup_alter_eq, Hn1. }
  set (fin := alter (set_context (saved_context (mkTasks ps (n :: q) np (Some c) pend cp ie cr r0 pgs))) c l2).
  exists fin. split_and!.
  - transitivity (
      pn0 ← expect (l2 !! n);
      s1 ← switch_context A c n (mkTasks l2 (q ++ (if runs (mkTasks ps (n :: q) np (Some c) pend cp ie cr r0 pgs) c then [c] else [])) np (Some n)
        (<[c := InSchedule from ie]> pend) cp false (switch_cr3 (pagetable pn0)) (kstack_top pn0) pgs);
      Ret (true, s1)).
    { unfold l2, l1. rewrite Hruns. case_decide as Hs; [rewrite bool_decide_true by done|rewrite bool_decide_false, app_nil_r by done]; reflexivity. }
    rewrite Hn2. cbn [expect]. rewrite Ret_bind. unfold switch_context, upd_proc, with_procs, with_cpu.
    cbn [procs READY_QUEUE NEXT_PID CURRENT pendings cpu IF CR3 rsp0 pg].
    rewrite list_lookup_alter_ne, Hn2 by done. reflexivity.
  - unfold fin, l2, l1. rewrite !length_alter. case_match; [by rewrite length_alter|done].
  - intros r. unfold fin, after_switch. destruct (decide (r = c)) as [->|Hrc].
    + rewrite list_lookup_alter_eq. unfold l2. rewrite !list_lookup_alter_ne by done. unfold l1. rewrite Hpc.
      case_match; [rewrite list_lookup_alter_eq, Hpc|rewrite Hpc]; done.
    + rewrite list_lookup_alter_ne by done. destruct (decide (r = n)) as [->|Hrn]; [by rewrite Hn2, Hpn|].
      unfold l2. rewrite !list_lookup_alter_ne by done. unfold l1.
      case_match; [rewrite list_lookup_alter_ne by done|]; by destruct (ps !! r).
Qed.

Lemma after_switch_block s c n r p : same_block p (after_switch s c n r p).
Proof. unfold after_switch. repeat case_decide; [destruct (runs s c)|..]; by repeat split. Qed.
Lemma after_switch_context s c n r p :
  context (after_switch s c n r p) = if decide (r = c) then saved_context s else context p.
Proof. unfold after_switch. repeat case_decide; done. Qed.

(** The process that gets the processor goes on with interrupts enabled. *)
Lemma resume_ok (s : tasks (B := B)) n p w :
  addresses_ok → CURRENT s = Some n → procs s !! n = Some p → pendings s !! n = Some w →
  match w with
  | NotStarted => c_rip (cpu s) = c_rip (context p) ∧ startable s p
  | InSchedule from ie => c_rip (cpu s) = switch_return A ∧ (from = FromIrq ∨ ie = true)
  end → resume A s = Ret (with_if true s).
Proof.
  intros (H1 & H2 & H3) Hc Hp Hw Hres. unfold resume, current_proc. rewrite Hc. cbn [expect]. rewrite Ret_bind, Hp. cbn [expect].
  rewrite Ret_bind. destruct w as [|from ie].
  - destruct Hres as [E [[Hrip [e He]]|(Hrip & tf & rf & Htf & Hld & Hbit)]]; rewrite E, Hrip.
    + replace (kernel_task_bootstrap A =? switch_return A) with false by lia. rewrite Z.eqb_refl, He. done.
    + replace (user_task_bootstrap A =? switch_return A) with false by lia.
      replace (user_task_bootstrap A =? kernel_task_bootstrap A) with false by lia.
      rewrite Htf. cbn [expect]. rewrite Ret_bind, Hld. cbn [expect]. by rewrite Ret_bind, Hbit.
  - destruct Hres as [-> Hres]. rewrite Z.eqb_refl, Hw. cbn [expect]. rewrite Ret_bind.
    destruct Hres as [-> | ->]; [|by destruct from]. by destruct ie.
Qed.

Section one_switch.
Context (from : caller) (s : tasks (B := B)) (c n : nat) (q : list nat) (pc pn : Proc) (ps : list Proc).
Context (HA : addresses_ok) (Hok : sched_ok s c) (Hfrom : runs s c = true → from = FromIrq ∨ IF s = true) (Hq : READY_QUEUE s = n :: q).
Context (Hpc : procs s !! c = Some pc) (Hpn : procs s !! n = Some pn).
Context (Hlps : length ps = length (procs s)) (Hps : ∀ r, ps !! r = after_switch s c n r <$> procs s !! r).

Let queue' := q ++ (if runs s c then [c] else []).
Let s1 := mkTasks ps queue' (NEXT_PID s) (Some n) (<[c := InSchedule from (IF s)]> (pendings s)) (context pn) false
  (switch_cr3 (pagetable pn)) (kstack_top pn) (pg s).

Lemma switch_distinct : c ≠ n ∧ c ∉ q ∧ n ∉ q ∧ NoDup q.
Proof.
  pose proof (so_nodup _ _ Hok) as Hnd. rewrite Hq in Hnd. apply NoDup_cons in Hnd as [Hc Hnd]. apply NoDup_cons in Hnd as [Hn Hnd].
  rewrite not_elem_of_cons in Hc. naive_solver.
Qed.
Lemma queue_cases r : r ∈ queue' → (r ∈ q ∧ r ≠ c ∧ r ≠ n) ∨ (r = c ∧ runs s c = true).
Proof.
  destruct switch_distinct as (? & ? & ? & _). intros [Hr|Hr]%elem_of_app.
  - left. split_and!; [done|congruence..].
  - right. destruct (runs s c); [by apply list_elem_of_singleton in Hr|by apply elem_of_nil in Hr].
Qed.
Lemma next_block : ps !! n = Some (set_ticks DEFAULT_TIME_SLICE_TICKS (set_state Running pn)).
Proof.
  destruct switch_distinct as (? & _). rewrite Hps, Hpn. unfold after_switch. simpl. by rewrite decide_False, decide_True.
Qed.
Lemma other_block r : r ≠ c → r ≠ n → ps !! r = procs s !! r.
Proof. intros. rewrite Hps. destruct (procs s !! r); [|done]. simpl. unfold after_switch. by rewrite !decide_False. Qed.

Lemma switch_nodup : NoDup (n :: queue').
Proof.
  destruct switch_distinct as (Hcn & Hcq & Hnq & Hnd). unfold queue'. apply NoDup_cons. destruct (runs s c); [|by rewrite app_nil_r].
  split; [rewrite not_elem_of_app, not_elem_of_cons; split_and!; [done|done|apply not_elem_of_nil]|].
  apply NoDup_app. split_and!; [done|intros x Hx ->%list_elem_of_singleton; done|apply NoDup_singleton].
Qed.
Lemma switch_ready r : r ∈ queue' → ∃ p, ps !! r = Some p ∧ state p = Ready.
Proof.
  intros [(Hr & ? & ?)|[-> Hruns]]%queue_cases.
  - rewrite other_block by done. apply (so_ready _ _ Hok). rewrite Hq. by right.
  - rewrite Hps, Hpc. eexists. split; [done|]. unfold after_switch. by rewrite decide_True, Hruns.
Qed.
Lemma switch_rest r p : ps !! r = Some p → r ∉ n :: queue' → state p = Exited.
Proof.
  rewrite not_elem_of_cons. intros Hp [Hrn Hr]. unfold queue' in Hr. rewrite not_elem_of_app in Hr. destruct Hr as [Hrq Hrc].
  destruct (decide (r = c)) as [->|Hne].
  - rewrite Hps, Hpc in Hp. injection Hp as <-. unfold after_switch. rewrite decide_True by done.
    destruct (runs s c) eqn:Hruns; [exfalso; apply Hrc; by left|]. unfold runs in Hruns. rewrite Hpc in Hruns.
    apply bool_decide_eq_false in Hruns. destruct (so_run _ _ Hok) as (p & Hp & Hst & _). rewrite Hpc in Hp. injection Hp as <-.
    simpl. by destruct Hst.
  - rewrite other_block in Hp by done. apply (so_rest _ _ Hok r p Hp). rewrite Hq, !not_elem_of_cons. done.
Qed.
Lemma switch_resumable s2 r :
  procs s2 = ps → pendings s2 = pendings s1 → pg s2 = pg s → r ∈ queue' → can_resume s2 r.
Proof.
  intros E1 E2 E3 [(Hr & Hrc & Hrn)|[-> Hruns]]%queue_cases.
  - destruct (so_wait _ _ Hok r) as (p & w & Hp & Hw & Hres); [rewrite Hq; by right|].
    exists p, w. rewrite E1, E2, other_block by done. split_and!; [done|unfold s1; cbn [pendings]; by rewrite list_lookup_insert_ne|].
    destruct w; [|done]. unfold startable in *. by rewrite E3.
  - eexists _, (InSchedule from (IF s)). rewrite E1, E2, Hps, Hpc. split_and!; [done| | |auto].
    + unfold s1. cbn [pendings]. apply list_lookup_insert_eq. rewrite (so_len _ _ Hok). by eapply lookup_lt_Some.
    + by rewrite after_switch_context, decide_True.
Qed.
Lemma switch_resumes : resume A s1 = Ret (with_if true s1).
Proof.
  destruct switch_distinct as (Hcn & _). destruct (so_wait _ _ Hok n) as (p & w & Hp & Hw & Hw'); [rewrite Hq; by left|].
  rewrite Hpn in Hp. injection Hp as <-.
  eapply (resume_ok s1 n _ w); [done|done|exact next_block|unfold s1; cbn [pendings]; by rewrite list_lookup_insert_ne|].
  destruct w as [|f ie]; [|exact Hw']. split; [done|]. exact Hw'.
Qed.
Lemma switch_effect : switched s (with_if true s1) c n q.
Proof.
  split; cbn [READY_QUEUE IF pg NEXT_PID procs cpu with_if]; [|done| |done|done|done| | |].
  - split; cbn [with_if procs pendings CURRENT CR3 rsp0 READY_QUEUE].
    + unfold s1. cbn. by rewrite length_insert, Hlps, (so_len _ _ Hok).
    + done.
    + eexists. split; [exact next_block|]. split_and!; [by left|done|done|done..].
    + exact switch_nodup.
    + exact switch_ready.
    + exact switch_rest.
    + intros r Hr. by apply switch_resumable.
  - unfold runs, s1. cbn [with_if procs]. by rewrite next_block.
  - split; [done|]. intros r p Hp. unfold s1. cbn. rewrite Hps, Hp. eexists. split; [done|].
    split; [apply after_switch_block|apply after_switch_context].
  - intros p Hp. unfold s1 in Hp. cbn in Hp. rewrite next_block in Hp. by injection Hp as <-.
  - intros p Hp. rewrite Hpn in Hp. by injection Hp as <-.
Qed.
End one_switch.

Lemma run_schedule_spec from (s : tasks (B := B)) c :
  addresses_ok → sched_ok s c → (runs s c = true → from = FromIrq ∨ IF s = true) →
  match READY_QUEUE s with
  | [] => run_schedule A from s = Ret (false, s)
  | n :: q => ∃ s', run_schedule A from s = Ret (true, s') ∧ switched s s' c n q
  end.
Proof.
  intros HA Hok Hfrom. destruct (READY_QUEUE s) as [|n q] eqn:Eq.
  { unfold run_schedule, schedule, disable_interrupts, with_if. cbn [READY_QUEUE]. rewrite Eq, Ret_bind.
    destruct s as [ps queue np cur pend cp ie cr r0 pgs]. cbn in Eq. subst queue. by destruct ie. }
  destruct (so_run _ _ Hok) as (pc & Hpc & _). destruct (so_ready _ _ Hok n) as (pn & Hpn & _); [rewrite Eq; by left|].
  destruct (switch_distinct s c n q Hok Eq) as (Hne & _).
  destruct (schedule_switches from s c n q pc pn Eq (so_current _ _ Hok) Hne Hpc Hpn) as (ps & Hsch & Hlps & Hps).
  unfold run_schedule. rewrite Hsch, Ret_bind, switch_resumes, Ret_bind by done. eexists. split; [done|]. by apply (switch_effect from s c n q pc pn ps).
Qed.
End sched.
