(* ===== verification/SchedCorrect.v ===== *)
(** * Round-robin scheduling

    The scheduler refines a small abstract machine: who runs, how much of the
    time slice is left, whether the runner is still alive, and who waits.
    Fairness is proved on the abstract machine and carried over. *)

From S2P Require Import Prelude Bytes Buddy Address Paging ProcLayout Elf Proc Sched.
Local Open Scope Z_scope.

(** ** The abstract machine *)

Record rr := mkRr { rr_cur : nat; rr_left : Z; rr_alive : bool; rr_queue : list nat }.

Definition rr_rotate (a : rr) : rr :=
  match rr_queue a with
  | [] => a
  | n :: q => mkRr n DEFAULT_TIME_SLICE_TICKS true (q ++ (if rr_alive a then [rr_cur a] else []))
  end.
Definition rr_tick (a : rr) : rr :=
  if rr_left a <=? 1 then rr_rotate (mkRr (rr_cur a) DEFAULT_TIME_SLICE_TICKS (rr_alive a) (rr_queue a))
  else mkRr (rr_cur a) (rr_left a - 1) (rr_alive a) (rr_queue a).
Definition rr_exit (a : rr) : rr := rr_rotate (mkRr (rr_cur a) (rr_left a) false (rr_queue a)).
Definition rr_spawn (r : nat) (a : rr) : rr := mkRr (rr_cur a) (rr_left a) (rr_alive a) (rr_queue a ++ [r]).

Inductive event := Tick | Yield | Exit (status : Z) | Spawned (r : nat).
Definition rr_step (e : event) (a : rr) : rr :=
  match e with Tick => rr_tick a | Yield => rr_rotate a | Exit _ => rr_exit a | Spawned r => rr_spawn r a end.

(** ** Fairness of the abstract machine *)

Definition rr_ok (a : rr) : Prop := 0 < rr_left a ≤ DEFAULT_TIME_SLICE_TICKS.
(** How many ticks a process at position [k] of the queue waits at most. *)
Definition bound (a : rr) (k : nat) : Z := DEFAULT_TIME_SLICE_TICKS * Z.of_nat k + rr_left a.
Definition is_tick (e : event) : Z := match e with Tick => 1 | _ => 0 end.
Fixpoint ticks_in (es : list event) : Z := match es with [] => 0 | e :: es => is_tick e + ticks_in es end.
Definition rr_run (es : list event) (a : rr) : rr := foldl (λ a e, rr_step e a) a es.

Lemma rotate_wait a r k :
  rr_queue a !! k = Some r →
  rr_cur (rr_rotate a) = r ∨
    ∃ k', rr_queue (rr_rotate a) !! k' = Some r ∧ k = S k' ∧ rr_left (rr_rotate a) = DEFAULT_TIME_SLICE_TICKS.
Proof.
  unfold rr_rotate. destruct (rr_queue a) as [|n q] eqn:Eq; [done|]. destruct k as [|k]; simpl; intros Hk.
  - left. congruence.
  - right. exists k. split_and!; [by apply lookup_app_l_Some|done|done].
Qed.

(** Every event keeps a waiting process waiting at most as long, a tick
    brings it closer. *)
Lemma step_wait e a r k :
  rr_ok a → rr_queue a !! k = Some r →
  rr_ok (rr_step e a) ∧ (rr_cur (rr_step e a) = r ∨
    ∃ k', rr_queue (rr_step e a) !! k' = Some r ∧ bound (rr_step e a) k' + is_tick e ≤ bound a k).
Proof.
  intros [H0 H5] Hk. assert (∀ l c, rr_queue (mkRr (rr_cur a) l c (rr_queue a)) !! k = Some r) as Hk' by done.
  assert (∀ b, rr_queue b = rr_queue a → rr_ok (rr_rotate b)) as Hok.
  { intros b E. unfold rr_rotate, rr_ok. rewrite E. by destruct (rr_queue a). }
  unfold bound. destruct e as [| |st|x]; cbn [rr_step is_tick].
  - unfold rr_tick. destruct (Z.leb_spec (rr_left a) 1).
    + split; [by apply Hok|]. destruct (rotate_wait _ r k (Hk' DEFAULT_TIME_SLICE_TICKS (rr_alive a))) as [?|(k' & ? & -> & ->)]; [by left|].
      right. exists k'. split; [done|lia].
    + split; [unfold rr_ok; simpl; lia|]. right. exists k. split; [done|]. simpl. lia.
  - split; [by apply Hok|]. destruct (rotate_wait _ r k Hk) as [?|(k' & ? & -> & ->)]; [by left|]. right. exists k'. split; [done|lia].
  - unfold rr_exit. split; [by apply Hok|]. destruct (rotate_wait _ r k (Hk' (rr_left a) false)) as [?|(k' & ? & -> & ->)]; [by left|].
    right. exists k'. split; [done|lia].
  - split; [done|]. right. exists k. split; [by apply lookup_app_l_Some|simpl; lia].
Qed.

Lemma rr_no_starvation es a r k :
  rr_ok a → rr_queue a !! k = Some r → bound a k ≤ ticks_in es →
  ∃ es1 es2, es = es1 ++ es2 ∧ rr_cur (rr_run es1 a) = r.
Proof.
  revert a k. induction es as [|e es IH]; intros a k Hok Hk Hb; simpl in Hb.
  - destruct Hok. unfold bound in Hb. unfold DEFAULT_TIME_SLICE_TICKS in Hb. lia.
  - destruct (step_wait e a r k Hok Hk) as [Hok' [Hr|(k' & Hk' & Hle)]].
    + exists [e], es. done.
    + destruct (IH (rr_step e a) k' Hok' Hk' ltac:(lia)) as (es1 & es2 & -> & Hr). by exists (e :: es1), es2.
Qed.

(** With the timer alone: the next one runs after exactly one slice. *)
Lemma rr_slice a : rr_left a = DEFAULT_TIME_SLICE_TICKS → rr_run (replicate 5 Tick) a = rr_rotate a.
Proof.
  destruct a as [c l al q]. cbn [rr_left]. intros ->. unfold rr_run, DEFAULT_TIME_SLICE_TICKS. simpl.
  unfold rr_tick. cbn [rr_left rr_cur rr_alive rr_queue]. done.
Qed.
Lemma rr_round_robin a r k :
  rr_left a = DEFAULT_TIME_SLICE_TICKS → rr_queue a !! k = Some r →
  rr_cur (rr_run (replicate (5 * S k) Tick) a) = r.
Proof.
  revert a. induction k as [|k IH]; intros a Hl Hk.
  - change (5 * 1)%nat with 5%nat. rewrite rr_slice by done. destruct (rotate_wait a r 0 Hk) as [?|(k' & _ & [=] & _)]. done.
  - replace (5 * S (S k))%nat with (5 + 5 * S k)%nat by lia. unfold rr_run. rewrite replicate_add, foldl_app.
    fold (rr_run (replicate 5 Tick) a). rewrite rr_slice by done. destruct (rr_queue a) as [|n q] eqn:Eq; [done|].
    apply IH; unfold rr_rotate; rewrite Eq; [done|]. simpl in Hk. cbn [rr_queue]. by apply lookup_app_l_Some.
Qed.

(** ** Refinement *)

Section refine.
Context `{FS : FrameSource B}.
Context (A : addresses) (HA : addresses_ok A).

Definition models (s : tasks (B := B)) (a : rr) : Prop :=
  sched_ok A s (rr_cur a) ∧ IF s = true ∧ READY_QUEUE s = rr_queue a ∧ runs s (rr_cur a) = rr_alive a ∧
  ∃ p, procs s !! rr_cur a = Some p ∧ ticks_left p = rr_left a.

(** What every event of a running system leaves alone. *)
Record quiet (s s' : tasks (B := B)) : Prop := {
  qt_pg : pg s' = pg s;
  qt_pid : NEXT_PID s' = NEXT_PID s;
  qt_len : length (procs s') = length (procs s);
  qt_blocks : ∀ r p, procs s !! r = Some p → ∃ q, procs s' !! r = Some q ∧ same_block p q ∧
    (CURRENT s ≠ Some r → context q = context p);
}.

Lemma quiet_refl s : quiet s s.
Proof. split; [done|done|done|]. intros r p Hp. exists p. split_and!; done. Qed.

Lemma switched_quiet s s' c n q : CURRENT s = Some c → switched A s s' c n q → quiet s s'.
Proof.
  intros Hc [_ _ _ _ Hpg Hpid [Hlen Hps] _ _]. split; [done|done|done|]. intros r p Hp.
  destruct (Hps r p Hp) as (p' & Hp' & Hb & Hctx). exists p'. split_and!; [done|done|]. intros Hr.
  rewrite Hctx, decide_False; [done|]. intros ->. done.
Qed.

(** Changing a block's time slice or state only. *)
Lemma alter_quiet (s : tasks (B := B)) r f :
  (∀ p, same_block p (f p) ∧ context (f p) = context p) → quiet s (upd_proc r f s).
Proof.
  intros Hf. split; [done|done|apply length_alter|]. intros i p Hp. unfold upd_proc. cbn [procs with_procs].
  destruct (decide (r = i)) as [->|Hne].
  - rewrite list_lookup_alter_eq, Hp. exists (f p). split_and!; [done|apply Hf|]. intros _. apply Hf.
  - rewrite list_lookup_alter_ne, Hp by done. exists p. done.
Qed.
Lemma undisturbed_trans s s1 s2 : CURRENT s1 = CURRENT s → quiet s s1 → quiet s1 s2 → quiet s s2.
Proof.
  intros Hc [P1 N1 L1 B1] [P2 N2 L2 B2]. split; [congruence|congruence|congruence|]. intros r p Hp.
  destruct (B1 r p Hp) as (p1 & Hp1 & Hb1 & C1). destruct (B2 r p1 Hp1) as (p2 & Hp2 & Hb2 & C2).
  exists p2. split_and!; [done|by etransitivity|]. intros Hne. rewrite C2 by congruence. auto.
Qed.

(** The running process's block may change in its slice and its liveness. *)
Lemma sched_ok_alter (s : tasks (B := B)) c f :
  sched_ok A s c →
  (∀ p, same_block p (f p) ∧ context (f p) = context p) →
  (∀ p, procs s !! c = Some p → (state (f p) = Running ∨ state (f p) = Exited) ∧ 0 < ticks_left (f p) ≤ DEFAULT_TIME_SLICE_TICKS) →
  sched_ok A (upd_proc c f s) c.
Proof.
  intros [Hlen Hcur (p & Hp & Hst & Hcr & Hr0 & Htk) Hnd Hready Hrest Hwait] Hf Hgood.
  assert (c ∉ READY_QUEUE s) as Hc by (by apply NoDup_cons in Hnd as [? _]).
  assert (∀ r, r ≠ c → procs (upd_proc c f s) !! r = procs s !! r) as Hother.
  { intros r Hr. unfold upd_proc. cbn. by rewrite list_lookup_alter_ne. }
  split.
  - unfold upd_proc. cbn. by rewrite length_alter.
  - done.
  - exists (f p). unfold upd_proc. cbn. rewrite list_lookup_alter_eq, Hp. destruct (Hf p) as [(_ & Hpt & _ & Hkt & _) _].
    destruct (Hgood p Hp). split_and!; [done|done|congruence|congruence|lia|lia].
  - done.
  - intros r Hr. rewrite Hother; [by apply Hready|]. intros ->. done.
  - intros r p' Hp' Hr. apply not_elem_of_cons in Hr as [Hne Hr]. rewrite Hother in Hp' by done. apply (Hrest r p' Hp').
    by apply not_elem_of_cons.
  - intros r Hr. destruct (Hwait r Hr) as (p' & w & Hp' & Hw & Hres). exists p', w. rewrite Hother; [done|]. intros ->. done.
Qed.

(** A switch is a rotation of the abstract machine. *)
Lemma rotate_models from (s : tasks (B := B)) a :
  sched_ok A s (rr_cur a) → (rr_alive a = true → from = FromIrq ∨ IF s = true) → READY_QUEUE s = rr_queue a → runs s (rr_cur a) = rr_alive a →
  (∃ p, procs s !! rr_cur a = Some p ∧ ticks_left p = rr_left a) →
  ∃ sw s', run_schedule A from s = Ret (sw, s') ∧ models (if sw : bool then s' else with_if true s') (rr_rotate a) ∧
    quiet s s' ∧ (sw = false → s' = s).
Proof.
  intros Hok Hfrom Hq Hal Hp. rewrite <- Hal in Hfrom. pose proof (run_schedule_spec A from s _ HA Hok Hfrom) as Hrun.
  unfold rr_rotate. rewrite Hq in Hrun. destruct (rr_queue a) as [|n q] eqn:Eq.
  - exists false, s. split_and!; [done| |apply quiet_refl|done]. split_and!; [|done|by rewrite Eq|done|done]. by destruct Hok.
  - destruct Hrun as (s' & Hrun & Hsw). exists true, s'. split_and!; [done| |by eapply switched_quiet; [apply Hok|]|done].
    pose proof Hsw as [Hok' Hq' Hr' Hif _ _ _ Htk _]. destruct (so_run _ _ _ Hok') as (p' & Hp' & _).
    split_and!; [done|done|by rewrite Hq', Hal|done|]. exists p'. split; [done|]. by apply Htk.
Qed.

Lemma yield_refines s a : models s a → ∃ s', yield_now A s = Ret s' ∧ models s' (rr_rotate a) ∧ quiet s s'.
Proof.
  intros (Hok & Hif & Hq & Hal & Hp).
  destruct (rotate_models FromCall s a Hok ltac:(by right) Hq Hal Hp) as (sw & s' & Hrun & Hm & Hqt & Hsame).
  unfold yield_now. rewrite Hrun, Ret_bind. exists s'. split_and!; [done| |done]. destruct sw; [done|].
  rewrite Hsame in * by done. destruct s. simpl in Hif. by subst.
Qed.

Lemma tick_refines s a : models s a → ∃ s', timer_interrupt A s = Ret s' ∧ models s' (rr_tick a) ∧ quiet s s'.
Proof.
  intros (Hok & Hif & Hq & Hal & p & Hp & Htk). unfold timer_interrupt, on_timer_tick. rewrite Hif. cbn [CURRENT with_if procs].
  rewrite (so_current _ _ _ Hok), Hp. cbn [expect]. rewrite Ret_bind, Htk. unfold consume_tick, rr_tick.
  destruct (so_run _ _ _ Hok) as (p0 & Hp0 & Hst & _ & _ & Hb). rewrite Hp in Hp0. injection Hp0 as <-. rewrite Htk in Hb.
  replace (0 <? rr_left a) with true by lia. set (s0 := with_if false s).
  assert (∀ n, 0 < n ≤ DEFAULT_TIME_SLICE_TICKS → sched_ok A (upd_proc (rr_cur a) (set_ticks n) s0) (rr_cur a) ∧
    quiet s (upd_proc (rr_cur a) (set_ticks n) s0) ∧ runs (upd_proc (rr_cur a) (set_ticks n) s0) (rr_cur a) = rr_alive a ∧
    procs (upd_proc (rr_cur a) (set_ticks n) s0) !! rr_cur a = Some (set_ticks n p)) as Hset.
  { intros n Hn. assert (procs (upd_proc (rr_cur a) (set_ticks n) s0) !! rr_cur a = Some (set_ticks n p)) as E.
    { unfold upd_proc, s0. cbn. by rewrite list_lookup_alter_eq, Hp. }
    split_and!; [| | |done].
    - apply sched_ok_alter; [by destruct Hok|by intros; repeat split|]. intros p1 Hp1. cbn in Hp1. rewrite Hp in Hp1. injection Hp1 as <-. done.
    - eapply (undisturbed_trans s s0); [done|split; [done|done|done|intros r q Hr; exists q; done]|]. apply alter_quiet. by repeat split.
    - unfold runs. rewrite E. rewrite <- Hal. unfold runs. by rewrite Hp. }
  destruct (Z.leb_spec (rr_left a) 1).
  - replace (rr_left a - 1 =? 0) with true by lia. destruct (Hset DEFAULT_TIME_SLICE_TICKS ltac:(done)) as (Hok1 & Hq1 & Hr1 & Hp1).
    set (s1 := upd_proc _ _ s0) in *.
    destruct (rotate_models FromIrq s1 (mkRr (rr_cur a) DEFAULT_TIME_SLICE_TICKS (rr_alive a) (rr_queue a))) as (sw & s' & Hrun & Hm & Hqt & _);
      [done|by left|done|done|by eexists|].
    rewrite Hrun, Ret_bind. eexists. split; [done|]. split; [by destruct sw|].
    assert (quiet s s') as Hqs by (by eapply (undisturbed_trans s s1)). destruct sw; [done|]. by destruct Hqs.
  - replace (rr_left a - 1 =? 0) with false by lia. destruct (Hset (rr_left a - 1) ltac:(lia)) as (Hok1 & Hq1 & Hr1 & Hp1).
    rewrite Ret_bind. eexists. split; [done|]. split; [|by destruct Hq1]. split_and!; [by destruct Hok1|done|done|done|by eexists].
Qed.

Lemma exit_refines status s a : models s a → ∃ s', exit_current A status s = Ret s' ∧ models s' (rr_exit a) ∧ quiet s s'.
Proof.
  intros (Hok & Hif & Hq & Hal & p & Hp & Htk). unfold exit_current, disable_interrupts. cbv zeta.
  change (CURRENT (with_if false s)) with (CURRENT s). rewrite (so_current _ _ _ Hok).
  set (s1 := upd_proc (rr_cur a) (set_state Exited) (with_if false s)).
  assert (sched_ok A s1 (rr_cur a)) as Hok1.
  { apply sched_ok_alter; [by destruct Hok|by intros; repeat split|]. intros p1 Hp1. cbn in Hp1. rewrite Hp in Hp1. injection Hp1 as <-.
    destruct (so_run _ _ _ Hok) as (p0 & Hp0 & _ & _ & _ & Hb). rewrite Hp in Hp0. injection Hp0 as <-. split; [by right|done]. }
  assert (procs s1 !! rr_cur a = Some (set_state Exited p)) as Hp1 by (unfold s1, upd_proc; cbn; by rewrite list_lookup_alter_eq, Hp).
  assert (quiet s s1) as Hq1.
  { eapply (undisturbed_trans s (with_if false s)); [done|split; [done|done|done|intros r q Hr; exists q; done]|]. apply alter_quiet. by repeat split. }
  destruct (rotate_models FromCall s1 (mkRr (rr_cur a) (rr_left a) false (rr_queue a))) as (sw & s' & Hrun & Hm & Hqt & _);
    [done|done|done|unfold runs; cbn [rr_cur]; by rewrite Hp1|by eexists|].
  rewrite Hrun, Ret_bind. eexists. split; [done|]. split; [by destruct sw|].
  assert (quiet s s') as Hqs by (by eapply (undisturbed_trans s s1)). destruct sw; [done|]. by destruct Hqs.
Qed.

(** The events of a running system that create no process. *)
Definition run_event (e : event) (s : tasks (B := B)) : outcome tasks :=
  match e with
  | Tick => timer_interrupt A s
  | Yield => yield_now A s
  | Exit status => exit_current A status s
  | Spawned _ => Ret s
  end.
Definition spawns (e : event) : bool := match e with Spawned _ => true | _ => false end.

Lemma event_refines e s a :
  spawns e = false → models s a → ∃ s', run_event e s = Ret s' ∧ models s' (rr_step e a) ∧ quiet s s'.
Proof.
  intros He Hm. destruct e as [| |st|r]; [by apply tick_refines|by apply yield_refines|by apply exit_refines|done].
Qed.

Fixpoint run_events (es : list event) (s : tasks (B := B)) : outcome tasks :=
  match es with [] => Ret s | e :: es => s ← run_event e s; run_events es s end.

(** Control blocks stay where they are and keep what no event may change. *)
Definition blocks_kept (s s' : tasks (B := B)) : Prop :=
  ∀ r p, procs s !! r = Some p → ∃ q, procs s' !! r = Some q ∧ same_block p q.
#[global] Instance blocks_kept_po : PreOrder blocks_kept.
Proof.
  split; [intros s r p Hp; by exists p|]. intros s1 s2 s3 H1 H2 r p (q & Hq & Hpq)%H1.
  destruct (H2 r q Hq) as (q' & Hq' & Hqq). exists q'. split; [done|by etransitivity].
Qed.

Lemma events_refine_kept es s a :
  Forall (λ e, spawns e = false) es → models s a →
  ∃ s', run_events es s = Ret s' ∧ models s' (rr_run es a) ∧ blocks_kept s s'.
Proof.
  intros Hes. revert s a. induction Hes as [|e es He Hes IH]; intros s a Hm; [by exists s|].
  destruct (event_refines e s a He Hm) as (s1 & H1 & Hm1 & Hq). simpl. rewrite H1, Ret_bind.
  destruct (IH s1 _ Hm1) as (s' & H' & Hm' & Hk). exists s'. split_and!; [done|done|]. transitivity s1; [|done].
  intros r p Hp. destruct (qt_blocks _ _ Hq r p Hp) as (q & ? & ? & _). by exists q.
Qed.
Lemma events_refine es s a :
  Forall (λ e, spawns e = false) es → models s a → ∃ s', run_events es s = Ret s' ∧ models s' (rr_run es a).
Proof. intros Hes Hm. destruct (events_refine_kept es s a Hes Hm) as (s' & ? & ? & _). by exists s'. Qed.

(** C12: timer interrupts, [yield_now] and [exit_current] refine the abstract
    round-robin machine.  From a state with interrupts on that models it,
    each returns with interrupts on in a state that models the machine's next
    state: the process the machine chooses is current and has its page table
    in CR3 and its kernel stack in the TSS, nobody is queued twice, and no
    control block, saved register of another process, page table or frame has
    changed. *)
Theorem scheduler_refines e s a :
  spawns e = false → models s a →
  ∃ s', run_event e s = Ret s' ∧ models s' (rr_step e a) ∧ quiet s s'.
Proof. apply event_refines. Qed.

(** C17: no process starves.  Whatever mixture of timer interrupts, yields and
    exits follows, the process at position [k] of the queue has had the
    processor before [5 * k] ticks and the rest of the current slice are
    over. *)
Theorem no_starvation es s a r k :
  Forall (λ e, spawns e = false) es → models s a → READY_QUEUE s !! k = Some r → bound a k ≤ ticks_in es →
  ∃ es1 es2 s', es = es1 ++ es2 ∧ run_events es1 s = Ret s' ∧ CURRENT s' = Some r.
Proof.
  intros Hes Hm Hk Hb. pose proof Hm as (Hok & _ & Hq & _ & p & Hp & Htk). rewrite Hq in Hk.
  assert (rr_ok a) as Hra.
  { unfold rr_ok. destruct (so_run _ _ _ Hok) as (p0 & Hp0 & _ & _ & _ & ?). rewrite Hp in Hp0. injection Hp0 as <-. lia. }
  destruct (rr_no_starvation es a r k Hra Hk Hb) as (es1 & es2 & -> & Hr). apply Forall_app in Hes as [Hes1 _].
  destruct (events_refine es1 s a Hes1 Hm) as (s' & Hrun & Hm'). exists es1, es2, s'. split_and!; [done|done|].
  destruct Hm' as [Hok' _]. by rewrite (so_current _ _ _ Hok'), Hr.
Qed.

(** With the timer alone scheduling is exact round robin: at the start of
    a slice, the process at position [k] of the queue gets the processor with
    the tick number [5 * (k + 1)]. *)
Theorem round_robin s a r k :
  models s a → rr_left a = DEFAULT_TIME_SLICE_TICKS → READY_QUEUE s !! k = Some r →
  ∃ s', run_events (replicate (5 * S k) Tick) s = Ret s' ∧ CURRENT s' = Some r.
Proof.
  intros Hm Hl Hk. pose proof Hm as (_ & _ & Hq & _). rewrite Hq in Hk.
  destruct (events_refine (replicate (5 * S k) Tick) s a) as (s' & Hrun & Hm'); [by apply Forall_replicate|done|].
  exists s'. split; [done|]. destruct Hm' as [Hok' _]. by rewrite (so_current _ _ _ Hok'), (rr_round_robin a r k Hl Hk).
Qed.
End refine.
