(* ===== verification/System.v ===== *)
(** * The invariant of the running system

    Process table, run queue, page tables, page allocator and memory together:
    every process owns its frames alone, tables and owned frames are never
    free, and whoever waits can go on. *)

From S2P Require Import Prelude Bytes Buddy Address Paging PagingInv PagingMap PagingPlan PagingCorrect PagingInit ProcLayout Elf Proc SpaceBuild Spawn SpawnView Sched SchedCorrect.
Local Open Scope Z_scope.
Local Open Scope paging_scope.

Section system.
Context `{FS : FrameSource B, FL : !FrameLaws B}.
Context (A : addresses) (HA : addresses_ok A) (Hboot : low_range (bootdata A)).

(** The kernel's root and those of the user processes. *)
Definition user_roots (ps : list Proc) : list Z := pagetable <$> filter (λ p, kind p = UserProc) ps.
Definition roots (s : tasks (B := B)) : list Z := KERNEL_PML4 (pg s) :: user_roots (procs s).

(** The frames of a process; the boot process has none of its own. *)
Definition owns (p : Proc) (j : Z) : Prop :=
  (pid p ≠ 0 ∧ block_frame (kstack_phys p) 2 j) ∨
  (∃ c, user_code_phys p = Some c ∧ block_frame c 0 j) ∨
  (∃ u, user_stack_phys p = Some u ∧ block_frame u 1 j).

Record block_ok (p : Proc) : Prop := {
  bk_stack : pid p ≠ 0 → kstack_top p = kstack_phys p + KERNEL_VMA + KERNEL_STACK_SIZE ∧ (4 * PAGE_SIZE | kstack_phys p);
  bk_frame : ∀ tf, trap_frame p = Some tf → pid p ≠ 0 ∧ tf = kstack_top p - TRAP_FRAME_SIZE;
}.

(** Before [init]: no process yet, the kernel's table and stack in use. *)
Definition booting (s : tasks (B := B)) : Prop :=
  procs s = [] ∧ READY_QUEUE s = [] ∧ pendings s = [] ∧
  CR3 s = switch_cr3 (KERNEL_PML4 (pg s)) ∧ rsp0 s = ring0_stack_top A.

Record system (s : tasks (B := B)) : Prop := {
  sy_paging : paging_ok (pg s) (roots s);
  sy_kernel : KERNEL_PML4 (pg s) ≠ 0;
  sy_sched : match CURRENT s with Some c => sched_ok A s c | None => booting s end;
  sy_next : 0 < NEXT_PID s;
  sy_pids : ∀ i p, procs s !! i = Some p →
    pid p < NEXT_PID s ∧ ∀ j q, (i < j)%nat → procs s !! j = Some q → pid p < pid q;
  sy_blocks : ∀ i p, procs s !! i = Some p → block_ok p;
  sy_owned : ∀ i p j, procs s !! i = Some p → owns p j → data_page (roots s) (pg s) (j * PAGE_SIZE);
  sy_disjoint : ∀ i k p q j, i ≠ k → procs s !! i = Some p → procs s !! k = Some q → owns p j → owns q j → False;
}.

Lemma elem_of_roots s r : r ∈ roots s ↔ r = KERNEL_PML4 (pg s) ∨ ∃ i p, procs s !! i = Some p ∧ kind p = UserProc ∧ pagetable p = r.
Proof.
  unfold roots, user_roots. rewrite elem_of_cons, list_elem_of_fmap. setoid_rewrite list_elem_of_filter. setoid_rewrite list_elem_of_lookup.
  naive_solver.
Qed.

(** ** The first process *)

Lemma init_system s :
  system s →
  ∃ c s1, init A s = Ret s1 ∧ system s1 ∧ CURRENT s1 = Some c ∧ pg s1 = pg s ∧ NEXT_PID s1 = NEXT_PID s ∧
    IF s1 = IF s ∧ READY_QUEUE s1 = READY_QUEUE s ∧ roots s1 = roots s ∧ (CURRENT s = Some c → s1 = s) ∧
    (∀ i p, procs s !! i = Some p → procs s1 !! i = Some p) ∧
    (∀ i p, procs s1 !! i = Some p → procs s !! i = Some p ∨ kind p = KernelProc).
Proof.
  intros Hsys. unfold init. destruct (CURRENT s) as [c|] eqn:Hc.
  { exists c, s. split_and!; [done..|]. by left. }
  pose proof Hsys as [Hp Hk Hs Hn Hpids Hbl Hown Hdis]. rewrite Hc in Hs. destruct Hs as (Eps & Eq & Ep & Ecr & Er0).
  unfold kernel_pml4. replace (KERNEL_PML4 (pg s) =? 0) with false by lia. cbn [negb assert_that]. rewrite !Ret_bind.
  set (boot := mkProc 0 Running Context_new (KERNEL_PML4 (pg s)) 0 (ring0_stack_top A) KernelProc DEFAULT_TIME_SLICE_TICKS None None None None).
  cbn [new_proc]. rewrite Eps, Ep. cbn [length app]. eexists 0%nat, _. split; [done|].
  assert (∀ i p, [boot] !! i = Some p → i = 0%nat ∧ p = boot) as Hone.
  { intros [|i] p; [by intros [= <-]|done]. }
  assert (∀ j, ¬ owns boot j) as Hno.
  { intros j [[? _]|[(c & ? & _)|(u & ? & _)]]; done. }
  split_and!; [|done|done|done|done|done|by unfold roots; rewrite ?Eps|done|by rewrite ?Eps|by intros i p [-> ->]%Hone; right].
  split; cbn [pg procs CURRENT NEXT_PID write_current with_pendings with_procs]; [by unfold roots in *; rewrite Eps in Hp|done| |done| | | |].
  - split; cbn; [done|done| |rewrite Eq; apply NoDup_singleton|rewrite Eq; by intros r ?%elem_of_nil| |rewrite Eq; by intros r ?%elem_of_nil].
    + exists boot. split_and!; [done|by left|done|done|done|done].
    + intros r p [-> _]%Hone Hr. exfalso. apply Hr. by left.
  - intros i p [-> ->]%Hone. split; [done|]. intros j q Hj [-> _]%Hone. lia.
  - intros i p [-> ->]%Hone. by split.
  - intros i p j [-> ->]%Hone Ho. by destruct (Hno j).
  - intros i k p q j Hik [-> ->]%Hone [-> ->]%Hone. done.
Qed.

(** ** Events that create no process *)

Lemma owns_same p q j : same_block p q → owns q j → owns p j.
Proof. intros (E1 & _ & E3 & _ & _ & _ & _ & E8 & E9). unfold owns. by rewrite E1, E3, E8, E9. Qed.

Lemma system_quiet s s' c :
  system s → sched_ok A s' c → quiet s s' → system s'.
Proof.
  intros [Hp Hk _ Hn Hpids Hbl Hown Hdis] Hs [Epg Epid Elen Hb].
  assert (∀ i q, procs s' !! i = Some q → ∃ p, procs s !! i = Some p ∧ same_block p q) as Hback.
  { intros i q Hq. destruct (lookup_lt_is_Some_2 (procs s) i) as [p Hpi]; [rewrite <- Elen; by eapply lookup_lt_Some|].
    destruct (Hb i p Hpi) as (q' & Hq' & Hsb & _). exists p. split; [done|]. congruence. }
  assert (roots s' ⊆ roots s) as Hroots.
  { intros r. rewrite !elem_of_roots, Epg. intros [?|(i & q & Hq & Hkq & <-)]; [by left|right].
    destruct (Hback i q Hq) as (p & Hpi & (_ & E2 & _ & _ & E5 & _)). exists i, p. split_and!; [done|congruence|done]. }
  assert (∀ x, data_page (roots s) (pg s) x → data_page (roots s') (pg s') x) as Hdata.
  { intros x [Hnt Hnf]. rewrite Epg. split; [|done]. intros r q Hr. by apply Hnt, Hroots. }
  split; [rewrite Epg; by eapply paging_ok_subset|by rewrite Epg|by rewrite (so_current _ _ _ Hs)|by rewrite Epid| | | |].
  - intros i q Hq. destruct (Hback i q Hq) as (p & Hpi & (E1 & _)). rewrite E1, Epid. destruct (Hpids i p Hpi) as [? Hlt]. split; [done|].
    intros j q2 Hij Hq2. destruct (Hback j q2 Hq2) as (p2 & Hp2 & (E2 & _)). rewrite E2. by apply (Hlt j).
  - intros i q Hq. destruct (Hback i q Hq) as (p & Hpi & (E1 & _ & E3 & E4 & _ & _ & E7 & _)). destruct (Hbl i p Hpi) as [B1 B2].
    split; [rewrite E1, E3, E4; exact B1|rewrite E1, E4, E7; exact B2].
  - intros i q j Hq Ho. destruct (Hback i q Hq) as (p & Hpi & Hsb). eapply Hdata, Hown; [exact Hpi|by eapply owns_same].
  - intros i k q1 q2 j Hne H1 H2 O1 O2. destruct (Hback i q1 H1) as (p1 & Hp1 & Hs1). destruct (Hback k q2 H2) as (p2 & Hp2 & Hs2).
    by apply (Hdis i k p1 p2 j Hne Hp1 Hp2); eapply owns_same.
Qed.

(** ** A new process *)

(** What [new_proc] and [push_ready] make of the state. *)
Definition joined (p : Proc) (pg' : paging) (s : tasks (B := B)) : nat * tasks (B := B) :=
  let '(r, s1) := new_proc p (with_pg pg' s) in (r, push_ready r s1).

Record admissible (s : tasks (B := B)) (p : Proc) (pg' : paging) (rs' : list Z) : Prop := {
  ad_paging : paging_ok pg' rs';
  ad_roots : ∀ r, r ∈ KERNEL_PML4 pg' :: user_roots (procs s ++ [p]) → r ∈ rs';
  ad_kernel : KERNEL_PML4 pg' = KERNEL_PML4 (pg s);
  ad_data : ∀ x, data_page (roots s) (pg s) x → pg_mem pg' x = pg_mem (pg s) x ∧ data_page rs' pg' x;
  ad_frames : ∀ j, owns p j → pg_free (pg s) j ∧ data_page rs' pg' (j * PAGE_SIZE);
  ad_block : block_ok p;
  ad_state : state p = Ready;
  ad_start : (c_rip (context p) = kernel_task_bootstrap A ∧ is_Some (entry p)) ∨
    (c_rip (context p) = user_task_bootstrap A ∧ ∃ tf rflags, trap_frame p = Some tf ∧
       kload (tf + 136) (pg_mem pg') = Some rflags ∧ Z.testbit rflags RFLAGS_IF = true);
}.

(** The flags word of a trap frame lies in its process's kernel stack. *)
Lemma frame_word p tf i :
  block_ok p → trap_frame p = Some tf → (i < 20)%nat →
  ∃ j, owns p j ∧ ∀ m, kload (tf + 8 * Z.of_nat i) m = m (j * PAGE_SIZE) !! (492 + i)%nat.
Proof.
  intros [B1 B2] Htf Hi. destruct (B2 tf Htf) as [Hpid ->]. destruct (B1 Hpid) as [-> [n Hn]].
  exists (kstack_phys p / PAGE_SIZE + 3). split.
  - left. split; [done|]. unfold block_frame. change (2 ^ 2) with 4. lia.
  - intros m. rewrite Hn. replace (n * (4 * PAGE_SIZE)) with (n * 4 * PAGE_SIZE) by lia. rewrite Z.div_mul by done.
    rewrite <- (kload_page m ((n * 4 + 3) * PAGE_SIZE) (492 + i)) by (by exists (n * 4 + 3) || lia).
    f_equal. unfold KERNEL_STACK_SIZE, TRAP_FRAME_SIZE. change (Z.shiftl 1 KERNEL_STACK_ORDER * PAGE_SIZE) with 16384. unfold PAGE_SIZE. lia.
Qed.

(** Page tables, free frames and memory may change around the processes. *)
Lemma system_pg s c pg' rs' :
  system s → CURRENT s = Some c → paging_ok pg' rs' → roots s ⊆ rs' → KERNEL_PML4 pg' = KERNEL_PML4 (pg s) →
  (∀ x, data_page (roots s) (pg s) x → pg_mem pg' x = pg_mem (pg s) x ∧ data_page rs' pg' x) → system (with_pg pg' s).
Proof.
  intros [Hp Hk Hs Hn Hpids Hbl Hown Hdis] Hc Hpg Hsub Hker Hdata. rewrite Hc in Hs.
  assert (roots (with_pg pg' s) = roots s) as Er by (unfold roots; cbn; by rewrite Hker).
  split; [|by cbn; rewrite Hker| |done|done|done| |done].
  - rewrite Er. by eapply paging_ok_subset.
  - cbn. rewrite Hc. destruct Hs as [S1 S2 S3 S4 S5 S6 S7]. split; [done..|]. intros r Hr.
    destruct (S7 r Hr) as (q & w & Hq & Hw & Hres). exists q, w. split_and!; [done|done|]. destruct w; [|done].
    destruct Hres as [?|(Hrip & tf & rf & Htf & Hld & Hbit)]; [by left|right]. split; [done|]. exists tf, rf. split_and!; [done| |done].
    destruct (frame_word q tf 17 (Hbl r q Hq) Htf ltac:(lia)) as (j & Hj & Hkl). change (8 * Z.of_nat 17) with 136 in Hkl.
    rewrite Hkl in Hld |- *. cbn. destruct (Hdata (j * PAGE_SIZE)) as [-> _]; [by eapply Hown|done].
  - intros i p j Hpi Ho. rewrite Er. destruct (Hdata _ (Hown i p j Hpi Ho)) as [_ [Hnt Hnf]]. split; [|done].
    intros r q Hr. by apply Hnt, Hsub.
Qed.

Lemma joined_lookup s p pg' i :
  state p = Ready → procs (joined p pg' s).2 !! i = (procs s ++ [p]) !! i.
Proof.
  intros Hst. cbn. destruct (decide (i = length (procs s))) as [->|Hne].
  - rewrite list_lookup_alter_eq, list_lookup_middle by done. simpl. destruct p; simpl in *; by subst.
  - by rewrite list_lookup_alter_ne by done.
Qed.
Lemma joined_procs s p pg' : state p = Ready → procs (joined p pg' s).2 = procs s ++ [p].
Proof. intros Hst. apply list_eq. intros i. by apply joined_lookup. Qed.

Lemma lookup_snoc {X} (l : list X) x i y : (l ++ [x]) !! i = Some y → l !! i = Some y ∨ (i = length l ∧ y = x).
Proof.
  intros H. apply lookup_app_Some in H as [?|[Hle H]]; [by left|right].
  destruct (i - length l)%nat as [|k] eqn:E; [|done]. simpl in H. split; [lia|congruence].
Qed.

Section join.
Context (s : tasks (B := B)) (c : nat) (p : Proc) (pg' : paging (B := B)) (rs' : list Z).
Context (Hsys : system s) (Hcur : CURRENT s = Some c) (Had : admissible s p pg' rs').
Context (Hpid : 0 < pid p < NEXT_PID s) (Hmax : ∀ i q, procs s !! i = Some q → pid q < pid p).
Let s' := (joined p pg' s).2.
Let r := length (procs s).

Lemma join_procs : procs s' = procs s ++ [p].
Proof. apply joined_procs, Had. Qed.

(** The waiting processes still can go on: their trap frames are untouched. *)
Lemma join_resumable i : i ∈ READY_QUEUE s ++ [r] → can_resume A s' i.
Proof.
  destruct Hsys as [_ _ Hsch _ _ Hbl Hown _]. rewrite Hcur in Hsch. intros [Hi|Hi]%elem_of_app.
  - destruct (so_wait _ _ _ Hsch i Hi) as (q & w & Hq & Hw & Hres). exists q, w. rewrite join_procs. split_and!.
    + by apply lookup_app_l_Some.
    + cbn. by apply lookup_app_l_Some.
    + destruct w; [|done]. destruct Hres as [?|(Hrip & tf & rf & Htf & Hld & Hbit)]; [by left|right]. split; [done|].
      exists tf, rf. split_and!; [done| |done]. destruct (frame_word q tf 17 (Hbl i q Hq) Htf ltac:(lia)) as (j & Hj & Hk).
      change (8 * Z.of_nat 17) with 136 in Hk. rewrite Hk in Hld |- *. change (pg_mem (pg s')) with (pg_mem pg').
      destruct (ad_data _ _ _ _ Had (j * PAGE_SIZE)) as [-> _]; [by eapply Hown|done].
  - apply list_elem_of_singleton in Hi as ->. exists p, NotStarted. rewrite join_procs. split_and!.
    + unfold r. by rewrite list_lookup_middle.
    + cbn. unfold r. rewrite <- (so_len _ _ _ Hsch). by rewrite list_lookup_middle.
    + apply (ad_start _ _ _ _ Had).
Qed.

Lemma join_sched : sched_ok A s' c.
Proof.
  pose proof Hsys as [_ _ Hsch _ _ _ _ _]. rewrite Hcur in Hsch. pose proof Hsch as [Hlen _ (pc & Hpc & Hrest0) Hnd Hready Hrest Hwait].
  assert (r ∉ c :: READY_QUEUE s) as Hr.
  { rewrite not_elem_of_cons. split; [intros <-; apply lookup_lt_Some in Hpc; lia|]. intros Hin.
    destruct (Hready _ Hin) as (q & Hq & _). apply lookup_lt_Some in Hq. unfold r in Hq. lia. }
  split.
  - rewrite join_procs. cbn. rewrite !length_app. simpl. lia.
  - done.
  - exists pc. rewrite join_procs. split; [by apply lookup_app_l_Some|]. done.
  - change (READY_QUEUE s') with (READY_QUEUE s ++ [r]). change (c :: READY_QUEUE s ++ [r]) with ((c :: READY_QUEUE s) ++ [r]).
    apply NoDup_app. split_and!; [done|intros x Hx ->%list_elem_of_singleton; done|apply NoDup_singleton].
  - change (READY_QUEUE s') with (READY_QUEUE s ++ [r]). intros i [Hi|Hi]%elem_of_app; rewrite join_procs.
    + destruct (Hready i Hi) as (q & Hq & ?). exists q. split; [by apply lookup_app_l_Some|done].
    + apply list_elem_of_singleton in Hi as ->. exists p. split; [unfold r; by rewrite list_lookup_middle|apply Had].
  - change (READY_QUEUE s') with (READY_QUEUE s ++ [r]). intros i q Hq Hi. rewrite join_procs in Hq.
    rewrite not_elem_of_cons, not_elem_of_app in Hi. destruct Hi as (Hic & Hiq & Hir).
    apply lookup_snoc in Hq as [Hq|[-> ->]]; [|exfalso; apply Hir; by left].
    apply (Hrest i q Hq). by rewrite not_elem_of_cons.
  - exact join_resumable.
Qed.

Lemma join_system : system s'.
Proof.
  pose proof Hsys as [_ Hk0 _ Hn Hpids Hbl Hown Hdis].
  assert (∀ x, x ∈ roots s' → x ∈ rs') as Hroots.
  { intros x Hx. apply (ad_roots _ _ _ _ Had). unfold roots in Hx. by rewrite join_procs in Hx. }
  assert (∀ x, data_page rs' pg' x → data_page (roots s') (pg s') x) as Hdata.
  { intros x [Hnt Hnf]. split; [|done]. intros y q Hy. by apply Hnt, Hroots. }
  split.
  - eapply paging_ok_subset; [exact Hroots|]. apply Had.
  - change (pg s') with pg'. by rewrite (ad_kernel _ _ _ _ Had).
  - change (CURRENT s') with (CURRENT s). rewrite Hcur. apply join_sched.
  - exact Hn.
  - change (NEXT_PID s') with (NEXT_PID s). rewrite join_procs. intros i q [Hq|[-> ->]]%lookup_snoc.
    + destruct (Hpids i q Hq) as [? Hlt]. split; [done|]. intros j q2 Hj [Hq2|[-> ->]]%lookup_snoc; [by apply (Hlt j)|by apply (Hmax i)].
    + split; [lia|]. intros j q2 Hj [Hq2|[-> ->]]%lookup_snoc; [apply lookup_lt_Some in Hq2; lia|lia].
  - rewrite join_procs. intros i q [Hq|[-> ->]]%lookup_snoc; [by apply (Hbl i)|apply Had].
  - rewrite join_procs. intros i q j [Hq|[-> ->]]%lookup_snoc Ho; apply Hdata.
    + apply (ad_data _ _ _ _ Had). by eapply Hown.
    + by apply (ad_frames _ _ _ _ Had).
  - assert (∀ i q j, procs s !! i = Some q → owns q j → owns p j → False) as Hnew.
    { intros i q j Hq Hoq Hop. destruct (ad_frames _ _ _ _ Had j Hop) as [Hf _]. destruct (Hown i q j Hq Hoq) as [_ Hnf].
      rewrite Z.div_mul in Hnf by done. done. }
    rewrite join_procs. intros i k q1 q2 j Hne [H1|[-> ->]]%lookup_snoc [H2|[-> ->]]%lookup_snoc O1 O2; [by eapply Hdis|by eapply Hnew..|done].
Qed.
End join.
End system.
