(* ===== verification/SpawnCorrect.v ===== *)
(** * Correctness of process creation and of the running system *)

From S2P Require Import Prelude Bytes Links Buddy BuddyInv BuddyOps BuddyInit BuddyCorrect Address Paging PagingInv PagingMap PagingPlan PagingCorrect PagingInit ProcLayout Elf ElfCorrect Proc SpaceBuild Spawn SpawnView Sched SchedCorrect System.
Local Open Scope Z_scope.
Local Open Scope paging_scope.

Section correct.
Context `{FS : FrameSource B, FL : !FrameLaws B}.
Context (A : addresses) (HA : addresses_ok A) (Hboot : low_range (bootdata A)).

(** ** The last part of process creation *)

Definition user_proc (id u k c st krsp : Z) : Proc :=
  mkProc id Ready (mkContext 0 0 0 0 0 0 krsp (user_task_bootstrap A)) u k (k + KERNEL_VMA + KERNEL_STACK_SIZE) UserProc
    DEFAULT_TIME_SLICE_TICKS None (Some (k + KERNEL_VMA + KERNEL_STACK_SIZE - TRAP_FRAME_SIZE)) (Some c) (Some st).

(** The new process, its memory, and what it starts with. *)
Record entered (s : tasks (B := B)) (rs : list Z) (u k c st v top rip rsp : Z) (code : bytes) (p : Proc) (pg' : paging (B := B)) : Prop := {
  en_built : built A rs (pg s) pg' u k c st v top code;
  en_frame : ∀ i, (i < 20)%nat →
    kload (k + KERNEL_VMA + KERNEL_STACK_SIZE - TRAP_FRAME_SIZE + 8 * Z.of_nat i) (pg_mem pg') = tf_words (new_user rip rsp) !! i;
  en_proc : ∃ id krsp, p = user_proc id u k c st krsp ∧ krsp = k + KERNEL_VMA + KERNEL_STACK_SIZE - TRAP_FRAME_SIZE;
}.

Lemma built_wrote rs p p1 p2 u k c st v top code :
  built A rs p p1 u k c st v top code → wrote (u :: rs) p1 p2 (k + 3 * PAGE_SIZE) → built A rs p p2 u k c st v top code.
Proof.
  intros Hb [W1 W2 W3 W4 W5 W6 W7 W8]. pose proof Hb as [B1 B2 B3 B4 B5 B6 B7 B8 B9 B10 B11 B12 B13].
  set (x := k + 3 * PAGE_SIZE) in *. assert (block_frame k 2 (x / PAGE_SIZE) ∧ x / PAGE_SIZE * PAGE_SIZE = x) as [Hx Ex].
  { destruct B7 as [[n ->] _]. unfold x. replace (n * (4 * PAGE_SIZE) + 3 * PAGE_SIZE) with ((n * 4 + 3) * PAGE_SIZE) by lia.
    rewrite Z.div_mul by done. split; [|done]. unfold block_frame. replace (n * (4 * PAGE_SIZE)) with (n * 4 * PAGE_SIZE) by lia.
    rewrite Z.div_mul by done. change (2 ^ 2) with 4. lia. }
  split; [done|congruence|done| | |done|done|done|done| | | |].
  - intros y Hy. destruct (B4 y Hy) as [E X]. split; [|by apply W6]. rewrite W7; [done|]. intros ->.
    destruct (B5 _ (or_introl Hx)) as [Hf _]. destruct Hy as [_ Hnf]. done.
  - intros j Hj. destruct (B5 j Hj). split; [done|by apply W6].
  - rewrite W7; [done|]. intros E. destruct (B6 (c / PAGE_SIZE)) as [Hd _]. apply Hd.
    + by rewrite E.
    + unfold block_frame. change (2 ^ 0) with 1. lia.
  - intros w. rewrite W4 by (by left). apply B11.
  - intros r w Hr. rewrite W4 by (by right). by apply B12.
  - intros n Hn. by apply W8, B13.
Qed.

Lemma enter_queue_spec s p3 rs u k c st v top code id rip rsp :
  built A rs (pg s) p3 u k c st v top code →
  ∃ p pg', enter_queue A id u k c st rip rsp (with_pg p3 s) = Ret (joined p pg' s) ∧ pid p = id ∧
    entered s rs u k c st v top rip rsp code p pg'.
Proof.
  intros Hb. pose proof Hb as [B1 _ _ _ B5 _ B7 _ _ _ _ _ _]. destruct B7 as (Hkd & Hk0 & Hk1). unfold PAGE_SIZE in Hk1.
  assert (k + KERNEL_VMA ≤ usize_max ∧ k + KERNEL_VMA + KERNEL_STACK_SIZE ≤ usize_max) as [U1 U2].
  { change KERNEL_STACK_SIZE with 16384. unfold KERNEL_VMA, usize_max. lia. }
  unfold enter_queue. rewrite uadd_ok, Ret_bind by exact U1. rewrite uadd_ok, Ret_bind by exact U2.
  set (ktop := k + KERNEL_VMA + KERNEL_STACK_SIZE).
  assert (ktop = k + KERNEL_VMA + 16384) as Ek by reflexivity.
  rewrite usub_ok, Ret_bind by (unfold TRAP_FRAME_SIZE; unfold KERNEL_VMA in Ek; lia). cbv zeta. cbn [pg with_pg].
  set (tf := ktop - TRAP_FRAME_SIZE). assert (ProcLayout.align_down tf 16 = Ret tf) as Hal.
  { unfold ProcLayout.align_down. rewrite usub_ok, Ret_bind by done. change (16 - 1) with (2 ^ 4 - 1).
    rewrite land_align by (unfold tf, TRAP_FRAME_SIZE, usize_max, KERNEL_VMA in *; lia). f_equal.
    assert (tf mod 2 ^ 4 = 0) as ->; [|lia]. apply Z.mod_divide; [done|]. destruct Hkd as [n ->].
    exists (n * 1024 + 0xFFFF80000000000 + 1014). unfold tf, TRAP_FRAME_SIZE. rewrite Ek. change (2 ^ 4) with 16. unfold PAGE_SIZE, KERNEL_VMA. lia. }
  rewrite Hal, Ret_bind.
  set (x := k + 3 * PAGE_SIZE). assert (tf = x + KERNEL_VMA + 8 * Z.of_nat 492) as Etf.
  { unfold tf, TRAP_FRAME_SIZE, x, PAGE_SIZE. rewrite Ek. lia. }
  assert (PAGE_SIZE | x) as Hxd.
  { destruct Hkd as [n ->]. exists (n * 4 + 3). unfold x. lia. }
  assert (block_frame k 2 (x / PAGE_SIZE) ∧ x / PAGE_SIZE * PAGE_SIZE = x) as [Hxb Ex].
  { destruct Hkd as [n ->]. unfold x. replace (n * (4 * PAGE_SIZE) + 3 * PAGE_SIZE) with ((n * 4 + 3) * PAGE_SIZE) by lia.
    rewrite Z.div_mul by done. split; [|done]. unfold block_frame. replace (n * (4 * PAGE_SIZE)) with (n * 4 * PAGE_SIZE) by lia.
    rewrite Z.div_mul by done. change (2 ^ 2) with 4. lia. }
  destruct (B5 _ (or_introl Hxb)) as [_ Hxdata]. rewrite Ex in Hxdata.
  pose proof (kstores_wrote (u :: rs) p3 x 492 (tf_words (new_user rip rsp)) B1 Hxdata Hxd ltac:(simpl; lia)) as Hw.
  rewrite <- Etf in Hw. set (pg' := mkPaging (kstores tf _ (pg_mem p3)) (pg_buddy p3) (KERNEL_PML4 p3)) in *.
  exists (user_proc id u k c st tf), pg'. split_and!; [done|done|]. split.
  - by eapply built_wrote.
  - intros i Hi. fold ktop. fold tf. rewrite Etf. replace (x + KERNEL_VMA + 8 * Z.of_nat 492 + 8 * Z.of_nat i) with (x + KERNEL_VMA + 8 * Z.of_nat (492 + i)) by lia.
    rewrite kload_page by (done || lia). unfold pg'. cbn [pg_mem]. rewrite Etf, kstores_page by (done || simpl; lia).
    rewrite decide_True by done. rewrite list_lookup_inserts by (simpl; first [lia | destruct B1 as (b & _ & _ & Hsp); rewrite (sp_len _ _ _ Hsp); lia]).
    f_equal. lia.
  - exists id, tf. done.
Qed.

Lemma entered_admissible s u k c st v top rip rsp code p pg' :
  entered s (roots s) u k c st v top rip rsp code p pg' → pid p ≠ 0 → admissible A s p pg' (u :: roots s).
Proof.
  intros [[B1 B2 B3 B4 B5 _ B7 _ _ _ _ _ _] Hfr (id & krsp & -> & ->)] Hid. split.
  - done.
  - intros x. rewrite elem_of_cons. unfold user_roots. rewrite filter_app, fmap_app, elem_of_app.
    rewrite filter_cons, filter_nil, decide_True by done. cbn [fmap list_fmap pagetable user_proc]. rewrite list_elem_of_singleton, elem_of_cons. unfold roots. rewrite elem_of_cons, B2. unfold user_roots. tauto.
  - done.
  - done.
  - intros j Hj. apply B5. unfold owns in Hj. cbn in Hj. unfold user_frames. naive_solver.
  - split; cbn; [intros _; split; [done|apply B7]|]. intros tf [= <-]. done.
  - done.
  - right. split; [done|]. eexists _, 0x202. split_and!; [done| |done]. apply (Hfr 17%nat). lia.
Qed.

(** ** The effect of a successful creation *)

Record user_spawned (s s' : tasks (B := B)) (r : nat) (v top rip : Z) (code : bytes) : Prop := {
  us_system : system A s';
  us_if : IF s' = IF s;
  us_next : NEXT_PID s' = NEXT_PID s + 1;
  us_queue : READY_QUEUE s' = READY_QUEUE s ++ [r];
  us_current : ∃ c, CURRENT s' = Some c ∧ (CURRENT s = Some c ∨ CURRENT s = None);
  us_old : ∀ i p, procs s !! i = Some p → procs s' !! i = Some p;
  us_only : ∀ i p, procs s' !! i = Some p → procs s !! i = Some p ∨ kind p = KernelProc ∨ i = r;
  us_kernel : KERNEL_PML4 (pg s') = KERNEL_PML4 (pg s);
  us_spaces : ∀ x w, x ∈ roots s → translate (pg_mem (pg s')) x w = translate (pg_mem (pg s)) x w;
  us_room : ∀ n, room (pg s) (n + (13 + length (tables (boot_plan A)))) → room (pg s') n;
  us_new : ∃ p c st tf, procs s' !! r = Some p ∧ procs s !! r = None ∧ pid p = NEXT_PID s ∧ kind p = UserProc ∧ state p = Ready ∧
    user_code_phys p = Some c ∧ user_stack_phys p = Some st ∧ trap_frame p = Some tf ∧ pagetable p ∉ roots s ∧
    ((PAGE_SIZE | c) ∧ (2 * PAGE_SIZE | st)) ∧ (∀ j, owns p j → pg_free (pg s) j) ∧
    (∀ w, low_addr w → translate (pg_mem (pg s')) (pagetable p) w = user_view A v c top st w) ∧
    (∀ w, high_addr w → translate (pg_mem (pg s')) (pagetable p) w = translate (pg_mem (pg s)) (KERNEL_PML4 (pg s)) w) ∧
    (∀ i, 0 ≤ i < PAGE_SIZE → read_byte (pg_mem (pg s')) (c + i) = page_of code !! Z.to_nat i) ∧
    (∀ i, (i < 20)%nat → kload (tf + 8 * Z.of_nat i) (pg_mem (pg s')) = tf_words (new_user rip top) !! i);
}.

Lemma high_not_low w : high_addr w → low_half w = false.
Proof.
  intros Hw. unfold low_half. apply Z.ltb_ge. pose proof (vpn_high w Hw) as [_ H]. rewrite vpn_digits in H.
  pose proof (idx_range w 39) as H1. pose proof (idx_range w 30) as H2. pose proof (idx_range w 21) as H3. pose proof (idx_range w 12) as H4.
  fold (Mapper.pml4_idx w) in H1. fold (Mapper.pdpt_idx w) in H2. fold (Mapper.pd_idx w) in H3. fold (Mapper.pt_idx w) in H4. lia.
Qed.
Lemma low_is_low w : low_addr w → low_half w = true.
Proof. intros Hw. apply Z.ltb_lt. by apply low_addr_idx. Qed.

(** The state in which the new process is entered: [s1] is [s] after [init],
    with the next process id taken. *)
Lemma spawned_from s s1 c0 u k c st v top rip code p pg' :
  system A s1 → CURRENT s1 = Some c0 → pid p = NEXT_PID s1 - 1 → 0 < pid p → (∀ i q, procs s1 !! i = Some q → pid q < pid p) →
  entered s1 (roots s1) u k c st v top rip top code p pg' →
  low_addr v → USER_STACK_SIZE ≤ top < 2 ^ 47 → (PAGE_SIZE | top) → zlen code ≤ PAGE_SIZE →
  (∀ i q, procs s !! i = Some q → procs s1 !! i = Some q) → (∀ i q, procs s1 !! i = Some q → procs s !! i = Some q ∨ kind q = KernelProc) →
  pg s1 = pg s → roots s1 = roots s → IF s1 = IF s →
  READY_QUEUE s1 = READY_QUEUE s → pid p = NEXT_PID s → (CURRENT s = Some c0 ∨ CURRENT s = None) →
  user_spawned s (joined p pg' s1).2 (joined p pg' s1).1 v top rip code.
Proof.
  intros Hsys Hcur Hp1 Hp0 Hmax Hen Hv Htop Hal Hlen Hold Honly Epg Eroots Eif Eq Epid Hc0.
  pose proof (entered_admissible _ _ _ _ _ _ _ _ _ _ _ _ Hen ltac:(lia)) as Had.
  pose proof (join_system A s1 c0 p pg' _ Hsys Hcur Had ltac:(lia) Hmax) as Hsys'.
  pose proof Hen as [[B1 B2 B3 B4 B5 B6 B7 B8 B9 B10 B11 B12 B13] Hfr (id & krsp & -> & ->)].
  pose proof (sy_paging _ _ Hsys) as (b1 & _ & _ & Hsp1). destruct B1 as (b' & Hb' & Hok' & Hsp').
  assert (Hk : KERNEL_PML4 (pg s1) ∈ roots s1) by (by left).
  split.
  - done.
  - done.
  - cbn in *. lia.
  - cbn. by rewrite Eq.
  - exists c0. done.
  - intros i q Hq. rewrite joined_lookup by done. apply lookup_app_l_Some. by apply Hold.
  - intros i q. rewrite joined_lookup by done. intros [Hq|[-> ->]]%lookup_snoc; [|by right; right]. destruct (Honly i q Hq); auto.
  - cbn. congruence.
  - intros x w Hx. rewrite <- Eroots in Hx. cbn [pg joined new_proc push_ready with_queue upd_proc with_procs with_pendings with_pg snd].
    rewrite (translate_leaf _ _ _ x w Hsp') by (by right). rewrite B12 by done. rewrite <- Epg. by rewrite (translate_leaf _ _ _ x w Hsp1 Hx).
  - intros n. rewrite <- Epg. apply B13.
  - eexists _, c, st, _. split; [rewrite joined_lookup by done; cbn; by rewrite list_lookup_middle|].
    split_and!; try done; try (cbn; done).
    + destruct (procs s !! _) as [q|] eqn:E; [|done]. apply Hold in E. apply lookup_lt_Some in E. cbn in E. lia.
    + by rewrite <- Eroots.
    + apply B8.
    + apply B9.
    + intros j Hj. rewrite <- Epg. by apply (ad_frames _ _ _ _ _ Had).
    + intros w Hw. cbn. rewrite (translate_leaf _ _ _ u w Hsp') by (by left). rewrite B11, low_is_low by done.
      apply (plan_low A Hboot v c top st); [done|..|done|done|done].
      * destruct B8 as (? & ? & ?). split_and!; [done|done|unfold PAGE_SIZE in *; lia].
      * destruct B9 as ([x ->] & ? & ?). split_and!; [done|exists (x * 2); lia|unfold PAGE_SIZE in *; lia].
      * destruct B9 as ([x ->] & ? & ?). split_and!; [unfold PAGE_SIZE in *; lia|exists (x * 2 + 1); lia|unfold PAGE_SIZE in *; lia].
    + intros w Hw. cbn. rewrite (translate_leaf _ _ _ u w Hsp') by (by left). rewrite B11, high_not_low by done.
      rewrite (plan_high A Hboot) by done. rewrite <- Epg. by rewrite (translate_leaf _ _ _ _ w Hsp1 Hk).
    + intros i Hi. cbn. apply read_page; [apply B8|by apply length_page_of|done|done].
Qed.

(** ** Taking a process id *)

Lemma fetch_system s : system A s → NEXT_PID s < 2 ^ 64 - 1 →
  (fetch_pid s).2 = with_next_pid (NEXT_PID s + 1) s ∧ system A (with_next_pid (NEXT_PID s + 1) s) ∧
  ∀ i q, procs s !! i = Some q → pid q < NEXT_PID s.
Proof.
  intros [S1 S2 S3 S4 S5 S6 S7 S8] Hmax. split_and!.
  - cbn. by rewrite Z.mod_small by lia.
  - split; [done|done| |cbn; lia| |done|done|done].
    + destruct s as [ps q np cur pend cp ie cr r0 pgs]. cbn in *. destruct cur; [|done]. by destruct S3.
    + intros i p Hp. destruct (S5 i p Hp). split; [cbn; lia|done].
  - intros i q Hq. by apply (S5 i q).
Qed.

(** The slots of process ids are in the lower half, except for the last two. *)
Definition slot_free (s : tasks (B := B)) : Prop := NEXT_PID s + 2 ≤ MAX_SLOT_PID.
Definition code_base_of (id : Z) : Z := USER_CODE_BASE + id * USER_SLOT_SIZE.
Definition stack_top_of (id : Z) : Z := USER_STACK_TOP - id * USER_SLOT_SIZE.

Lemma slot_bounds id : 0 < id → id + 2 ≤ MAX_SLOT_PID →
  user_code_base id = Ret (code_base_of id) ∧ user_stack_top id = Ret (stack_top_of id) ∧
  low_addr (code_base_of id) ∧ USER_STACK_SIZE ≤ stack_top_of id < 2 ^ 47 ∧ (PAGE_SIZE | stack_top_of id) ∧ id < 2 ^ 64 - 1.
Proof.
  intros H0 H1. assert (MAX_SLOT_PID = 67108863) as Em by reflexivity. rewrite user_code_base_ok, user_stack_top_ok by lia.
  unfold code_base_of, stack_top_of, low_addr, USER_STACK_SIZE, USER_CODE_BASE, USER_STACK_TOP, USER_SLOT_SIZE.
  change (Z.shiftl 1 USER_STACK_ORDER * PAGE_SIZE) with 8192. split_and!; try done; try lia.
  exists (34359738367 - id * 512). unfold PAGE_SIZE. lia.
Qed.

(** Frames that creating a process may take, in groups of four. *)
Definition spawn_room : nat := 13 + length (tables (boot_plan A)).

Definition default_code (code : bytes) : bytes := match code with [] => [Byte.xeb; Byte.xfe] | _ => code end.

(** What is known of the state [s2] behind [init] and [fetch_pid]. *)
Record ready_to_spawn (s s2 : tasks (B := B)) : Prop := {
  rt_system : system A s2;
  rt_current : ∃ c, CURRENT s2 = Some c ∧ (CURRENT s = Some c ∨ CURRENT s = None);
  rt_pg : pg s2 = pg s;
  rt_next : NEXT_PID s2 = NEXT_PID s + 1;
  rt_if : IF s2 = IF s;
  rt_queue : READY_QUEUE s2 = READY_QUEUE s;
  rt_roots : roots s2 = roots s;
  rt_old : ∀ i p, procs s !! i = Some p → procs s2 !! i = Some p;
  rt_only : ∀ i p, procs s2 !! i = Some p → procs s !! i = Some p ∨ kind p = KernelProc;
  rt_pids : ∀ i q, procs s2 !! i = Some q → pid q < NEXT_PID s;
}.

Lemma ready_spec s :
  system A s → NEXT_PID s < 2 ^ 64 - 1 →
  ∃ s1 s2, init A s = Ret s1 ∧ fetch_pid s1 = (NEXT_PID s, s2) ∧ ready_to_spawn s s2 ∧
    system A s1 ∧ pg s1 = pg s ∧ READY_QUEUE s1 = READY_QUEUE s ∧ (CURRENT s ≠ None → s1 = s) ∧ CURRENT s1 ≠ None.
Proof.
  intros Hsys Hmax. destruct (init_system A s Hsys) as (c0 & s1 & Hinit & Hsys1 & Hc & Epg & Enp & Eif & Eq & Ero & Hsame & Hold & Honly).
  rewrite <- Enp in Hmax. destruct (fetch_system s1 Hsys1 Hmax) as (Ef & Hsys2 & Hpids). rewrite Enp in *.
  exists s1, (with_next_pid (NEXT_PID s + 1) s1). split_and!; [done| | |done|done|done| |congruence].
  - unfold fetch_pid in *. cbn in Ef. by rewrite Ef, Enp.
  - split; [done| |done|done|done|done|done|done|done|done]. exists c0. split; [done|].
    destruct (CURRENT s) as [c|] eqn:E; [left|by right]. unfold init in Hinit. rewrite E in Hinit. injection Hinit as <-. congruence.
  - intros Hne. destruct (CURRENT s) as [c|] eqn:E; [|done]. unfold init in Hinit. rewrite E in Hinit. by injection Hinit as <-.
Qed.

Lemma finish_spec total s s2 p2 p5 u k c st v top rip code :
  ready_to_spawn s s2 → 0 < NEXT_PID s → started A (roots s) (pg s) p2 u → three (u :: roots s) p2 p5 k c st →
  low_addr v → USER_STACK_SIZE ≤ top < 2 ^ 47 → (PAGE_SIZE | top) → zlen code ≤ PAGE_SIZE → (total = true → room p5 9) →
  ends total (p6 ← load_code c code p5; p7 ← map_into_page_table u v c CODE_FLAGS p6; p8 ← map_user_stack u top st p7;
      enter_queue A (NEXT_PID s) u k c st rip top (with_pg p8 s2))
    (λ '(r, s'), user_spawned s s' r v top rip code).
Proof.
  intros [R1 (c0 & R2 & R2') R3 R4 R5 R6 R7 R8 R8' R9] Hnext Hst Hth Hv Htop Hal Hlen Hroom.
  assert (data_page (u :: roots s) p5 c ∧ 0 ≤ c < 2 ^ 44) as [Hc Hcb].
  { destruct Hth as [_ _ _ ([n ->] & ? & ?) _ Hfr _ _]. unfold PAGE_SIZE in *. split; [|lia].
    destruct (Hfr n) as [_ ?]; [|done]. right. left. unfold block_frame. rewrite Z.div_mul by done. change (2 ^ 0) with 1. lia. }
  assert (st < 2 ^ 44) as Hstb by (destruct Hth as [_ _ _ _ (_ & ? & ?) _ _ _]; unfold PAGE_SIZE in *; lia).
  pose proof (place_spec total (roots s) p5 u v c top st code (gw_ok _ _ _ (th_grows _ _ _ _ _ _ Hth)) (st_fresh _ _ _ _ _ Hst)
    Hc Hcb Hlen Hv Htop Hstb Hroom) as Hpl.
  destruct (load_code c code p5) as [p6| |]; [|exact Hpl..]. rewrite Ret_bind in Hpl. rewrite Ret_bind.
  destruct (map_into_page_table u v c CODE_FLAGS p6) as [p7| |]; [|exact Hpl..]. rewrite Ret_bind in Hpl. rewrite Ret_bind.
  destruct (map_user_stack u top st p7) as [p8| |]; [|exact Hpl..]. rewrite Ret_bind. cbn [ends] in Hpl.
  pose proof (built_from A _ _ _ _ _ _ _ _ _ _ _ _ Hst Hth Hpl) as Hb. rewrite <- R3, <- R7 in Hb.
  destruct (enter_queue_spec s2 p8 (roots s2) u k c st v top code (NEXT_PID s) rip top Hb) as (p & pg' & -> & Hpid & Hen).
  pose proof (spawned_from s s2 c0 u k c st v top rip code p pg' R1 R2 ltac:(lia) ltac:(lia)) as Hsp. cbn [ends].
  destruct (joined p pg' s2) as [r s'] eqn:Ej. cbn [fst snd] in Hsp. apply Hsp; try done. intros i q Hq. rewrite Hpid. by apply (R9 i).
Qed.

Lemma spawn_user_spec total s code :
  system A s → slot_free s → (total = true → zlen code ≤ PAGE_SIZE ∧ room (pg s) spawn_room) →
  ends total (spawn_user A code s) (λ '(r, s'),
    user_spawned s s' r (code_base_of (NEXT_PID s)) (stack_top_of (NEXT_PID s)) (code_base_of (NEXT_PID s)) (default_code code)).
Proof.
  intros Hsys Hslot Hroom.
  destruct (slot_bounds (NEXT_PID s) (sy_next _ _ Hsys) Hslot) as (Ecb & Estk & Hlow & Htop & Halign & Hmax).
  destruct (ready_spec s Hsys Hmax) as (s1 & s2 & Hinit & Hfetch & Hrt & _).
  unfold spawn_user. rewrite Hinit, Ret_bind. destruct (Z.leb_spec (zlen code) PAGE_SIZE) as [Hlen|Hlen].
  2: { simpl. destruct total; [|done]. destruct (Hroom eq_refl). lia. }
  cbn [assert_that]. rewrite Ret_bind, Hfetch, Ecb, Ret_bind, Estk, Ret_bind, (rt_pg _ _ Hrt).
  pose proof (start_spec A Hboot total (roots s) (pg s) (sy_paging _ _ Hsys) ltac:(by left) (sy_kernel _ _ Hsys)) as Hst.
  assert (total = true → room (pg s) (S (length (tables (boot_plan A))))) as Hr1.
  { intros Ht. eapply room_le; [|apply Hroom, Ht]. unfold spawn_room. lia. }
  specialize (Hst Hr1). destruct (create_user_page_table (pg s)) as [[u p1]| |]; [|exact Hst..]. rewrite Ret_bind in Hst. rewrite Ret_bind.
  destruct (map_bootdata_identity A u p1) as [p2| |]; [|exact Hst..]. rewrite Ret_bind in Hst. rewrite Ret_bind. cbn [ends] in Hst.
  assert (total = true → room p2 12) as Hr2.
  { intros Ht. apply (st_room _ _ _ _ _ Hst). eapply room_le; [|apply Hroom, Ht]. unfold spawn_room. lia. }
  assert (total = true → room p2 3) as Hr3 by (intros Ht; eapply room_le, Hr2, Ht; lia).
  pose proof (three_spec total (u :: roots s) p2 (st_ok _ _ _ _ _ Hst) Hr3) as Hth.
  destruct (allocate_frames KERNEL_STACK_ORDER p2) as [[[k|] p3]| |]; [|exact Hth..]. rewrite Ret_bind in Hth. rewrite Ret_bind. cbn [expect] in *. rewrite Ret_bind in Hth. rewrite Ret_bind.
  destruct (allocate_frames 0 p3) as [[[c|] p4]| |]; [|exact Hth..]. rewrite Ret_bind in Hth. rewrite Ret_bind. cbn [expect] in *. rewrite Ret_bind in Hth. rewrite Ret_bind.
  destruct (allocate_frames USER_STACK_ORDER p4) as [[[st|] p5]| |]; [|exact Hth..]. rewrite Ret_bind in Hth. rewrite Ret_bind. cbn [expect] in *. rewrite Ret_bind in Hth. rewrite Ret_bind.
  cbn [ends] in Hth. fold (default_code code). fold CODE_FLAGS.
  apply (finish_spec total s s2 p2 p5); [done|apply (sy_next _ _ Hsys)|done|done|done|done|done| |].
  - destruct code; [done|exact Hlen].
  - intros Ht. apply (th_room _ _ _ _ _ _ Hth). by apply Hr2.
Qed.

(** ** ELF images *)

(** The bytes of the loadable segment. *)
Definition segment_bytes (image : bytes) (e : ParsedElf) : bytes :=
  take (Z.to_nat (file_size (p_load e))) (drop (Z.to_nat (offset (p_load e))) image).

Lemma parsed_segment image e :
  zlen image ≤ isize_max → parse image = Ret (Ok e) →
  slice_get image (offset (p_load e)) (zlen image) = Some (drop (Z.to_nat (offset (p_load e))) image) ∧
  zlen (segment_bytes image e) = file_size (p_load e) ∧ file_size (p_load e) ≤ mem_size (p_load e).
Proof.
  intros Hlen Hp. apply parse_accepts in Hp; [|done]. destruct (ac_load _ _ Hp) as (i & _ & _ & _ & _ & Es & [Hin Hmem]).
  pose proof (field_range 8 image (header_at (field 8 image 32) i + 8) ltac:(lia)) as Ho.
  pose proof (field_range 8 image (header_at (field 8 image 32) i + 32) ltac:(lia)) as Hf.
  assert (offset (p_load e) = field 8 image (header_at (field 8 image 32) i + 8)) as Eo by (by rewrite Es).
  assert (file_size (p_load e) = field 8 image (header_at (field 8 image 32) i + 32)) as Ef by (by rewrite Es).
  rewrite <- Eo in Ho. rewrite <- Ef in Hf. clear Es Eo Ef. unfold segment_bytes. revert Hin Hmem Ho Hf. generalize (p_load e). clear.
  intros l Hin Hmem [Ho _] [Hf _]. assert (0 ≤ offset l ≤ zlen image) as Hoff by lia. split_and!; [| |done].
  - unfold slice_get. rewrite !(proj2 (Z.leb_le _ _)) by lia. cbn [andb]. f_equal. unfold zlen in *. rewrite take_ge; [done|]. rewrite length_drop. lia.
  - unfold zlen in *. rewrite length_take, length_drop. lia.
Qed.

(** What [spawn_elf] may answer. *)
Definition elf_result (s s' : tasks (B := B)) (image : bytes) (res : Result nat SpawnError) : Prop :=
  match res with
  | Ok r => ∃ e, parse image = Ret (Ok e) ∧ file_size (p_load e) ≤ PAGE_SIZE ∧ mem_size (p_load e) ≤ PAGE_SIZE ∧
      user_spawned s s' r (virt_addr (p_load e)) (stack_top_of (NEXT_PID s)) (p_entry e) (segment_bytes image e)
  | Err BadElf => (∃ err, parse image = Ret (Err err)) ∧ init A s = Ret s'
  | Err ProgramTooLarge => (∃ e, parse image = Ret (Ok e) ∧ (PAGE_SIZE < file_size (p_load e) ∨ PAGE_SIZE < mem_size (p_load e))) ∧ init A s = Ret s'
  | Err NoMemory => ¬ room (pg s) spawn_room ∧ READY_QUEUE s' = READY_QUEUE s ∧ NEXT_PID s' = NEXT_PID s + 1 ∧
      KERNEL_PML4 (pg s') = KERNEL_PML4 (pg s) ∧ (∀ i p, procs s' !! i = Some p → procs s !! i = Some p ∨ kind p = KernelProc) ∧
      ∀ x w, x ∈ roots s → translate (pg_mem (pg s')) x w = translate (pg_mem (pg s)) x w
  end.

(** Giving up half way: the page table and frames taken so far are lost. *)
Lemma abandoned s s2 p2 p' u image :
  ready_to_spawn s s2 → system A s → started A (roots s) (pg s) p2 u → grows (u :: roots s) p2 p' → pg_mem p' = pg_mem p2 →
  ¬ room (pg s) spawn_room → system A (with_pg p' s2) ∧ elf_result s (with_pg p' s2) image (Err NoMemory).
Proof.
  intros [R1 (c0 & R2 & _) R3 R4 R5 R6 R7 R8 R8' R9] Hsys [S1 S2 S3 S4 S5 S6 S7 S8] [G1 G2 G3 G4] Hm Hno. split.
  - apply (system_pg A s2 c0 p' (u :: roots s)); [done|done|done|rewrite R7; intros x Hx; by right|by rewrite G2, S2, R3|].
    rewrite R7, R3. intros x [E1 X1]%S5. destruct (G4 x X1) as [E2 X2]. split; [congruence|done].
  - split_and!; [done|done|done|by cbn; rewrite G2, S2|done|]. intros x w Hx. cbn [pg with_pg]. destruct G1 as (b & _ & _ & Hsp). destruct (sy_paging _ _ Hsys) as (b0 & _ & _ & Hsp0).
    rewrite (translate_leaf _ _ _ x w Hsp) by (by right). rewrite (translate_leaf _ _ _ x w Hsp0 Hx). by rewrite Hm, S7.
Qed.

Lemma spawn_elf_spec total s image :
  system A s → slot_free s → zlen image ≤ isize_max →
  (∀ e, parse image = Ret (Ok e) → low_addr (virt_addr (p_load e))) →
  (total = true → (∃ r, parse image = Ret r) ∧ room (pg s) spawn_room) →
  ends total (spawn_elf A image s) (λ '(res, s'), system A s' ∧ elf_result s s' image res).
Proof.
  intros Hsys Hslot Hlen Hlow Hroom.
  destruct (slot_bounds (NEXT_PID s) (sy_next _ _ Hsys) Hslot) as (_ & Estk & _ & Htop & Halign & Hmax).
  destruct (ready_spec s Hsys Hmax) as (s1 & s2 & Hinit & Hfetch & Hrt & Hsys1 & _).
  unfold spawn_elf. rewrite Hinit, Ret_bind. destruct (parse image) as [[e|err]| |] eqn:Hp.
  3: { simpl. destruct total; [|done]. destruct (Hroom eq_refl) as [[r [=]] _]. }
  3: { exfalso. apply (parse_no_diverge image Hlen Hp). }
  2: { rewrite Ret_bind. cbn [ends]. split; [done|]. split; [by exists err|done]. }
  rewrite Ret_bind. cbv zeta. destruct (parsed_segment image e Hlen Hp) as (Hslice & Hseg & Hmem).
  destruct (Z.ltb_spec PAGE_SIZE (file_size (p_load e))); [cbn [orb ends]; split; [done|]; split; [exists e; auto|done]|].
  destruct (Z.ltb_spec PAGE_SIZE (mem_size (p_load e))); [cbn [orb ends]; split; [done|]; split; [exists e; auto|done]|].
  cbn [orb]. rewrite Hfetch, Estk, Ret_bind, (rt_pg _ _ Hrt).
  pose proof (start_spec A Hboot total (roots s) (pg s) (sy_paging _ _ Hsys) ltac:(by left) (sy_kernel _ _ Hsys)) as Hst.
  assert (∀ n, room (pg s) spawn_room → (n ≤ 12)%nat → room (pg s) (S (n + length (tables (boot_plan A))))) as Hr0.
  { intros n Hr Hn. eapply room_le, Hr. unfold spawn_room. lia. }
  specialize (Hst ltac:(intros Ht; apply (Hr0 0%nat); [by apply Hroom|lia])).
  destruct (create_user_page_table (pg s)) as [[u p1]| |]; [|exact Hst..]. rewrite Ret_bind in Hst. rewrite Ret_bind.
  destruct (map_bootdata_identity A u p1) as [p2| |]; [|exact Hst..]. rewrite Ret_bind in Hst. rewrite Ret_bind. cbn [ends] in Hst.
  assert (room (pg s) spawn_room → room p2 12) as Hr2 by (intros Hr; by apply (st_room _ _ _ _ _ Hst), Hr0).
  assert (∀ p n, (room p2 12 → room p n) → (1 ≤ n)%nat → ¬ room p 1 → ¬ room (pg s) spawn_room) as Hfull.
  { intros p n Hp12 Hn Hno Hr. apply Hno. eapply room_le; [exact Hn|auto]. }
  destruct (allocate_frames_spec (u :: roots s) p2 KERNEL_STACK_ORDER (st_ok _ _ _ _ _ Hst) ltac:(done)) as (r1 & p3 & -> & G1). rewrite Ret_bind.
  destruct r1 as [k|]; [|destruct G1 as [-> Hno]; apply (abandoned s s2 p2 p2 u);
    [done|done|done|apply grows_refl, Hst|done|by apply (Hfull p2 12%nat); [|lia|]]].
  destruct (allocate_frames_spec (u :: roots s) p3 0 (gw_ok _ _ _ (gv_grows _ _ _ _ _ G1)) ltac:(done)) as (r2 & p4 & -> & G2). rewrite Ret_bind.
  destruct r2 as [c|]; [|destruct G2 as [-> Hno]; apply (abandoned s s2 p2 p3 u);
    [done|done|done|apply G1|apply G1|by apply (Hfull p3 11%nat); [apply G1|lia|]]].
  pose proof (grows_trans _ _ _ _ (gv_grows _ _ _ _ _ G1) (gv_grows _ _ _ _ _ G2)) as G12.
  destruct (allocate_frames_spec (u :: roots s) p4 USER_STACK_ORDER (gw_ok _ _ _ G12) ltac:(done)) as (r3 & p5 & -> & G3). rewrite Ret_bind.
  destruct r3 as [st|]; [|destruct G3 as [-> Hno]; apply (abandoned s s2 p2 p4 u);
    [done|done|done|done|by rewrite (gv_mem _ _ _ _ _ G2), (gv_mem _ _ _ _ _ G1)|by apply (Hfull p4 10%nat); [intros ?; by apply G2, G1|lia|]]].
  pose proof (gave_three _ _ _ _ _ _ _ _ G1 G2 G3) as Hth. rewrite Hslice. cbn [expect]. rewrite Ret_bind.
  fold (segment_bytes image e). fold CODE_FLAGS.
  pose proof (finish_spec total s s2 p2 p5 u k c st (virt_addr (p_load e)) (stack_top_of (NEXT_PID s)) (p_entry e) (segment_bytes image e) Hrt
    (sy_next _ _ Hsys) Hst Hth (Hlow e eq_refl) Htop Halign ltac:(lia)) as Hfin.
  assert (total = true → room p5 9) as Hr5 by (intros Ht; by apply (th_room _ _ _ _ _ _ Hth), Hr2, Hroom).
  specialize (Hfin Hr5).
  destruct (load_code c (segment_bytes image e) p5) as [p6| |]; [|exact Hfin..]. rewrite !Ret_bind in *.
  destruct (map_into_page_table u (virt_addr (p_load e)) c CODE_FLAGS p6) as [p7| |]; [|exact Hfin..]. rewrite !Ret_bind in *.
  destruct (map_user_stack u (stack_top_of (NEXT_PID s)) st p7) as [p8| |]; [|exact Hfin..]. rewrite !Ret_bind in *.
  destruct (enter_queue A (NEXT_PID s) u k c st (p_entry e) (stack_top_of (NEXT_PID s)) (with_pg p8 s2)) as [[r s']| |]; [|exact Hfin..].
  rewrite Ret_bind. cbn [ends] in *. split; [apply Hfin|]. exists e. auto.
Qed.

(** ** Kernel processes *)

Record kernel_spawned (s s' : tasks (B := B)) (r : nat) (e : Z) : Prop := {
  ks_system : system A s';
  ks_if : IF s' = IF s;
  ks_queue : READY_QUEUE s' = READY_QUEUE s ++ [r];
  ks_current : ∃ c, CURRENT s' = Some c ∧ (CURRENT s = Some c ∨ CURRENT s = None);
  ks_old : ∀ i p, procs s !! i = Some p → procs s' !! i = Some p;
  ks_only : ∀ i p, procs s' !! i = Some p → procs s !! i = Some p ∨ kind p = KernelProc;
  ks_mem : pg_mem (pg s') = pg_mem (pg s) ∧ KERNEL_PML4 (pg s') = KERNEL_PML4 (pg s);
  ks_new : ∃ p, procs s' !! r = Some p ∧ procs s !! r = None ∧ pid p = NEXT_PID s ∧ kind p = KernelProc ∧ state p = Ready ∧
    entry p = Some e ∧ pagetable p = KERNEL_PML4 (pg s) ∧ trap_frame p = None ∧
    kstack_top p = kstack_phys p + KERNEL_VMA + KERNEL_STACK_SIZE ∧
    context p = mkContext 0 0 0 0 0 0 (kstack_top p) (kernel_task_bootstrap A) ∧ ∀ j, owns p j → pg_free (pg s) j;
}.

Lemma spawn_kernel_spec total s e :
  system A s → NEXT_PID s < 2 ^ 64 - 1 → (total = true → room (pg s) 1) →
  ends total (spawn_kernel A e s) (λ '(r, s'), kernel_spawned s s' r e).
Proof.
  intros Hsys Hmax Hroom. destruct (ready_spec s Hsys Hmax) as (s1 & s2 & Hinit & Hfetch & Hrt & _).
  unfold spawn_kernel. rewrite Hinit, Ret_bind, Hfetch. destruct Hrt as [R1 (c0 & R2 & R2') R3 R4 R5 R6 R7 R8 R8' R9]. rewrite R3.
  destruct (allocate_frames_spec (roots s) (pg s) KERNEL_STACK_ORDER (sy_paging _ _ Hsys) ltac:(done)) as (r & pg' & -> & Hr). rewrite Ret_bind.
  destruct r as [k|]; [|destruct Hr as [_ Hno]; simpl; destruct total; [by destruct Hno; auto|done]].
  cbn [expect]. rewrite Ret_bind. destruct Hr as [[G1 G2 G3 G4] Hm Hal Hrange Hblock _].
  change (2 ^ KERNEL_STACK_ORDER) with 4 in *. unfold PAGE_SIZE in Hrange.
  assert (KERNEL_STACK_SIZE = 16384) as Esz by reflexivity.
  rewrite uadd_ok, Ret_bind by (unfold KERNEL_VMA, usize_max; lia). rewrite uadd_ok, Ret_bind by (rewrite Esz; unfold KERNEL_VMA, usize_max; lia).
  set (top := k + KERNEL_VMA + KERNEL_STACK_SIZE). assert (ProcLayout.align_down top 16 = Ret top) as ->.
  { unfold ProcLayout.align_down. rewrite usub_ok, Ret_bind by done. change (16 - 1) with (2 ^ 4 - 1).
    rewrite land_align by (unfold top, usize_max, KERNEL_VMA; lia). f_equal. assert (top mod 2 ^ 4 = 0) as ->; [|lia].
    apply Z.mod_divide; [done|]. destruct Hal as [n ->]. exists (n * 1024 + 0xFFFF80000000000 + 1024). unfold top. rewrite Esz. change (2 ^ 4) with 16. unfold PAGE_SIZE, KERNEL_VMA. lia. }
  rewrite Ret_bind. unfold kernel_pml4. cbn [pg with_pg]. rewrite G2.
  pose proof (sy_kernel _ _ Hsys) as Hk0. replace (KERNEL_PML4 (pg s) =? 0) with false by lia. cbn [negb assert_that]. rewrite !Ret_bind.
  set (p := mkProc (NEXT_PID s) Ready _ _ _ _ _ _ _ _ _ _). change (new_proc p (with_pg pg' s2)) with (length (procs s2), (new_proc p (with_pg pg' s2)).2).
  cbn [ends]. pose proof (sy_next _ _ Hsys) as Hn0.
  assert (∀ j, owns p j → block_frame k 2 j) as Hown by (intros j [[_ H]|[(? & [=] & _)|(? & [=] & _)]]; exact H).
  assert (admissible A s2 p pg' (roots s)) as Had.
  { split.
    - done.
    - intros x. unfold roots. rewrite G2. unfold user_roots. rewrite filter_app, fmap_app. rewrite (filter_cons _ p), filter_nil, decide_False by done.
      rewrite app_nil_r. unfold roots, user_roots in R7. injection R7 as _ ->. done.
    - by rewrite R3.
    - rewrite R3, R7. exact G4.
    - rewrite R3. intros j Hj. destruct (Hblock j (Hown j Hj)) as (? & _ & ?). done.
    - split; [done|]. intros tf [=].
    - done.
    - left. split; [done|by eexists]. }
  pose proof (join_system A s2 c0 p pg' _ R1 R2 Had ltac:(cbn; lia) R9) as Hsys'.
  change (length (procs s2)) with (joined p pg' s2).1. change (push_ready _ _) with (joined p pg' s2).2. split; [done|done| | | | | |].
  - cbn. by rewrite R6.
  - exists c0. done.
  - intros i q Hq. rewrite joined_lookup by done. apply lookup_app_l_Some. by apply R8.
  - intros i q. rewrite joined_lookup by done. intros [Hq|[-> ->]]%lookup_snoc; [|by right]. by apply R8'.
  - done.
  - exists p. split; [rewrite joined_lookup by done; cbn; by rewrite list_lookup_middle|]. split_and!; try done.
    + destruct (procs s !! _) as [q|] eqn:E; [|done]. apply R8 in E. apply lookup_lt_Some in E. cbn in E. lia.
    + intros j Hj. by destruct (Hblock j (Hown j Hj)).
Qed.
End correct.
