(* ===== verification/SystemCorrect.v ===== *)
(** * The running system

    Every state the kernel reaches from its boot by creating processes, timer
    interrupts, yields and exits satisfies [system], and user processes are
    isolated from each other and from the kernel. *)

From S2P Require Import Prelude Bytes Links Buddy BuddyInv BuddyOps BuddyInit BuddyCorrect Address Paging PagingInv PagingMap PagingPlan PagingCorrect PagingInit ProcLayout Elf ElfCorrect UserCode Proc SpaceBuild Spawn SpawnView Sched SchedCorrect System SpawnCorrect.
Local Open Scope Z_scope.
Local Open Scope paging_scope.

Section correct.
Context `{FS : FrameSource B, FL : !FrameLaws B}.
Context (A : addresses) (HA : addresses_ok A) (Hboot : low_range (bootdata A)).

(** ** Isolation *)

Definition canonical (w : Z) : Prop := low_addr w ∨ high_addr w.

(** The pages ring 3 may use: the code read-only and executable, the stack
    writable and not executable. *)
Definition user_page (p : Proc) (a : Z) (rt : rights) : Prop :=
  (∃ c, user_code_phys p = Some c ∧ block_frame c 0 (a / PAGE_SIZE) ∧ rt = mkRights true false false) ∨
  (∃ st, user_stack_phys p = Some st ∧ block_frame st 1 (a / PAGE_SIZE) ∧ rt = mkRights true true true).

Record isolated (s : tasks (B := B)) : Prop := {
  is_kernel : ∀ w a rt, canonical w → translate (pg_mem (pg s)) (KERNEL_PML4 (pg s)) w = Some (a, rt) → r_user rt = false;
  is_user : ∀ i p w a rt, procs s !! i = Some p → kind p = UserProc → canonical w →
    translate (pg_mem (pg s)) (pagetable p) w = Some (a, rt) → r_user rt = true → user_page p a rt;
}.

(** Address spaces that translate as before stay isolated. *)
Lemma isolated_keep s s' :
  isolated s → KERNEL_PML4 (pg s') = KERNEL_PML4 (pg s) →
  (∀ x w, x ∈ roots s → translate (pg_mem (pg s')) x w = translate (pg_mem (pg s)) x w) →
  (∀ i p, procs s' !! i = Some p → kind p = UserProc → (∃ q, procs s !! i = Some q ∧ same_block q p) ∨
     ∀ w a rt, canonical w → translate (pg_mem (pg s')) (pagetable p) w = Some (a, rt) → r_user rt = true → user_page p a rt) →
  isolated s'.
Proof.
  intros [I1 I2] Hk Htr Hps. split.
  - intros w a rt Hw. rewrite Hk, Htr by (by left). by apply I1.
  - intros i p w a rt Hp Hkind Hw. destruct (Hps i p Hp Hkind) as [(q & Hq & Hsb)|Hnew]; [|by apply Hnew].
    destruct Hsb as (_ & E2 & _ & _ & E5 & _ & _ & E8 & E9).
    rewrite Htr by (apply elem_of_roots; right; exists i, q; split_and!; congruence). rewrite E2. intros Ht Hu.
    unfold user_page. rewrite E8, E9. eapply I2; [exact Hq|congruence|exact Hw|exact Ht|exact Hu].
Qed.

Lemma same_block_refl p : same_block p p.
Proof. by repeat split. Qed.

(** The view of a new process is confined to its own pages. *)
Lemma view_confined v c top st w a rt p :
  (PAGE_SIZE | c) → (2 * PAGE_SIZE | st) → user_code_phys p = Some c → user_stack_phys p = Some st →
  user_view A v c top st w = Some (a, rt) → r_user rt = true → user_page p a rt.
Proof.
  intros [n ->] [k ->] Hc Hst Hv Hu. replace (k * (2 * PAGE_SIZE)) with (k * 2 * PAGE_SIZE) in * by lia.
  assert (∀ y, (y * PAGE_SIZE + w mod PAGE_SIZE) / PAGE_SIZE = y) as Hdiv.
  { intros y. rewrite Z.div_add_l by done. rewrite Z.div_small; [lia|]. by apply Z.mod_pos_bound. }
  unfold user_view in Hv. repeat case_match; simplify_eq; try done.
  - right. exists (k * 2 * PAGE_SIZE). replace (k * 2 * PAGE_SIZE + PAGE_SIZE) with ((k * 2 + 1) * PAGE_SIZE) by lia. rewrite Hdiv.
    unfold block_frame. rewrite Z.div_mul by done. change (2 ^ 1) with 2. split_and!; [done|lia|lia|done].
  - right. exists (k * 2 * PAGE_SIZE). rewrite Hdiv. unfold block_frame. rewrite Z.div_mul by done. change (2 ^ 1) with 2. split_and!; [done|lia|lia|done].
  - left. exists (n * PAGE_SIZE). rewrite Hdiv. unfold block_frame. rewrite Z.div_mul by done. change (2 ^ 0) with 1. split_and!; [done|lia|lia|done].
Qed.

Lemma user_spawned_isolated s s' r v top rip code :
  isolated s → user_spawned A s s' r v top rip code → isolated s'.
Proof.
  intros His [_ _ _ _ _ _ U6 U7 U8 _ (p & c & st & tf & Hp & _ & _ & Hkind & _ & Hc & Hst & _ & _ & [Hac Hast] & _ & Hlow & Hhigh & _)].
  apply (isolated_keep s); [done|done|done|]. intros i q Hq Hkq. destruct (U6 i q Hq) as [Hold|[?| ->]]; [left; exists q; by split|congruence|].
  right. rewrite Hp in Hq. injection Hq as <-. intros w a rt [Hw|Hw] Ht Hu.
  - rewrite Hlow in Ht by done. by eapply view_confined.
  - rewrite Hhigh in Ht by done. rewrite (is_kernel _ His w a rt) in Hu; [done|by right|done].
Qed.

Lemma kernel_spawned_isolated s s' r e : isolated s → kernel_spawned A s s' r e → isolated s'.
Proof.
  intros His [_ _ _ _ _ K6 [K7 K8] _]. apply (isolated_keep s); [done|done|by rewrite K7|]. intros i q Hq Hkq.
  destruct (K6 i q Hq) as [Hold|?]; [left; exists q; by split|congruence].
Qed.

Lemma quiet_isolated s s' : isolated s → quiet s s' → isolated s'.
Proof.
  intros His [Epg _ Elen Hb]. apply (isolated_keep s); [done|by rewrite Epg|by rewrite Epg|]. intros i q Hq _. left.
  destruct (lookup_lt_is_Some_2 (procs s) i) as [p Hpi]; [rewrite <- Elen; by eapply lookup_lt_Some|].
  destruct (Hb i p Hpi) as (q' & Hq' & Hsb & _). exists p. split; [done|]. congruence.
Qed.

Lemma init_isolated s s' : system A s → isolated s → init A s = Ret s' → isolated s'.
Proof.
  intros Hsys His Hi. destruct (init_system A s Hsys) as (c & s1 & Hi' & _ & _ & Epg & _ & _ & _ & _ & _ & _ & Honly).
  rewrite Hi in Hi'. injection Hi' as <-. apply (isolated_keep s); [done|by rewrite Epg|by rewrite Epg|]. intros i q Hq Hkq. left.
  destruct (Honly i q Hq) as [?|?]; [exists q; by split|congruence].
Qed.

Lemma elf_isolated s s' image res : system A s → isolated s → elf_result A s s' image res → isolated s'.
Proof.
  intros Hsys His. destruct res as [r|[]]; cbn [elf_result].
  - intros (e & _ & _ & _ & Hus). by eapply user_spawned_isolated.
  - intros [_ Hi]. by eapply init_isolated.
  - intros [_ Hi]. by eapply init_isolated.
  - intros (_ & _ & _ & Hk & Honly & Htr). apply (isolated_keep s); [done|done|done|]. intros i q Hq Hkq. left.
    destruct (Honly i q Hq) as [?|?]; [exists q; by split|congruence].
Qed.

(** ** Events *)

Lemma system_if f (s : tasks (B := B)) : system A s → system A (with_if f s).
Proof.
  intros [S1 S2 S3 S4 S5 S6 S7 S8]. split; [done|done| |done|done|done|done|done].
  destruct s as [ps q np cur pend cp ie cr r0 pgs]. cbn in *. destruct cur; [|done]. by destruct S3.
Qed.
Lemma isolated_if f (s : tasks (B := B)) : isolated s → isolated (with_if f s).
Proof. by intros []. Qed.

Lemma models_of (s : tasks (B := B)) c : sched_ok A s c → IF s = true → ∃ a, models A s a.
Proof.
  intros Hok Hif. destruct (so_run _ _ _ Hok) as (p & Hp & _). exists (mkRr c (ticks_left p) (runs s c) (READY_QUEUE s)).
  split_and!; [done|done|done|done|]. by exists p.
Qed.

(** Before [init] nobody is queued, and nothing happens. *)
Lemma idle_schedule from (s : tasks (B := B)) : system A s → CURRENT s = None → ∃ f, run_schedule A from s = Ret (false, with_if f s).
Proof.
  intros Hsys Hc. pose proof (sy_sched _ _ Hsys) as Hs. rewrite Hc in Hs. destruct Hs as (_ & Hq & _).
  unfold run_schedule, schedule. cbn [READY_QUEUE disable_interrupts with_if]. rewrite Hq, Ret_bind. destruct (IF s); by eexists.
Qed.

Definition kept (s s' : tasks (B := B)) : Prop := system A s' ∧ (isolated s → isolated s').

Lemma quiet_kept s s' a : system A s → models A s' a → quiet s s' → kept s s'.
Proof. intros Hsys [Hok _] Hq. split; [by eapply system_quiet|]. intros His. by eapply quiet_isolated. Qed.

Lemma tick_kept (s : tasks (B := B)) : system A s → ∃ s', timer_interrupt A s = Ret s' ∧ kept s s'.
Proof.
  intros Hsys. destruct (CURRENT s) as [c|] eqn:Hc.
  - pose proof (sy_sched _ _ Hsys) as Hs. rewrite Hc in Hs. destruct (IF s) eqn:Hif.
    + destruct (models_of s c Hs Hif) as [a Ha]. destruct (tick_refines A HA s a Ha) as (s' & Hrun & Hm & Hq). exists s'. split; [done|]. by eapply quiet_kept.
    + exists s. unfold timer_interrupt. by rewrite Hif.
  - unfold timer_interrupt, on_timer_tick. cbn [CURRENT with_if]. rewrite Hc. destruct (IF s); [|by exists s].
    eexists. split; [done|]. split; [by apply system_if, system_if|by intros []].
Qed.

Lemma yield_kept (s : tasks (B := B)) : system A s → IF s = true → ∃ s', yield_now A s = Ret s' ∧ kept s s'.
Proof.
  intros Hsys Hif. destruct (CURRENT s) as [c|] eqn:Hc.
  - pose proof (sy_sched _ _ Hsys) as Hs. rewrite Hc in Hs. destruct (models_of s c Hs Hif) as [a Ha].
    destruct (yield_refines A HA s a Ha) as (s' & Hrun & Hm & Hq). exists s'. split; [done|]. by eapply quiet_kept.
  - destruct (idle_schedule FromCall s Hsys Hc) as [f Hf]. unfold yield_now. rewrite Hf, Ret_bind. eexists. split; [done|].
    split; [by apply system_if|by intros []].
Qed.

Lemma exit_kept status (s : tasks (B := B)) : system A s → ∃ s', exit_current A status s = Ret s' ∧ kept s s'.
Proof.
  intros Hsys. destruct (CURRENT s) as [c|] eqn:Hc.
  - pose proof (sy_sched _ _ (system_if true s Hsys)) as Hs. cbn [CURRENT with_if] in Hs. rewrite Hc in Hs.
    destruct (models_of (with_if true s) c Hs eq_refl) as [a Ha].
    destruct (exit_refines A HA status _ a Ha) as (s' & Hrun & Hm & Hq). exists s'. split; [exact Hrun|].
    eapply quiet_kept; [exact Hsys|exact Hm|]. by destruct Hq.
  - unfold exit_current. cbv zeta. change (disable_interrupts s) with (with_if false s). change (CURRENT (with_if false s)) with (CURRENT s). rewrite Hc.
    destruct (idle_schedule FromCall (with_if false s) (system_if false s Hsys) Hc) as [f Hf]. rewrite Hf, Ret_bind.
    eexists. split; [done|]. split; [by apply (system_if true), system_if, system_if|by intros []].
Qed.

(** After a yield the process at the head of the queue runs. *)
Lemma next_runs (s : tasks (B := B)) r q p :
  system A s → READY_QUEUE s = r :: q → procs s !! r = Some p →
  ∃ s', yield_now A (with_if true s) = Ret s' ∧ kept s s' ∧ CURRENT s' = Some r ∧ pg s' = pg s ∧
    ∃ p', procs s' !! r = Some p' ∧ same_block p p'.
Proof.
  intros Hsys Hq Hp. pose proof (sy_sched _ _ Hsys) as Hs. destruct (CURRENT s) as [c|] eqn:Hc; [|by destruct Hs as (_ & Hs & _); rewrite Hq in Hs].
  pose proof (sy_sched _ _ (system_if true s Hsys)) as Hok. cbn [CURRENT with_if] in Hok. rewrite Hc in Hok.
  destruct (so_run _ _ _ Hok) as (pc & Hpc & _).
  assert (models A (with_if true s) (mkRr c (ticks_left pc) (runs (with_if true s) c) (r :: q))) as Hm by (split_and!; [done|done|exact Hq|done|by exists pc]).
  destruct (yield_refines A HA _ _ Hm) as (s' & Hy & Hm' & Hqt). exists s'. split; [done|]. clear Hy.
  destruct (quiet_kept (with_if true s) s' _ (system_if true s Hsys) Hm' Hqt) as [Hs2 Hi2].
  destruct (qt_blocks _ _ Hqt r p Hp) as (p' & Hp' & Hsb & _). destruct Hm' as [Hok' _]. split_and!.
  - split; [done|]. intros Hi. by apply Hi2, isolated_if.
  - exact (so_current _ _ _ Hok').
  - exact (qt_pg _ _ Hqt).
  - by exists p'.
Qed.

(** ** Reachable states *)

(** What happens to the system: processes are created, the interrupt flag is
    set or cleared, the timer interrupts, a process yields (with interrupts
    on) or exits.  Process ids stay below the number of address slots, and
    images load into the lower half. *)
Inductive step : tasks (B := B) → tasks (B := B) → Prop :=
  | step_kernel e r s s' : NEXT_PID s < 2 ^ 64 - 1 → spawn_kernel A e s = Ret (r, s') → step s s'
  | step_user code r s s' : slot_free s → spawn_user A code s = Ret (r, s') → step s s'
  | step_elf image res s s' : slot_free s → zlen image ≤ isize_max →
      (∀ e, parse image = Ret (Ok e) → low_addr (virt_addr (p_load e))) → spawn_elf A image s = Ret (res, s') → step s s'
  | step_if f s : step s (with_if f s)
  | step_tick s s' : timer_interrupt A s = Ret s' → step s s'
  | step_yield s s' : IF s = true → yield_now A s = Ret s' → step s s'
  | step_exit status s s' : exit_current A status s = Ret s' → step s s'.

Lemma step_kept s s' : step s s' → system A s → kept s s'.
Proof.
  intros Hstep Hsys. destruct Hstep as [e r s s' Hn Hr|code r s s' Hn Hr|image res s s' Hn Hl Hv Hr|f s|s s' Hr|s s' Hif Hr|status s s' Hr].
  - pose proof (spawn_kernel_spec A false s e Hsys Hn ltac:(done)) as H. rewrite Hr in H. cbn [ends] in H.
    split; [apply H|]. intros His. by eapply kernel_spawned_isolated.
  - pose proof (spawn_user_spec A Hboot false s code Hsys Hn ltac:(done)) as H. rewrite Hr in H. cbn [ends] in H.
    split; [apply H|]. intros His. by eapply user_spawned_isolated.
  - pose proof (spawn_elf_spec A Hboot false s image Hsys Hn Hl Hv ltac:(done)) as H. rewrite Hr in H. cbn [ends] in H.
    destruct H as [H1 H2]. split; [done|]. intros His. by apply (elf_isolated s s' image res).
  - split; [by apply system_if|by apply isolated_if].
  - destruct (tick_kept s Hsys) as (s1 & H1 & Hk). congruence.
  - destruct (yield_kept s Hsys Hif) as (s1 & H1 & Hk). congruence.
  - destruct (exit_kept status s Hsys) as (s1 & H1 & Hk). congruence.
Qed.

Lemma reachable_kept s s' : rtc step s s' → system A s → kept s s'.
Proof.
  induction 1 as [s|s s1 s' Hs Hrtc IH]; intros Hsys; [by split|]. destruct (step_kept s s1 Hs Hsys) as [H1 I1].
  destruct (IH H1) as [H2 I2]. split; [done|auto].
Qed.

(** C6: the system invariant holds in every state reached by creating
    processes, timer interrupts, yields, exits and changes of the interrupt
    flag, where a process is only created while process slots (for a kernel
    process: process ids) are left and an image that is loaded asks for lower
    addresses; the kernel checks neither, and an image that asks for upper
    addresses breaks the invariant.  It says: page tables are well formed, the current process has its page table
    in CR3 and its kernel stack in the TSS, nobody is queued twice, every
    process is current, queued and ready, or has exited, process ids are
    unique and ascending, and no frame belongs to two processes, to a page
    table or to the allocator.  In such a state the timer interrupt, an exit
    and (with interrupts on) a yield return: none of their checks fails. *)
Theorem reachable_system s0 s :
  system A s0 → rtc step s0 s →
  system A s ∧ (∃ s', timer_interrupt A s = Ret s') ∧ (∀ status, ∃ s', exit_current A status s = Ret s') ∧
  (IF s = true → ∃ s', yield_now A s = Ret s').
Proof.
  intros H0 Hr. destruct (reachable_kept s0 s Hr H0) as [Hs _]. split_and!; [done|..].
  - destruct (tick_kept s Hs) as (s' & ? & _). by exists s'.
  - intros st. destruct (exit_kept st s Hs) as (s' & ? & _). by exists s'.
  - intros Hif. destruct (yield_kept s Hs Hif) as (s' & ? & _). by exists s'.
Qed.

Lemma user_page_owned p a rt : user_page p a rt → owns p (a / PAGE_SIZE) ∧ (r_write rt = true → r_nx rt = true).
Proof.
  intros [(c & Hc & Hb & ->)|(st & Hst & Hb & ->)]; (split; [|done]); right; [left|right]; eauto.
Qed.

(** C2: memory isolation, in every state reached by creating processes, timer
    interrupts, yields and exits, under the conditions on process creation that
    [step] has and the kernel does not check: process slots are left, and an
    image that is loaded asks for addresses in the lower half.  (An image that
    asks for the upper half replaces mappings of the kernel in every address
    space.)  In such a state, what user mode may access through the page table of a user process lies in a frame of that process:
    its code, which is not writable, or its stack, which is not executable.
    The frame is not free, holds no page table, and no other user process can
    access it.  The kernel's own table admits no user access at all. *)
Theorem memory_isolation s0 s i p w a rt :
  system A s0 → isolated s0 → rtc step s0 s →
  procs s !! i = Some p → kind p = UserProc → canonical w →
  translate (pg_mem (pg s)) (pagetable p) w = Some (a, rt) → r_user rt = true →
  user_page p a rt ∧ (r_write rt = true → r_nx rt = true) ∧
  ¬ pg_free (pg s) (a / PAGE_SIZE) ∧
  (∀ r q, r ∈ roots s → (length q ≤ 3)%nat → reach (pg_mem (pg s)) r q ≠ Some (a / PAGE_SIZE * PAGE_SIZE)) ∧
  (∀ k p' w' a' rt', k ≠ i → procs s !! k = Some p' → kind p' = UserProc → canonical w' →
     translate (pg_mem (pg s)) (pagetable p') w' = Some (a', rt') → r_user rt' = true → a' / PAGE_SIZE ≠ a / PAGE_SIZE) ∧
  (∀ w' a' rt', canonical w' → translate (pg_mem (pg s)) (KERNEL_PML4 (pg s)) w' = Some (a', rt') → r_user rt' = false).
Proof.
  intros H0 I0 Hr Hp Hk Hw Ht Hu. destruct (reachable_kept s0 s Hr H0) as [Hs His]. specialize (His I0).
  pose proof (is_user s His i p w a rt Hp Hk Hw Ht Hu) as Hpage. destruct (user_page_owned p a rt Hpage) as [Hown Hwx].
  destruct (sy_owned _ _ Hs i p _ Hp Hown) as [Hnt Hnf]. rewrite Z.div_mul in Hnf by done.
  split_and!; [done|done|done|done| |apply (is_kernel s His)].
  intros k p' w' a' rt' Hne Hp' Hk' Hw' Ht' Hu' E. pose proof (is_user s His k p' w' a' rt' Hp' Hk' Hw' Ht' Hu') as Hpage'.
  destruct (user_page_owned p' a' rt' Hpage') as [Hown' _]. rewrite E in Hown'. by apply (sy_disjoint _ _ Hs k i p' p (a / PAGE_SIZE)).
Qed.

(** C13: given room for its tables and frames, [spawn_user] returns for every
    program of at most a page.  The new process is ready and last in the
    queue; its frames were free; its lower half maps exactly the program
    page, two stack pages and, for the kernel alone, the boot data; its upper
    half is the kernel's; the code page holds the program and zeros ([jmp $]
    for the empty program); the trap frame enters user mode at the program
    with interrupts on; every other address space, process and queue position
    is as before. *)
Theorem spawn_user_correct s code :
  system A s → slot_free s → zlen code ≤ PAGE_SIZE → room (pg s) (spawn_room A) →
  ∃ r s', spawn_user A code s = Ret (r, s') ∧
    user_spawned A s s' r (code_base_of (NEXT_PID s)) (stack_top_of (NEXT_PID s)) (code_base_of (NEXT_PID s)) (default_code code).
Proof.
  intros Hsys Hslot Hlen Hroom. pose proof (spawn_user_spec A Hboot true s code Hsys Hslot ltac:(done)) as H.
  apply ends_total in H as ([r s'] & Heq & H). by exists r, s'.
Qed.


(** C34: with the system invariant, a free process slot and an image whose
    segment, if it has one, asks for lower addresses (which [spawn_elf] does
    not check), and whatever memory is left: when [spawn_elf] returns the
    system invariant holds and its answer is right: in particular it answers [NoMemory] only
    without room for a process, and then every existing address space
    translates as before, the queue is unchanged and no process is added. *)
Theorem spawn_elf_outcomes s image res s' :
  system A s → slot_free s → zlen image ≤ isize_max →
  (∀ e, parse image = Ret (Ok e) → low_addr (virt_addr (p_load e))) →
  spawn_elf A image s = Ret (res, s') → system A s' ∧ elf_result A s s' image res.
Proof.
  intros Hsys Hslot Hlen Hlow Heq. pose proof (spawn_elf_spec A Hboot false s image Hsys Hslot Hlen Hlow ltac:(done)) as H.
  rewrite Heq in H. exact H.
Qed.
End correct.
