(* ===== verification/Machine.v ===== *)
(** * A machine to run on

    256 frames of memory with a kernel image in frames 3 and 4: enough for the
    kernel's page table and two processes.  The theorems on process creation
    and on the running system are instantiated here. *)

From S2P Require Import Prelude Bytes Links Buddy BuddyInv BuddyOps BuddyInit BuddyCorrect Address Paging PagingInv PagingMap PagingPlan PagingCorrect PagingInit ProcLayout Elf ElfCorrect Proc SpaceBuild Spawn SpawnView Sched SchedCorrect System SpawnCorrect SystemCorrect.
Local Open Scope Z_scope.

Definition medium_map : list MemoryArea := [mkArea 1 0 0x100000].
Definition medium_reserved : list (Z * Z) := [(0x3100, 0x4200); (0x3100, 0x3200); (0x4000, 0x4100)].
Definition medium : BuddyAllocator :=
  Eval vm_compute in
    match buddy_new (replicate 256 default_page) medium_map medium_reserved with
    | Ret b => b
    | _ => mkBuddy [] [] 0
    end.

Lemma medium_reserved_ok : reserved_ok medium_reserved.
Proof.
  intros s e H. unfold medium_reserved in H. rewrite !elem_of_cons, elem_of_nil in H.
  destruct H as [[= -> ->]|[[= -> ->]|[[= -> ->]|[]]]]; by vm_compute.
Qed.
Lemma medium_map_ok : ∀ a, a ∈ medium_map → area_ok a.
Proof. intros a ->%list_elem_of_singleton. by vm_compute. Qed.
Lemma medium_map_disjoint : areas_disjoint medium_map.
Proof. split; [set_solver|done]. Qed.

Lemma medium_new : buddy_new (replicate 256 default_page) medium_map medium_reserved = Ret medium.
Proof. vm_compute. reflexivity. Qed.

Lemma medium_spec : wf medium ∧ ∀ j, free_frame medium j ↔ 0 ≤ j < 256 ∧ j ≠ 3 ∧ j ≠ 4.
Proof.
  destruct (buddy_new_spec (replicate 256 default_page) medium_map medium_reserved) as (b & Hb & Hwf & _ & _ & Honly & Hall);
    [done|exact medium_reserved_ok|exact medium_map_ok|exact medium_map_disjoint|].
  rewrite medium_new in Hb. injection Hb as <-. split; [done|]. intros j. split.
  - intros [(a & ->%list_elem_of_singleton & Hav) Hclear]%Honly. unfold avail_frame in Hav. cbn in Hav.
    pose proof (λ a, Hclear 0x3100 0x4200 a ltac:(by left)) as Hc. unfold PAGE_SIZE in *.
    pose proof (Hc 0x3100). pose proof (Hc 0x4000). lia.
  - intros Hj. apply (Hall (mkArea 1 0 0x100000)); [by left|by vm_compute|..].
    + unfold avail_frame, PAGE_SIZE. cbn. lia.
    + intros s e a H. unfold medium_reserved in H. rewrite !elem_of_cons, elem_of_nil in H. unfold PAGE_SIZE.
      destruct H as [[= -> ->]|[[= -> ->]|[[= -> ->]|[]]]]; lia.
Qed.

Lemma medium_coalesced : coalesced medium.
Proof.
  assert (forallb (λ h, match tags medium h with
    | Some (o, true, true) => bool_decide (o + 1 < MAX_ORDER → tags medium (Z.lxor h (2 ^ o)) ≠ Some (o, true, true))
    | _ => true end) (seqZ 0 256) = true) as Hall by (vm_compute; reflexivity).
  intros h o Ho Hfb Hbuddy. pose proof (tags_lt _ _ _ Hfb) as Hlt. change (zlen (metadata medium)) with 256 in Hlt.
  rewrite forallb_forall in Hall. specialize (Hall h). unfold free_block in *. rewrite Hfb in Hall.
  apply bool_decide_eq_true in Hall; [by apply Hall|]. apply list_elem_of_In, elem_of_seqZ. lia.
Qed.
Lemma medium_ok : fr_ok medium.
Proof. split; [apply medium_spec|exact medium_coalesced]. Qed.

Lemma medium_roomy n : (n ≤ 62)%nat → roomy medium n.
Proof.
  intros Hn. apply (roomy_le medium n 62); [done|]. exists ((λ i, 8 + 4 * i) <$> seqZ 0 62). split_and!.
  - apply NoDup_fmap; [intros x y ?; lia|apply NoDup_seqZ].
  - by rewrite length_fmap, length_seqZ.
  - intros h (i & -> & Hi%elem_of_seqZ)%list_elem_of_fmap. split_and!; [exists (2 + i); lia| |unfold PAGE_SIZE, EARLY_PAGE_TABLE_LIMIT; lia].
    intros j Hj. apply medium_spec. lia.
Qed.

(** The kernel's root in frame 3, nothing running yet. *)
Definition medium_addresses : addresses := mkAddresses 0x1000 0x2000 0x3000 0x9000 (0x3100, 0x3200).
Definition medium_paging : paging := mkPaging (λ _, table_new) (Some medium) small_root.
Definition medium_start : tasks :=
  mkTasks [] [] 1 None [] Context_new false (switch_cr3 small_root) 0x9000 medium_paging.

Lemma medium_addresses_ok : addresses_ok medium_addresses.
Proof. by repeat split. Qed.
Lemma medium_bootdata : low_range (bootdata medium_addresses).
Proof. unfold low_range, PAGE_SIZE. cbn. lia. Qed.

Lemma medium_paging_ok : paging_ok medium_paging [small_root].
Proof.
  exists medium. split_and!; [done|exact medium_ok|]. apply spaces_root; [done|done| |].
  - split_and!; [done|by exists 3|done].
  - intros [_ [H _]]%medium_spec. by apply H.
Qed.

Lemma medium_system : system medium_addresses medium_start.
Proof. split; [exact medium_paging_ok|done|done|done|by intros|by intros|by intros|by intros]. Qed.

Lemma medium_isolated : isolated medium_start.
Proof.
  split; [|by intros]. intros w a rt _. pose proof medium_paging_ok as (b & _ & _ & Hsp).
  change (pg_mem (pg medium_start)) with (pg_mem medium_paging). change (KERNEL_PML4 (pg medium_start)) with small_root.
  rewrite (translate_leaf _ _ _ small_root w Hsp) by (by left). unfold leaf. by rewrite entry_at_new.
Qed.

Lemma medium_room n : (n ≤ 62)%nat → room (pg medium_start) n.
Proof. intros Hn. exists medium. split; [done|]. by apply medium_roomy. Qed.
Lemma medium_spawn_room : spawn_room medium_addresses = 16%nat.
Proof. vm_compute. reflexivity. Qed.

Lemma zero_in_page : 0 ≤ 0 < PAGE_SIZE.
Proof. by split. Qed.
Lemma hole_low : low_addr 0x600000800123.
Proof. unfold low_addr. lia. Qed.

Lemma spawn_user_correct_witness :
  ∃ r s' p c, spawn_user medium_addresses [] medium_start = Ret (r, s') ∧ procs s' !! r = Some p ∧
    user_code_phys p = Some c ∧ read_byte (pg_mem (pg s')) c = Some Byte.xeb ∧
    translate (pg_mem (pg s')) (pagetable p) 0x600000800123 = None.
Proof.
  destruct (spawn_user_correct medium_addresses medium_bootdata medium_start []) as (r & s' & Heq & H);
    [exact medium_system|done|done|rewrite medium_spawn_room; apply medium_room; lia|].
  destruct (us_new _ _ _ _ _ _ _ _ H) as (p & c & st & tf & Hp & _ & _ & _ & _ & Hc & _ & _ & _ & _ & _ & Hlow & _ & Hbytes & _).
  exists r, s', p, c. split; [exact Heq|]. clear Heq H. split_and!; [exact Hp|exact Hc| |].
  - specialize (Hbytes 0 zero_in_page). rewrite Z.add_0_r in Hbytes. rewrite Hbytes. vm_compute. reflexivity.
  - rewrite (Hlow _ hole_low). vm_compute. reflexivity.
Defined.

(** One user process, created on the bare machine. *)
Lemma medium_spawned :
  ∃ r s' p c st, spawn_user medium_addresses [] medium_start = Ret (r, s') ∧ READY_QUEUE s' = [r] ∧
    procs s' !! r = Some p ∧ kind p = UserProc ∧ user_code_phys p = Some c ∧ user_stack_phys p = Some st ∧
    ∀ w, low_addr w → translate (pg_mem (pg s')) (pagetable p) w = user_view medium_addresses (code_base_of 1) c (stack_top_of 1) st w.
Proof.
  pose proof (spawn_user_spec medium_addresses medium_bootdata true medium_start [] medium_system) as H.
  assert (slot_free medium_start) as Hs by done. specialize (H Hs).
  assert (true = true → zlen (A := Byte.byte) [] ≤ PAGE_SIZE ∧ room (pg medium_start) (spawn_room medium_addresses)) as Hr.
  { intros _. split; [done|]. rewrite medium_spawn_room. apply medium_room. lia. }
  specialize (H Hr). apply ends_total in H as ([r s'] & Heq & H).
  destruct (us_new _ _ _ _ _ _ _ _ H) as (p & c & st & tf & Hp & _ & _ & Hk & _ & Hc & Hst & _ & _ & _ & _ & Hlow & _).
  exists r, s', p, c, st. split; [exact Heq|]. split; [exact (us_queue _ _ _ _ _ _ _ _ H)|]. auto.
Qed.

Lemma reachable_system_witness :
  ∃ s r, rtc (step medium_addresses) medium_start s ∧ READY_QUEUE s = [r] ∧ IF s = true ∧
    (∃ s', timer_interrupt medium_addresses s = Ret s') ∧ ∃ s', yield_now medium_addresses s = Ret s'.
Proof.
  destruct medium_spawned as (r & s' & p & c & st & Heq & Hq & _).
  assert (slot_free medium_start) as Hslot by (clear; done).
  assert (rtc (step medium_addresses) medium_start (with_if true s')) as Hr.
  { eapply rtc_l; [exact (step_user _ _ _ _ _ Hslot Heq)|]. apply rtc_once. constructor. }
  clear Heq. destruct (reachable_system medium_addresses medium_addresses_ok medium_bootdata _ _ medium_system Hr) as (_ & Ht & _ & Hy).
  exists (with_if true s'), r. split; [exact Hr|]. split; [exact Hq|]. split; [reflexivity|]. split; [exact Ht|]. apply Hy. reflexivity.
Defined.

Lemma code_base_low : low_addr (code_base_of 1).
Proof. unfold low_addr. by vm_compute. Qed.

Lemma memory_isolation_witness :
  ∃ s i p a, rtc (step medium_addresses) medium_start s ∧ procs s !! i = Some p ∧
    translate (pg_mem (pg s)) (pagetable p) (code_base_of 1) = Some (a, mkRights true false false) ∧
    user_page p a (mkRights true false false) ∧ ¬ pg_free (pg s) (a / PAGE_SIZE).
Proof.
  destruct medium_spawned as (r & s' & p & c & st & Heq & Hq & Hp & Hk & Hc & Hst & Hlow).
  assert (slot_free medium_start) as Hslot by (clear; done).
  assert (rtc (step medium_addresses) medium_start s') as Hr by (apply rtc_once; exact (step_user _ _ _ _ _ Hslot Heq)).
  assert (translate (pg_mem (pg s')) (pagetable p) (code_base_of 1) = Some (c + 0, mkRights true false false)) as Ht.
  { rewrite (Hlow _ code_base_low). clear. vm_compute. destruct c; reflexivity. }
  clear Heq. destruct (memory_isolation medium_addresses medium_addresses_ok medium_bootdata medium_start s' r p (code_base_of 1) (c + 0) (mkRights true false false))
    as (H1 & _ & H3 & _); [exact medium_system|exact medium_isolated|exact Hr|exact Hp|exact Hk|left; exact code_base_low|exact Ht|reflexivity|].
  exists s', r, p, (c + 0). auto.
Defined.

(** The image of [/bin/ls]. *)
Definition ls_image : bytes := Eval vm_compute in match build_program_image Ls with Ret image => image | _ => [] end.
Definition ls_elf : option ParsedElf := Eval vm_compute in match parse ls_image with Ret (Ok e) => Some e | _ => None end.
Lemma ls_parse : ∃ e, parse ls_image = Ret (Ok e) ∧ ls_elf = Some e ∧ low_addr (virt_addr (p_load e)).
Proof. eexists. split; [vm_compute; reflexivity|]. split; [reflexivity|]. by vm_compute. Qed.


(** ** Three processes: the boot process runs, two kernel processes wait *)

Definition waiting (i : Z) : Proc :=
  mkProc i Ready (mkContext 0 0 0 0 0 0 (KERNEL_VMA + 0x8000 * i) 0x1000) small_root 0 0 KernelProc 5 (Some 0x7000) None None None.
Definition trio : tasks (B := BuddyAllocator) :=
  mkTasks [mkProc 0 Running Context_new small_root 0 0x9000 KernelProc 5 None None None None; waiting 1; waiting 2]
    [1%nat; 2%nat] 3 (Some 0%nat) [NotStarted; NotStarted; NotStarted] Context_new true (switch_cr3 small_root) 0x9000 medium_paging.
Definition trio_rr : rr := mkRr 0 5 true [1%nat; 2%nat].

Lemma trio_models : models medium_addresses trio trio_rr.
Proof.
  assert (∀ r, r ∈ READY_QUEUE trio → r = 1%nat ∨ r = 2%nat) as Hq.
  { intros r. change (READY_QUEUE trio) with [1%nat; 2%nat]. rewrite !elem_of_cons, elem_of_nil. tauto. }
  split; [|split; [reflexivity|split; [reflexivity|split; [reflexivity|eexists; split; reflexivity]]]].
  split; [reflexivity|reflexivity| | |intros r Hr; apply Hq in Hr| |intros r Hr; apply Hq in Hr].
  - eexists. split; [reflexivity|]. split; [left; reflexivity|]. split; [reflexivity|]. split; [reflexivity|]. vm_compute. split; [reflexivity|discriminate].
  - change (NoDup [0%nat; 1%nat; 2%nat]). apply (bool_decide_unpack _). vm_compute. exact I.
  - destruct Hr as [-> | ->]; eexists; (split; [reflexivity|]); reflexivity.
  - change (rr_cur trio_rr :: READY_QUEUE trio) with [0%nat; 1%nat; 2%nat].
    intros [|[|[|r]]] p Hp Hr; [exfalso; apply Hr; set_solver..|]. vm_compute in Hp. destruct r; discriminate Hp.
  - destruct Hr as [-> | ->]; eexists _, NotStarted; (split; [reflexivity|]); (split; [reflexivity|]); left; (split; [reflexivity|]); eexists; reflexivity.
Qed.

Lemma scheduler_refines_witness :
  ∃ s', run_event medium_addresses (Exit 0) trio = Ret s' ∧ models medium_addresses s' (mkRr 1 5 true [2%nat]).
Proof.
  destruct (scheduler_refines medium_addresses medium_addresses_ok (Exit 0) trio trio_rr) as (s' & H1 & H2 & _);
    [reflexivity|exact trio_models|]. exists s'. split; [exact H1|]. clear H1.
  change (mkRr 1 5 true [2%nat]) with (rr_step (Exit 0) trio_rr). exact H2.
Defined.

Lemma no_starvation_witness :
  ∃ es1 es2 s', [Yield; Tick; Tick; Tick; Tick; Exit 1; Tick; Tick; Tick; Tick; Tick; Tick] = es1 ++ es2 ∧
    run_events medium_addresses es1 trio = Ret s' ∧ CURRENT s' = Some 2%nat.
Proof.
  apply (no_starvation medium_addresses medium_addresses_ok _ trio trio_rr 2%nat 1%nat);
    [repeat constructor|exact trio_models|reflexivity|vm_compute; discriminate].
Defined.

Lemma round_robin_witness :
  ∃ s', run_events medium_addresses (replicate 10 Tick) trio = Ret s' ∧ CURRENT s' = Some 2%nat.
Proof.
  apply (round_robin medium_addresses medium_addresses_ok trio trio_rr 2%nat 1%nat); [exact trio_models|reflexivity..].
Defined.

(** ** Eight frames: too few for a kernel stack *)

Definition tiny : BuddyAllocator :=
  Eval vm_compute in
    match buddy_new (replicate 8 default_page) [mkArea 1 0 0x8000] medium_reserved with
    | Ret b => b
    | _ => mkBuddy [] [] 0
    end.

Lemma tiny_spec : fr_ok tiny ∧ ¬ fr_free tiny 3.
Proof.
  destruct (buddy_new_spec (replicate 8 default_page) [mkArea 1 0 0x8000] medium_reserved) as (b & Hb & Hwf & _ & _ & Honly & _);
    [done|exact medium_reserved_ok|intros a ->%list_elem_of_singleton; by vm_compute|split; [set_solver|done]|].
  assert (b = tiny) as -> by (vm_compute in Hb; by injection Hb as <-). split; [split; [done|]|].
  - assert (Forall (λ h, ∀ o, o + 1 < MAX_ORDER → free_block tiny h o → ¬ free_block tiny (Z.lxor h (2 ^ o)) o) (seqZ 0 8)) as Hall.
    { repeat (apply Forall_cons; split; [intros o _ [=]; subst; by intros [=]|]). done. }
    intros h o Ho Hfb. pose proof (tags_lt _ _ _ Hfb) as Hlt. change (zlen (metadata tiny)) with 8 in Hlt.
    revert o Ho Hfb. eapply Forall_forall in Hall; [exact Hall|]. apply elem_of_seqZ. lia.
  - intros [_ Hclear]%Honly. apply (Hclear 0x3100 0x4200 0x3100); [by left|unfold PAGE_SIZE; lia|lia].
Qed.

Definition tiny_start : tasks :=
  mkTasks [] [] 1 None [] Context_new false (switch_cr3 small_root) 0x9000 (mkPaging (λ _, table_new) (Some tiny) small_root).
Lemma tiny_system : system medium_addresses tiny_start.
Proof.
  split; [|done|done|done|by intros|by intros|by intros|by intros].
  exists tiny. split_and!; [done|apply tiny_spec|]. apply spaces_root; [done|done| |apply tiny_spec].
  split_and!; [done|by exists 3|done].
Qed.

Lemma spawn_elf_outcomes_witness :
  ∃ s', spawn_elf medium_addresses ls_image tiny_start = Ret (Err NoMemory, s') ∧
    system medium_addresses s' ∧ READY_QUEUE s' = [] ∧ NEXT_PID s' = 2.
Proof.
  assert (match spawn_elf medium_addresses ls_image tiny_start with Ret (Err NoMemory, _) => true | _ => false end = true) as Hc
    by (vm_compute; reflexivity).
  destruct ls_parse as (e & Hp & _ & Hlow). assert (slot_free tiny_start) as Hslot by (clear; done).
  assert (zlen ls_image ≤ isize_max) as Hlen by (clear; vm_compute; discriminate).
  destruct (spawn_elf medium_addresses ls_image tiny_start) as [[[r|[]] s']| |] eqn:Heq; try discriminate Hc.
  exists s'. split; [reflexivity|]. clear Hc.
  destruct (spawn_elf_outcomes medium_addresses medium_bootdata tiny_start ls_image (Err NoMemory) s') as [Hs Hres];
    [exact tiny_system|exact Hslot|exact Hlen| |exact Heq|].
  { intros e' He'. rewrite Hp in He'. injection He' as <-. exact Hlow. }
  clear Heq. split; [exact Hs|]. destruct Hres as (_ & Hq & Hn & _). split; [exact Hq|exact Hn].
Defined.
