(* ===== verification/Boot.v ===== *)
(** * Booting ([kernel_main] in [src/main.rs])

    The boot sequence up to the shell: page allocator, kernel page table, the
    boot process and the first two user processes.  The hardware set-up
    between them is in [Traps], the file system in [Syscall]. *)

From S2P Require Import Prelude Bytes Links Buddy BuddyInv BuddyOps BuddyInit BuddyCorrect Address Paging PagingInv PagingMap PagingPlan PagingCorrect PagingInit ProcLayout Elf ElfCorrect Proc SpaceBuild Spawn SpawnView Sched SchedCorrect System SpawnCorrect SystemCorrect Machine.
Local Open Scope Z_scope.

Definition MAX_SUPPORTED_PAGES : Z := 131072.

(** The highest end of an area, 0 without areas. *)
Definition max_phys (mem_map : list MemoryArea) : Z := foldr Z.max 0 (area_end <$> mem_map).
Definition total_pages_of (mem_map : list MemoryArea) : Z := (max_phys mem_map + PAGE_SIZE - 1) / PAGE_SIZE.

(** The metadata array, cut to the pages there are. *)
Definition boot_metadata (mem_map : list MemoryArea) : list PageInfo :=
  replicate (Z.to_nat (Z.min (total_pages_of mem_map) MAX_SUPPORTED_PAGES)) (mkPageInfo 0 0 NONE NONE).
Definition boot_reserved (img : KernelImage) : list (Z * Z) := [kernel_range img; bootdata_range img; mbi_range img].

(** Memory [m0] and registers [c] as the boot loader leaves them. *)
Definition kernel_boot (A : addresses) (mem_map : list MemoryArea) (img : KernelImage) (m0 : pmem) (c : Context) : outcome (tasks (B := BuddyAllocator)) :=
  b ← buddy_new (boot_metadata mem_map) mem_map (boot_reserved img);
  '(addr, p) ← init_kernel_page_table mem_map img (mkPaging m0 (Some b) 0);
  let s := load_cr3 (switch_cr3 addr) (mkTasks [] [] 1 None [] c false 0 0 p) in
  let s := set_kernel_stack (ring0_stack_top A) s in
  s ← init A s;
  syscall_smoke ← syscall_write_smoke_program;
  '(_, s) ← spawn_user A syscall_smoke s;
  '(_, s) ← spawn_user A [Byte.xeb; Byte.xfe] s;
  Ret (enable_interrupts s).

Section boot.
Context (A : addresses) (HA : addresses_ok A).
Context (mem_map : list MemoryArea) (img : KernelImage) (m0 : pmem) (c : Context).
Context (Himg : image_ok mem_map img) (Hbd : bootdata A = bootdata_range img) (Hm0 : ∀ t, length (m0 t) = 512%nat).

Lemma bootdata_low : low_range (bootdata A).
Proof. rewrite Hbd. apply Himg. Qed.

(** The state in which [task::proc::init] finds the machine. *)
Definition boot_state (addr : Z) (p : paging (B := BuddyAllocator)) : tasks :=
  set_kernel_stack (ring0_stack_top A) (load_cr3 (switch_cr3 addr) (mkTasks [] [] 1 None [] c false 0 0 p)).

Lemma boot_state_ok root p :
  paging_ok p [root] → KERNEL_PML4 p = root → root ≠ 0 →
  (∀ w, low_addr w ∨ high_addr w → translate (pg_mem p) root w = expected mem_map img w) →
  system A (boot_state root p) ∧ isolated (boot_state root p).
Proof.
  intros Hp Hk Hr0 Htr. subst root. split.
  - split; [exact Hp|exact Hr0| |done|by intros|by intros|by intros|by intros]. cbn. by repeat split.
  - split; [|by intros]. intros w a rt Hw. cbn [pg boot_state set_kernel_stack load_cr3]. rewrite Htr by exact Hw. intros He.
    by apply (expected_rights mem_map img w a rt Hw He).
Qed.

Lemma smoke_short : ∃ code, syscall_write_smoke_program = Ret code ∧ zlen code ≤ PAGE_SIZE.
Proof. eexists. split; [vm_compute; reflexivity|]. by vm_compute. Qed.

(** One process more. *)
Lemma spawn_one n (s : tasks (B := BuddyAllocator)) code :
  system A s → isolated s → slot_free s → zlen code ≤ PAGE_SIZE → room (pg s) (n + spawn_room A) →
  ∃ r s' p, spawn_user A code s = Ret (r, s') ∧ system A s' ∧ isolated s' ∧ NEXT_PID s' = NEXT_PID s + 1 ∧ room (pg s') n ∧
    READY_QUEUE s' = READY_QUEUE s ++ [r] ∧ KERNEL_PML4 (pg s') = KERNEL_PML4 (pg s) ∧ (CURRENT s ≠ None → CURRENT s' = CURRENT s) ∧
    (∀ i q, procs s !! i = Some q → procs s' !! i = Some q) ∧
    procs s' !! r = Some p ∧ pid p = NEXT_PID s ∧ kind p = UserProc.
Proof.
  intros Hsys His Hslot Hlen Hroom.
  assert (true = true → zlen code ≤ PAGE_SIZE ∧ room (pg s) (spawn_room A)) as Hr.
  { intros _. split; [done|]. eapply room_le, Hroom. lia. }
  pose proof (spawn_user_spec A bootdata_low true s code Hsys Hslot Hr) as H. apply ends_total in H as ([r s'] & Heq & H).
  pose proof (user_spawned_isolated A s s' r _ _ _ _ His H) as His'.
  destruct H as [U1 _ U3 U4 (c0 & U5 & U5') U6 _ U8 _ U10 (p & cc & st & tf & Hp & _ & Hpid & Hkind & _)].
  exists r, s', p. split_and!; [done|done|done|done|by apply U10|done|done| |done|done|done|done].
  intros Hc. destruct U5' as [?|?]; congruence.
Qed.

(** The boot sequence, on a machine whose memory map and image are sane,
    whose page allocator starts coalesced with room for the kernel's tables
    and two processes, and whose kernel root does not happen to be frame 0:
    [kernel_main] reaches the shell with interrupts on and the system
    invariant and isolation established; the boot process runs on the new
    page table, and the two user processes, with ids 1 and 2, wait. *)
Theorem kernel_boot_correct b :
  reserved_ok (boot_reserved img) → (∀ a, a ∈ mem_map → area_ok a) → areas_disjoint mem_map →
  buddy_new (boot_metadata mem_map) mem_map (boot_reserved img) = Ret b → coalesced b →
  roomy b (S (length (tables (kernel_plan mem_map img))) + 2 * spawn_room A) →
  (∀ p, init_kernel_page_table mem_map img (mkPaging m0 (Some b) 0) ≠ Ret (0, p)) →
  ∃ s r1 r2 p1 p2, kernel_boot A mem_map img m0 c = Ret s ∧ system A s ∧ isolated s ∧ IF s = true ∧
    (∃ c0 p0, CURRENT s = Some c0 ∧ procs s !! c0 = Some p0 ∧ pid p0 = 0 ∧ pagetable p0 = KERNEL_PML4 (pg s) ∧
      state p0 = Running ∧ ticks_left p0 = DEFAULT_TIME_SLICE_TICKS) ∧
    READY_QUEUE s = [r1; r2] ∧ procs s !! r1 = Some p1 ∧ pid p1 = 1 ∧ kind p1 = UserProc ∧
    procs s !! r2 = Some p2 ∧ pid p2 = 2 ∧ kind p2 = UserProc.
Proof.
  intros Hres Hareas Hdis Hb Hco Hroom Hr0.
  assert (zlen (boot_metadata mem_map) < 2 ^ 32) as Hlen.
  { unfold zlen, boot_metadata. rewrite length_replicate. unfold MAX_SUPPORTED_PAGES. lia. }
  destruct (buddy_new_spec _ _ _ Hlen Hres Hareas Hdis) as (b' & Hb' & Hwf & _). rewrite Hb in Hb'. injection Hb' as <-.
  assert (available b (S (length (tables (kernel_plan mem_map img))))) as Hav.
  { apply roomy_available. eapply roomy_le, Hroom. lia. }
  assert (fr_ok b) as Hok by (split; done).
  destruct (init_table mem_map img (mkPaging m0 (Some b) 0) b eq_refl Hok Hm0 Himg Hav) as (root & p & Hinit & Hp & Hk & Htr & b1 & k & Hb1 & Htk & Hle).
  assert (root ≠ 0) as Hroot by (intros ->; by apply (Hr0 p)).
  destruct (boot_state_ok root p Hp Hk Hroot Htr) as [Hsys0 His0].
  assert (room (pg (boot_state root p)) (spawn_room A + spawn_room A)) as Hroom0.
  { exists b1. split; [exact Hb1|]. eapply roomy_takes; [exact Htk|]. eapply roomy_le, Hroom. lia. }
  destruct (init_system A _ Hsys0) as (c0 & s1 & Hi & Hsys1 & Hc1 & Epg & Enp & _ & Eq & _).
  pose proof (init_isolated A _ _ Hsys0 His0 Hi) as His1.
  assert (∃ p0, procs s1 !! c0 = Some p0 ∧ pid p0 = 0 ∧ pagetable p0 = KERNEL_PML4 p ∧ state p0 = Running ∧ ticks_left p0 = DEFAULT_TIME_SLICE_TICKS)
    as (p0 & Hp0 & Hpid0 & Hpt0 & Hst0 & Htl0).
  { clear - Hi Hc1 Hroot Hk. unfold init, kernel_pml4 in Hi. cbn [CURRENT pg boot_state set_kernel_stack load_cr3] in Hi.
    rewrite Hk in Hi. replace (root =? 0) with false in Hi by lia. cbn in Hi. injection Hi as <-. cbn in Hc1. injection Hc1 as <-. by eexists. }
  rewrite <- Epg in Hroom0. destruct smoke_short as (smoke & Hsmoke & Hsl).
  destruct (spawn_one (spawn_room A) s1 smoke Hsys1 His1) as (r1 & s2 & p1 & H2 & Hsys2 & His2 & Enp2 & Hroom2 & Eq2 & Ek2 & Hc2 & Hold2 & Hp1 & Hpid1 & Hk1);
    [unfold slot_free; rewrite Enp; by vm_compute|done|done|].
  destruct (spawn_one 0 s2 [Byte.xeb; Byte.xfe] Hsys2 His2) as (r2 & s3 & p2 & H3 & Hsys3 & His3 & Enp3 & _ & Eq3 & Ek3 & Hc3 & Hold3 & Hp2 & Hpid2 & Hk2);
    [unfold slot_free; rewrite Enp2, Enp; by vm_compute|done|done|].
  exists (enable_interrupts s3), r1, r2, p1, p2. split_and!; try done.
  - unfold kernel_boot. rewrite Hb, Ret_bind, Hinit, Ret_bind. fold (boot_state root p). rewrite Hi, Ret_bind, Hsmoke, Ret_bind, H2, Ret_bind, H3. done.
  - by apply system_if.
  - by apply isolated_if.
  - assert (CURRENT s2 = Some c0) as Hcur2 by (rewrite Hc2; congruence).
    exists c0, p0. split_and!; [cbn; rewrite Hc3; congruence|cbn; auto|done| |done|done]. cbn. by rewrite Hpt0, Ek3, Ek2, Epg.
  - cbn. by rewrite Eq3, Eq2, Eq.
  - cbn. auto.
  - by rewrite Hpid1, Enp.
  - by rewrite Hpid2, Enp2, Enp.
Qed.
End boot.

(** ** Booting the 256-frame machine *)

Lemma medium_image_ok : image_ok medium_map small_image.
Proof.
  split; [|split; vm_compute; split; congruence..]. intros a ->%list_elem_of_singleton _. by vm_compute.
Qed.
Lemma medium_boot_new : buddy_new (boot_metadata medium_map) medium_map (boot_reserved small_image) = Ret medium.
Proof. vm_compute. reflexivity. Qed.
Lemma medium_boot_room : roomy medium (S (length (tables (kernel_plan medium_map small_image))) + 2 * spawn_room medium_addresses).
Proof. apply medium_roomy. vm_compute. lia. Qed.
Lemma medium_root : ∀ p, init_kernel_page_table medium_map small_image (mkPaging (λ _, table_new) (Some medium) 0) ≠ Ret (0, p).
Proof.
  intros p H. apply (f_equal (λ o, match o with Ret (r, _) => r =? 0 | _ => false end)) in H. vm_compute in H. discriminate H.
Qed.

Lemma kernel_boot_correct_witness :
  ∃ s r1 r2, kernel_boot medium_addresses medium_map small_image (λ _, table_new) Context_new = Ret s ∧
    IF s = true ∧ READY_QUEUE s = [r1; r2] ∧ system medium_addresses s.
Proof.
  destruct (kernel_boot_correct medium_addresses medium_map small_image (λ _, table_new) Context_new medium_image_ok eq_refl
    (λ _, eq_refl) medium) as (s & r1 & r2 & p1 & p2 & H1 & H2 & _ & H4 & _ & H6 & _);
    [exact medium_reserved_ok|exact medium_map_ok|exact medium_map_disjoint|exact medium_boot_new|exact medium_coalesced
    |exact medium_boot_room|exact medium_root|].
  exists s, r1, r2. split; [exact H1|]. split; [exact H4|]. split; [exact H6|exact H2].
Defined.

(** ** Why images have to ask for lower addresses

    [spawn_elf] does not look at the address its segment asks for.  An image
    linked into the upper half goes through the tables every address space
    shares with the kernel.  Here such an image asks for the direct map of the
    physical page [0x5000]: starting it succeeds, and then that address leads
    to the frame with the program's code in the kernel's own table and in the
    table of every process. *)
Definition upper_image (v : Z) : bytes :=
  match (image ← build_program_image Ls; copy_into image (ELF_HEADER_SIZE + 16) (to_le 8 v)) with Ret image => image | _ => [] end.
Definition remapped : outcome (option (Z * rights) * (Z * list Z)) :=
  s ← kernel_boot medium_addresses medium_map small_image (λ _, table_new) Context_new;
  '(r, s') ← spawn_elf medium_addresses (upper_image (KERNEL_VMA + 0x5000)) s;
  match r with
  | Ok i =>
      p ← expect (procs s' !! i);
      c ← expect (user_code_phys p);
      Ret (translate (pg_mem (pg s)) (KERNEL_PML4 (pg s)) (KERNEL_VMA + 0x5000),
        (c, (λ q, default 0 (fst <$> translate (pg_mem (pg s')) (pagetable q) (KERNEL_VMA + 0x5000))) <$> procs s'))
  | Err _ => Panic
  end.
Lemma upper_half_image_remaps_kernel :
  ∃ code, remapped = Ret (Some (0x5000, mkRights false true true), (code, [code; code; code; code])) ∧ code ≠ 0x5000.
Proof. eexists. split; [vm_compute; reflexivity|]. discriminate. Qed.
