(* ===== verification/SpinLock.v ===== *)
(** * The spin lock ([src/lock/spin_lock.rs])

    One lock shared by any number of processors, as a step relation: each
    atomic instruction of [lock], [try_lock], [unlock] and of the guard's
    [drop] is a step of one processor.  A processor carries its interrupt
    flag, which the lock saves, clears and restores.  A process that is
    switched away while it holds a guard counts as a processor of its own: its
    flag is saved and restored with it, and it takes no step in between. *)

From S2P Require Import Prelude.

(** Where a processor is.  [saved] is the guard's [interrupts_were_enabled].
    The other arguments are history that no step depends on: [at_call] is the
    interrupt flag at the call of [lock] or [try_lock], [quiet] tells whether
    the flag has stayed off since the guard was returned. *)
Inductive phase :=
  | Idle
  | LockCalled (at_call : bool)              (* in lock: nothing done yet *)
  | LockSampled (at_call saved : bool)       (* in lock: flag read, [cli] not yet done *)
  | Spinning (at_call saved : bool)          (* in lock: before a compare_exchange *)
  | TryCalled (at_call : bool)               (* in try_lock: nothing done yet *)
  | TrySampled (at_call saved : bool)        (* in try_lock: flag read *)
  | Trying (at_call saved : bool)            (* in try_lock: before its compare_exchange *)
  | TryFailed (at_call saved : bool)         (* in try_lock: lock not got, flag not yet restored *)
  | Holding (at_call saved quiet : bool)     (* a guard is alive *)
  | Stuck (at_call saved : bool)             (* a guard is alive and [lock] is called again *)
  | Restoring (at_call saved quiet : bool).  (* in drop: lock released, flag not yet restored *)

Record core := mkCore { intf : bool; ph : phase }.
Record lockstate := mkLock { locked : bool; cores : gmap nat core }.

Definition set_core (c : nat) (k : core) (s : lockstate) : lockstate :=
  mkLock (locked s) (<[c := k]> (cores s)).
Definition set_locked (b : bool) (s : lockstate) : lockstate := mkLock b (cores s).

(** The instructions of one processor, by what its phase allows. *)
Inductive core_step (b : bool) : core → bool → core → Prop :=
  (* outside the lock the flag may change at will *)
  | step_flag i i' : core_step b (mkCore i Idle) b (mkCore i' Idle)
  (* lock is called *)
  | step_lock i : core_step b (mkCore i Idle) b (mkCore i (LockCalled i))
  (* let interrupts_were_enabled = interrupts_enabled() *)
  | step_lock_sample i at_call : core_step b (mkCore i (LockCalled at_call)) b (mkCore i (LockSampled at_call i))
  (* disable_interrupts() *)
  | step_lock_cli i at_call sv : core_step b (mkCore i (LockSampled at_call sv)) b (mkCore false (Spinning at_call sv))
  (* compare_exchange(false, true) succeeds: return the guard *)
  | step_lock_ok i at_call sv : b = false →
      core_step b (mkCore i (Spinning at_call sv)) true (mkCore i (Holding at_call sv true))
  (* it fails: spin *)
  | step_lock_spin i at_call sv : b = true →
      core_step b (mkCore i (Spinning at_call sv)) true (mkCore i (Spinning at_call sv))
  (* try_lock *)
  | step_try i : core_step b (mkCore i Idle) b (mkCore i (TryCalled i))
  | step_try_sample i at_call : core_step b (mkCore i (TryCalled at_call)) b (mkCore i (TrySampled at_call i))
  | step_try_cli i at_call sv : core_step b (mkCore i (TrySampled at_call sv)) b (mkCore false (Trying at_call sv))
  | step_try_ok i at_call sv : b = false →
      core_step b (mkCore i (Trying at_call sv)) true (mkCore i (Holding at_call sv true))
  | step_try_err i at_call sv : b = true →
      core_step b (mkCore i (Trying at_call sv)) true (mkCore i (TryFailed at_call sv))
  | step_try_restore i at_call sv : core_step b (mkCore i (TryFailed at_call sv)) b (mkCore (sv || i) Idle)
  (* the code under the lock may use other locks (or try this one again in
     vain), which leaves its flag as it is, and it may change the flag: the
     exit hook schedules *)
  | step_critical i i' at_call sv q :
      core_step b (mkCore i (Holding at_call sv q)) b (mkCore i' (Holding at_call sv (q && negb i')))
  (* the code under the lock calls lock on the same lock: it spins *)
  | step_relock i at_call sv q : core_step b (mkCore i (Holding at_call sv q)) b (mkCore false (Stuck at_call sv))
  | step_relock_spin i at_call sv : b = true → core_step b (mkCore i (Stuck at_call sv)) true (mkCore i (Stuck at_call sv))
  | step_relock_ok i at_call sv q : b = false →
      core_step b (mkCore i (Stuck at_call sv)) true (mkCore i (Holding at_call sv q))
  (* drop: unlock() stores false, then the flag is restored *)
  | step_unlock i at_call sv q : core_step b (mkCore i (Holding at_call sv q)) false (mkCore i (Restoring at_call sv q))
  | step_restore i at_call sv q : core_step b (mkCore i (Restoring at_call sv q)) b (mkCore (sv || i) Idle).

Inductive lock_step : lockstate → lockstate → Prop :=
  | step_core s c k k' b' :
      cores s !! c = Some k → core_step (locked s) k b' k' →
      lock_step s (set_locked b' (set_core c k' s)).

(** [SpinLock::new] with every processor outside. *)
Definition initial (s : lockstate) : Prop :=
  locked s = false ∧ ∀ c k, cores s !! c = Some k → ph k = Idle.

(** A guard of this processor is alive. *)
Definition is_holding (k : core) : Prop :=
  match ph k with Holding _ _ _ | Stuck _ _ => True | _ => False end.
Definition holding (s : lockstate) (c : nat) : Prop := ∃ k, cores s !! c = Some k ∧ is_holding k.

(** The saved flag is the one of the call, and from [cli] to the return of the
    guard, and after that until the holder turns them on, interrupts are off. *)
Definition flag_ok (k : core) : Prop :=
  match ph k with
  | Idle => True
  | LockCalled at_call | TryCalled at_call => intf k = at_call
  | LockSampled at_call sv | TrySampled at_call sv => intf k = at_call ∧ sv = at_call
  | Spinning at_call sv | Trying at_call sv | TryFailed at_call sv | Stuck at_call sv => intf k = false ∧ sv = at_call
  | Holding at_call sv q | Restoring at_call sv q => (q = true → intf k = false) ∧ sv = at_call
  end.

Record lock_inv (s : lockstate) : Prop := {
  li_held : locked s = true ↔ ∃ c, holding s c;
  li_one : ∀ c c', holding s c → holding s c' → c = c';
  li_flag : ∀ c k, cores s !! c = Some k → flag_ok k;
}.

Lemma initial_inv s : initial s → lock_inv s.
Proof.
  intros [Hl Hi]. assert (∀ c, ¬ holding s c) as Hno.
  { intros c (k & H & Hk). apply Hi in H. unfold is_holding in Hk. by rewrite H in Hk. }
  split.
  - rewrite Hl. split; [done|]. intros [c Hc]. by destruct (Hno c).
  - intros c c' Hc. by destruct (Hno c).
  - intros c k H. apply Hi in H. unfold flag_ok. by rewrite H.
Qed.

(** One instruction: how it moves the lock bit and the holder, locally.  A
    processor that has the lock and calls [lock] again cannot get it, for the
    lock is taken. *)
Lemma core_step_local b k b' k' :
  core_step b k b' k' → flag_ok k → (is_holding k → b = true) →
  flag_ok k' ∧
  ((b' = b ∧ (is_holding k ↔ is_holding k')) ∨
   (b = false ∧ b' = true ∧ ¬ is_holding k ∧ is_holding k') ∨
   (b' = false ∧ is_holding k ∧ ¬ is_holding k')).
Proof.
  intros H Hf Hb. destruct H; unfold flag_ok, is_holding in *; simpl in *; subst; try by specialize (Hb I).
  all: split; [|naive_solver].
  all: try naive_solver. destruct Hf. split; [|done]. by intros [_ ?%negb_true_iff]%andb_true_iff.
Qed.

Lemma holding_update s c k' b' d :
  holding (set_locked b' (set_core c k' s)) d ↔
    (d = c ∧ is_holding k') ∨ (d ≠ c ∧ holding s d).
Proof.
  unfold holding. simpl. destruct (decide (d = c)) as [->|Hne].
  - rewrite lookup_insert_eq. naive_solver.
  - rewrite lookup_insert_ne by done. naive_solver.
Qed.

Lemma lock_step_inv s s' : lock_inv s → lock_step s s' → lock_inv s'.
Proof.
  intros [Hh H1 Hf] Hstep. destruct Hstep as [s c k k' b' Hc Hs].
  assert (is_holding k ↔ holding s c) as Hk by (unfold holding; naive_solver).
  destruct (core_step_local _ _ _ _ Hs (Hf _ _ Hc)) as [Hf' Hcase].
  { intros Hkk. apply Hh. exists c. by apply Hk. }
  set (s' := set_locked b' (set_core c k' s)).
  assert (∀ d, d ≠ c → holding s' d ↔ holding s d) as Hother.
  { intros d Hne. unfold s'. rewrite holding_update. tauto. }
  assert (holding s' c ↔ is_holding k') as Hself.
  { unfold s'. rewrite holding_update. split; [by intros [[_ ?]|[? ?]]|by left]. }
  split.
  - change (locked s') with b'.
    destruct Hcase as [(-> & Hkk)|[(Hb & -> & Hn & Hy)|(-> & Hy & Hn)]].
    + rewrite Hh. split; intros [d Hd]; exists d;
        destruct (decide (d = c)) as [->|Hne]; first [tauto|by apply (Hother d)].
    + split; [|done]. intros _. exists c. tauto.
    + split; [done|]. intros [d Hd]. destruct (decide (d = c)) as [->|Hne]; [tauto|].
      destruct (Hne (H1 d c (proj1 (Hother d Hne) Hd) (proj1 Hk Hy))).
  - intros d d' Hd Hd'. destruct Hcase as [(-> & Hkk)|[(Hb & -> & Hn & Hy)|(-> & Hy & Hn)]].
    + apply H1; [destruct (decide (d = c)) as [->|]|destruct (decide (d' = c)) as [->|]];
        first [tauto|by apply Hother].
    + assert (∀ e, holding s' e → e = c) as Hno; [|by rewrite (Hno d), (Hno d')].
      intros e He. destruct (decide (e = c)) as [|Hne]; [done|]. apply Hother in He; [|done].
      assert (locked s = true) by (apply Hh; eauto). congruence.
    + destruct (decide (d = c)) as [->|]; [tauto|]. destruct (decide (d' = c)) as [->|]; [tauto|].
      apply H1; by apply Hother.
  - intros d kd. simpl. rewrite lookup_insert. case_decide; [naive_solver|apply Hf].
Qed.

Lemma lock_reachable_inv s0 s : initial s0 → rtc lock_step s0 s → lock_inv s.
Proof. intros Hi%initial_inv Hr. induction Hr; eauto using lock_step_inv. Qed.

(** A processor that waits for a lock it has itself does so forever. *)
Lemma stuck_forever s s' c i at_call sv :
  lock_inv s → rtc lock_step s s' → cores s !! c = Some (mkCore i (Stuck at_call sv)) →
  locked s' = true ∧ cores s' !! c = Some (mkCore i (Stuck at_call sv)).
Proof.
  intros Hinv Hr. revert Hinv. induction Hr as [s|s s1 s' Hstep _ IH]; intros Hinv Hc.
  - split; [|done]. apply Hinv. exists c. by eexists.
  - apply IH; [by eapply lock_step_inv|]. assert (locked s = true) as Hl by (apply Hinv; exists c; by eexists).
    destruct Hstep as [s d k k' b' Hd Hs]. simpl. destruct (decide (c = d)) as [<-|Hne]; [|by rewrite lookup_insert_ne].
    rewrite lookup_insert_eq. rewrite Hc in Hd. injection Hd as <-. inversion Hs; subst; congruence.
Qed.

(** C31: in every state reachable from a fresh lock, for any number of
    processors that call [lock] and [try_lock] in any interleaving:
    at most one processor holds the lock, and it is marked taken exactly
    while one does;
    the guard remembers the interrupt flag of the call, and interrupts are
    off from [cli] on, while it waits, and while it holds the lock for as long
    as the code under the lock does not turn them on itself;
    a processor that leaves ([drop], or a [try_lock] that fails) has its
    interrupt flag back as it was at the call of [lock] or [try_lock] (after a
    drop, or on if the code under the lock left it on);
    a processor that calls [lock] again while it holds the lock waits forever,
    and nobody gets the lock any more. *)
Theorem spin_lock_exclusive s0 s :
  initial s0 → rtc lock_step s0 s →
  (∀ c c', holding s c → holding s c' → c = c') ∧
  (locked s = true ↔ ∃ c, holding s c) ∧
  (∀ c i at_call sv, cores s !! c = Some (mkCore i (Spinning at_call sv)) → i = false) ∧
  (∀ c i at_call sv, cores s !! c = Some (mkCore i (Holding at_call sv true)) → i = false ∧ sv = at_call) ∧
  (∀ c i at_call sv q k' b', cores s !! c = Some (mkCore i (Restoring at_call sv q)) →
     core_step (locked s) (mkCore i (Restoring at_call sv q)) b' k' →
     k' = mkCore (at_call || i) Idle ∧ (q = true → k' = mkCore at_call Idle)) ∧
  (∀ c i at_call sv k' b', cores s !! c = Some (mkCore i (TryFailed at_call sv)) →
     core_step (locked s) (mkCore i (TryFailed at_call sv)) b' k' → k' = mkCore at_call Idle) ∧
  (∀ c i at_call sv s', cores s !! c = Some (mkCore i (Stuck at_call sv)) → rtc lock_step s s' →
     locked s' = true ∧ cores s' !! c = Some (mkCore i (Stuck at_call sv)) ∧ ∀ d, holding s' d → d = c).
Proof.
  intros Hi Hr. pose proof (lock_reachable_inv s0 s Hi Hr) as Hinv. pose proof Hinv as [Hh H1 Hf].
  split_and!; [done|done| | | | |].
  - intros c i at_call sv Hc. by apply Hf in Hc as [? _].
  - intros c i at_call sv Hc. apply Hf in Hc as [Hq ?]. split; [by apply Hq|done].
  - intros c i at_call sv q k' b' Hc Hs. apply Hf in Hc as [Hq Hsv]. simpl in *. inversion Hs; subst. split; [done|].
    intros Hq'. rewrite Hq by done. by rewrite orb_false_r.
  - intros c i at_call sv k' b' Hc Hs. apply Hf in Hc as [Hq Hsv]. simpl in *. inversion Hs; subst. by rewrite orb_false_r.
  - intros c i at_call sv s' Hc Hr'. destruct (stuck_forever _ _ _ _ _ _ Hinv Hr' Hc) as [Hl Hc']. split_and!; [done|done|].
    intros d Hd. assert (lock_inv s') as Hinv' by (apply (lock_reachable_inv s0); [done|by etrans]).
    apply (li_one _ Hinv'); [done|]. by eexists.
Qed.

(** Two processors: the first takes the lock with interrupts on, the code
    under it leaves them off, and they are on again when it has left. *)
Lemma spin_lock_exclusive_witness :
  let s0 := mkLock false {[0%nat := mkCore true Idle; 1%nat := mkCore true Idle]} in
  ∃ s s', rtc lock_step s0 s ∧ (holding s 0%nat ∧ ∀ c, holding s c → c = 0%nat) ∧
    rtc lock_step s s' ∧ cores s' !! 0%nat = Some (mkCore true Idle).
Proof.
  intros s0.
  set (st b k := mkLock b {[0%nat := k; 1%nat := mkCore true Idle]}).
  assert (∀ b k b' k', core_step b k b' k' → lock_step (st b k) (st b' k')) as Hstep.
  { intros b k b' k' H. exact (step_core (st b k) 0 k k' b' eq_refl H). }
  assert (rtc lock_step s0 (st true (mkCore false (Holding true true true)))) as Hr.
  { apply rtc_l with (st false (mkCore true (LockCalled true))); [apply Hstep, step_lock|].
    apply rtc_l with (st false (mkCore true (LockSampled true true))); [apply Hstep, step_lock_sample|].
    apply rtc_l with (st false (mkCore false (Spinning true true))); [apply Hstep, step_lock_cli|].
    apply rtc_once, Hstep. by apply step_lock_ok. }
  assert (initial s0) as Hi.
  { split; [reflexivity|]. intros c k H. unfold s0 in H. simpl in H.
    apply lookup_insert_Some in H as [[_ <-]|[_ H]]; [reflexivity|].
    by apply lookup_singleton_Some in H as [_ <-]. }
  assert (rtc lock_step s0 (st false (mkCore false (Restoring true true true)))) as Hr2.
  { etransitivity; [exact Hr|]. apply rtc_once, Hstep, step_unlock. }
  assert (holding (st true (mkCore false (Holding true true true))) 0%nat) as H0 by (by eexists).
  destruct (spin_lock_exclusive s0 _ Hi Hr) as (H1 & _).
  destruct (spin_lock_exclusive s0 _ Hi Hr2) as (_ & _ & _ & _ & H2 & _).
  exists (st true (mkCore false (Holding true true true))), (st false (mkCore true Idle)).
  split; [exact Hr|]. split; [split; [exact H0|]; intros c Hc; exact (H1 c 0%nat Hc H0)|]. split; [|reflexivity].
  apply rtc_l with (st false (mkCore false (Restoring true true true))); [apply Hstep, step_unlock|]. apply rtc_once, Hstep.
  pose proof (step_restore false false true true true) as Hs.
  destruct (H2 0%nat false true true true _ _ eq_refl Hs) as [_ E]. rewrite (E eq_refl) in Hs. exact Hs.
Defined.
