(* ===== verification/Syscall.v ===== *)
(** * System calls ([src/syscall.rs])

    The kernel state behind the system call entry: the optional file system,
    descriptor table and hooks, each under its spin lock, and the memory of
    the calling process.  System calls run with interrupts off on one
    processor, so taking a lock that is held never returns.

    User pointers are only checked against null by the source.  The memory is
    a total function here; [UserAccess] derives it from the page table of the
    caller, where an access to an unmapped address faults.  The hooks are
    supplied by the boot code; they are parameters, and calls to them are
    recorded in a log. *)

From S2P Require Import Prelude Bytes RamFs FdTable Elf.
From Stdlib Require Import Strings.Byte.
Local Open Scope Z_scope.

(** ** Errors *)

Inductive SysError :=
  | NoSuchSyscall
  | InvalidArgument
  | NoEntry
  | Exists
  | NotDir
  | IsDir
  | NotEmpty
  | BadFd
  | Permission
  | SysUnsupported.

#[global] Instance SysError_eq_dec : EqDecision SysError.
Proof. solve_decision. Defined.

Abbreviation SysResult := (Result Z SysError).

Definition errno (e : SysError) : Z :=
  match e with
  | NoSuchSyscall => -38
  | InvalidArgument => -22
  | NoEntry => -2
  | Exists => -17
  | NotDir => -20
  | IsDir => -21
  | NotEmpty => -39
  | BadFd => -9
  | Permission => -13
  | SysUnsupported => -95
  end.

(** [From<FsError>] and [From<FdError>]. *)
Definition sys_of_fs (e : FsError) : SysError :=
  match e with
  | InvalidPath => InvalidArgument
  | NotFound => NoEntry
  | AlreadyExists => Exists
  | NotDirectory => NotDir
  | IsDirectory => IsDir
  | DirectoryNotEmpty => NotEmpty
  end.
Definition sys_of_fd (e : FdError) : SysError :=
  match e with
  | FdBad => BadFd
  | FdPermission => Permission
  | FdFs err => sys_of_fs err
  end.

Module Number.

Definition Fork := 1.
Definition Exec := 2.
Definition Exit := 3.
Definition WaitPid := 4.
Definition Read := 5.
Definition Write := 6.
Definition Open := 7.
Definition Close := 8.
Definition Dup2 := 9.
Definition Unlink := 10.
Definition Rename := 11.
Definition Mkdir := 12.
End Number.

Definition MAX_USER_STRING : Z := 256.

(** ** State and locks *)

Inductive lock_id := KERNEL_FS | KERNEL_FD_TABLE | CONSOLE_WRITE | EXEC_PROGRAM | EXIT_CURRENT.

#[global] Instance lock_id_eq_dec : EqDecision lock_id.
Proof. solve_decision. Defined.

(** A call of a hook. *)
Inductive hook_call :=
  | ConsoleWrite (data : bytes)
  | ExecProgram (image : bytes)
  | ExitCurrent (status : Z).

Record KState := mkK {
  k_fs : option RamFs;
  k_fd : option FileDescriptorTable;
  k_console : bool;                       (* CONSOLE_WRITE is Some *)
  k_exec : option (bytes → SysResult);    (* EXEC_PROGRAM *)
  k_exit : bool;                          (* EXIT_CURRENT is Some *)
  k_held : list lock_id;                  (* the locks that are taken *)
  k_mem : Z → byte;                       (* the caller's memory *)
  k_log : list hook_call;
  k_room : Z;                             (* entries the heap has memory for in the descriptor table *)
}.

Definition set_fs (o : option RamFs) (k : KState) : KState :=
  mkK o (k_fd k) (k_console k) (k_exec k) (k_exit k) (k_held k) (k_mem k) (k_log k) (k_room k).
Definition set_fd (o : option FileDescriptorTable) (k : KState) : KState :=
  mkK (k_fs k) o (k_console k) (k_exec k) (k_exit k) (k_held k) (k_mem k) (k_log k) (k_room k).
Definition set_console (b : bool) (k : KState) : KState :=
  mkK (k_fs k) (k_fd k) b (k_exec k) (k_exit k) (k_held k) (k_mem k) (k_log k) (k_room k).
Definition set_exec (o : option (bytes → SysResult)) (k : KState) : KState :=
  mkK (k_fs k) (k_fd k) (k_console k) o (k_exit k) (k_held k) (k_mem k) (k_log k) (k_room k).
Definition set_exit (b : bool) (k : KState) : KState :=
  mkK (k_fs k) (k_fd k) (k_console k) (k_exec k) b (k_held k) (k_mem k) (k_log k) (k_room k).
Definition set_held (h : list lock_id) (k : KState) : KState :=
  mkK (k_fs k) (k_fd k) (k_console k) (k_exec k) (k_exit k) h (k_mem k) (k_log k) (k_room k).
Definition set_mem (m : Z → byte) (k : KState) : KState :=
  mkK (k_fs k) (k_fd k) (k_console k) (k_exec k) (k_exit k) (k_held k) m (k_log k) (k_room k).
Definition log_call (c : hook_call) (k : KState) : KState :=
  mkK (k_fs k) (k_fd k) (k_console k) (k_exec k) (k_exit k) (k_held k) (k_mem k) (k_log k ++ [c]) (k_room k).

(** ** A monad of kernel code: state, panics, and waiting forever *)

Definition K (A : Type) : Type := KState → outcome (A * KState).

#[global] Instance K_ret : MRet K := λ A a k, Ret (a, k).
#[global] Instance K_bind : MBind K := λ A B f m k,
  match m k with
  | Ret (a, k') => f a k'
  | Panic => Panic
  | Diverge => Diverge
  end.

Definition gets {A} (f : KState → A) : K A := λ k, Ret (f k, k).
Definition modify (f : KState → KState) : K unit := λ k, Ret ((), f k).
Definition lift {A} (m : outcome A) : K A := λ k, a ← m; Ret (a, k).

(** [SpinLock::lock] on the only processor: if the lock is taken, nobody can
    release it. *)
Definition acquire (l : lock_id) : K unit := λ k,
  if bool_decide (l ∈ k_held k) then Diverge else Ret ((), set_held (l :: k_held k) k).
(** The guard's [drop]. *)
Definition release (l : lock_id) : K unit :=
  modify (λ k, set_held (filter (λ l', l' ≠ l) (k_held k)) k).
Definition with_lock {A} (l : lock_id) (m : K A) : K A :=
  _ ← acquire l; a ← m; _ ← release l; mret a.

(** [?] inside the monad. *)
Definition k_try {A B E} (m : K (Result A E)) (f : A → K (Result B E)) : K (Result B E) :=
  r ← m; match r with Ok a => f a | Err e => mret (Err e) end.
Notation "x ←! m ; k" := (k_try m (λ x, k))
  (at level 20, m at level 100, k at level 200, only parsing) : stdpp_scope.

(** ** Registration *)

Definition set_console_write : K unit := with_lock CONSOLE_WRITE (modify (set_console true)).

Definition set_process_hooks (exec_program : bytes → SysResult) : K unit :=
  _ ← with_lock EXEC_PROGRAM (modify (set_exec (Some exec_program)));
  with_lock EXIT_CURRENT (modify (set_exit true)).

Definition seed_runtime_fs (fs : RamFs) : outcome RamFs :=
  fs ← install_programs fs;
  Ret (Fs.write fs "/home/readme.txt" (str_bytes "Welcome to Zeronix shell." ++ [x0a])).2.

Definition init_runtime_fs : K unit :=
  fs ← lift (fs ← Fs.new; seed_runtime_fs fs);
  _ ← with_lock KERNEL_FS (modify (set_fs (Some fs)));
  with_lock KERNEL_FD_TABLE (modify (set_fd (Some Fd.new))).

(** ** Borrowing the file system and the descriptor table *)

(** [with_fs(f)]: [f] gets the file system and returns its result and the file
    system it leaves. *)
Definition with_fs (f : RamFs → K (SysResult * RamFs)) : K SysResult :=
  with_lock KERNEL_FS (
    o ← gets k_fs;
    match o with
    | None => mret (Err SysUnsupported)
    | Some fs => '(r, fs') ← f fs; _ ← modify (set_fs (Some fs')); mret r
    end).

Definition with_fd_table {A} (f : FileDescriptorTable → K (A * FileDescriptorTable))
    (missing : A) : K A :=
  with_lock KERNEL_FD_TABLE (
    o ← gets k_fd;
    match o with
    | None => mret missing
    | Some t => '(r, t') ← f t; _ ← modify (set_fd (Some t')); mret r
    end).

(** [with_runtime_fs(f)]: the kernel shell's way in. *)
Definition with_runtime_fs {T} (f : RamFs → T * RamFs) : K (option T) :=
  with_lock KERNEL_FS (
    o ← gets k_fs;
    match o with
    | None => mret None
    | Some fs => let '(r, fs') := f fs in _ ← modify (set_fs (Some fs')); mret (Some r)
    end).

(** ** [SyscallTable] *)

Module SyscallTable.

Definition open (room : Z) (fs : RamFs) (t : FileDescriptorTable) (path : string) (flags : OpenFlags)
    : outcome (SysResult * FileDescriptorTable * RamFs) :=
  '(r, t', fs') ← Fd.open room t fs path flags; Ret (map_err sys_of_fd r, t', fs').

Definition read (fs : RamFs) (t : FileDescriptorTable) (fd : Z) (buf : bytes)
    : outcome (SysResult * FileDescriptorTable * bytes) :=
  '(r, t', buf') ← Fd.read t fs fd buf;
  Ret (map_err sys_of_fd r, t', buf').

Definition write (fs : RamFs) (t : FileDescriptorTable) (fd : Z) (buf : bytes)
    : outcome (SysResult * FileDescriptorTable * RamFs) :=
  '(r, t', fs') ← Fd.write t fs fd buf;
  Ret (map_err sys_of_fd r, t', fs').

Definition close (t : FileDescriptorTable) (fd : Z) : outcome (SysResult * FileDescriptorTable) :=
  '(r, t') ← Fd.close t fd; Ret (map_err sys_of_fd r, t').

Definition dup2 (room : Z) (t : FileDescriptorTable) (old_fd new_fd : Z)
    : outcome (SysResult * FileDescriptorTable) :=
  '(r, t') ← Fd.dup2 room t old_fd new_fd; Ret (map_err sys_of_fd r, t').

(** [fs.op(..)?; Ok(0)] *)
Definition zero_or_err (r : FsResult unit) : SysResult :=
  match r with Ok _ => Ok 0 | Err e => Err (sys_of_fs e) end.

Definition unlink (fs : RamFs) (path : string) : SysResult * RamFs :=
  let '(r, fs') := Fs.remove fs path in (zero_or_err r, fs').
Definition rename (fs : RamFs) (old new : string) : SysResult * RamFs :=
  let '(r, fs') := Fs.rename fs old new in (zero_or_err r, fs').
Definition mkdir (fs : RamFs) (path : string) : SysResult * RamFs :=
  let '(r, fs') := Fs.mkdir fs path in (zero_or_err r, fs').

Definition fork : SysResult := Err SysUnsupported.

Definition exec (fs : RamFs) (path : string) : K SysResult :=
  match Fs.read fs path with
  | Err e => mret (Err (sys_of_fs e))
  | Ok image =>
      exec_program ← with_lock EXEC_PROGRAM (gets k_exec);
      match exec_program with
      | None => mret (Err SysUnsupported)
      | Some f => _ ← modify (log_call (ExecProgram image)); mret (f image)
      end
  end.
End SyscallTable.

(** ** User memory *)

(** [slice::from_raw_parts(ptr, len)]: the build checks that the slice is not
    larger than [isize::MAX] bytes. *)
Definition raw_len_ok (len : Z) : outcome unit :=
  assert_that (bool_decide (len ≤ 2 ^ 63 - 1)).
Definition load_bytes (mem : Z → byte) (ptr len : Z) : bytes := mem <$> seqZ ptr len.
(** Storing a slice back at its address. *)
Definition store_bytes (mem : Z → byte) (ptr : Z) (data : bytes) : Z → byte := λ a,
  if bool_decide (ptr ≤ a < ptr + zlen data) then default x00 (data !! Z.to_nat (a - ptr)) else mem a.

(** Well-formed UTF-8, as [String::from_utf8] checks it. *)
Definition in_range (lo hi : Z) (x : byte) : bool := (lo <=? Z_of_byte x) && (Z_of_byte x <=? hi).
Definition cont (x : byte) : bool := in_range 0x80 0xbf x.
Fixpoint utf8_valid (fuel : nat) (s : bytes) : bool :=
  match fuel with
  | O => bool_decide (s = [])
  | S fuel' =>
      match s with
      | [] => true
      | a :: s1 =>
          if in_range 0 0x7f a then utf8_valid fuel' s1
          else match s1 with
          | [] => false
          | b :: s2 =>
              if in_range 0xc2 0xdf a then cont b && utf8_valid fuel' s2
              else match s2 with
              | [] => false
              | c :: s3 =>
                  if in_range 0xe0 0xe0 a then in_range 0xa0 0xbf b && cont c && utf8_valid fuel' s3
                  else if in_range 0xed 0xed a then in_range 0x80 0x9f b && cont c && utf8_valid fuel' s3
                  else if in_range 0xe1 0xef a then cont b && cont c && utf8_valid fuel' s3
                  else match s3 with
                  | [] => false
                  | d :: s4 =>
                      if in_range 0xf0 0xf0 a then in_range 0x90 0xbf b && cont c && cont d && utf8_valid fuel' s4
                      else if in_range 0xf4 0xf4 a then in_range 0x80 0x8f b && cont c && cont d && utf8_valid fuel' s4
                      else if in_range 0xf1 0xf3 a then cont b && cont c && cont d && utf8_valid fuel' s4
                      else false
                  end
              end
          end
      end
  end.
Definition from_utf8 (s : bytes) : option string :=
  if utf8_valid (length s) s then Some (String.string_of_list_byte s) else None.

(** The loop of [copy_user_cstr]: [fuel] is [MAX_USER_STRING - offset]. *)
Fixpoint cstr_loop (fuel : nat) (mem : Z → byte) (ptr offset : Z) (acc : bytes)
    : outcome (Result bytes SysError) :=
  match fuel with
  | O => Ret (Err InvalidArgument)
  | S fuel' =>
      addr ← uadd ptr offset;
      let x := mem addr in
      if bool_decide (x = x00) then Ret (Ok acc)
      else cstr_loop fuel' mem ptr (offset + 1) (acc ++ [x])
  end.

Definition copy_user_cstr (mem : Z → byte) (ptr : Z) : outcome (Result string SysError) :=
  if ptr =? 0 then Ret (Err InvalidArgument)
  else
    r ← cstr_loop (Z.to_nat MAX_USER_STRING) mem ptr 0 [];
    Ret match r with
        | Err e => Err e
        | Ok b => ok_or (from_utf8 b) InvalidArgument
        end.

Definition user_cstr (ptr : Z) : K (Result string SysError) :=
  mem ← gets k_mem; lift (copy_user_cstr mem ptr).

(** ** The system calls *)

Definition decode_open_flags (raw : Z) : OpenFlags :=
  let flags := Flags.empty in
  let flags := if negb (Z.land raw 1 =? 0) then Flags.bitor flags Flags.READ else flags in
  let flags := if negb (Z.land raw 2 =? 0) then Flags.bitor flags Flags.WRITE else flags in
  let flags := if negb (Z.land raw 4 =? 0) then Flags.bitor flags Flags.CREATE else flags in
  let flags := if negb (Z.land raw 8 =? 0) then Flags.bitor flags Flags.TRUNC else flags in
  let flags := if negb (Z.land raw 16 =? 0) then Flags.bitor flags Flags.APPEND else flags in
  flags.

Definition mirror_console_write (fd : Z) (buf : bytes) : K unit :=
  if negb (fd =? 1) && negb (fd =? 2) then mret ()
  else
    with_lock CONSOLE_WRITE (
      writer ← gets k_console;
      if (writer : bool) then modify (log_call (ConsoleWrite buf)) else mret ()).

Definition syscall_open (path_ptr raw_flags : Z) : K SysResult :=
  path ←! user_cstr path_ptr;
  let flags := decode_open_flags raw_flags in
  with_fs (λ fs,
    with_fd_table (λ t,
      room ← gets k_room;
      '(r, t', fs') ← lift (SyscallTable.open room fs t path flags); mret (r, fs', t'))
      (Err SysUnsupported, fs)).

(** [KERNEL_FS] stays locked while the table is used, and is only read. *)
Definition syscall_read (fd buf_ptr len : Z) : K SysResult :=
  if buf_ptr =? 0 then mret (Err InvalidArgument)
  else
    _ ← lift (raw_len_ok len);
    with_lock KERNEL_FS (
      o ← gets k_fs;
      match o with
      | None => mret (Err SysUnsupported)
      | Some fs =>
          with_fd_table (λ t,
            mem ← gets k_mem;
            '(r, t', buf') ← lift (SyscallTable.read fs t fd (load_bytes mem buf_ptr len));
            _ ← modify (set_mem (store_bytes mem buf_ptr buf'));
            mret (r, t')) (Err SysUnsupported)
      end).

Definition syscall_write (fd buf_ptr len : Z) : K SysResult :=
  if buf_ptr =? 0 then mret (Err InvalidArgument)
  else
    _ ← lift (raw_len_ok len);
    mem ← gets k_mem;
    let buf := load_bytes mem buf_ptr len in
    written ←! with_fs (λ fs,
      with_fd_table (λ t,
        '(r, t', fs') ← lift (SyscallTable.write fs t fd buf); mret (r, fs', t'))
        (Err SysUnsupported, fs));
    shown ← lift (expect (slice_get buf 0 written));
    _ ← mirror_console_write fd shown;
    mret (Ok written).

(** What a system call comes to: a value for the caller, or no return because
    the calling process is gone. *)
Inductive sysret := Return (r : SysResult) | NoReturn.

(** [EXIT_CURRENT] is locked by the scrutinee of the [if let], whose guard
    lives until its end; the hook never returns. *)
Definition syscall_exit (status : Z) : K sysret :=
  _ ← acquire EXIT_CURRENT;
  exit_current ← gets k_exit;
  if (exit_current : bool) then _ ← modify (log_call (ExitCurrent status)); mret NoReturn
  else _ ← release EXIT_CURRENT; mret (Return (Err SysUnsupported)).

Definition returning (m : K SysResult) : K sysret := r ← m; mret (Return r).

Definition dispatch (number arg0 arg1 arg2 : Z) : K sysret :=
  if number =? Number.Read then returning (syscall_read arg0 arg1 arg2)
  else if number =? Number.Write then returning (syscall_write arg0 arg1 arg2)
  else if number =? Number.Open then returning (syscall_open arg0 arg1)
  else if number =? Number.Close then
    returning (with_fd_table (λ t, lift (SyscallTable.close t arg0)) (Err SysUnsupported))
  else if number =? Number.Dup2 then
    returning (with_fd_table (λ t, room ← gets k_room; lift (SyscallTable.dup2 room t arg0 arg1)) (Err SysUnsupported))
  else if number =? Number.Unlink then
    returning (path ←! user_cstr arg0; with_fs (λ fs, mret (SyscallTable.unlink fs path)))
  else if number =? Number.Rename then
    returning (old ←! user_cstr arg0; new ←! user_cstr arg1;
               with_fs (λ fs, mret (SyscallTable.rename fs old new)))
  else if number =? Number.Mkdir then
    returning (path ←! user_cstr arg0; with_fs (λ fs, mret (SyscallTable.mkdir fs path)))
  else if number =? Number.Fork then returning (mret SyscallTable.fork)
  else if number =? Number.Exec then
    returning (path ←! user_cstr arg0;
               with_fs (λ fs, r ← SyscallTable.exec fs path; mret (r, fs)))
  else if number =? Number.Exit then syscall_exit arg0
  else mret (Return (Err NoSuchSyscall)).

(** [value as isize] *)
Definition as_isize (x : Z) : Z := if x <? 2 ^ 63 then x else x - 2 ^ 64.

(** [__syscall_dispatch]: the value left in [rax], or none. *)
Definition syscall_dispatch (number arg0 arg1 arg2 : Z) : K (option Z) :=
  r ← dispatch number arg0 arg1 arg2;
  mret match r with
       | NoReturn => None
       | Return (Ok value) => Some (as_isize value)
       | Return (Err err) => Some (errno err)
       end.
