(* ===== verification/SyscallCorrect.v ===== *)
(** * Correctness of the system call layer

    Lock discipline by a small program logic over kernel code, the fate of
    the exit lock, user strings, and what the calls do to the state. *)

From S2P Require Import Prelude Bytes RamFs FdTable FdCorrect Elf Syscall.
From Stdlib Require Import Strings.Byte.
Local Open Scope Z_scope.

(** ** Lock discipline

    [keeps H m]: run with exactly the locks [H] taken, [m] does not wait
    forever, and if it returns the same locks are taken. *)
Definition keeps {A} (H : list lock_id) (m : K A) : Prop :=
  ∀ k, k_held k = H → m k ≠ Diverge ∧ ∀ a k', m k = Ret (a, k') → k_held k' = H.

Section rules.
Context (H : list lock_id).

Lemma keeps_ret {A} (a : A) : keeps H (mret a : K A).
Proof. intros k Hk. split; [done|]. by intros ? ? [= <- <-]. Qed.

Lemma keeps_bind {A B} (m : K A) (f : A → K B) :
  keeps H m → (∀ a, keeps H (f a)) → keeps H (m ≫= f).
Proof.
  intros Hm Hf k Hk. destruct (Hm k Hk) as [Hnd Hret]. unfold mbind, K_bind.
  destruct (m k) as [[a k1]| |] eqn:Em; [|done..]. apply Hf. by eapply Hret.
Qed.

Lemma keeps_gets {A} (f : KState → A) : keeps H (gets f).
Proof. intros k Hk. split; [done|]. by intros ? ? [= <- <-]. Qed.

Lemma keeps_modify f : (∀ k, k_held (f k) = k_held k) → keeps H (modify f).
Proof. intros Hf k Hk. split; [done|]. intros ? ? [= <- <-]. by rewrite Hf. Qed.

Lemma keeps_lift {A} (m : outcome A) : m ≠ Diverge → keeps H (lift m).
Proof.
  intros Hm k Hk. unfold lift. destruct m; simpl; [|done..]. split; [done|]. by intros ? ? [= <- <-].
Qed.

Lemma keeps_try {A B E} (m : K (Result A E)) (f : A → K (Result B E)) :
  keeps H m → (∀ a, keeps H (f a)) → keeps H (k_try m f).
Proof.
  intros Hm Hf. apply keeps_bind; [done|]. intros [a|e]; [apply Hf|apply keeps_ret].
Qed.

Lemma with_lock_eq {A} l (m : K A) k :
  l ∉ k_held k →
  with_lock l m k =
    match m (set_held (l :: k_held k) k) with
    | Ret (a, k1) => Ret (a, set_held (filter (λ l', l' ≠ l) (k_held k1)) k1)
    | Panic => Panic
    | Diverge => Diverge
    end.
Proof.
  intros Hl. unfold with_lock, mbind, K_bind, acquire. rewrite bool_decide_false by done.
  by destruct (m _) as [[a k1]| |].
Qed.

Lemma drop_lock l : l ∉ H → filter (λ l', l' ≠ l) (l :: H) = H.
Proof.
  intros Hl. rewrite filter_cons_False by tauto.
  induction H as [|x H' IH]; [done|]. apply not_elem_of_cons in Hl as [Hx Hl].
  rewrite filter_cons_True by congruence. by rewrite IH.
Qed.

Lemma keeps_with_lock {A} l (m : K A) : l ∉ H → keeps (l :: H) m → keeps H (with_lock l m).
Proof.
  intros Hl Hm k Hk. rewrite with_lock_eq, Hk by (by rewrite Hk).
  specialize (Hm (set_held (l :: H) k) eq_refl) as [Hnd Hret].
  destruct (m _) as [[a k1]| |] eqn:Em; [|done..].
  split; [done|]. intros ? ? [= <- <-]. simpl. rewrite (Hret _ _ eq_refl). by apply drop_lock.
Qed.
End rules.

(** ** Outcomes without waiting *)

Lemma bind_no_diverge {A B} (m : outcome A) (f : A → outcome B) :
  m ≠ Diverge → (∀ a, f a ≠ Diverge) → m ≫= f ≠ Diverge.
Proof. intros Hm Hf. by destruct m; [apply Hf|..]. Qed.
Lemma expect_no_diverge {A} (o : option A) : expect o ≠ Diverge.
Proof. by destruct o. Qed.
Lemma assert_no_diverge b : assert_that b ≠ Diverge.
Proof. by destruct b. Qed.

(** Descends through binds and case distinctions. *)
Ltac no_diverge :=
  repeat first
    [ done
    | apply expect_no_diverge
    | apply assert_no_diverge
    | apply bind_no_diverge; [|intros ?]
    | case_match ].

Lemma fd_read_no_diverge t fs fd buf : Fd.read t fs fd buf ≠ Diverge.
Proof. unfold Fd.read, copy_from_offset, copy_into, Fd.set, uadd. no_diverge. Qed.
Lemma fd_write_no_diverge t fs fd buf : Fd.write t fs fd buf ≠ Diverge.
Proof. unfold Fd.write, Fd.write_at, copy_into, Fd.set, uadd. no_diverge. Qed.
Lemma fd_close_no_diverge t fd : Fd.close t fd ≠ Diverge.
Proof. unfold Fd.close. no_diverge. Qed.
Lemma fd_dup2_no_diverge room t a b : Fd.dup2 room t a b ≠ Diverge.
Proof. unfold Fd.dup2. case_match; [|done]. apply bind_no_diverge; [apply grow_no_diverge|intros es]. no_diverge. Qed.
Lemma fd_open_no_diverge room t fs path flags : Fd.open room t fs path flags ≠ Diverge.
Proof. unfold Fd.open, Fd.try_fs, Fd.insert, Fd.push. no_diverge. Qed.

Lemma cstr_loop_no_diverge fuel mem ptr offset acc : cstr_loop fuel mem ptr offset acc ≠ Diverge.
Proof.
  revert offset acc. induction fuel as [|fuel IH]; intros offset acc; simpl; [done|].
  unfold uadd. apply bind_no_diverge; [apply expect_no_diverge|]. intros addr.
  case_match; [done|apply IH].
Qed.

Create HintDb outcomes.
#[export] Hint Resolve expect_no_diverge assert_no_diverge fd_read_no_diverge fd_write_no_diverge
  fd_close_no_diverge fd_dup2_no_diverge fd_open_no_diverge cstr_loop_no_diverge : outcomes.

Lemma copy_user_cstr_no_diverge mem ptr : copy_user_cstr mem ptr ≠ Diverge.
Proof.
  unfold copy_user_cstr. case_match; [done|]. apply bind_no_diverge; [auto with outcomes|done].
Qed.

(** A successful write reports the whole buffer. *)
Lemma fd_write_count t fs fd buf n t' fs' :
  Fd.write t fs fd buf = Ret (Ok n, t', fs') → n = zlen buf.
Proof.
  unfold Fd.write. intros H.
  repeat first
    [ progress simplify_eq
    | done
    | (apply bind_Ret in H; destruct H as (? & ? & H))
    | case_match ].
Qed.

(** A read keeps the length of the buffer. *)
Lemma copy_into_zlen data lo src d : 0 ≤ lo → copy_into data lo src = Ret d → zlen d = zlen data.
Proof.
  intros H0. unfold copy_into. case_bool_decide as Hle; [|done]. intros [= <-].
  rewrite !zlen_app. unfold zlen in *. rewrite length_take, length_drop. lia.
Qed.

Lemma copy_from_offset_zlen src offset dst n d :
  copy_from_offset src offset dst = Ret (n, d) → zlen d = zlen dst.
Proof.
  unfold copy_from_offset. case_bool_decide; [by intros [= <- <-]|].
  intros (d' & Hd & [= <- <-])%bind_Ret. by eapply copy_into_zlen.
Qed.

Lemma fd_read_zlen t fs fd buf r t' buf' :
  Fd.read t fs fd buf = Ret (r, t', buf') → zlen buf' = zlen buf.
Proof.
  unfold Fd.read. intros H.
  repeat first
    [ progress simplify_eq
    | done
    | by eapply copy_from_offset_zlen
    | (apply bind_Ret in H; destruct H as (? & ? & H))
    | case_match ].
Qed.

(** ** The calls keep the locks *)

Lemma keeps_with_fs H f :
  KERNEL_FS ∉ H → (∀ fs, keeps (KERNEL_FS :: H) (f fs)) → keeps H (with_fs f).
Proof.
  intros Hl Hf. apply keeps_with_lock; [done|]. apply keeps_bind; [apply keeps_gets|].
  intros [fs|]; [|apply keeps_ret]. apply keeps_bind; [apply Hf|]. intros [r fs'].
  apply keeps_bind; [by apply keeps_modify|]. intros ?. apply keeps_ret.
Qed.

Lemma keeps_with_fd_table {A} H (f : FileDescriptorTable → K (A * FileDescriptorTable)) missing :
  KERNEL_FD_TABLE ∉ H → (∀ t, keeps (KERNEL_FD_TABLE :: H) (f t)) → keeps H (with_fd_table f missing).
Proof.
  intros Hl Hf. apply keeps_with_lock; [done|]. apply keeps_bind; [apply keeps_gets|].
  intros [t|]; [|apply keeps_ret]. apply keeps_bind; [apply Hf|]. intros [r t'].
  apply keeps_bind; [by apply keeps_modify|]. intros ?. apply keeps_ret.
Qed.

Lemma keeps_user_cstr H ptr : keeps H (user_cstr ptr).
Proof.
  apply keeps_bind; [apply keeps_gets|]. intros mem. apply keeps_lift, copy_user_cstr_no_diverge.
Qed.

(** One rule per construct of kernel code; [lock_free] shows that a lock is
    not among those taken. *)
Ltac lock_free := rewrite ?not_elem_of_cons; split_and?; solve [done | auto].
Ltac lift_ok :=
  first [ solve [auto with outcomes]
        | apply bind_no_diverge; [auto with outcomes|intros ?; by repeat case_match] ].
Ltac keep_locks :=
  repeat first
    [ apply keeps_ret
    | apply keeps_gets
    | by apply keeps_modify
    | apply keeps_user_cstr
    | apply keeps_with_fs; [lock_free|intros ?]
    | apply keeps_with_fd_table; [lock_free|intros ?]
    | apply keeps_with_lock; [lock_free|]
    | apply keeps_lift; lift_ok
    | apply keeps_try; [|intros ?]
    | apply keeps_bind; [|intros ?]
    | case_match ].

Section calls.
Context (H : list lock_id).
Hypothesis free : ∀ l, l ≠ EXIT_CURRENT → l ∉ H.

Lemma keeps_read fd ptr len : keeps H (syscall_read fd ptr len).
Proof. unfold syscall_read, raw_len_ok, SyscallTable.read. keep_locks. Qed.

Lemma keeps_write fd ptr len : keeps H (syscall_write fd ptr len).
Proof.
  unfold syscall_write, raw_len_ok, SyscallTable.write, mirror_console_write. keep_locks.
Qed.

Lemma keeps_open ptr flags : keeps H (syscall_open ptr flags).
Proof. unfold syscall_open, SyscallTable.open. keep_locks. Qed.

Lemma keeps_exec fs path : keeps (KERNEL_FS :: H) (SyscallTable.exec fs path).
Proof. unfold SyscallTable.exec. keep_locks. Qed.

Lemma keeps_dispatch n a0 a1 a2 : n ≠ Number.Exit → keeps H (dispatch n a0 a1 a2).
Proof.
  intros Hn. unfold dispatch, returning.
  repeat (case_match; [try lia; apply keeps_bind; [|intros ?; apply keeps_ret]|]).
  - apply keeps_read.
  - apply keeps_write.
  - apply keeps_open.
  - unfold SyscallTable.close. keep_locks.
  - unfold SyscallTable.dup2. keep_locks.
  - keep_locks.
  - keep_locks.
  - keep_locks.
  - keep_locks.
  - apply keeps_try; [apply keeps_user_cstr|]. intros path. apply keeps_with_fs; [lock_free|].
    intros fs. apply keeps_bind; [apply keeps_exec|]. intros. apply keeps_ret.
  - case_match; [lia|apply keeps_ret].
Qed.
End calls.

(** ** Several calls in a row *)

Record syscall := mkSyscall { sc_number : Z; sc_arg0 : Z; sc_arg1 : Z; sc_arg2 : Z }.

Definition perform (c : syscall) : K sysret :=
  dispatch (sc_number c) (sc_arg0 c) (sc_arg1 c) (sc_arg2 c).

(** The states that calls other than exit lead to. *)
Inductive after_calls : KState → KState → Prop :=
  | after_none k : after_calls k k
  | after_call k c r k1 k2 :
      sc_number c ≠ Number.Exit → perform c k = Ret (r, k1) → after_calls k1 k2 → after_calls k k2.

Lemma after_calls_held H k k' :
  (∀ l, l ≠ EXIT_CURRENT → l ∉ H) → k_held k = H → after_calls k k' → k_held k' = H.
Proof.
  intros Hfree Hk Ha. induction Ha as [|k c r k1 k2 Hn Hp _ IH]; [done|].
  apply IH. by eapply (keeps_dispatch H Hfree _ _ _ _ Hn k Hk).
Qed.

(** ** Claims *)

(** Started with no lock taken, a system call never waits for a lock
    forever, and every call that returns to its caller has released all the
    locks it took, whatever the arguments, the memory and the hooks. *)
Theorem syscalls_release_locks c k :
  k_held k = [] →
  perform c k ≠ Diverge ∧
  ∀ r k', perform c k = Ret (Return r, k') → k_held k' = [].
Proof.
  intros Hk. destruct (decide (sc_number c = Number.Exit)) as [He|Hne].
  - unfold perform. rewrite He. unfold dispatch. simpl. unfold syscall_exit, mbind, K_bind, acquire.
    rewrite bool_decide_false by (rewrite Hk; apply not_elem_of_nil). simpl.
    destruct (k_exit k); simpl; (split; [done|]); intros r k' [= <- <-].
    simpl. by rewrite Hk.
  - destruct (keeps_dispatch [] ltac:(intros; apply not_elem_of_nil) _ (sc_arg0 c) (sc_arg1 c)
      (sc_arg2 c) Hne k Hk) as [Hnd Hret].
    split; [done|]. intros r k' Hr. by eapply Hret.
Qed.

(** The kernel after [init_runtime_fs], [set_console_write] and
    [set_process_hooks], with memory holding ["/home/a"] at 4096. *)
Definition blank (mem : Z → byte) : KState := mkK None None false None false [] mem [] 64.
Definition booted (mem : Z → byte) : outcome KState :=
  match (_ ← init_runtime_fs; _ ← set_console_write; set_process_hooks (λ _, Ok 7)) (blank mem) with
  | Ret (_, k) => Ret k
  | Panic => Panic
  | Diverge => Diverge
  end.
Definition sample_mem : Z → byte :=
  store_bytes (λ _, x00) 4096 (str_bytes "/home/a").
Definition sample_kernel : KState :=
  match booted sample_mem with Ret k => k | _ => blank sample_mem end.

Lemma syscalls_release_locks_witness :
  k_held sample_kernel = [] ∧
  ∃ r k', perform (mkSyscall Number.Open 4096 7 0) sample_kernel = Ret (Return r, k') ∧ k_held k' = [].
Proof.
  split; [vm_compute; reflexivity|].
  destruct (perform (mkSyscall Number.Open 4096 7 0) sample_kernel) as [[[r|] k']| |] eqn:E;
    [|exfalso; vm_compute in E; discriminate E..].
  exists r, k'. split; [reflexivity|].
  refine (proj2 (syscalls_release_locks (mkSyscall Number.Open 4096 7 0) sample_kernel _) r k' E).
  vm_compute. reflexivity.
Defined.

(** C32: once a process has exited through the system call, the lock of the
    exit hook stays taken through any further calls, and the next exit waits
    for it forever. *)
Theorem second_exit_hangs k status :
  k_held k = [] → k_exit k = true →
  ∃ k1, perform (mkSyscall Number.Exit status 0 0) k = Ret (NoReturn, k1) ∧
    ∀ k2 status', after_calls k1 k2 → perform (mkSyscall Number.Exit status' 0 0) k2 = Diverge.
Proof.
  intros Hk He. unfold perform at 1, dispatch. simpl.
  unfold syscall_exit, mbind, K_bind, acquire.
  rewrite bool_decide_false by (rewrite Hk; apply not_elem_of_nil). simpl. rewrite He.
  eexists. split; [reflexivity|]. intros k2 status' Ha.
  apply (after_calls_held [EXIT_CURRENT]) in Ha; [| |simpl; by rewrite Hk].
  2: { intros l Hl. by intros ?%list_elem_of_singleton. }
  unfold perform, dispatch. simpl. unfold syscall_exit, mbind, K_bind, acquire.
  by rewrite bool_decide_true by (rewrite Ha; by left).
Qed.

Lemma second_exit_hangs_witness :
  ∃ k1, perform (mkSyscall Number.Exit 0 0 0) sample_kernel = Ret (NoReturn, k1) ∧
    perform (mkSyscall Number.Exit 0 0 0) k1 = Diverge.
Proof.
  destruct (second_exit_hangs sample_kernel 0) as (k1 & H & Hd); [vm_compute; reflexivity..|].
  exists k1. split; [exact H|]. apply Hd. constructor.
Defined.

(** ** User strings *)

(** The bytes from [ptr] up to the first zero, [n] of them. *)
Definition cstr_at (mem : Z → byte) (ptr : Z) (n : nat) (s : bytes) : Prop :=
  s = load_bytes mem ptr (Z.of_nat n) ∧ Forall (λ x, x ≠ x00) s ∧ mem (ptr + Z.of_nat n) = x00.

Lemma cstr_loop_spec mem ptr fuel offset acc :
  0 ≤ offset → ptr + offset + Z.of_nat fuel ≤ usize_max →
  (∃ n s, (n < fuel)%nat ∧ cstr_at mem (ptr + offset) n s ∧
     cstr_loop fuel mem ptr offset acc = Ret (Ok (acc ++ s))) ∨
  ((∀ n, (n < fuel)%nat → mem (ptr + offset + Z.of_nat n) ≠ x00) ∧
   cstr_loop fuel mem ptr offset acc = Ret (Err InvalidArgument)).
Proof.
  revert offset acc. induction fuel as [|fuel IH]; intros offset acc H0 Hmax.
  { right. split; [lia|done]. }
  cbn [cstr_loop]. rewrite uadd_ok by lia. rewrite Ret_bind. case_bool_decide as Hx.
  - left. exists 0%nat, []. split_and!; [lia| |by rewrite app_nil_r].
    split_and!; [done|done|]. by rewrite Z.add_0_r.
  - destruct (IH (offset + 1) (acc ++ [mem (ptr + offset)])) as
      [(n & s & Hn & (-> & Hs & Hz) & ->)|[Hno ->]]; [lia..| |].
    + left. exists (S n), (mem (ptr + offset) :: load_bytes mem (ptr + (offset + 1)) (Z.of_nat n)).
      split_and!; [lia| |by rewrite <- app_assoc].
      split_and!; [|by constructor|by rewrite <- Hz; f_equal; lia].
      unfold load_bytes. rewrite (seqZ_cons (ptr + offset)) by lia. simpl.
      do 3 f_equal; lia.
    + right. split; [|done]. intros [|n] Hn.
      * by rewrite Z.add_0_r.
      * specialize (Hno n ltac:(lia)). by replace (ptr + offset + Z.of_nat (S n))
          with (ptr + (offset + 1) + Z.of_nat n) by lia.
Qed.

Lemma cstr_at_unique mem ptr n s n' s' :
  cstr_at mem ptr n s → cstr_at mem ptr n' s' → n = n'.
Proof.
  assert (∀ n n', (n < n')%nat → mem (ptr + Z.of_nat n) = x00 →
    ¬ Forall (λ x, x ≠ x00) (load_bytes mem ptr (Z.of_nat n'))) as Hlt.
  { intros m m' Hm Hz Hall. rewrite Forall_forall in Hall. apply (Hall x00); [|done].
    unfold load_bytes. apply list_elem_of_fmap. exists (ptr + Z.of_nat m). split; [done|].
    apply elem_of_seqZ. lia. }
  intros (-> & Hs & Hz) (-> & Hs' & Hz').
  destruct (decide (n < n')%nat); [by destruct (Hlt n n')|].
  destruct (decide (n' < n)%nat); [by destruct (Hlt n' n)|]. lia.
Qed.

(** A user string is accepted exactly when its pointer is not null and a
    zero byte follows within 256 bytes, before which the bytes are valid
    UTF-8; the result is those bytes.  Otherwise the answer is
    [InvalidArgument], and the scan always ends. *)
Theorem copy_user_cstr_correct mem ptr :
  0 ≤ ptr → ptr + MAX_USER_STRING ≤ usize_max →
  ∃ r, copy_user_cstr mem ptr = Ret r ∧
    (∀ s, r = Ok s ↔ ptr ≠ 0 ∧ ∃ n b, (n < 256)%nat ∧ cstr_at mem ptr n b ∧ from_utf8 b = Some s) ∧
    (∀ e, r = Err e → e = InvalidArgument).
Proof.
  intros H0 Hmax. unfold copy_user_cstr. destruct (ptr =? 0) eqn:Hp.
  { eexists. split; [done|]. split; [|by intros ? [= <-]]. intros s. split; [done|]. lia. }
  destruct (cstr_loop_spec mem ptr (Z.to_nat MAX_USER_STRING) 0 []) as
    [(n & b & Hn & Hb & ->)|[Hno ->]]; [done|unfold MAX_USER_STRING in *; lia| |];
    simpl; (eexists; split; [done|]); rewrite Z.add_0_r in *.
  - split; [|intros e; destruct (from_utf8 b); by intros [= <-]].
    intros s. destruct (from_utf8 b) as [s0|] eqn:Eu; simpl; split; try done.
    + intros [= ->]. split; [lia|]. exists n, b. done.
    + intros (_ & n' & b' & _ & Hb' & Hu). pose proof (cstr_at_unique _ _ _ _ _ _ Hb Hb') as ->.
      destruct Hb as [-> _], Hb' as [-> _]. congruence.
    + intros (_ & n' & b' & _ & Hb' & Hu). pose proof (cstr_at_unique _ _ _ _ _ _ Hb Hb') as ->.
      destruct Hb as [-> _], Hb' as [-> _]. congruence.
  - split; [|by intros ? [= <-]]. intros s. split; [done|].
    intros (_ & n & b & Hn & (_ & _ & Hz) & _). by destruct (Hno n).
Qed.

Lemma copy_user_cstr_correct_witness :
  copy_user_cstr sample_mem 4096 = Ret (Ok "/home/a"%string) ∧
  ∃ n b, (n < 256)%nat ∧ cstr_at sample_mem 4096 n b ∧ from_utf8 b = Some "/home/a"%string.
Proof.
  assert (copy_user_cstr sample_mem 4096 = Ret (Ok "/home/a"%string)) as E
    by (vm_compute; reflexivity).
  split; [exact E|].
  destruct (copy_user_cstr_correct sample_mem 4096) as (r & Hr & Hok & _);
    [lia|vm_compute; discriminate|].
  rewrite E in Hr. injection Hr as <-. apply (Hok "/home/a"%string). reflexivity.
Defined.

(** ** What the data calls do *)

(** A kernel between calls, with a file system and a descriptor table. *)
Record ready (k : KState) (fs : RamFs) (t : FileDescriptorTable) : Prop := {
  rdy_fs : k_fs k = Some fs;
  rdy_fd : k_fd k = Some t;
  rdy_held : k_held k = [];
}.

Lemma zlen_load_bytes mem ptr len : 0 ≤ len → zlen (load_bytes mem ptr len) = len.
Proof. intros H. unfold load_bytes, zlen. rewrite length_fmap, length_seqZ. lia. Qed.

(** Running a table operation under both locks. *)
Lemma with_both_eq k fs t (g : RamFs → FileDescriptorTable → outcome (SysResult * FileDescriptorTable * RamFs)) :
  ready k fs t →
  with_fs (λ fs, with_fd_table (λ t, '(r, t', fs') ← lift (g fs t); mret (r, fs', t'))
    (Err SysUnsupported, fs)) k =
  match g fs t with
  | Ret (r, t', fs') => Ret (r, set_fd (Some t') (set_fs (Some fs') k))
  | Panic => Panic
  | Diverge => Diverge
  end.
Proof.
  intros [Hfs Hfd Hh]. destruct k as [kfs kfd kc kx ke kh km kl]. simpl in *. subst.
  unfold with_fs, with_fd_table, lift. rewrite with_lock_eq by (simpl; apply not_elem_of_nil).
  unfold mbind at 1, K_bind at 1. simpl. unfold mbind at 1, K_bind at 1.
  rewrite with_lock_eq by (simpl; rewrite not_elem_of_cons; split; [done|apply not_elem_of_nil]).
  unfold mbind, K_bind. simpl. destruct (g fs t) as [[[r t'] fs']| |]; done.
Qed.

(** What the console hook is called with for a write to [fd]. *)
Definition mirrored (console : bool) (fd : Z) (buf : bytes) : list hook_call :=
  if ((fd =? 1) || (fd =? 2)) && console then [ConsoleWrite buf] else [].

Lemma mirror_eq k fd buf :
  k_held k = [] →
  ∃ k', mirror_console_write fd buf k = Ret ((), k') ∧
    k_fs k' = k_fs k ∧ k_fd k' = k_fd k ∧ k_mem k' = k_mem k ∧ k_held k' = [] ∧
    k_log k' = k_log k ++ mirrored (k_console k) fd buf.
Proof.
  intros Hh. destruct k as [kfs kfd kc kx ke kh km kl]. simpl in *. subst.
  unfold mirror_console_write, mirrored.
  destruct (fd =? 1), (fd =? 2); simpl;
    try (rewrite with_lock_eq by (simpl; apply not_elem_of_nil));
    unfold mbind, K_bind; simpl; try destruct kc; simpl; eexists; split; try reflexivity;
    simpl; rewrite ?app_nil_r; done.
Qed.

(** The [write] call does what the descriptor table does with the bytes at
    the user's buffer: the same file system and table, the same result (an
    error as its [SysError]), user memory untouched, no lock left; and when it
    succeeds on descriptor 1 or 2 the bytes also go to the console hook, even
    if that descriptor was redirected to a file. *)
Theorem syscall_write_effect k fs t fd ptr len r t' fs' :
  ready k fs t → ptr ≠ 0 → 0 ≤ len ≤ 2 ^ 63 - 1 →
  Fd.write t fs fd (load_bytes (k_mem k) ptr len) = Ret (r, t', fs') →
  ∃ k', perform (mkSyscall Number.Write fd ptr len) k = Ret (Return (map_err sys_of_fd r), k') ∧
    ready k' fs' t' ∧ k_mem k' = k_mem k ∧
    k_log k' = k_log k ++
      match r with
      | Ok _ => mirrored (k_console k) fd (load_bytes (k_mem k) ptr len)
      | Err _ => []
      end.
Proof.
  intros Hrdy Hp Hlen Hw. pose proof Hrdy as [Hfs Hfd Hh].
  set (buf := load_bytes (k_mem k) ptr len) in *.
  assert (zlen buf = len) as Hz by (apply zlen_load_bytes; lia).
  pose proof (with_both_eq k fs t (λ fs t, SyscallTable.write fs t fd buf) Hrdy) as Hb.
  unfold SyscallTable.write in Hb. rewrite Hw in Hb. simpl in Hb.
  unfold perform, dispatch. simpl. unfold returning, syscall_write.
  replace (ptr =? 0) with false by lia. unfold raw_len_ok. rewrite bool_decide_true by lia.
  unfold mbind at 1 2 3, K_bind at 1 2 3, lift at 1, gets at 1. simpl. fold buf.
  unfold k_try, mbind at 1, K_bind at 1. unfold SyscallTable.write. rewrite Hb.
  set (k1 := set_fd (Some t') (set_fs (Some fs') k)).
  destruct r as [n|e]; simpl.
  - assert (n = len) as ->.
    { apply fd_write_count in Hw. congruence. }
    unfold mbind, K_bind, lift. unfold slice_get.
    replace ((0 <=? 0) && (0 <=? len) && (len <=? zlen buf)) with true by lia. simpl.
    rewrite Z.sub_0_r, drop_0, take_ge by (unfold zlen in Hz; lia).
    destruct (mirror_eq k1 fd buf) as (k' & -> & ? & ? & ? & ? & ?); [done|].
    exists k'. done.
  - exists k1. split_and!; [done|done|done|]. simpl. by rewrite app_nil_r.
Qed.

Lemma syscall_write_effect_witness :
  let fs := match k_fs sample_kernel with Some fs => fs | None => mkRamFs (Dir ∅) end in
  ∃ k', perform (mkSyscall Number.Write 1 4096 3) sample_kernel = Ret (Return (Ok 3), k') ∧
    k_log k' = [ConsoleWrite [x2f; x68; x6f]].
Proof.
  intros fs.
  destruct (syscall_write_effect sample_kernel fs Fd.new 1 4096 3 (Ok 3)
    (mkTable [Some (Stdin [] 0); Some (Stdout [x2f; x68; x6f]); Some (Stderr [])]) fs)
    as (k' & H & _ & _ & Hl).
  - split; vm_compute; reflexivity.
  - discriminate.
  - split; vm_compute; discriminate.
  - vm_compute. reflexivity.
  - exists k'. split; [exact H|]. rewrite Hl. vm_compute. reflexivity.
Defined.

Lemma load_store_bytes mem ptr data : load_bytes (store_bytes mem ptr data) ptr (zlen data) = data.
Proof.
  apply list_eq. intros i. unfold load_bytes. rewrite list_lookup_fmap.
  destruct (decide (i < length data)%nat) as [Hi|Hi].
  - rewrite lookup_seqZ_lt by (unfold zlen; lia). simpl. unfold store_bytes.
    rewrite bool_decide_true by (unfold zlen; lia).
    replace (Z.to_nat (ptr + Z.of_nat i - ptr)) with i by lia.
    destruct (lookup_lt_is_Some_2 data i Hi) as [x ->]. done.
  - rewrite lookup_seqZ_ge by (unfold zlen; lia). by rewrite lookup_ge_None_2 by lia.
Qed.

(** The [read] call leaves in the user's buffer exactly what the descriptor
    table's [read] leaves there, returns its result, advances the table and
    changes neither the file system nor memory outside the buffer. *)
Theorem syscall_read_effect k fs t fd ptr len r t' buf' :
  ready k fs t → ptr ≠ 0 → 0 ≤ len ≤ 2 ^ 63 - 1 →
  Fd.read t fs fd (load_bytes (k_mem k) ptr len) = Ret (r, t', buf') →
  ∃ k', perform (mkSyscall Number.Read fd ptr len) k = Ret (Return (map_err sys_of_fd r), k') ∧
    ready k' fs t' ∧ k_log k' = k_log k ∧
    load_bytes (k_mem k') ptr len = buf' ∧
    ∀ a, ¬ (ptr ≤ a < ptr + len) → k_mem k' a = k_mem k a.
Proof.
  intros [Hfs Hfd Hh] Hp Hlen Hr.
  assert (zlen buf' = len) as Hz.
  { rewrite (fd_read_zlen _ _ _ _ _ _ _ Hr). apply zlen_load_bytes. lia. }
  destruct k as [kfs kfd kc kx ke kh km kl]. simpl in *. subst kfs kfd kh.
  unfold perform, dispatch. simpl. unfold returning, syscall_read.
  replace (ptr =? 0) with false by lia. unfold raw_len_ok. rewrite bool_decide_true by lia.
  unfold mbind at 1 2, K_bind at 1 2, lift at 1. simpl.
  rewrite with_lock_eq by (simpl; apply not_elem_of_nil). unfold mbind at 1, K_bind at 1. simpl.
  unfold with_fd_table.
  rewrite with_lock_eq by (simpl; rewrite not_elem_of_cons; split; [done|apply not_elem_of_nil]).
  unfold mbind, K_bind, lift. simpl. unfold SyscallTable.read, mbind, outcome_bind. rewrite Hr. simpl.
  eexists. split; [reflexivity|]. simpl. split_and!; [done|done| |].
  - rewrite <- Hz. apply load_store_bytes.
  - intros a Ha. unfold store_bytes. by rewrite bool_decide_false by lia.
Qed.

Lemma syscall_read_effect_witness :
  let fs := match k_fs sample_kernel with Some fs => fs | None => mkRamFs (Dir ∅) end in
  ∃ k', perform (mkSyscall Number.Read 1 4096 2) sample_kernel = Ret (Return (Err Permission), k') ∧
    load_bytes (k_mem k') 4096 2 = [x2f; x68].
Proof.
  intros fs.
  destruct (syscall_read_effect sample_kernel fs Fd.new 1 4096 2 (Err FdPermission) Fd.new [x2f; x68])
    as (k' & H & _ & _ & Hm & _).
  - split; vm_compute; reflexivity.
  - discriminate.
  - split; vm_compute; discriminate.
  - vm_compute. reflexivity.
  - exists k'. split; [exact H|exact Hm].
Defined.

(** ** The value in [rax] *)

(** How a user program tells a result from an error. *)
Definition decode_ret (v : Z) : SysResult :=
  if 0 <=? v then Ok v
  else Err match v with
    | -38 => NoSuchSyscall | -22 => InvalidArgument | -2 => NoEntry | -17 => Exists
    | -20 => NotDir | -21 => IsDir | -39 => NotEmpty | -9 => BadFd | -13 => Permission
    | _ => SysUnsupported
    end.

(** The register value determines the result: every error comes back as
    itself and every value below [2^63] as that value, and the errors of the
    file system and of descriptors stay distinguishable. *)
Theorem rax_roundtrip n a0 a1 a2 k r k' :
  dispatch n a0 a1 a2 k = Ret (Return r, k') →
  (∀ v, r = Ok v → 0 ≤ v < 2 ^ 63) →
  ∃ v, syscall_dispatch n a0 a1 a2 k = Ret (Some v, k') ∧ decode_ret v = r ∧
    ∀ e e', r = Err (sys_of_fd e) → sys_of_fd e = sys_of_fd e' → e = e'.
Proof.
  intros Hd Hv. unfold syscall_dispatch, mbind, K_bind. rewrite Hd.
  exists match r with Ok v => as_isize v | Err e => errno e end. split_and!; [by destruct r|..].
  - destruct r as [v|e]; [|by destruct e].
    specialize (Hv v eq_refl). unfold as_isize, decode_ret.
    replace (v <? 2 ^ 63) with true by lia. by replace (0 <=? v) with true by lia.
  - intros e e' _. by destruct e as [| |[]], e' as [| |[]].
Qed.

Lemma rax_roundtrip_witness :
  ∃ v k', syscall_dispatch Number.WaitPid 0 0 0 sample_kernel = Ret (Some v, k') ∧
    decode_ret v = Err NoSuchSyscall.
Proof.
  destruct (rax_roundtrip Number.WaitPid 0 0 0 sample_kernel (Err NoSuchSyscall) sample_kernel)
    as (v & H & Hd & _); [reflexivity|discriminate|].
  exists v, sample_kernel. split; [exact H|exact Hd].
Defined.
