(* ===== verification/CallEffects.v ===== *)
(** * What system calls leave alone

    A system call keeps the hooks, never drops the file system or the
    descriptor table, keeps the invariant of the table, and calls no hook but
    the console's, unless it is [exec] or [exit], which call theirs at most
    once. *)

From S2P Require Import Prelude Bytes RamFs FdTable FdCorrect Elf Syscall SyscallCorrect.
From Stdlib Require Import Strings.Byte.
Local Open Scope Z_scope.

(** ** Descriptor tables after a call that returned *)

Lemma uadd_inv a b c : uadd a b = Ret c → c = a + b ∧ c ≤ usize_max.
Proof. unfold uadd, checked_add. destruct (a + b <=? usize_max) eqn:E; [|done]. intros [= <-]. lia. Qed.

Lemma set_keeps t fd f f' t' : table_ok t → Fd.get t fd = Some f → offset_ok f' → Fd.set t fd f' = Ret t' → table_ok t'.
Proof.
  intros Ht Hf Ho Hs. destruct (set_ok t fd f f' Hf) as (t1 & Hs1 & Hz & Hg). rewrite Hs in Hs1. injection Hs1 as <-.
  eapply table_ok_update; [done|lia| |exact Hg]. by intros ? [= <-].
Qed.

Lemma read_keeps t fs fd buf r t' buf' : table_ok t → Fd.read t fs fd buf = Ret (r, t', buf') → table_ok t'.
Proof.
  intros Ht. unfold Fd.read, Fd.entry_mut. destruct (Fd.get t fd) as [f|] eqn:Hf; cbn; [|by intros [= _ <- _]].
  pose proof (to_offset t Ht _ _ Hf) as Hoff.
  assert (∀ data offset (g : Z → OpenFile), is_usize offset → (∀ o, offset_ok (g o) = is_usize o) →
    ('(n, buf') ← copy_from_offset data offset buf; offset' ← uadd offset n; t' ← Fd.set t fd (g offset'); Ret (Ok n : FdResult Z, t', buf')) = Ret (r, t', buf') →
    table_ok t') as Hgo.
  { intros data offset g [O1 O2] Hg H. rewrite copy_from_offset_ok in H by done. rewrite Ret_bind in H. apply bind_Ret in H as (o & [-> Hm]%uadd_inv & H).
    apply bind_Ret in H as (t1 & Hs & [= _ <- _]). eapply set_keeps; [done|done| |exact Hs]. rewrite Hg. split; [unfold read_count; lia|done]. }
  destruct f as [data offset| | |path offset flags]; cbn; [by apply (Hgo data offset (Stdin data))|by intros [= _ <- _]..|].
  destruct (negb _); [by intros [= _ <- _]|]. destruct (Fs.read fs path) as [data|]; [|by intros [= _ <- _]]. by apply (Hgo data offset (λ o, OpenedFile path o flags)).
Qed.

Lemma write_keeps t fs fd buf r t' fs' : table_ok t → Fd.write t fs fd buf = Ret (r, t', fs') → table_ok t'.
Proof.
  intros Ht. unfold Fd.write, Fd.entry_mut. destruct (Fd.get t fd) as [f|] eqn:Hf; cbn; [|by intros [= _ <- _]].
  pose proof (to_offset t Ht _ _ Hf) as Hoff. pose proof (zlen_nonneg buf) as Hz.
  destruct f as [data offset|data|data|path offset flags]; cbn; [by intros [= _ <- _]|..].
  - intros (t1 & Hs & [= _ <- _])%bind_Ret. by eapply set_keeps; [..|exact Hs].
  - intros (t1 & Hs & [= _ <- _])%bind_Ret. by eapply set_keeps; [..|exact Hs].
  - destruct (negb _); [by intros [= _ <- _]|]. destruct (Flags.contains flags Flags.APPEND); [by destruct (Fs.append fs path buf) as [[] ?]; intros [= _ <- _]|].
    intros H. apply bind_Ret in H as ([d o] & Hw & H). unfold Fd.write_at in Hw. apply bind_Ret in Hw as (e & [-> Hm]%uadd_inv & Hw).
    apply bind_Ret in Hw as (d1 & _ & [= _ <-]). destruct (Fs.write fs path d) as [[] fs1]; [|by injection H as _ <- _].
    apply bind_Ret in H as (t1 & Hs & [= _ <- _]). eapply set_keeps; [done|done| |exact Hs]. cbn in *. unfold is_usize in *. lia.
Qed.

Lemma close_keeps t fd r t' : table_ok t → Fd.close t fd = Ret (r, t') → table_ok t'.
Proof.
  intros Ht H. destruct (decide (0 ≤ fd)) as [H0|H0].
  - destruct (fd_step_safe_lemma 0 t (mkRamFs (Dir ∅)) (FdClose fd) Ht H0) as (r1 & t1 & fs1 & Hs & Hok & _). cbn in Hs. rewrite H in Hs. by injection Hs as _ <- _.
  - unfold Fd.close in H. case_bool_decide; [by injection H as _ <-|]. unfold arr_get in H. by replace (0 <=? fd) with false in H by lia.
Qed.
Lemma dup2_keeps room t a b r t' : table_ok t → Fd.dup2 room t a b = Ret (r, t') → table_ok t'.
Proof.
  intros Ht H. pose proof H as H1. unfold Fd.dup2 in H1. destruct (Fd.get t a) as [f|] eqn:Hf; [|by injection H1 as _ <-].
  apply bind_Ret in H1 as (es & Hgr & H1). apply bind_Ret in H1 as (es' & Hset & _).
  destruct (decide (growable room t b)) as [Hg|Hg].
  { destruct (fd_step_safe_lemma room t (mkRamFs (Dir ∅)) (FdDup2 a b) Ht Hg) as (r1 & t1 & fs1 & Hs & Hok & _). cbn in Hs. rewrite H in Hs. by injection Hs as _ <- _. }
  destruct (decide (0 ≤ b)) as [H0|H0].
  - unfold growable in Hg. by rewrite (dup2_out_of_room room t a b f) in H by (done || lia).
  - unfold arr_set in Hset. by replace (0 <=? b) with false in Hset by lia.
Qed.
Lemma open_keeps room t fs path flags r t' fs' : table_ok t → Fd.open room t fs path flags = Ret (r, t', fs') → table_ok t'.
Proof.
  intros Ht H. destruct (decide (insertable room t)) as [Hr|Hr].
  - destruct (open_safe room t fs path flags Ht Hr) as (r1 & t1 & fs1 & Hs & Hok & _). cbn in Hs. rewrite H in Hs. by injection Hs as _ <- _.
  - assert (Fd.insert room t (OpenedFile path 0 flags) = Panic) as Hi.
    { unfold insertable in Hr. unfold Fd.insert, Fd.push. destruct (Fd.first_free (entries t)); [exfalso; apply Hr; left; by eexists|].
      destruct (Z.ltb_spec (zlen (entries t)) room); [exfalso; apply Hr; by right|done]. }
    unfold Fd.open, Fd.try_fs in H. rewrite Hi in H. cbn in H. repeat case_match; by simplify_eq.
Qed.

(** ** A logic of effects *)

Definition is_console (c : hook_call) : Prop := match c with ConsoleWrite _ => True | _ => False end.

(** From a state to a later one. *)
Record milder (P : hook_call → Prop) (k k' : KState) : Prop := {
  mi_console : k_console k' = k_console k;
  mi_exec : k_exec k' = k_exec k;
  mi_exit : k_exit k' = k_exit k;
  mi_fs : is_Some (k_fs k) → is_Some (k_fs k');
  mi_fd : is_Some (k_fd k) → is_Some (k_fd k');
  mi_table : (∀ t, k_fd k = Some t → table_ok t) → ∀ t, k_fd k' = Some t → table_ok t;
  mi_log : ∃ l, k_log k' = k_log k ++ l ∧ Forall P l;
}.

#[global] Instance milder_preorder P : PreOrder (milder P).
Proof.
  split.
  - intros k. split; [done..|]. exists []. by rewrite app_nil_r.
  - intros k1 k2 k3 [A1 A2 A3 A4 A5 A8 (l & A6 & A7)] [B1 B2 B3 B4 B5 B8 (l' & B6 & B7)]. split; [congruence..|auto|auto|auto|].
    exists (l ++ l'). rewrite B6, A6, app_assoc. split; [done|]. by apply Forall_app.
Qed.

Section logic.
Context (P : hook_call → Prop).

Definition mild {A} (m : K A) : Prop := ∀ k a k', m k = Ret (a, k') → milder P k k'.

Lemma mild_ret {A} (a : A) : mild (mret a : K A).
Proof. by intros k a' k' [= _ <-]. Qed.
Lemma mild_bind {A B} (m : K A) (f : A → K B) : mild m → (∀ a, mild (f a)) → mild (m ≫= f).
Proof.
  intros Hm Hf k b k' H. unfold mbind, K_bind in H. destruct (m k) as [[a k1]| |] eqn:E; [|done..]. etrans; [by eapply Hm|by eapply Hf].
Qed.
Lemma mild_gets {A} (f : KState → A) : mild (gets f).
Proof. by intros k a k' [= _ <-]. Qed.
Lemma mild_modify f : (∀ k, milder P k (f k)) → mild (modify f).
Proof. intros Hf k a k' [= _ <-]. apply Hf. Qed.
Lemma mild_lift {A} (m : outcome A) : mild (lift m).
Proof. intros k a k' H. unfold lift in H. by destruct m; simplify_eq/=. Qed.
Lemma mild_acquire l : mild (acquire l).
Proof. intros k a k' H. unfold acquire in H. case_bool_decide; [done|]. injection H as _ <-. split; try done. exists []. by rewrite app_nil_r. Qed.

(** Stores that only touch locks, memory, the file system or the table. *)
Lemma mild_state f :
  (∀ k, k_console (f k) = k_console k ∧ k_exec (f k) = k_exec k ∧ k_exit (f k) = k_exit k ∧ k_log (f k) = k_log k ∧
     (is_Some (k_fs k) → is_Some (k_fs (f k))) ∧ k_fd (f k) = k_fd k) → mild (modify f).
Proof.
  intros Hf. apply mild_modify. intros k. destruct (Hf k) as (? & ? & ? & E & ? & E'). split; rewrite ?E'; try done. exists []. by rewrite app_nil_r.
Qed.
Lemma mild_log c : P c → mild (modify (log_call c)).
Proof. intros Hc. apply mild_modify. intros k. split; try done. exists [c]. split; [done|]. by constructor. Qed.

Lemma mild_try {A B E} (m : K (Result A E)) (f : A → K (Result B E)) : mild m → (∀ a, mild (f a)) → mild (k_try m f).
Proof. intros Hm Hf. apply mild_bind; [done|]. intros [a|e]; [apply Hf|apply mild_ret]. Qed.
Lemma mild_with_lock {A} l (m : K A) : mild m → mild (with_lock l m).
Proof.
  intros Hm. apply mild_bind; [apply mild_acquire|intros _]. apply mild_bind; [done|]. intros a. apply mild_bind; [|intros _; apply mild_ret].
  by apply mild_state.
Qed.
Lemma mild_with_fs f : (∀ fs, mild (f fs)) → mild (with_fs f).
Proof.
  intros Hf. apply mild_with_lock, mild_bind; [apply mild_gets|]. intros [fs|]; [|apply mild_ret]. apply mild_bind; [apply Hf|]. intros [r fs'].
  apply mild_bind; [apply mild_state; intros k; by split_and!|intros _; apply mild_ret].
Qed.
Lemma mild_with_fd_table {A} (f : FileDescriptorTable → K (A * FileDescriptorTable)) missing :
  (∀ t, mild (f t)) → (∀ t k a t' k', table_ok t → f t k = Ret ((a, t'), k') → table_ok t') → mild (with_fd_table f missing).
Proof.
  intros Hf Ht. apply mild_with_lock. intros k x k' H. unfold mbind, K_bind, gets in H. destruct (k_fd k) as [t|] eqn:Ek; [|by injection H as _ <-].
  destruct (f t k) as [[[r t'] k1]| |] eqn:Ef; [|done..]. injection H as _ <-. destruct (Hf t k _ _ Ef) as [M1 M2 M3 M4 M5 M6 M7].
  split; [done|done|done|done|by eexists| |done]. intros Hk t1 [= <-]. eapply Ht; [by apply Hk|exact Ef].
Qed.
Lemma mild_user_cstr ptr : mild (user_cstr ptr).
Proof. apply mild_bind; [apply mild_gets|intros mem; apply mild_lift]. Qed.
End logic.

Ltac mild_steps :=
  repeat first
    [ apply mild_ret
    | apply mild_gets
    | apply mild_lift
    | apply mild_user_cstr
    | (apply mild_log; done)
    | (apply mild_state; intros ?; by split_and!)
    | apply mild_with_fs; intros ?
    | apply mild_with_fd_table; [intros ?|intros ? ? ? ? ? ? ?]
    | apply mild_with_lock
    | apply mild_try; [|intros ?]
    | apply mild_bind; [|intros ?]
    | case_match ].

(** ** The calls *)

(** What the table operations leave behind, under the monad. *)
Lemma bind_lift_Ret {A B} (m : outcome A) (f : A → K B) k b k' :
  (x ← lift m; f x) k = Ret (b, k') → ∃ x, m = Ret x ∧ f x k = Ret (b, k').
Proof. unfold mbind, K_bind, lift. destruct m as [x| |]; [|done..]. cbn. by exists x. Qed.

Lemma mild_open ptr flags : mild is_console (syscall_open ptr flags).
Proof.
  unfold syscall_open, SyscallTable.open. apply mild_try; [apply mild_user_cstr|intros path]. apply mild_with_fs. intros fs.
  apply mild_with_fd_table; [intros t; mild_steps|intros t k x t' k' Ht Hr].
  unfold mbind at 1, K_bind at 1, gets in Hr. apply bind_lift_Ret in Hr as ([[ra ta] da] & Eb & Hr).
  apply bind_Ret in Eb as ([[rb tb] db] & Eb & [= <- <- <-]). injection Hr as _ <- _. by eapply open_keeps.
Qed.
Lemma mild_read fd ptr len : mild is_console (syscall_read fd ptr len).
Proof.
  unfold syscall_read. mild_steps. match goal with H : _ = Ret _ |- _ => rename H into Hr end.
  unfold mbind at 1, K_bind at 1, gets in Hr. apply bind_lift_Ret in Hr as ([[ra ta] da] & Eb & Hr). unfold SyscallTable.read in Eb.
  apply bind_Ret in Eb as ([[rb tb] db] & Eb & [= <- <- <-]). injection Hr as _ <- _. by eapply read_keeps.
Qed.
Lemma mild_write fd ptr len : mild is_console (syscall_write fd ptr len).
Proof.
  unfold syscall_write, mirror_console_write. mild_steps. match goal with H : _ = Ret _ |- _ => rename H into Hr end.
  apply bind_lift_Ret in Hr as ([[ra ta] da] & Eb & Hr). unfold SyscallTable.write in Eb.
  apply bind_Ret in Eb as ([[rb tb] db] & Eb & [= <- <- <-]). injection Hr as _ <- _. by eapply write_keeps.
Qed.
Lemma mild_close fd : mild is_console (with_fd_table (λ t, lift (SyscallTable.close t fd)) (Err SysUnsupported)).
Proof.
  mild_steps. match goal with H : _ = Ret _ |- _ => rename H into Hr end. unfold lift, SyscallTable.close in Hr.
  apply bind_Ret in Hr as ([ra ta] & Eb & [= -> -> _]). apply bind_Ret in Eb as ([rb tb] & Eb & [= _ <-]). by eapply close_keeps.
Qed.
Lemma mild_dup2 a b : mild is_console (with_fd_table (λ t, room ← gets k_room; lift (SyscallTable.dup2 room t a b)) (Err SysUnsupported)).
Proof.
  mild_steps. match goal with H : _ = Ret _ |- _ => rename H into Hr end. unfold mbind at 1, K_bind at 1, gets, lift, SyscallTable.dup2 in Hr.
  apply bind_Ret in Hr as ([ra ta] & Eb & [= -> -> _]). apply bind_Ret in Eb as ([rb tb] & Eb & [= _ <-]). by eapply dup2_keeps.
Qed.

Lemma mild_dispatch n a0 a1 a2 : n ≠ Number.Exec → n ≠ Number.Exit → mild is_console (dispatch n a0 a1 a2).
Proof.
  intros Hx He. unfold dispatch, returning. repeat (case_match; [try lia; (apply mild_bind; [|intros ?; apply mild_ret])|]).
  - apply mild_read.
  - apply mild_write.
  - apply mild_open.
  - apply mild_close.
  - apply mild_dup2.
  - mild_steps.
  - mild_steps.
  - mild_steps.
  - mild_steps.
  - apply mild_ret.
Qed.

(** The program of [exec] is the content of a file. *)
Definition exec_log (fs : option RamFs) (l : list hook_call) : Prop :=
  l = [] ∨ ∃ f path image, fs = Some f ∧ Fs.read f path = Ok image ∧ l = [ExecProgram image].

Lemma mild_exec fs path : mild (λ _, True) (SyscallTable.exec fs path).
Proof. unfold SyscallTable.exec. mild_steps. Qed.

(** A body under a lock, seen from outside. *)
Lemma with_lock_body {A} l (m : K A) k a k' :
  with_lock l m k = Ret (a, k') → ∃ k1, m (set_held (l :: k_held k) k) = Ret (a, k1) ∧ k_log k' = k_log k1.
Proof.
  intros H. destruct (decide (l ∈ k_held k)) as [Hh|Hh].
  - unfold with_lock, mbind, K_bind, acquire in H. by rewrite bool_decide_true in H.
  - rewrite with_lock_eq in H by done. destruct (m _) as [[a' k1]| |]; [|done..]. injection H as <- <-. by exists k1.
Qed.

Lemma exec_body_log fs path k r k' :
  SyscallTable.exec fs path k = Ret (r, k') → k_log k' = k_log k ∨ ∃ image, Fs.read fs path = Ok image ∧ k_log k' = k_log k ++ [ExecProgram image].
Proof.
  unfold SyscallTable.exec. destruct (Fs.read fs path) as [image|e]; [|intros [= _ <-]; by left]. unfold mbind, K_bind. intros H.
  destruct (with_lock EXEC_PROGRAM (gets k_exec) k) as [[o k1]| |] eqn:E; [|done..].
  apply with_lock_body in E as (k2 & [= _ <-] & E). destruct o as [f|]; injection H as _ <-; [right; exists image|left]; cbn; by rewrite E.
Qed.

Lemma exec_effect ptr a1 a2 k r k' :
  dispatch Number.Exec ptr a1 a2 k = Ret (r, k') →
  milder (λ _, True) k k' ∧ ∃ l, k_log k' = k_log k ++ l ∧ exec_log (k_fs k) l.
Proof.
  intros H. split.
  { revert H. unfold dispatch. cbn. unfold returning. intros H. eapply mild_bind; [|intros ?; apply mild_ret|exact H]. mild_steps. apply mild_exec. }
  assert (k_log k' = k_log k → ∃ l, k_log k' = k_log k ++ l ∧ exec_log (k_fs k) l) as Hnil.
  { intros E. exists []. rewrite app_nil_r. split; [done|by left]. }
  unfold dispatch in H. cbn in H. unfold returning, mbind, K_bind in H.
  destruct (k_try (user_cstr ptr) _ k) as [[r0 k0]| |] eqn:E; [|done..]. injection H as <- <-.
  unfold k_try, user_cstr, mbind, K_bind, gets, lift in E. destruct (copy_user_cstr (k_mem k) ptr) as [[path|e]| |]; cbn in E; [|injection E as _ <-; by apply Hnil|done..].
  apply with_lock_body in E as (k1 & E & Elog). unfold mbind, K_bind, gets in E. cbn in E. rewrite Elog in Hnil |- *.
  destruct (k_fs k) as [fs|]; [|injection E as _ <-; by apply Hnil].
  destruct (SyscallTable.exec fs path _) as [[r1 k2]| |] eqn:Ex; [|done..]. cbn in E. injection E as _ <-. cbn in *.
  apply exec_body_log in Ex as [Ex|(image & Hi & Ex)]; cbn in Ex; [by apply Hnil|].
  exists [ExecProgram image]. rewrite Ex. split; [done|]. right. by exists fs, path, image.
Qed.

Lemma exit_effect status a1 a2 k r k' :
  dispatch Number.Exit status a1 a2 k = Ret (r, k') → EXIT_CURRENT ∉ k_held k ∧
  if k_exit k then k' = log_call (ExitCurrent status) (set_held (EXIT_CURRENT :: k_held k) k) else milder is_console k k'.
Proof.
  unfold dispatch. cbn. unfold syscall_exit, mbind, K_bind, acquire, gets. case_bool_decide as Hh; [done|]. cbn.
  destruct (k_exit k) eqn:Ee; intros [= _ <-]; (split; [done|]); [done|]. split; try done. exists []. by rewrite app_nil_r.
Qed.

(** Only [exit] does not return. *)
Lemma returning_return m k r k' : returning m k = Ret (r, k') → ∃ x, r = Return x.
Proof. unfold returning, mbind, K_bind. destruct (m k) as [[x k1]| |]; [|done..]. intros [= <- _]. by exists x. Qed.
Lemma exit_only n a0 a1 a2 k k' : dispatch n a0 a1 a2 k = Ret (NoReturn, k') → n = Number.Exit.
Proof.
  unfold dispatch. intros H. destruct (decide (n = Number.Exit)) as [|Hn]; [done|].
  repeat (case_match; [try lia; by apply returning_return in H as [x ?]|]). done.
Qed.
