(* ===== verification/AllocLayout.v ===== *)
(** * Placement arithmetic of the heap ([src/alloc_layout.rs])

    Where a user allocation goes inside a heap block: after the block header
    and a back pointer, at the alignment of the layout. *)

From S2P Require Import Prelude.
Local Open Scope Z_scope.

(** [core::alloc::Layout]. *)
Record Layout := mkLayout { size : Z; align : Z }.

Record AllocationGeometry := mkGeometry {
  header_size : Z;
  block_align : Z;
  back_ptr_size : Z;
}.

Record AllocationPlacement := mkPlacement { user_ptr : Z; used_size : Z }.

Definition is_power_of_two (x : Z) : bool := (0 <? x) && (2 ^ Z.log2 x =? x).

(** [Layout::from_size_align]: the alignment is a power of two and the size,
    rounded up to it, does not exceed [isize::MAX]. *)
Definition from_size_align (sz al : Z) : option Layout :=
  if is_power_of_two al && (sz <=? 2 ^ 63 - al) then Some (mkLayout sz al) else None.

Definition normalize_layout (layout : Layout) (min_align : Z) : outcome Layout :=
  let sz := Z.max (size layout) 1 in
  let al := Z.max (align layout) min_align in
  expect (from_size_align sz al).

(** The [debug_assert!] is active in the build; [None] is an overflow. *)
Definition align_up (addr al : Z) : outcome (option Z) :=
  _ ← assert_that (is_power_of_two al);
  Ret (mask ← checked_sub al 1;
       v ← checked_add addr mask;
       Some (Z.land v (not64 mask))).

Definition user_ptr_for_block (block_start : Z) (layout : Layout) (g : AllocationGeometry)
    : outcome (option Z) :=
  match (after_header ← checked_add block_start (header_size g);
         checked_add after_header (back_ptr_size g)) with
  | None => Ret None
  | Some after_back_ptr => align_up after_back_ptr (align layout)
  end.

Definition required_block_size (block_start : Z) (layout : Layout) (g : AllocationGeometry)
    : outcome (option Z) :=
  up ← user_ptr_for_block block_start layout g;
  match up ≫= λ user_ptr, checked_add user_ptr (size layout) with
  | None => Ret None
  | Some allocation_end =>
      used_end ← align_up allocation_end (block_align g);
      Ret (e ← used_end; checked_sub e block_start)
  end.

Definition allocation_for_block (block_start block_size : Z) (layout : Layout)
    (g : AllocationGeometry) : outcome (option AllocationPlacement) :=
  up ← user_ptr_for_block block_start layout g;
  match up with
  | None => Ret None
  | Some user_ptr =>
      match checked_add user_ptr (size layout) with
      | None => Ret None
      | Some allocation_end =>
          used_end ← align_up allocation_end (block_align g);
          Ret (e ← used_end;
               used_size ← checked_sub e block_start;
               if used_size <=? block_size then Some (mkPlacement user_ptr used_size) else None)
      end
  end.

(** ** Rounding up *)

(** The least multiple of [al] that is not below [x]. *)
Definition round_up (x al : Z) : Z := - (- x / al) * al.

Lemma round_up_spec x al : 0 < al → x ≤ round_up x al < x + al ∧ (al | round_up x al).
Proof.
  intros H. unfold round_up.
  pose proof (Z.div_mod (- x) al ltac:(lia)) as Hd. pose proof (Z.mod_pos_bound (- x) al H).
  split; [lia|]. by exists (- (- x / al)).
Qed.

Lemma round_up_least x al y : 0 < al → x ≤ y → (al | y) → round_up x al ≤ y.
Proof.
  intros H Hxy [c ->]. unfold round_up.
  assert (- c ≤ - x / al) by (apply Z.div_le_lower_bound; lia). nia.
Qed.

Lemma power_of_two_pow x : is_power_of_two x = true → ∃ k, 0 ≤ k ∧ x = 2 ^ k.
Proof.
  unfold is_power_of_two. intros H. exists (Z.log2 x). split; [apply Z.log2_nonneg|lia].
Qed.

Lemma align_up_spec addr al :
  is_usize addr → is_power_of_two al = true → al ≤ 2 ^ 63 →
  align_up addr al = Ret (if addr + (al - 1) <=? usize_max then Some (round_up addr al) else None).
Proof.
  intros [H0 Hmax] Hp Hal. destruct (power_of_two_pow _ Hp) as (k & Hk & ->).
  unfold align_up. rewrite Hp. simpl. f_equal.
  assert (k < 64) as Hk64.
  { destruct (decide (k < 64)); [done|]. assert (2 ^ 64 ≤ 2 ^ k) by (apply Z.pow_le_mono_r; lia). lia. }
  assert (0 < 2 ^ k) by (apply Z.pow_pos_nonneg; lia).
  unfold checked_sub, checked_add. replace (1 <=? 2 ^ k) with true by lia. simpl.
  destruct (addr + (2 ^ k - 1) <=? usize_max) eqn:E; simpl; [|done]. f_equal.
  rewrite land_align by (unfold is_usize, usize_max in *; lia).
  set (m := (addr + (2 ^ k - 1)) mod 2 ^ k).
  assert (0 ≤ m < 2 ^ k) as Hm by (apply Z.mod_pos_bound; lia).
  destruct (round_up_spec addr (2 ^ k)) as [Hr Hd]; [lia|].
  assert (2 ^ k | addr + (2 ^ k - 1) - m) as Hd'.
  { exists ((addr + (2 ^ k - 1)) / 2 ^ k). unfold m.
    pose proof (Z.div_mod (addr + (2 ^ k - 1)) (2 ^ k) ltac:(lia)). lia. }
  apply Z.le_antisymm.
  - destruct Hd as [c Hc], Hd' as [c' Hc'].
    assert (c' < c + 1); [|nia]. apply (Z.mul_lt_mono_pos_r (2 ^ k)); lia.
  - apply round_up_least; [lia|lia|done].
Qed.

(** ** Placement *)

(** What the heap passes: addresses and sizes in range, powers of two. *)
Record request_ok (block_start : Z) (layout : Layout) (g : AllocationGeometry) : Prop := {
  rq_start : is_usize block_start;
  rq_size : 0 ≤ size layout;
  rq_align : is_power_of_two (align layout) = true;
  rq_align_le : align layout ≤ 2 ^ 63;
  rq_header : 0 ≤ header_size g;
  rq_back : 0 ≤ back_ptr_size g;
  rq_block : is_power_of_two (block_align g) = true;
  rq_block_le : block_align g ≤ 2 ^ 63;
}.

(** Where the user pointer and the end of the block go, without overflow. *)
Definition ideal_ptr (bs : Z) (l : Layout) (g : AllocationGeometry) : Z :=
  round_up (bs + header_size g + back_ptr_size g) (align l).
Definition ideal_end (bs : Z) (l : Layout) (g : AllocationGeometry) : Z :=
  round_up (ideal_ptr bs l g + size l) (block_align g).

(** No intermediate sum leaves the address space. *)
Definition no_overflow (bs : Z) (l : Layout) (g : AllocationGeometry) : bool :=
  (bs + header_size g + back_ptr_size g + (align l - 1) <=? usize_max) &&
  (ideal_ptr bs l g + size l + (block_align g - 1) <=? usize_max).

Section placement.
Context (bs : Z) (l : Layout) (g : AllocationGeometry) (Hrq : request_ok bs l g).

Lemma align_pos x : is_power_of_two x = true → 0 < x.
Proof. unfold is_power_of_two. lia. Qed.

Lemma user_ptr_eq : user_ptr_for_block bs l g =
  Ret (if bs + header_size g + back_ptr_size g + (align l - 1) <=? usize_max
       then Some (ideal_ptr bs l g) else None).
Proof.
  destruct Hrq as [Hs Hz Ha Hal Hh Hb Hbl Hble]. pose proof (align_pos _ Ha).
  unfold user_ptr_for_block, checked_add. unfold is_usize in Hs.
  destruct (bs + header_size g <=? usize_max) eqn:E1; simpl.
  - destruct (bs + header_size g + back_ptr_size g <=? usize_max) eqn:E2; simpl.
    + apply align_up_spec; [unfold is_usize; lia|done|done].
    + case_match; [lia|done].
  - case_match; [lia|done].
Qed.

Lemma ideal_ptr_range :
  (bs + header_size g + back_ptr_size g + (align l - 1) <=? usize_max) = true →
  is_usize (ideal_ptr bs l g) ∧ bs + header_size g + back_ptr_size g ≤ ideal_ptr bs l g.
Proof.
  intros H. destruct Hrq as [Hs Hz Ha Hal Hh Hb Hbl Hble]. pose proof (align_pos _ Ha).
  destruct (round_up_spec (bs + header_size g + back_ptr_size g) (align l)) as [Hr _]; [lia|].
  unfold ideal_ptr, is_usize in *. lia.
Qed.

(** The two functions agree: the block size a request needs is what placing
    it in a block uses. *)
Lemma required_eq : required_block_size bs l g =
  Ret (if no_overflow bs l g then Some (ideal_end bs l g - bs) else None).
Proof.
  unfold required_block_size, no_overflow. rewrite user_ptr_eq, Ret_bind.
  destruct (bs + header_size g + back_ptr_size g + (align l - 1) <=? usize_max) eqn:E; simpl; [|done].
  destruct (ideal_ptr_range E) as [Hu Hlo]. destruct Hrq as [Hs Hz Ha Hal Hh Hb Hbl Hble].
  pose proof (align_pos _ Hbl). unfold checked_add.
  destruct (ideal_ptr bs l g + size l <=? usize_max) eqn:E2.
  - rewrite align_up_spec by (try done; unfold is_usize in *; lia). simpl.
    destruct (ideal_ptr bs l g + size l + (block_align g - 1) <=? usize_max) eqn:E3; simpl; [|done].
    unfold checked_sub. fold (ideal_end bs l g).
    destruct (round_up_spec (ideal_ptr bs l g + size l) (block_align g)) as [Hr _]; [lia|].
    unfold ideal_end. by replace (bs <=? _) with true by lia.
  - by replace (ideal_ptr bs l g + size l + (block_align g - 1) <=? usize_max) with false by lia.
Qed.

Lemma allocation_eq bz : allocation_for_block bs bz l g =
  Ret (if no_overflow bs l g && (ideal_end bs l g - bs <=? bz)
       then Some (mkPlacement (ideal_ptr bs l g) (ideal_end bs l g - bs)) else None).
Proof.
  pose proof required_eq as Hreq. unfold required_block_size, allocation_for_block in *.
  rewrite user_ptr_eq in *. rewrite Ret_bind in *. unfold no_overflow in *.
  destruct (bs + header_size g + back_ptr_size g + (align l - 1) <=? usize_max); simpl in *; [|done].
  destruct (checked_add (ideal_ptr bs l g) (size l)) as [e|].
  - destruct (align_up e (block_align g)) as [ue| |]; simpl in *; [|done..].
    injection Hreq as Hreq. f_equal.
    destruct ue as [u|]; simpl in *; [rewrite Hreq|];
      destruct (ideal_ptr bs l g + size l + (block_align g - 1) <=? usize_max); simpl in *; by simplify_eq.
  - destruct (ideal_ptr bs l g + size l + (block_align g - 1) <=? usize_max); by simplify_eq.
Qed.
End placement.

(** ** Claims *)

(** For every request the heap makes, [required_block_size] and
    [allocation_for_block] return (no assertion fails) and agree: a block is
    usable exactly when it has the required size, and the placement then uses
    exactly that.  The user pointer is the least address at the layout's
    alignment that leaves room for the header and the back pointer, the
    allocation ends inside the block, and the used part is the shortest that
    ends at a block boundary. *)
Theorem placement_correct bs bz l g :
  request_ok bs l g →
  ∃ o p, required_block_size bs l g = Ret o ∧
    allocation_for_block bs bz l g =
      Ret (r ← o; if r <=? bz then Some (mkPlacement p r) else None) ∧
    ∀ r, o = Some r →
      (align l | p) ∧ bs + header_size g + back_ptr_size g ≤ p ∧
      (∀ q, bs + header_size g + back_ptr_size g ≤ q → (align l | q) → p ≤ q) ∧
      p + size l ≤ bs + r ≤ usize_max ∧ (block_align g | bs + r) ∧
      (∀ e, p + size l ≤ e → (block_align g | e) → bs + r ≤ e).
Proof.
  intros Hrq. exists (if no_overflow bs l g then Some (ideal_end bs l g - bs) else None), (ideal_ptr bs l g).
  split_and!; [by apply required_eq| |].
  - rewrite allocation_eq by done. by destruct (no_overflow bs l g).
  - intros r. destruct (no_overflow bs l g) eqn:E; [|done]. intros [= <-].
    unfold no_overflow in E. apply andb_true_iff in E as [E1 E2].
    destruct Hrq as [Hs Hz Ha Hal Hh Hb Hbl Hble].
    apply align_pos in Ha, Hbl.
    replace (bs + (ideal_end bs l g - bs)) with (ideal_end bs l g) by lia.
    destruct (round_up_spec (bs + header_size g + back_ptr_size g) (align l) Ha) as [Hp Hd].
    destruct (round_up_spec (ideal_ptr bs l g + size l) (block_align g) Hbl) as [He Hde].
    fold (ideal_ptr bs l g) in Hp, Hd. fold (ideal_end bs l g) in He, Hde.
    split_and!; [done|lia| |lia|lia|done|].
    + intros q Hq Hdq. by apply round_up_least.
    + intros e He' Hdd. by apply round_up_least.
Qed.

(** The geometry of [mem/alloc.rs]: a 24-byte header at alignment 8. *)
Lemma placement_correct_witness :
  let l := mkLayout 10 16 in let g := mkGeometry 24 8 8 in
  request_ok 4096 l g ∧ ∃ p, allocation_for_block 4096 4096 l g = Ret (Some (mkPlacement p 48)) ∧ (16 | p).
Proof.
  intros l g.
  assert (request_ok 4096 l g) as Hrq.
  { split; vm_compute; try reflexivity; try discriminate. split; discriminate. }
  split; [exact Hrq|].
  destruct (placement_correct 4096 4096 l g Hrq) as (o & p & Ho & Ha & Hr).
  vm_compute in Ho. injection Ho as <-. exists p. split; [exact Ha|]. apply (Hr 48 eq_refl).
Defined.
