(* ===== verification/SerialInput.v ===== *)
(** * The serial input buffer ([src/stdio.rs])

    A ring of 256 bytes between the receive interrupt and the shell, and the
    interrupt handler that fills it.  The UART is the list of bytes it has
    received and not yet delivered: [LSR_DATA_READY] is set while it is not
    empty, and reading the data port takes its first byte. *)

From S2P Require Import Prelude Bytes.
From Stdlib Require Import Strings.Byte.
Local Open Scope Z_scope.

Definition SERIAL_INPUT_CAPACITY : Z := 256.

Record SerialInput := mkSerial { buf : bytes; head : Z; tail : Z }.

Module Serial.

Definition new : SerialInput := mkSerial (replicate 256 x00) 0 0.

Definition push (s : SerialInput) (byte : byte) : outcome SerialInput :=
  t1 ← uadd (tail s) 1;
  let next := t1 mod SERIAL_INPUT_CAPACITY in
  head' ← (if next =? head s then
             h1 ← uadd (head s) 1; Ret (h1 mod SERIAL_INPUT_CAPACITY)
           else Ret (head s));
  b ← expect (arr_set (buf s) (tail s) byte);
  Ret (mkSerial b head' next).

Definition pop (s : SerialInput) : outcome (option byte * SerialInput) :=
  if head s =? tail s then Ret (None, s)
  else
    byte ← expect (arr_get (buf s) (head s));
    h1 ← uadd (head s) 1;
    Ret (Some byte, mkSerial (buf s) (h1 mod SERIAL_INPUT_CAPACITY) (tail s)).

(** [handle_serial_rx_interrupt]: the [while] loop runs until the UART has no
    more data, so its fuel is the number of bytes waiting. *)
Fixpoint rx_loop (uart : bytes) (s : SerialInput) : outcome SerialInput :=
  match uart with
  | [] => Ret s
  | byte :: uart' => s' ← push s byte; rx_loop uart' s'
  end.
Definition handle_serial_rx_interrupt (uart : bytes) (s : SerialInput) : outcome SerialInput :=
  rx_loop uart s.
End Serial.

(** ** The queue it implements *)

Record ring_ok (s : SerialInput) : Prop := {
  ring_len : zlen (buf s) = 256;
  ring_head : 0 ≤ head s < 256;
  ring_tail : 0 ≤ tail s < 256;
}.

Definition count (s : SerialInput) : Z := (tail s - head s) mod 256.
Definition at_index (l : bytes) (i : Z) : byte := default x00 (l !! Z.to_nat (i mod 256)).

(** The bytes in the buffer, oldest first. *)
Definition queue (s : SerialInput) : bytes :=
  (λ i, at_index (buf s) (head s + i)) <$> seqZ 0 (count s).

Lemma length_queue s : zlen (queue s) = count s.
Proof.
  unfold queue, zlen. rewrite length_fmap, length_seqZ. unfold count.
  pose proof (Z.mod_pos_bound (tail s - head s) 256). lia.
Qed.

Lemma queue_lookup s (i : nat) :
  queue s !! i = if Z.of_nat i <? count s then Some (at_index (buf s) (head s + Z.of_nat i)) else None.
Proof.
  unfold queue. rewrite list_lookup_fmap. destruct (Z.of_nat i <? count s) eqn:E.
  - rewrite lookup_seqZ_lt by lia. done.
  - rewrite lookup_seqZ_ge by lia. done.
Qed.

(** A queue of at most 255 bytes that forgets the oldest when full. *)
Definition bounded_push (q : bytes) (x : byte) : bytes :=
  drop (length q - 254) q ++ [x].

Ltac mod256 := Z.div_mod_to_equations; lia.

Lemma at_index_set l i x j :
  zlen l = 256 → 0 ≤ i < 256 →
  at_index (<[Z.to_nat i := x]> l) j = if decide (j mod 256 = i) then x else at_index l j.
Proof.
  intros Hl Hi. unfold at_index. pose proof (Z.mod_pos_bound j 256 ltac:(lia)).
  case_decide as E.
  - rewrite E, list_lookup_insert_eq; [done|]. unfold zlen in Hl. lia.
  - rewrite list_lookup_insert_ne by lia. done.
Qed.

Lemma before_tail h t k :
  0 ≤ h < 256 → 0 ≤ t < 256 → 0 ≤ k < (t - h) mod 256 → (h + k) mod 256 ≠ t.
Proof. intros. mod256. Qed.
Lemma at_tail h t : 0 ≤ h < 256 → 0 ≤ t < 256 → (h + (t - h) mod 256) mod 256 = t.
Proof. intros. mod256. Qed.

(** Storing at the tail and advancing it, after dropping the [d] oldest. *)
Lemma queue_store s x d :
  ring_ok s → 0 ≤ d ≤ count s → count s - d < 255 →
  queue (mkSerial (<[Z.to_nat (tail s) := x]> (buf s)) ((head s + d) mod 256) ((tail s + 1) mod 256)) =
    drop (Z.to_nat d) (queue s) ++ [x].
Proof.
  intros [Hl Hh Ht] Hd Hc. pose proof (length_queue s) as Hq. unfold zlen in Hq.
  set (s' := mkSerial _ _ _).
  assert (count s' = count s - d + 1) as Hc' by (unfold count, s' in *; simpl; mod256).
  apply list_eq. intros i. rewrite queue_lookup, Hc'. unfold s' at 1 2. simpl.
  rewrite at_index_set by done.
  assert (∀ k, ((head s + d) mod 256 + k) mod 256 = (head s + (d + k)) mod 256) as Hmod by (intros; mod256).
  rewrite Hmod. destruct (decide (Z.of_nat i < count s - d)) as [Hi|Hi].
  - rewrite lookup_app_l by (rewrite length_drop; lia). rewrite lookup_drop, queue_lookup.
    replace (Z.of_nat i <? count s - d + 1) with true by lia.
    assert (Z.of_nat (Z.to_nat d + i)%nat = d + Z.of_nat i) as -> by lia.
    replace (d + Z.of_nat i <? count s) with true by lia.
    rewrite decide_False by (apply before_tail; [done|done|unfold count in Hi; lia]).
    unfold at_index. by rewrite Hmod.
  - rewrite lookup_app_r by (rewrite length_drop; lia). rewrite length_drop.
    destruct (decide (Z.of_nat i = count s - d)) as [Heq|].
    + replace (i - (length (queue s) - Z.to_nat d))%nat with 0%nat by lia. simpl.
      replace (Z.of_nat i <? count s - d + 1) with true by lia.
      rewrite decide_True; [done|]. rewrite Heq. replace (d + (count s - d)) with (count s) by lia.
      by apply at_tail.
    + replace (Z.of_nat i <? count s - d + 1) with false by lia.
      rewrite lookup_ge_None_2; [done|]. simpl. lia.
Qed.

Lemma push_spec s x :
  ring_ok s → ∃ s', Serial.push s x = Ret s' ∧ ring_ok s' ∧ queue s' = bounded_push (queue s) x.
Proof.
  intros Hok. pose proof Hok as [Hl Hh Ht]. unfold Serial.push, SERIAL_INPUT_CAPACITY.
  rewrite (uadd_ok (tail s)), (uadd_ok (head s)) by (unfold usize_max; lia).
  assert (arr_set (buf s) (tail s) x = Some (<[Z.to_nat (tail s) := x]> (buf s))) as ->.
  { unfold arr_set. by replace ((0 <=? tail s) && (tail s <? zlen (buf s))) with true by lia. }
  pose proof (length_queue s) as Hq. unfold zlen in Hq.
  assert (0 ≤ count s < 256) as Hc by (apply Z.mod_pos_bound; lia).
  assert (∀ d, ring_ok (mkSerial (<[Z.to_nat (tail s):=x]> (buf s))
    ((head s + d) mod 256) ((tail s + 1) mod 256))) as Hok'.
  { intros d. split; simpl; [|apply Z.mod_pos_bound; lia..].
    unfold zlen in *. by rewrite length_insert. }
  unfold bounded_push. unfold mbind, outcome_bind, expect. cbv beta iota zeta.
  destruct ((tail s + 1) mod 256 =? head s) eqn:E.
  - eexists. split; [done|].
    split; [apply Hok'|]. assert (count s = 255) by (unfold count in *; mod256).
    rewrite queue_store by (done || lia). by replace (length (queue s) - 254)%nat with 1%nat by lia.
  - assert (count s < 255) by (unfold count in *; mod256).
    pose proof (queue_store s x 0 Hok ltac:(lia) ltac:(lia)) as Hs. specialize (Hok' 0).
    rewrite Z.add_0_r, Z.mod_small in Hs, Hok' by lia.
    eexists. split; [done|]. split; [done|]. rewrite Hs.
    by replace (length (queue s) - 254)%nat with 0%nat by lia.
Qed.

Lemma pop_spec s :
  ring_ok s → ∃ s', ring_ok s' ∧ Serial.pop s = Ret (List.hd_error (queue s), s') ∧
    queue s' = List.tl (queue s).
Proof.
  intros [Hl Hh Ht]. unfold Serial.pop, SERIAL_INPUT_CAPACITY. unfold queue at 1 3.
  destruct (head s =? tail s) eqn:E.
  - exists s. assert (count s = 0) as Hc by (unfold count; mod256). unfold queue. by rewrite Hc.
  - assert (0 < count s < 256) as Hc by (unfold count; mod256). rewrite seqZ_cons by lia. simpl.
    destruct (proj2 (arr_get_is_Some (buf s) (head s))) as [x Hx]; [lia|]. rewrite Hx. simpl.
    rewrite uadd_ok by (unfold usize_max; lia). simpl. eexists. split_and!; [|f_equal; f_equal|].
    + split; simpl; [done|apply Z.mod_pos_bound; lia|done].
    + unfold at_index. rewrite Z.add_0_r, Z.mod_small by done. unfold arr_get in Hx.
      replace ((0 <=? head s) && (head s <? zlen (buf s))) with true in Hx by lia. by rewrite Hx.
    + apply list_eq. intros i. rewrite queue_lookup, list_lookup_fmap. unfold count at 1. simpl.
      assert ((tail s - (head s + 1) mod 256) mod 256 = Z.pred (count s)) as -> by (unfold count in *; mod256).
      destruct (Z.of_nat i <? Z.pred (count s)) eqn:Ei.
      * apply Z.ltb_lt in Ei. rewrite lookup_seqZ_lt by done. simpl.
        unfold at_index. do 4 f_equal. clear. mod256.
      * apply Z.ltb_ge in Ei. rewrite lookup_seqZ_ge by done. done.
Qed.

(** ** Claims *)

Lemma bounded_push_last (q : bytes) x p :
  drop (length (bounded_push q x ++ p) - 255) (bounded_push q x ++ p) =
  drop (length (q ++ x :: p) - 255) (q ++ x :: p).
Proof.
  unfold bounded_push. set (d := (length q - 254)%nat).
  replace (q ++ x :: p) with (take d q ++ (drop d q ++ [x]) ++ p).
  2: { by rewrite <- !app_assoc, (app_assoc (take d q)), take_drop. }
  set (r := (drop d q ++ [x]) ++ p). rewrite length_app.
  assert (length (take d q) = d) as Ht by (rewrite length_take; lia).
  assert (length r = length q - d + 1 + length p)%nat as Hr.
  { unfold r. rewrite !length_app, length_drop. simpl. lia. }
  rewrite drop_app, (drop_ge (take d q)), Ht by (unfold d in *; lia). simpl. f_equal. unfold d in *. lia.
Qed.

(** The ring behaves as a queue that keeps the last 255 bytes: handling a
    receive interrupt never panics and leaves the most recent 255 of the bytes
    queued before and the bytes the UART had; popping returns and removes the
    oldest byte, or reports that there is none. *)
Theorem serial_ring_queue uart s :
  ring_ok s →
  (∃ s', Serial.handle_serial_rx_interrupt uart s = Ret s' ∧ ring_ok s' ∧
    queue s' = drop (length (queue s ++ uart) - 255) (queue s ++ uart)) ∧
  (∃ s', Serial.pop s = Ret (List.hd_error (queue s), s') ∧ ring_ok s' ∧
    queue s' = List.tl (queue s)).
Proof.
  intros Hok. split.
  2: { destruct (pop_spec s Hok) as (s' & ? & ? & ?). eauto. }
  unfold Serial.handle_serial_rx_interrupt. revert s Hok.
  induction uart as [|x uart IH]; intros s Hok; simpl.
  - assert (length (queue s) ≤ 255)%nat as Hlen.
    { pose proof (length_queue s) as Hq. unfold zlen, count in Hq.
      pose proof (Z.mod_pos_bound (tail s - head s) 256). lia. }
    exists s. rewrite app_nil_r. split_and!; [done|done|].
    by replace (length (queue s) - 255)%nat with 0%nat by lia.
  - destruct (push_spec s x Hok) as (s1 & -> & Hok1 & Hq1). simpl.
    destruct (IH s1 Hok1) as (s2 & -> & Hok2 & Hq2).
    exists s2. split_and!; [done|done|]. rewrite Hq2, Hq1. apply bounded_push_last.
Qed.

Lemma serial_ring_queue_witness :
  ring_ok Serial.new ∧
  ∃ s', Serial.handle_serial_rx_interrupt [x61; x62] Serial.new = Ret s' ∧ queue s' = [x61; x62].
Proof.
  assert (ring_ok Serial.new) as Hok by (split; [reflexivity|split; vm_compute; congruence..]).
  split; [exact Hok|].
  destruct (serial_ring_queue [x61; x62] Serial.new Hok) as [(s' & H & _ & Hq) _].
  exists s'. split; [exact H|]. rewrite Hq. reflexivity.
Defined.
