(* ===== verification/Asm.v ===== *)
(** * Assembly routines

    The routines in [global_asm!] blocks: the context switch and the entry to
    user mode ([src/task/proc.rs]), the exception and interrupt stubs
    ([src/trap/idt.rs]) and the system call entry ([src/syscall.rs]), over the
    few x86-64 instructions they use.  Memory is made of aligned 64-bit words.
    Functions they call are parameters that keep the System V convention. *)

From S2P Require Import Prelude.
Local Open Scope Z_scope.

(** ** The machine *)

Inductive reg := rax | rcx | rdx | rbx | rsp | rbp | rsi | rdi | r8 | r9 | r10 | r11 | r12 | r13 | r14 | r15.
#[global] Instance reg_eq_dec : EqDecision reg.
Proof. solve_decision. Defined.

Record machine := mkMachine { R : reg → Z; M : Z → Z }.

Definition W : Z := 2 ^ 64.
Definition set_reg (r : reg) (v : Z) (s : machine) : machine :=
  mkMachine (λ x, if decide (x = r) then v else R s x) (M s).
Definition set_mem (a v : Z) (s : machine) : machine :=
  mkMachine (R s) (λ x, if decide (x = a) then v else M s x).

Inductive instr :=
  | MovReg (d s : reg)               (* mov d, s *)
  | MovImm (d : reg) (i : Z)         (* mov d, imm *)
  | XorSelf (d : reg)                (* xor d, d *)
  | Load (d b : reg) (disp : Z)      (* mov d, [b + disp] *)
  | Store (b : reg) (disp : Z) (s : reg)
  | LoadAt (d : reg) (a : Z)         (* mov d, [rip + symbol] *)
  | StoreAt (a : Z) (s : reg)
  | Lea (d : reg) (a : Z)            (* lea d, [rip + symbol] *)
  | Push (s : reg)
  | Pop (d : reg)
  | AndNeg16 (d : reg)               (* and d, -16 *)
  | SubImm (d : reg) (i : Z)
  | Cld
  | Call (f : machine → machine) (ret : Z)
  | JmpMem (b : reg) (disp : Z)
  | Jmp (a : Z)
  | Ret_
  | Iretq
  | Sysretq.

(** How control leaves a routine. *)
Inductive leave :=
  | ToKernel (rip : Z)
  | ByIret (rip cs rflags rsp ss : Z)
  | BySysret (rip rflags : Z).

(** Word accesses are aligned. *)
Definition load (a : Z) (s : machine) : option Z := if a mod 8 =? 0 then Some (M s a) else None.
Definition store (a v : Z) (s : machine) : option machine := if a mod 8 =? 0 then Some (set_mem a v s) else None.
Definition push (v : Z) (s : machine) : option machine :=
  let sp := (R s rsp - 8) mod W in store sp v (set_reg rsp sp s).
Definition pop (s : machine) : option (Z * machine) :=
  v ← load (R s rsp) s; Some (v, set_reg rsp ((R s rsp + 8) mod W) s).

Fixpoint run (code : list instr) (s : machine) : option (machine * leave) :=
  match code with
  | [] => None
  | i :: code =>
      match i with
      | MovReg d x => run code (set_reg d (R s x) s)
      | MovImm d v => run code (set_reg d v s)
      | XorSelf d => run code (set_reg d 0 s)
      | Load d b disp => v ← load ((R s b + disp) mod W) s; run code (set_reg d v s)
      | Store b disp x => s ← store ((R s b + disp) mod W) (R s x) s; run code s
      | LoadAt d a => v ← load a s; run code (set_reg d v s)
      | StoreAt a x => s ← store a (R s x) s; run code s
      | Lea d a => run code (set_reg d a s)
      | Push x => s ← push (R s x) s; run code s
      | Pop d => '(v, s) ← pop s; run code (set_reg d v s)
      | AndNeg16 d => run code (set_reg d (Z.land (R s d) (W - 16)) s)
      | SubImm d v => run code (set_reg d ((R s d - v) mod W) s)
      | Cld => run code s
      | Call f ret => s ← push ret s; run code (f s)
      | JmpMem b disp => a ← load ((R s b + disp) mod W) s; Some (s, ToKernel a)
      | Jmp a => Some (s, ToKernel a)
      | Ret_ => '(a, s) ← pop s; Some (s, ToKernel a)
      | Iretq =>
          '(rip, s) ← pop s; '(cs, s) ← pop s; '(fl, s) ← pop s; '(sp, s) ← pop s; '(ss, s) ← pop s;
          Some (set_reg rsp sp s, ByIret rip cs fl sp ss)
      | Sysretq => Some (s, BySysret (R s rcx) (R s r11))
      end
  end.

(** ** The routines *)

(** [__switch_context]; [back] is the address of its label [1]. *)
Definition switch_context_asm (back : Z) : list instr :=
  [Store rdi 0 r15; Store rdi 8 r14; Store rdi 16 r13; Store rdi 24 r12; Store rdi 32 rbx; Store rdi 40 rbp;
   Store rdi 48 rsp; Lea rax back; Store rdi 56 rax;
   Load r15 rsi 0; Load r14 rsi 8; Load r13 rsi 16; Load r12 rsi 24; Load rbx rsi 32; Load rbp rsi 40;
   Load rsp rsi 48; JmpMem rsi 56].
Definition switch_context_back : list instr := [Ret_].

Definition enter_user_asm : list instr :=
  MovReg rsp rdi :: map Pop [r15; r14; r13; r12; r11; r10; r9; r8; rdi; rsi; rbp; rdx; rcx; rbx; rax] ++ [Iretq].

Definition EXCEPTION_NO_ERROR (handler vector : Z) : list instr :=
  [Cld; MovImm rdi vector; XorSelf rsi; Load rdx rsp 0; AndNeg16 rsp; SubImm rsp 8; Jmp handler].
Definition EXCEPTION_WITH_ERROR (handler vector : Z) : list instr :=
  [Cld; MovImm rdi vector; Load rsi rsp 0; Load rdx rsp 8; AndNeg16 rsp; SubImm rsp 8; Jmp handler].

(** The vectors the file instantiates the second macro for. *)
Definition stub_with_error (vector : Z) : bool :=
  match vector with 8 | 10 | 11 | 12 | 13 | 14 | 17 | 21 | 29 | 30 => true | _ => false end.
Definition exception_stub (handler vector : Z) : list instr :=
  if stub_with_error vector then EXCEPTION_WITH_ERROR handler vector else EXCEPTION_NO_ERROR handler vector.

Definition irq_saved : list reg := [rax; rcx; rdx; rbx; rbp; rsi; rdi; r8; r9; r10; r11; r12; r13; r14; r15].
Definition IRQ_STUB (irq_handler : machine → machine) (ret vector : Z) : list instr :=
  Cld :: map Push irq_saved ++
  [MovReg rbx rsp; AndNeg16 rsp; MovImm rdi vector; Call irq_handler ret; MovReg rsp rbx] ++
  map Pop [r15; r14; r13; r12; r11; r10; r9; r8; rdi; rsi; rbp; rbx; rdx; rcx; rax] ++ [Iretq].

Definition SYSCALL_STACK_SIZE : Z := 16 * 1024.
Definition syscall_entry_asm (user_rsp stack : Z) (dispatch : machine → machine) (ret : Z) : list instr :=
  [StoreAt user_rsp rsp; Lea rsp (stack + 16384)] ++
  map Push [r11; rcx; rbx; rbp; r12; r13; r14; r15] ++
  [MovReg rbx rdi; MovReg rdi rax; MovReg rax rsi; MovReg rsi rbx; MovReg rbx rdx; MovReg rdx rax; MovReg rcx rbx;
   MovReg r9 r8; MovReg r8 r10; Call dispatch ret] ++
  map Pop [r15; r14; r13; r12; rbp; rbx; rcx; r11] ++
  [LoadAt rsp user_rsp; Sysretq].

(** ** Pushes and pops *)

(** What a run of pushes leaves: the registers below the old stack pointer,
    the first one highest. *)
Record pushed (rs : list reg) (s s' : machine) : Prop := {
  ps_rsp : R s' rsp = R s rsp - 8 * Z.of_nat (length rs);
  ps_regs : ∀ r, r ≠ rsp → R s' r = R s r;
  ps_saved : ∀ i r, rs !! i = Some r → M s' (R s rsp - 8 * (Z.of_nat i + 1)) = R s r;
  ps_above : ∀ a, R s rsp ≤ a → M s' a = M s a;
  ps_below : ∀ a, a < R s rsp - 8 * Z.of_nat (length rs) → M s' a = M s a;
}.

Lemma set_reg_eq r v s : R (set_reg r v s) r = v.
Proof. cbn. by rewrite decide_True. Qed.
Lemma set_reg_ne r r' v s : r' ≠ r → R (set_reg r v s) r' = R s r'.
Proof. intros H. cbn. by rewrite decide_False. Qed.

Lemma mod8_add a k : a mod 8 = 0 → (a + 8 * k) mod 8 = 0.
Proof. intros H. by rewrite Z.mul_comm, Z.mod_add. Qed.
Lemma mod8_sub a k : a mod 8 = 0 → (a - 8 * k) mod 8 = 0.
Proof. intros H. replace (a - 8 * k) with (a + 8 * - k) by lia. by apply mod8_add. Qed.

Lemma run_pushes rs k s :
  rsp ∉ rs → R s rsp mod 8 = 0 → 8 * Z.of_nat (length rs) ≤ R s rsp < W →
  ∃ s', run (map Push rs ++ k) s = run k s' ∧ pushed rs s s'.
Proof.
  revert s. induction rs as [|r rs IH]; intros s Hrs Hal Hle.
  - exists s. split; [done|]. split; [cbn; lia|done|done|done|done].
  - apply not_elem_of_cons in Hrs as [Hr Hrs]. cbn [length] in Hle. set (sp := R s rsp - 8).
    set (s1 := set_mem sp (R s r) (set_reg rsp sp s)).
    assert (R s1 rsp = sp) as E1 by (cbn; by rewrite decide_True).
    assert (∀ x, x ≠ rsp → R s1 x = R s x) as E2 by (intros x Hx; cbn; by rewrite decide_False).
    assert (sp mod 8 = 0) as Hal1 by (apply (mod8_sub _ 1 Hal)).
    destruct (IH s1) as (s' & Hrun & [P1 P2 P3 P4 P5]); [done|by rewrite E1|rewrite E1; unfold sp; lia|].
    rewrite E1 in *. exists s'. split; [|split].
    + cbn [map app run]. unfold push. rewrite (Z.mod_small (R s rsp - 8)) by lia. unfold store. fold sp. rewrite Hal1. cbn [Z.eqb]. exact Hrun.
    + rewrite P1. unfold sp. cbn [length]. lia.
    + intros x Hx. by rewrite P2, E2.
    + intros [|i] x Hx.
      * injection Hx as ->. rewrite P4 by (unfold sp; lia). unfold s1. cbn. rewrite decide_True by (unfold sp; lia). done.
      * simpl in Hx. specialize (P3 i x Hx). rewrite <- (E2 x) by (intros ->; apply Hrs; by eapply list_elem_of_lookup_2).
        rewrite <- P3. f_equal. unfold sp. lia.
    + intros a Ha. rewrite P4 by (unfold sp; lia). unfold s1. cbn. rewrite decide_False by (unfold sp; lia). done.
    + intros a Ha. cbn [length] in Ha. rewrite P5 by (unfold sp; lia). unfold s1. cbn. rewrite decide_False by (unfold sp; lia). done.
Qed.

Record popped (rs : list reg) (s s' : machine) : Prop := {
  pp_rsp : R s' rsp = R s rsp + 8 * Z.of_nat (length rs);
  pp_regs : ∀ i r, rs !! i = Some r → R s' r = M s (R s rsp + 8 * Z.of_nat i);
  pp_other : ∀ r, r ≠ rsp → r ∉ rs → R s' r = R s r;
  pp_mem : M s' = M s;
}.

Lemma run_pops rs k s :
  NoDup rs → rsp ∉ rs → R s rsp mod 8 = 0 → 0 ≤ R s rsp → R s rsp + 8 * Z.of_nat (length rs) < W →
  ∃ s', run (map Pop rs ++ k) s = run k s' ∧ popped rs s s'.
Proof.
  revert s. induction rs as [|r rs IH]; intros s Hnd Hrs Hal H0 Hle.
  - exists s. split; [done|]. split; [cbn; lia|done|done|done].
  - apply not_elem_of_cons in Hrs as [Hr Hrs]. apply NoDup_cons in Hnd as [Hrr Hnd]. cbn [length] in Hle. set (sp := R s rsp + 8).
    set (s1 := set_reg r (M s (R s rsp)) (set_reg rsp sp s)).
    assert (R s1 rsp = sp) as E1 by (unfold s1; rewrite set_reg_ne by done; apply set_reg_eq).
    assert (R s1 r = M s (R s rsp)) as E3 by apply set_reg_eq.
    assert (∀ x, x ≠ rsp → x ≠ r → R s1 x = R s x) as E2 by (intros x H1 H2; unfold s1; by rewrite !set_reg_ne).
    assert (sp mod 8 = 0) as Hal1 by (apply (mod8_add _ 1 Hal)).
    destruct (IH s1) as (s' & Hrun & [P1 P2 P3 P4]); [done|done|by rewrite E1|rewrite E1; unfold sp; lia|rewrite E1; unfold sp; lia|].
    rewrite E1 in *. exists s'. split; [|split].
    + cbn [map app run]. unfold pop, load. rewrite Hal. cbn [Z.eqb mbind option_bind]. rewrite Z.mod_small by lia. exact Hrun.
    + rewrite P1. unfold sp. cbn [length]. lia.
    + intros [|i] x Hx.
      * injection Hx as ->. rewrite P3 by done. rewrite E3. f_equal. lia.
      * simpl in Hx. rewrite (P2 i x Hx). unfold sp. change (M s1) with (M s). f_equal. lia.
    + intros x H1 H2. apply not_elem_of_cons in H2 as [H2 H3]. by rewrite P3, E2.
    + by rewrite P4.
Qed.
