(* ===== verification/AsmCorrect.v ===== *)
(** * Correctness of the assembly routines *)

From S2P Require Import Prelude Bytes Links Buddy BuddyCorrect Address Paging PagingCorrect ProcLayout Elf Proc Machine Asm.
Local Open Scope Z_scope.

(** ** The calling convention *)

Definition callee_saved : list reg := [rbx; rbp; r12; r13; r14; r15].

(** A function returns with the return address popped, the callee-saved
    registers unchanged, and its caller's part of the stack, up to [top],
    unchanged.  Anything else may be different. *)
Definition sysv (top : Z) (f : machine → machine) : Prop := ∀ s,
  R (f s) rsp = R s rsp + 8 ∧ (∀ r, r ∈ callee_saved → R (f s) r = R s r) ∧
  (∀ a, R s rsp < a < top → M (f s) a = M s a).

(** Functions expect the stack pointer 8 off a multiple of 16. *)
Definition abi_aligned (s : machine) : Prop := R s rsp mod 16 = 8.

Lemma and_neg16 x : 0 ≤ x < W → Z.land x (W - 16) = x - x mod 16.
Proof. intros Hx. change (W - 16) with (not64 (2 ^ 4 - 1)). rewrite land_align; [done|unfold W, usize_max in *; lia|lia]. Qed.

Lemma mod16_8 x : x mod 8 = 0 → (x - x mod 16) mod 8 = 0.
Proof. intros H. pose proof (Z.div_mod x 16 ltac:(lia)). replace (x - x mod 16) with (8 * (2 * (x / 16))) by lia. by rewrite Z.mul_comm, Z.mod_mul. Qed.
Lemma mod16_call x : (x - x mod 16 - 8) mod 16 = 8.
Proof. pose proof (Z.div_mod x 16 ltac:(lia)). replace (x - x mod 16 - 8) with (8 + (x / 16 - 1) * 16) by lia. by rewrite Z.mod_add. Qed.

Lemma run_MovReg d x k s : run (MovReg d x :: k) s = run k (set_reg d (R s x) s).
Proof. done. Qed.
Lemma run_MovImm d v k s : run (MovImm d v :: k) s = run k (set_reg d v s).
Proof. done. Qed.
Lemma run_AndNeg16 d k s : run (AndNeg16 d :: k) s = run k (set_reg d (Z.land (R s d) (W - 16)) s).
Proof. done. Qed.
Lemma run_Lea d a k s : run (Lea d a :: k) s = run k (set_reg d a s).
Proof. done. Qed.

Lemma run_Load d b disp k s :
  (R s b + disp) mod 8 = 0 → 0 ≤ R s b + disp < W → run (Load d b disp :: k) s = run k (set_reg d (M s (R s b + disp)) s).
Proof. intros Hal Hr. cbn [run]. unfold load. rewrite (Z.mod_small (R s b + disp) W) by done. by rewrite Hal. Qed.
Lemma run_LoadAt d a k s : a mod 8 = 0 → run (LoadAt d a :: k) s = run k (set_reg d (M s a) s).
Proof. intros Hal. cbn [run]. unfold load. by rewrite Hal. Qed.
Lemma run_StoreAt a x k s : a mod 8 = 0 → run (StoreAt a x :: k) s = run k (set_mem a (R s x) s).
Proof. intros Hal. cbn [run]. unfold store. by rewrite Hal. Qed.

Lemma run_call f ret k s :
  R s rsp mod 8 = 0 → 8 ≤ R s rsp < W →
  run (Call f ret :: k) s = run k (f (set_mem (R s rsp - 8) ret (set_reg rsp (R s rsp - 8) s))).
Proof.
  intros Hal Hle. cbn [run]. unfold push, store. rewrite (Z.mod_small (R s rsp - 8)) by lia.
  pose proof (mod8_sub _ 1 Hal) as E. rewrite Z.mul_1_r in E. by rewrite E.
Qed.

Lemma run_iret s :
  R s rsp mod 8 = 0 → 0 ≤ R s rsp → R s rsp + 40 < W →
  ∃ s', run [Iretq] s = Some (s', ByIret (M s (R s rsp)) (M s (R s rsp + 8)) (M s (R s rsp + 16)) (M s (R s rsp + 24)) (M s (R s rsp + 32))) ∧
    (∀ r, r ≠ rsp → R s' r = R s r) ∧ R s' rsp = M s (R s rsp + 24) ∧ M s' = M s.
Proof.
  intros Hal H0 H1. set (sp := R s rsp) in *.
  assert (∀ k, (sp + 8 * k) mod 8 =? 0 = true) as Hk by (intros k; apply Z.eqb_eq; by apply mod8_add).
  assert (∀ k t, 0 ≤ k ≤ 4 → R t rsp = sp + 8 * k → M t = M s →
    pop t = Some (M s (sp + 8 * k), set_reg rsp (sp + 8 * (k + 1)) t)) as Hpop.
  { intros k t Hr Et Em. unfold pop, load. rewrite Et, Hk, Em. cbn [mbind option_bind]. rewrite Z.mod_small by lia. do 3 f_equal. lia. }
  cbn [run]. rewrite (Hpop 0 s) by (done || lia). cbn [mbind option_bind].
  rewrite (Hpop 1) by (done || lia). cbn [mbind option_bind]. rewrite (Hpop 2) by (done || lia). cbn [mbind option_bind].
  rewrite (Hpop 3) by (done || lia). cbn [mbind option_bind]. rewrite (Hpop 4) by (done || lia). cbn [mbind option_bind].
  rewrite Z.mul_0_r, Z.add_0_r. eexists. split; [reflexivity|]. split_and!; [|by rewrite set_reg_eq|done].
  intros r Hr. by rewrite !set_reg_ne.
Qed.

(** What was pushed and is untouched comes back. *)
Lemma push_pop_restores rs s s1 s2 s3 :
  pushed rs s s1 → R s2 rsp = R s1 rsp → (∀ a, R s1 rsp ≤ a < R s rsp → M s2 a = M s1 a) → popped (reverse rs) s2 s3 →
  R s3 rsp = R s rsp ∧ ∀ r, r ∈ rs → R s3 r = R s r.
Proof.
  intros [P1 _ P3 _ _] Esp Hkeep [Q1 Q2 _ _]. rewrite length_reverse in Q1. rewrite Esp, P1 in *. split; [lia|].
  intros r [i Hi]%list_elem_of_lookup. apply lookup_lt_Some in Hi as Hlt.
  assert (reverse rs !! (length rs - 1 - i)%nat = Some r) as Hrev.
  { apply reverse_lookup_Some. split; [|lia]. rewrite <- Hi. f_equal. lia. }
  rewrite (Q2 _ _ Hrev), Hkeep by lia. rewrite <- (P3 i r Hi). f_equal. lia.
Qed.

(** ** Interrupts *)

Lemma irq_restored : map Pop [r15; r14; r13; r12; r11; r10; r9; r8; rdi; rsi; rbp; rbx; rdx; rcx; rax] = map Pop (reverse irq_saved).
Proof. reflexivity. Qed.
Lemma irq_saved_nodup : NoDup irq_saved ∧ rsp ∉ irq_saved.
Proof. split; [|unfold irq_saved; set_solver]. apply (bool_decide_unpack _). by vm_compute. Qed.
Lemma irq_saved_all r : r ≠ rsp → r ∈ irq_saved.
Proof. unfold irq_saved. destruct r; set_solver. Qed.

(** C35: an interrupt is transparent.  Whatever a handler that keeps the
    calling convention does, the stub returns with [iretq] to exactly the
    interrupted [rip], [cs], flags, stack pointer and [ss], with all fifteen
    general registers as they were; the handler gets the vector as its
    argument and an aligned stack, and nothing of the interrupted stack
    changes. *)
Theorem irq_stub_transparent h ret vector top s :
  sysv top h → R s rsp mod 8 = 0 → 144 ≤ R s rsp → R s rsp + 40 < top → top ≤ W →
  let sp := R s rsp in
  ∃ entry s', run (IRQ_STUB h ret vector) s =
      Some (s', ByIret (M s sp) (M s (sp + 8)) (M s (sp + 16)) (M s (sp + 24)) (M s (sp + 32))) ∧
    (∀ r, r ≠ rsp → R s' r = R s r) ∧ R s' rsp = M s (sp + 24) ∧
    M s' = M (h entry) ∧ R entry rdi = vector ∧ abi_aligned entry ∧ (∀ a, sp ≤ a < top → M s' a = M s a).
Proof.
  intros Habi Hal Hlo Htop HW sp. destruct irq_saved_nodup as [Hnd Hnr].
  unfold IRQ_STUB. rewrite irq_restored. cbn [run app].
  destruct (run_pushes irq_saved (MovReg rbx rsp :: AndNeg16 rsp :: MovImm rdi vector :: Call h ret :: MovReg rsp rbx ::
    map Pop (reverse irq_saved) ++ [Iretq]) s Hnr Hal) as (s1 & -> & Hpushed); [change (length irq_saved) with 15%nat; lia|].
  pose proof Hpushed as [P1 _ _ P4 _]. fold sp in P1, P4, Hal, Hlo, Htop. change (8 * Z.of_nat (length irq_saved)) with 120 in P1.
  set (sp1 := sp - 120) in *. assert (sp1 mod 8 = 0) as Hal1 by (apply (mod8_sub _ 15 Hal)).
  set (s4 := set_reg rdi vector (set_reg rsp (sp1 - sp1 mod 16) (set_reg rbx sp1 s1))).
  assert (0 ≤ sp1 mod 16 < 16) as Hm by (apply Z.mod_pos_bound; lia).
  rewrite run_MovReg, P1, run_AndNeg16, (set_reg_ne rbx rsp), P1, and_neg16, run_MovImm by (done || unfold sp1; lia). fold s4.
  assert (R s4 rsp = sp1 - sp1 mod 16) as E4 by done.
  rewrite (run_call h ret _ s4); [|rewrite E4; by apply mod16_8|rewrite E4; unfold sp1 in *; lia].
  rewrite E4. set (entry := set_mem _ ret _). assert (R entry rsp = sp1 - sp1 mod 16 - 8) as Een by done. destruct (Habi entry) as (Hrsp & Hcs & Hmem).
  assert (R (h entry) rbx = sp1) as Erbx by (rewrite Hcs; [done|by left]).
  rewrite run_MovReg, Erbx. set (s7 := set_reg rsp sp1 (h entry)).
  assert (∀ a, sp1 ≤ a < top → M s7 a = M s1 a) as Hkeep.
  { intros a Ha. change (M s7 a) with (M (h entry) a). rewrite Hmem by (rewrite Een; lia).
    unfold entry. cbn [M set_mem set_reg]. rewrite decide_False by lia. done. }
  destruct (run_pops (reverse irq_saved) [Iretq] s7) as (s8 & -> & Hpopped).
  { by rewrite reverse_Permutation. }
  { by rewrite reverse_Permutation. }
  { exact Hal1. }
  { change (R s7 rsp) with sp1. unfold sp1. lia. }
  { change (R s7 rsp) with sp1. rewrite length_reverse. change (length irq_saved) with 15%nat. unfold sp1. lia. }
  destruct (push_pop_restores irq_saved s s1 s7 s8 Hpushed) as [E8 Hback]; [by rewrite P1|rewrite P1; intros a Ha; apply Hkeep; fold sp in Ha; lia|done|].
  fold sp in E8. pose proof (pp_mem _ _ _ Hpopped) as Q4.
  destruct (run_iret s8) as (s' & Hrun & I1 & I2 & I3); [by rewrite E8|rewrite E8; lia|rewrite E8; lia|].
  assert (∀ a, sp ≤ a < top → M s8 a = M s a) as Hold.
  { intros a Ha. rewrite Q4, Hkeep by (unfold sp1; lia). apply P4. lia. }
  rewrite E8 in *. rewrite !Hold in Hrun by lia. rewrite Hold in I2 by lia.
  exists entry, s'. split_and!; [exact Hrun| |done|by rewrite I3, Q4|done| |].
  - intros r Hr. rewrite I1 by done. by apply Hback, irq_saved_all.
  - unfold abi_aligned. rewrite Een. apply mod16_call.
  - intros a Ha. rewrite I3. by apply Hold.
Qed.

(** ** Entering user mode *)

Definition enter_user_regs : list reg := [r15; r14; r13; r12; r11; r10; r9; r8; rdi; rsi; rbp; rdx; rcx; rbx; rax].

(** [__enter_user] gives the processor exactly the contents of the trap
    frame: every general register its field, and [iretq] the frame's [rip],
    [cs], flags, stack pointer and [ss], in the order of the struct. *)
Theorem enter_user_loads_frame t s :
  R s rdi mod 8 = 0 → 0 ≤ R s rdi → R s rdi + TRAP_FRAME_SIZE < W →
  (∀ i w, tf_words t !! i = Some w → M s (R s rdi + 8 * Z.of_nat i) = w) →
  ∃ s', run enter_user_asm s = Some (s', ByIret (t_rip t) (t_cs t) (t_rflags t) (t_rsp t) (t_ss t)) ∧
    R s' <$> enter_user_regs = take 15 (tf_words t) ∧ R s' rsp = t_rsp t ∧ M s' = M s.
Proof.
  unfold TRAP_FRAME_SIZE. intros Hal H0 HW Hm. unfold enter_user_asm. rewrite run_MovReg. set (s1 := set_reg rsp (R s rdi) s).
  assert (R s1 rsp = R s rdi) as Es by done. assert (M s1 = M s) as Em by done. clearbody s1. rewrite <- Es, <- Em in *. clear Es Em.
  destruct (run_pops enter_user_regs [Iretq] s1) as (s2 & Hpop & [Q1 Q2 _ Q4]);
    [apply (bool_decide_unpack _); by vm_compute|unfold enter_user_regs; set_solver|done|done|change (length enter_user_regs) with 15%nat; lia|].
  unfold enter_user_regs in Hpop. rewrite Hpop. change (length enter_user_regs) with 15%nat in Q1. change (8 * Z.of_nat 15) with 120 in Q1.
  destruct (run_iret s2) as (s' & Hrun & I1 & I2 & I3); [rewrite Q1; by apply (mod8_add _ 15)|rewrite Q1; lia..|].
  exists s'. rewrite Hrun, Q4, Q1, <- !Z.add_assoc. rewrite Q4, Q1, <- Z.add_assoc in I2.
  assert (∀ i w, tf_words t !! i = Some w → M s1 (R s1 rsp + 8 * Z.of_nat i) = w) as Hm' by done.
  pose proof (Hm' 15%nat _ eq_refl) as E15. pose proof (Hm' 16%nat _ eq_refl) as E16. pose proof (Hm' 17%nat _ eq_refl) as E17.
  pose proof (Hm' 18%nat _ eq_refl) as E18. pose proof (Hm' 19%nat _ eq_refl) as E19.
  change (8 * Z.of_nat 15) with 120 in E15. change (8 * Z.of_nat 16) with (120 + 8) in E16. change (8 * Z.of_nat 17) with (120 + 16) in E17.
  change (8 * Z.of_nat 18) with (120 + 24) in E18. change (8 * Z.of_nat 19) with (120 + 32) in E19.
  split_and!; [by rewrite E15, E16, E17, E18, E19| |by rewrite I2, E18|by rewrite I3, Q4].
  apply list_eq. intros i. rewrite list_lookup_fmap. destruct (enter_user_regs !! i) as [r|] eqn:Er.
  - assert (i < 15)%nat as Hi by (by apply lookup_lt_Some in Er). assert (r ≠ rsp) as Hr.
    { intros ->. assert (rsp ∈ enter_user_regs) as Hin by (by eapply list_elem_of_lookup_2). unfold enter_user_regs in Hin. set_solver. }
    rewrite lookup_take_lt by done. cbn [fmap option_fmap option_map]. rewrite (I1 r Hr), (Q2 i r Er).
    destruct (lookup_lt_is_Some_2 (tf_words t) i) as [w Hw]; [cbn; lia|]. by rewrite Hw, (Hm' i w Hw).
  - symmetry. apply lookup_ge_None. apply lookup_ge_None in Er. rewrite length_take. exact Er || (cbn in *; lia).
Qed.

(** ** Switching contexts *)

Fixpoint store_seq (b : reg) (d : Z) (rs : list reg) : list instr :=
  match rs with [] => [] | r :: rs => Store b d r :: store_seq b (d + 8) rs end.
Fixpoint load_seq (b : reg) (d : Z) (rs : list reg) : list instr :=
  match rs with [] => [] | r :: rs => Load r b d :: load_seq b (d + 8) rs end.

Lemma run_stores b rs d k s :
  (R s b + d) mod 8 = 0 → 0 ≤ R s b + d → R s b + d + 8 * Z.of_nat (length rs) ≤ W →
  ∃ s', run (store_seq b d rs ++ k) s = run k s' ∧ R s' = R s ∧
    (∀ i r, rs !! i = Some r → M s' (R s b + d + 8 * Z.of_nat i) = R s r) ∧
    (∀ a, ¬ (R s b + d ≤ a < R s b + d + 8 * Z.of_nat (length rs)) → M s' a = M s a).
Proof.
  revert d s. induction rs as [|r rs IH]; intros d s Hal H0 HW; [exists s; split_and!; done|].
  cbn [length store_seq app run] in *. unfold store. rewrite (Z.mod_small (R s b + d) W) by lia. rewrite Hal. cbn [Z.eqb mbind option_bind].
  set (s1 := set_mem (R s b + d) (R s r) s). destruct (IH (d + 8) s1) as (s' & -> & E1 & E2 & E3).
  { rewrite Z.add_assoc. by apply (mod8_add _ 1). }
  { change (R s1) with (R s). lia. }
  { change (R s1) with (R s). lia. }
  change (R s1) with (R s) in *. exists s'. split_and!; [done|done| |].
  - intros [|i] x Hx.
    + injection Hx as ->. rewrite E3 by lia. unfold s1. cbn. rewrite decide_True by lia. done.
    + simpl in Hx. rewrite <- (E2 i x Hx). f_equal. lia.
  - intros a Ha. rewrite E3 by lia. unfold s1. cbn. rewrite decide_False by lia. done.
Qed.

Lemma run_loads b rs d k s :
  b ∉ rs → NoDup rs → (R s b + d) mod 8 = 0 → 0 ≤ R s b + d → R s b + d + 8 * Z.of_nat (length rs) ≤ W →
  ∃ s', run (load_seq b d rs ++ k) s = run k s' ∧ M s' = M s ∧
    (∀ i r, rs !! i = Some r → R s' r = M s (R s b + d + 8 * Z.of_nat i)) ∧ (∀ r, r ∉ rs → R s' r = R s r).
Proof.
  revert d s. induction rs as [|r rs IH]; intros d s Hb Hnd Hal H0 HW; [exists s; split_and!; done|].
  apply not_elem_of_cons in Hb as [Hbr Hb]. apply NoDup_cons in Hnd as [Hr Hnd].
  cbn [length load_seq app run] in *. unfold load. rewrite (Z.mod_small (R s b + d) W) by lia. rewrite Hal. cbn [Z.eqb mbind option_bind].
  set (s1 := set_reg r (M s (R s b + d)) s). assert (R s1 b = R s b) as Eb by (by apply set_reg_ne).
  destruct (IH (d + 8) s1) as (s' & -> & E1 & E2 & E3); [done|done|rewrite Eb, Z.add_assoc; by apply (mod8_add _ 1)|rewrite Eb; lia..|].
  rewrite Eb in *. exists s'. split_and!; [done|done| |].
  - intros [|i] x Hx.
    + injection Hx as ->. rewrite E3 by done. unfold s1. rewrite set_reg_eq. f_equal. lia.
    + simpl in Hx. rewrite (E2 i x Hx). f_equal. lia.
  - intros x [Hxr Hx]%not_elem_of_cons. rewrite E3 by done. by apply set_reg_ne.
Qed.

(** A context in memory, and in the registers. *)
Definition ctx_words (c : Context) : list Z :=
  [c_r15 c; c_r14 c; c_r13 c; c_r12 c; c_rbx c; c_rbp c; c_rsp c; c_rip c].
Definition context_of (s : machine) (rip : Z) : Context :=
  mkContext (R s r15) (R s r14) (R s r13) (R s r12) (R s rbx) (R s rbp) (R s rsp) rip.
Definition holds_context (s : machine) (a : Z) (c : Context) : Prop :=
  ∀ i w, ctx_words c !! i = Some w → M s (a + 8 * Z.of_nat i) = w.
Definition context_room (a : Z) : Prop := a mod 8 = 0 ∧ 0 ≤ a ∧ a + 64 ≤ W.

Lemma switch_code back :
  switch_context_asm back = store_seq rdi 0 [r15; r14; r13; r12; rbx; rbp; rsp] ++ Lea rax back :: store_seq rdi 56 [rax] ++
    load_seq rsi 0 [r15; r14; r13; r12; rbx; rbp; rsp] ++ [JmpMem rsi 56].
Proof. reflexivity. Qed.

Lemma switch_context_spec back next s :
  context_room (R s rdi) → context_room (R s rsi) → R s rdi + 64 ≤ R s rsi ∨ R s rsi + 64 ≤ R s rdi →
  holds_context s (R s rsi) next →
  ∃ s', run (switch_context_asm back) s = Some (s', ToKernel (c_rip next)) ∧
    context_of s' (c_rip next) = next ∧ holds_context s' (R s rdi) (context_of s back) ∧
    (∀ a, ¬ (R s rdi ≤ a < R s rdi + 64) → M s' a = M s a).
Proof.
  intros (D1 & D2 & D3) (S1 & S2 & S3) Hdis Hn. rewrite switch_code.
  destruct (run_stores rdi [r15; r14; r13; r12; rbx; rbp; rsp] 0 (Lea rax back :: store_seq rdi 56 [rax] ++
    load_seq rsi 0 [r15; r14; r13; r12; rbx; rbp; rsp] ++ [JmpMem rsi 56]) s) as (s1 & -> & A1 & A2 & A3);
    [by rewrite Z.add_0_r|lia|cbn [length]; lia|]. rewrite Z.add_0_r in *. cbn [length] in A3.
  rewrite run_Lea. set (s2 := set_reg rax back s1). assert (∀ r, r ≠ rax → R s2 r = R s r) as E2.
  { intros r Hr. unfold s2. rewrite set_reg_ne by done. by rewrite A1. }
  destruct (run_stores rdi [rax] 56 (load_seq rsi 0 [r15; r14; r13; r12; rbx; rbp; rsp] ++ [JmpMem rsi 56]) s2) as (s3 & -> & B1 & B2 & B3);
    [rewrite E2 by done; by apply (mod8_add _ 7)|rewrite E2 by done; lia|rewrite E2 by done; cbn [length]; lia|].
  rewrite E2 in B2, B3 by done. cbn [length] in B3. change (M s2) with (M s1) in B3.
  assert (∀ a, ¬ (R s rdi ≤ a < R s rdi + 64) → M s3 a = M s a) as Hother.
  { intros a Ha. rewrite B3 by lia. apply A3. lia. }
  assert (∀ r, r ≠ rax → R s3 r = R s r) as E3 by (intros r Hr; rewrite B1; by apply E2).
  destruct (run_loads rsi [r15; r14; r13; r12; rbx; rbp; rsp] 0 [JmpMem rsi 56] s3) as (s4 & -> & C1 & C2 & C3);
    [set_solver|apply (bool_decide_unpack _); by vm_compute|rewrite E3, Z.add_0_r by done; done|rewrite E3 by done; lia|rewrite E3 by done; cbn [length]; lia|].
  rewrite E3, Z.add_0_r in C2 by done. assert (R s4 rsi = R s rsi) as Ersi by (rewrite C3, E3; [done|done|set_solver]).
  assert (∀ i w, ctx_words next !! i = Some w → M s3 (R s rsi + 8 * Z.of_nat i) = w) as Hnext.
  { intros i w Hw. rewrite Hother; [by apply Hn|]. apply lookup_lt_Some in Hw. cbn in Hw. lia. }
  exists s4. split_and!.
  - cbn [run]. rewrite Ersi, Z.mod_small by lia. unfold load. rewrite C1. pose proof (mod8_add _ 7 S1) as E. change (8 * 7) with 56 in E.
    rewrite E. cbn [Z.eqb mbind option_bind]. pose proof (Hnext 7%nat _ eq_refl) as E7. change (8 * Z.of_nat 7) with 56 in E7. by rewrite E7.
  - unfold context_of. rewrite (C2 0%nat r15), (C2 1%nat r14), (C2 2%nat r13), (C2 3%nat r12), (C2 4%nat rbx), (C2 5%nat rbp), (C2 6%nat rsp) by done.
    rewrite (Hnext 0%nat (c_r15 next)), (Hnext 1%nat (c_r14 next)), (Hnext 2%nat (c_r13 next)), (Hnext 3%nat (c_r12 next)),
      (Hnext 4%nat (c_rbx next)), (Hnext 5%nat (c_rbp next)), (Hnext 6%nat (c_rsp next)) by done. by destruct next.
  - intros i w Hw. rewrite C1. destruct (decide (i = 7%nat)) as [->|Hi].
    + injection Hw as <-. specialize (B2 0%nat rax eq_refl). transitivity (R s2 rax); [|apply set_reg_eq]. rewrite <- B2. f_equal. lia.
    + rewrite B3 by (apply lookup_lt_Some in Hw; cbn in Hw; lia). apply lookup_lt_Some in Hw as Hlt. cbn in Hlt.
      assert (i = 0 ∨ i = 1 ∨ i = 2 ∨ i = 3 ∨ i = 4 ∨ i = 5 ∨ i = 6)%nat as Hcases by lia.
      destruct Hcases as [->|[->|[->|[->|[->|[->| ->]]]]]]; injection Hw as <-; by apply A2.
  - intros a Ha. rewrite C1. by apply Hother.
Qed.

(** C36: [__switch_context] refines the model's [switch_context].  With the
    control blocks' contexts in memory at disjoint places and the registers
    of the running process in the machine, the routine leaves the machine
    with the registers of the next process, jumps to its saved [rip], and
    memory again holds the context of every control block. *)
Theorem switch_context_refines {B} `{FrameSource B} (A : addresses) (st st' : tasks (B := B)) (addr : nat → Z) old next s :
  old ≠ next → is_Some (procs st !! old) → switch_context A old next st = Ret st' →
  (∀ r, (r < length (procs st))%nat → context_room (addr r)) →
  (∀ r k, (r < length (procs st))%nat → (k < length (procs st))%nat → r ≠ k → addr r + 64 ≤ addr k ∨ addr k + 64 ≤ addr r) →
  R s rdi = addr old → R s rsi = addr next → context_of s (c_rip (cpu st)) = cpu st →
  (∀ r p, procs st !! r = Some p → holds_context s (addr r) (context p)) →
  ∃ s', run (switch_context_asm (switch_return A)) s = Some (s', ToKernel (c_rip (cpu st'))) ∧
    context_of s' (c_rip (cpu st')) = cpu st' ∧
    (∀ r p, procs st' !! r = Some p → holds_context s' (addr r) (context p)).
Proof.
  intros Hne [po Hpo] Hsw Hroom Hdis Edi Esi Hcpu Hmem. unfold switch_context in Hsw. cbn [procs upd_proc with_procs] in Hsw.
  rewrite list_lookup_alter_ne in Hsw by done. destruct (procs st !! next) as [pn|] eqn:Hpn; [|done].
  cbn [expect] in Hsw. rewrite Ret_bind in Hsw. injection Hsw as <-. cbn [cpu with_cpu procs].
  destruct (switch_context_spec (switch_return A) (context pn) s) as (s' & Hrun & Hregs & Hold & Hother);
    [rewrite Edi; by eapply Hroom, lookup_lt_Some|rewrite Esi; by eapply Hroom, lookup_lt_Some
    |rewrite Edi, Esi; apply Hdis; [by eapply lookup_lt_Some..|done]|rewrite Esi; by apply Hmem|].
  exists s'. split_and!; [done|done|]. intros r p Hp. cbn in Hp. destruct (decide (r = old)) as [->|Hr].
  - rewrite list_lookup_alter_eq, Hpo in Hp. injection Hp as <-. cbn [context set_context]. rewrite <- Hcpu. rewrite Edi in Hold. exact Hold.
  - rewrite list_lookup_alter_ne in Hp by done. intros i w Hw. rewrite Hother; [by apply (Hmem r p Hp)|].
    apply lookup_lt_Some in Hw. cbn in Hw. rewrite Edi.
    destruct (Hdis r old); [by eapply lookup_lt_Some..|done|lia|lia].
Qed.

(** A process that is switched away returns from [__switch_context] when
    another switches back to it, if its saved context and the return address
    on its stack are untouched: behind the call, with all callee-saved
    registers and the stack pointer as they were. *)
Theorem switch_context_returns back next s s1 t :
  context_room (R s rdi) → context_room (R s rsi) → R s rdi + 64 ≤ R s rsi ∨ R s rsi + 64 ≤ R s rdi → holds_context s (R s rsi) next →
  run (switch_context_asm back) s = Some (s1, ToKernel (c_rip next)) →
  R t rsi = R s rdi → context_room (R t rdi) → R t rdi + 64 ≤ R t rsi ∨ R t rsi + 64 ≤ R t rdi →
  (∀ a, R s rdi ≤ a < R s rdi + 64 → M t a = M s1 a) →
  R s rsp mod 8 = 0 → 0 ≤ R s rsp → R s rsp + 8 < W → M t (R s rsp) = M s (R s rsp) → ¬ (R t rdi ≤ R s rsp < R t rdi + 64) →
  ∃ t1 t2, run (switch_context_asm back) t = Some (t1, ToKernel back) ∧
    run switch_context_back t1 = Some (t2, ToKernel (M s (R s rsp))) ∧
    (∀ r, r ∈ callee_saved → R t2 r = R s r) ∧ R t2 rsp = R s rsp + 8.
Proof.
  intros D S Hdis Hn Hrun Et Dt Hdist Hkept Hal H0 HW Hret Hout.
  destruct (switch_context_spec back next s D S Hdis Hn) as (s' & Hrun' & _ & Hsaved & _). rewrite Hrun in Hrun'. injection Hrun' as <-.
  destruct (switch_context_spec back (context_of s back) t) as (t1 & Ht1 & Hregs & _ & Hother);
    [done|by rewrite Et|done| |].
  { intros i w Hw. rewrite Et. rewrite Hkept; [by apply Hsaved|]. apply lookup_lt_Some in Hw. cbn in Hw. lia. }
  cbn [c_rip context_of] in *. unfold context_of in Hregs. injection Hregs as E15 E14 E13 E12 Ebx Ebp Esp.
  assert (run switch_context_back t1 = Some (set_reg rsp (R s rsp + 8) t1, ToKernel (M s (R s rsp)))) as Ht2.
  { cbn [run switch_context_back]. unfold pop, load. rewrite Esp, Hal. cbn [Z.eqb mbind option_bind].
    rewrite (Z.mod_small (R s rsp + 8)) by lia. by rewrite Hother, Hret. }
  exists t1, (set_reg rsp (R s rsp + 8) t1). split_and!; [done|done| |apply set_reg_eq].
  intros r Hr. rewrite set_reg_ne by (intros ->; unfold callee_saved in Hr; set_solver).
  unfold callee_saved in Hr. rewrite !elem_of_cons, elem_of_nil in Hr. naive_solver.
Qed.

(** ** Exceptions *)

(** The exceptions for which the processor pushes an error code. *)
Definition pushes_error (v : Z) : bool := bool_decide (v ∈ [8; 10; 11; 12; 13; 14; 17; 21; 29; 30]).

Lemma stub_matches v : 0 ≤ v < 32 → stub_with_error v = pushes_error v.
Proof.
  intros Hv. assert (Forall (λ v, stub_with_error v = pushes_error v) (seqZ 0 32)) as H.
  { apply (bool_decide_unpack _). by vm_compute. }
  rewrite Forall_forall in H. apply H. apply elem_of_seqZ. lia.
Qed.

(** Every exception stub hands its vector, the error code (0 for the
    exceptions without one) and the faulting instruction to the handler, on
    a stack aligned as the calling convention asks; the stubs that expect an
    error code are exactly those of the exceptions that push one. *)
Theorem exception_stub_arguments handler v e rip s :
  0 ≤ v < 32 → R s rsp mod 8 = 0 → 24 ≤ R s rsp → R s rsp + 16 ≤ W →
  (if pushes_error v then M s (R s rsp) = e ∧ M s (R s rsp + 8) = rip else M s (R s rsp) = rip) →
  ∃ s', run (exception_stub handler v) s = Some (s', ToKernel handler) ∧
    R s' rdi = v ∧ R s' rsi = (if pushes_error v then e else 0) ∧ R s' rdx = rip ∧ abi_aligned s' ∧ M s' = M s.
Proof.
  intros Hv Hal Hlo HW Hframe. unfold exception_stub. rewrite stub_matches by done.
  assert (0 ≤ R s rsp mod 16 < 16) as Hm by (apply Z.mod_pos_bound; lia).
  pose proof (mod8_add _ 1 Hal) as Hal1. rewrite Z.mul_1_r in Hal1.
  assert (∀ t, R t rsp = R s rsp → M t = M s → ∃ s', run [AndNeg16 rsp; SubImm rsp 8; Jmp handler] t = Some (s', ToKernel handler) ∧
    (∀ r, r ≠ rsp → R s' r = R t r) ∧ abi_aligned s' ∧ M s' = M s) as Hend.
  { intros t Et Em. rewrite run_AndNeg16, Et, and_neg16 by lia. cbn [run]. rewrite set_reg_eq, Z.mod_small by lia. eexists. split; [done|].
    split_and!; [intros r Hr; by rewrite !set_reg_ne| |done]. unfold abi_aligned. rewrite set_reg_eq. apply mod16_call. }
  destruct (pushes_error v); unfold EXCEPTION_NO_ERROR, EXCEPTION_WITH_ERROR; change (run (Cld :: ?k) s) with (run k s); rewrite run_MovImm.
  - destruct Hframe as [E1 E2]. set (s1 := set_reg rdi v s). rewrite run_Load; [|by change (R s1 rsp) with (R s rsp); rewrite Z.add_0_r|change (R s1 rsp) with (R s rsp); lia].
    change (R s1 rsp) with (R s rsp). change (M s1) with (M s). rewrite Z.add_0_r, E1. set (s2 := set_reg rsi e s1).
    rewrite run_Load; [|exact Hal1|change (R s2 rsp) with (R s rsp); lia]. change (M s2 (R s2 rsp + 8)) with (M s (R s rsp + 8)). rewrite E2.
    destruct (Hend (set_reg rdx rip s2) eq_refl eq_refl) as (s' & Hrun & Hr & Hab & Hmem). exists s'. split_and!; [done|by rewrite Hr..|done|done].
  - change (run (XorSelf rsi :: ?k) ?t) with (run k (set_reg rsi 0 t)). set (s1 := set_reg rsi 0 (set_reg rdi v s)).
    rewrite run_Load; [|by change (R s1 rsp) with (R s rsp); rewrite Z.add_0_r|change (R s1 rsp) with (R s rsp); lia].
    change (R s1 rsp) with (R s rsp). change (M s1) with (M s). rewrite Z.add_0_r, Hframe.
    destruct (Hend (set_reg rdx rip s1) eq_refl eq_refl) as (s' & Hrun & Hr & Hab & Hmem). exists s'. split_and!; [done|by rewrite Hr..|done|done].
Qed.

(** ** System calls *)

Definition syscall_saved : list reg := [r11; rcx; rbx; rbp; r12; r13; r14; r15].
Lemma syscall_restored : map Pop [r15; r14; r13; r12; rbp; rbx; rcx; r11] = map Pop (reverse syscall_saved).
Proof. reflexivity. Qed.
Lemma syscall_saved_nodup : NoDup syscall_saved ∧ rsp ∉ syscall_saved.
Proof. split; [|unfold syscall_saved; set_solver]. apply (bool_decide_unpack _). by vm_compute. Qed.

Lemma syscall_saved_has : callee_saved ⊆ syscall_saved ∧ rcx ∈ syscall_saved ∧ r11 ∈ syscall_saved ∧ rax ∉ syscall_saved.
Proof. unfold callee_saved, syscall_saved. set_solver. Qed.

(** The registers before the call of the dispatcher. *)
Definition shuffle : list instr :=
  [MovReg rbx rdi; MovReg rdi rax; MovReg rax rsi; MovReg rsi rbx; MovReg rbx rdx; MovReg rdx rax; MovReg rcx rbx; MovReg r9 r8; MovReg r8 r10].
Lemma run_shuffle k s :
  ∃ s', run (shuffle ++ k) s = run k s' ∧ M s' = M s ∧ R s' rsp = R s rsp ∧ R s' rdi = R s rax ∧ R s' rsi = R s rdi ∧
    R s' rdx = R s rsi ∧ R s' rcx = R s rdx ∧ R s' r8 = R s r10 ∧ R s' r9 = R s r8.
Proof. eexists. split; [reflexivity|]. by repeat split. Qed.

(** The two halves of [__syscall_entry], before and after the dispatcher. *)
Section syscall_entry.
Context (user_rsp stack ret : Z) (dispatch : machine → machine) (s : machine).
Context (Hst : stack mod 16 = 0) (Hst0 : 0 ≤ stack) (HstW : stack + 16384 < W) (Hu : user_rsp mod 8 = 0).
Let top := stack + 16384.
Let s1 := set_reg rsp top (set_mem user_rsp (R s rsp) s).
Let leaving := map Pop (reverse syscall_saved) ++ [LoadAt rsp user_rsp; Sysretq].

Lemma syscall_top : top mod 8 = 0.
Proof.
  unfold top. pose proof (Z.div_mod stack 16 ltac:(lia)). replace (stack + 16384) with ((2 * (stack / 16) + 2048) * 8) by lia. by rewrite Z.mod_mul.
Qed.

Lemma syscall_enters :
  ∃ s2 entry, run (syscall_entry_asm user_rsp stack dispatch ret) s = run leaving (dispatch entry) ∧ pushed syscall_saved s1 s2 ∧
    R entry rsp = top - 72 ∧ (∀ a, a ≠ top - 72 → M entry a = M s2 a) ∧
    R entry rdi = R s rax ∧ R entry rsi = R s rdi ∧ R entry rdx = R s rsi ∧ R entry rcx = R s rdx ∧
    R entry r8 = R s r10 ∧ R entry r9 = R s r8 ∧ abi_aligned entry.
Proof.
  destruct syscall_saved_nodup as [Hnd Hnr]. pose proof syscall_top as Htop8.
  unfold syscall_entry_asm. rewrite syscall_restored. cbn [app]. rewrite run_StoreAt, run_Lea by done. fold top s1.
  destruct (run_pushes syscall_saved (shuffle ++ Call dispatch ret :: leaving) s1 Hnr Htop8)
    as (s2 & Hpush & Hpushed); [change (R s1 rsp) with top; change (length syscall_saved) with 8%nat; unfold top; lia|].
  change (map Push [r11; rcx; rbx; rbp; r12; r13; r14; r15]) with (map Push syscall_saved). unfold shuffle in Hpush. cbn [app] in Hpush.
  unfold leaving in Hpush. rewrite Hpush. clear Hpush. fold leaving.
  pose proof Hpushed as [P1 P2 _ _ _]. change (R s1 rsp) with top in *. change (8 * Z.of_nat (length syscall_saved)) with 64 in *.
  destruct (run_shuffle (Call dispatch ret :: leaving) s2) as (s3 & Hsh & Em3 & E3 & A1 & A2 & A3 & A4 & A5 & A6).
  unfold shuffle in Hsh. cbn [app] in Hsh. rewrite Hsh. clear Hsh. rewrite P1 in E3.
  rewrite run_call; [|rewrite E3; apply (mod8_sub _ 8 Htop8)|rewrite E3; unfold top; lia]. rewrite E3.
  set (entry := set_mem _ ret _). assert (R entry rsp = top - 72) as Een by (change (top - 64 - 8 = top - 72); lia).
  assert (∀ r, r ≠ rsp → R entry r = R s3 r) as Er by (intros r Hr; by apply set_reg_ne).
  exists s2, entry. split_and!; [done|done|done| |rewrite Er by done; by rewrite ?A1, ?A2, ?A3, ?A4, ?A5, ?A6, P2..|].
  - intros a Ha. unfold entry. cbn [M set_mem set_reg]. rewrite decide_False by lia. by rewrite Em3.
  - unfold abi_aligned. rewrite Een. pose proof (Z.div_mod stack 16 ltac:(lia)).
    replace (top - 72) with (8 + (stack / 16 + 1019) * 16) by (unfold top; lia). by rewrite Z.mod_add.
Qed.

Lemma syscall_leaves s2 s4 :
  pushed syscall_saved s1 s2 → R s4 rsp = top - 64 → (∀ a, top - 64 ≤ a < top → M s4 a = M s2 a) → M s4 user_rsp = R s rsp →
  ∃ s', run leaving s4 = Some (s', BySysret (R s rcx) (R s r11)) ∧
    R s' rsp = R s rsp ∧ (∀ r, r ∈ callee_saved → R s' r = R s r) ∧ R s' rax = R s4 rax.
Proof.
  intros Hpushed E4 Hkeep Eu. destruct syscall_saved_nodup as [Hnd Hnr]. pose proof syscall_top as Htop8.
  pose proof (ps_rsp _ _ _ Hpushed) as P1. change (R s1 rsp) with top in P1. change (8 * Z.of_nat (length syscall_saved)) with 64 in P1.
  unfold leaving. destruct (run_pops (reverse syscall_saved) [LoadAt rsp user_rsp; Sysretq] s4) as (s5 & -> & Hpopped).
  { by rewrite reverse_Permutation. }
  { by rewrite reverse_Permutation. }
  { rewrite E4. apply (mod8_sub _ 8 Htop8). }
  { rewrite E4. unfold top. lia. }
  { rewrite E4, length_reverse. change (length syscall_saved) with 8%nat. unfold top. lia. }
  destruct (push_pop_restores syscall_saved s1 s2 s4 s5 Hpushed) as [_ Hback]; [by rewrite P1|rewrite P1; intros a Ha; apply Hkeep, Ha|done|].
  assert (∀ r, r ∈ syscall_saved → R s5 r = R s r) as Hsame.
  { intros r Hr. rewrite Hback by done. unfold s1. rewrite set_reg_ne; [done|]. by intros ->. }
  destruct Hpopped as [_ _ Q3 Q4]. rewrite run_LoadAt by done. rewrite Q4, Eu. cbn [run]. rewrite !set_reg_ne by done.
  rewrite (Hsame rcx), (Hsame r11) by apply syscall_saved_has. eexists. split_and!; [done|apply set_reg_eq| |].
  - intros r Hr. rewrite set_reg_ne by (intros ->; by apply Hnr, syscall_saved_has). by apply Hsame, syscall_saved_has.
  - rewrite set_reg_ne by done. rewrite Q3; [done|done|]. rewrite reverse_Permutation. apply syscall_saved_has.
Qed.
End syscall_entry.

(** C37: [__syscall_entry] passes number and arguments on: the dispatcher gets
    [rax], [rdi], [rsi], [rdx], [r10], [r8] as its six arguments, on the
    aligned system call stack.  If it keeps the calling convention and nobody
    overwrites the saved user stack pointer, [sysretq] returns to the [rcx]
    and flags of the [syscall] instruction with the user's stack pointer and
    callee-saved registers, and the dispatcher's result in [rax]. *)
Theorem syscall_entry_correct user_rsp stack dispatch ret s :
  sysv (stack + SYSCALL_STACK_SIZE) dispatch → (∀ t, M (dispatch t) user_rsp = M t user_rsp) →
  stack mod 16 = 0 → 0 ≤ stack → stack + SYSCALL_STACK_SIZE < W → user_rsp mod 8 = 0 →
  ¬ (stack ≤ user_rsp < stack + SYSCALL_STACK_SIZE) →
  ∃ entry s', run (syscall_entry_asm user_rsp stack dispatch ret) s = Some (s', BySysret (R s rcx) (R s r11)) ∧
    R s' rsp = R s rsp ∧ (∀ r, r ∈ callee_saved → R s' r = R s r) ∧ R s' rax = R (dispatch entry) rax ∧
    R entry rdi = R s rax ∧ R entry rsi = R s rdi ∧ R entry rdx = R s rsi ∧ R entry rcx = R s rdx ∧
    R entry r8 = R s r10 ∧ R entry r9 = R s r8 ∧ abi_aligned entry.
Proof.
  change SYSCALL_STACK_SIZE with 16384. intros Habi Hkeepu Hst Hst0 HstW Hu Hout.
  destruct (syscall_enters user_rsp stack ret dispatch s Hst Hst0 HstW Hu) as (s2 & entry & -> & Hpushed & Een & Hmem2 & Hargs).
  destruct (Habi entry) as (Hrsp & _ & Hmem). pose proof Hpushed as [_ _ _ P4 P5]. cbn [set_reg R] in P4, P5. rewrite decide_True in P4, P5 by done.
  change (8 * Z.of_nat (length syscall_saved)) with 64 in P5.
  destruct (syscall_leaves user_rsp stack s Hst Hst0 HstW Hu s2 (dispatch entry) Hpushed) as (s' & H1 & H2 & H3 & H4).
  - rewrite Hrsp, Een. lia.
  - intros a Ha. rewrite Hmem by (rewrite Een; lia). apply Hmem2. lia.
  - rewrite Hkeepu, Hmem2 by lia. destruct (decide (stack + 16384 ≤ user_rsp)); [rewrite P4 by done|rewrite P5 by lia]; cbn; by rewrite decide_True.
  - exists entry, s'. destruct Hargs as (? & ? & ? & ? & ? & ? & ?). by split_and!.
Qed.

(** ** Concrete runs *)

(** A function that overwrites the caller-saved registers and its own stack. *)
Definition clobber (s : machine) : machine :=
  mkMachine (λ r, if decide (r = rsp) then R s rsp + 8 else if decide (r ∈ callee_saved) then R s r else 0xdead)
    (λ a, if decide (a < R s rsp) then 0xbeef else M s a).
Lemma clobber_sysv top : sysv top clobber.
Proof.
  intros s. split_and!; [done| |].
  - intros r Hr. cbn. rewrite decide_False by (intros ->; unfold callee_saved in Hr; set_solver). by rewrite decide_True.
  - intros a Ha. cbn. by rewrite decide_False by lia.
Qed.
Definition numbered (sp : Z) (m : Z → Z) : machine :=
  mkMachine (λ r, match r with
    | rax => 6 | rcx => 1 | rdx => 2 | rbx => 3 | rsp => sp | rbp => 5 | rsi => 0x6000 | rdi => 0x7000
    | r8 => 8 | r9 => 9 | r10 => 10 | r11 => 11 | r12 => 12 | r13 => 13 | r14 => 14 | r15 => 15 end) m.

Lemma irq_stub_transparent_witness :
  ∃ s', run (IRQ_STUB clobber 0x99 32) (numbered 0x8000 (λ a, a + 1)) = Some (s', ByIret 0x8001 0x8009 0x8011 0x8019 0x8021) ∧
    R s' r11 = 11 ∧ R s' rsp = 0x8019.
Proof.
  destruct (irq_stub_transparent clobber 0x99 32 0x9000 (numbered 0x8000 (λ a, a + 1))) as (entry & s' & H1 & H2 & H3 & _);
    [apply clobber_sysv|reflexivity|by vm_compute|by vm_compute|by vm_compute|].
  exists s'. split; [exact H1|]. split; [apply H2; discriminate|exact H3].
Defined.

Lemma enter_user_loads_frame_witness :
  ∃ s', run enter_user_asm (numbered 0x8000 (λ a, default 0 (tf_words (new_user 0x400000 0x5000) !! Z.to_nat ((a - 0x7000) / 8)))) =
      Some (s', ByIret 0x400000 0x23 0x202 0x5000 0x1b) ∧ R s' rax = 0 ∧ R s' rsp = 0x5000.
Proof.
  destruct (enter_user_loads_frame (new_user 0x400000 0x5000)
    (numbered 0x8000 (λ a, default 0 (tf_words (new_user 0x400000 0x5000) !! Z.to_nat ((a - 0x7000) / 8))))) as (s' & H1 & H2 & H3 & _);
    [reflexivity|by vm_compute|by vm_compute| |].
  { intros i w Hw. cbn [M numbered R]. replace (0x7000 + 8 * Z.of_nat i - 0x7000) with (Z.of_nat i * 8) by lia.
    rewrite Z.div_mul, Nat2Z.id by done. by rewrite Hw. }
  exists s'. split; [exact H1|]. split; [|exact H3]. apply (f_equal (λ l, l !! 14%nat)) in H2. cbn in H2. by injection H2.
Defined.

(** The contexts of the three processes of [trio], 64 bytes apart. *)
Definition trio_memory (a : Z) : Z :=
  let i := (a - 0x7000) / 64 in
  default 0 (p ← procs trio !! Z.to_nat i; ctx_words (context p) !! Z.to_nat ((a - 0x7000 - 64 * i) / 8)).
Definition trio_machine : machine :=
  mkMachine (λ r, match r with rdi => 0x7000 | rsi => 0x7040 | _ => 0 end) trio_memory.

Lemma switch_context_refines_witness :
  match switch_context medium_addresses 0 1 trio with
  | Ret st' => ∃ s', run (switch_context_asm 0x3000) trio_machine = Some (s', ToKernel 0x1000) ∧
      context_of s' 0x1000 = cpu st' ∧ M s' 0x7038 = 0x3000
  | _ => False
  end.
Proof.
  destruct (switch_context medium_addresses 0 1 trio) as [st'| |] eqn:E; [|discriminate E..].
  assert (cpu st' = context (waiting 1)) as Ec by (cbn in E; injection E as <-; reflexivity).
  assert (∃ p, procs st' !! 0%nat = Some p ∧ c_rip (context p) = 0x3000) as (p0 & Hp0 & Hrip) by (cbn in E; injection E as <-; by eexists).
  destruct (switch_context_refines medium_addresses trio st' (λ r, 0x7000 + 64 * Z.of_nat r) 0 1 trio_machine) as (s' & H1 & H2 & H3).
  - discriminate.
  - by eexists.
  - exact E.
  - intros r Hr. change (length (procs trio)) with 3%nat in Hr. unfold context_room, W. split_and!; [|lia|lia].
    replace (0x7000 + 64 * Z.of_nat r) with ((0xe00 + 8 * Z.of_nat r) * 8) by lia. by rewrite Z.mod_mul.
  - intros r k _ _ Hne. lia.
  - reflexivity.
  - reflexivity.
  - reflexivity.
  - clear. intros [|[|[|r]]] p Hp; [injection Hp as <-..|by destruct r]; intros i w Hw; (do 8 (destruct i as [|i]; [injection Hw as <-; reflexivity|])); by destruct i.
  - rewrite Ec in *. exists s'. split; [exact H1|]. split; [exact H2|]. rewrite <- Hrip. exact (H3 0%nat p0 Hp0 7%nat _ eq_refl).
Defined.

Lemma trio_holds : holds_context trio_machine 0x7040 (context (waiting 1)).
Proof. intros i w Hw. (do 8 (destruct i as [|i]; [injection Hw as <-; vm_compute; reflexivity|])); by destruct i. Qed.
Lemma room_at n : 0 ≤ n < 0x1000000 → context_room (64 * n).
Proof. intros Hn. unfold context_room, W. split_and!; [|lia|lia]. replace (64 * n) with (8 * n * 8) by lia. by rewrite Z.mod_mul. Qed.

(** The first process of [trio] is switched away and back. *)
Lemma switch_context_returns_witness :
  ∃ t t1 t2, run (switch_context_asm 0x3000) t = Some (t1, ToKernel 0x3000) ∧
    run switch_context_back t1 = Some (t2, ToKernel (M trio_machine 0)) ∧ R t2 rsp = 8.
Proof.
  pose proof (room_at 0x1c0 ltac:(lia)) as D0. pose proof (room_at 0x1c1 ltac:(lia)) as D1. pose proof (room_at 0x1c2 ltac:(lia)) as D2.
  assert (R trio_machine rdi + 64 ≤ R trio_machine rsi ∨ R trio_machine rsi + 64 ≤ R trio_machine rdi) as Hdis by (left; by vm_compute).
  destruct (switch_context_spec 0x3000 (context (waiting 1)) trio_machine D0 D1 Hdis trio_holds) as (s1 & Hrun & _ & _ & Hother).
  set (t := mkMachine (λ r, match r with rdi => 0x7080 | rsi => 0x7000 | _ => 0 end) (M s1)).
  destruct (switch_context_returns 0x3000 (context (waiting 1)) trio_machine s1 t D0 D1 Hdis trio_holds Hrun) as (t1 & t2 & H1 & H2 & _ & H3).
  - reflexivity.
  - exact D2.
  - right. by vm_compute.
  - reflexivity.
  - reflexivity.
  - reflexivity.
  - by vm_compute.
  - apply Hother. cbn. lia.
  - cbn. lia.
  - exists t, t1, t2. split; [exact H1|]. split; [exact H2|exact H3].
Defined.

Lemma exception_stub_arguments_witness :
  ∃ s', run (exception_stub 0x1234 14) (numbered 0x8000 (λ a, if decide (a = 0x8000) then 2 else 0x400000)) = Some (s', ToKernel 0x1234) ∧
    R s' rdi = 14 ∧ R s' rsi = 2 ∧ R s' rdx = 0x400000.
Proof.
  destruct (exception_stub_arguments 0x1234 14 2 0x400000 (numbered 0x8000 (λ a, if decide (a = 0x8000) then 2 else 0x400000)))
    as (s' & H1 & H2 & H3 & H4 & _); [lia|reflexivity|by vm_compute|by vm_compute|split; reflexivity|].
  exists s'. split; [exact H1|]. split; [exact H2|]. split; [exact H3|exact H4].
Defined.

(** A dispatcher that answers with its third argument. *)
Definition answer (s : machine) : machine :=
  mkMachine (λ r, if decide (r = rsp) then R s rsp + 8 else if decide (r = rax) then R s rdx else R s r) (M s).
Lemma answer_sysv top : sysv top answer.
Proof.
  intros s. split_and!; [done| |done]. intros r Hr. unfold callee_saved in Hr. cbn. rewrite !decide_False; [done|intros ->; set_solver..].
Qed.

Lemma r15_saved : r15 ∈ callee_saved.
Proof. unfold callee_saved. set_solver. Qed.

Lemma syscall_entry_correct_witness :
  ∃ s', run (syscall_entry_asm 0x20000 0x10000 answer 0x99) (numbered 0x8000 (λ a, 0)) = Some (s', BySysret 1 11) ∧
    R s' rax = 0x6000 ∧ R s' rsp = 0x8000 ∧ R s' r15 = 15.
Proof.
  destruct (syscall_entry_correct 0x20000 0x10000 answer 0x99 (numbered 0x8000 (λ a, 0)))
    as (entry & s' & H1 & H2 & H3 & H4 & _ & _ & H5 & _); [apply answer_sysv|done|reflexivity|lia|by vm_compute|reflexivity|vm_compute; intros [_ H]; discriminate H|].
  exists s'. split; [exact H1|]. split; [rewrite H4; exact H5|]. split; [exact H2|]. exact (H3 r15 r15_saved).
Defined.
