(* ===== verification/Devices.v ===== *)
(** * Interrupt controllers, timer and serial port

    [src/trap.rs], [src/trap/pic.rs], [src/trap/pit.rs] and the port side of
    [src/stdio.rs], over a model of the devices behind the ports as their
    data sheets describe them: two cascaded 8259A interrupt controllers, an
    8254 timer and a 16550 serial port. *)

From S2P Require Import Prelude.
Local Open Scope Z_scope.

(** ** The devices *)

(** An 8259A: after ICW1 it takes the words ICW2 to ICW4 on its data port. *)
Inductive phase := Operating | WantIcw2 | WantIcw3 | WantIcw4.
Record pic := mkPic {
  pic_phase : phase; pic_need4 : bool;
  pic_base : Z; pic_cascade : Z; pic_mode : Z;
  imr : Z; isr : Z;
}.
Definition pic_command (v : Z) (p : pic) : pic :=
  if Z.testbit v 4 then mkPic WantIcw2 (Z.testbit v 0) (pic_base p) (pic_cascade p) 0 0 0
  else if v =? 0x20 then
    mkPic (pic_phase p) (pic_need4 p) (pic_base p) (pic_cascade p) (pic_mode p) (imr p) (Z.land (isr p) (isr p - 1))
  else p.
Definition pic_data (v : Z) (p : pic) : pic :=
  match pic_phase p with
  | Operating => mkPic Operating (pic_need4 p) (pic_base p) (pic_cascade p) (pic_mode p) v (isr p)
  | WantIcw2 => mkPic WantIcw3 (pic_need4 p) (Z.land v 0xF8) (pic_cascade p) (pic_mode p) (imr p) (isr p)
  | WantIcw3 => mkPic (if pic_need4 p then WantIcw4 else Operating) (pic_need4 p) (pic_base p) v (pic_mode p) (imr p) (isr p)
  | WantIcw4 => mkPic Operating (pic_need4 p) (pic_base p) (pic_cascade p) v (imr p) (isr p)
  end.

(** Channel 0 of the 8254 with low and high byte access. *)
Record pit := mkPit { pit_mode : Z; pit_low : option Z; pit_reload : Z }.
Definition pit_command (v : Z) (p : pit) : pit :=
  if Z.shiftr v 6 =? 0 then mkPit (Z.land (Z.shiftr v 1) 7) None (pit_reload p) else p.
Definition pit_data (v : Z) (p : pit) : pit :=
  match pit_low p with
  | None => mkPit (pit_mode p) (Some v) (pit_reload p)
  | Some lo => let n := lo + 256 * v in mkPit (pit_mode p) None (if n =? 0 then 65536 else n)
  end.

(** The 16550: [rx] are the bytes received, [sent] those transmitted; the
    transmitter is not ready for [busy] reads of the status register, after
    the [n]-th byte for [delay n]. *)
Record uart := mkUart {
  ier : Z; fcr : Z; lcr : Z; mcr : Z; divisor : Z;
  rx : list Z; sent : list Z; busy : nat; delay : nat → nat;
}.
Definition dlab (u : uart) : bool := Z.testbit (lcr u) 7.

(** [keyboard] are the scancodes that wait in the keyboard controller. *)
Record hw := mkHw { master : pic; slave : pic; timer : pit; com1 : uart; keyboard : list Z }.
Definition with_master (f : pic → pic) (h : hw) : hw := mkHw (f (master h)) (slave h) (timer h) (com1 h) (keyboard h).
Definition with_slave (f : pic → pic) (h : hw) : hw := mkHw (master h) (f (slave h)) (timer h) (com1 h) (keyboard h).
Definition with_timer (f : pit → pit) (h : hw) : hw := mkHw (master h) (slave h) (f (timer h)) (com1 h) (keyboard h).
Definition with_com1 (f : uart → uart) (h : hw) : hw := mkHw (master h) (slave h) (timer h) (f (com1 h)) (keyboard h).

Definition uart_data (v : Z) (u : uart) : uart :=
  if dlab u then mkUart (ier u) (fcr u) (lcr u) (mcr u) (divisor u / 256 * 256 + v) (rx u) (sent u) (busy u) (delay u)
  else mkUart (ier u) (fcr u) (lcr u) (mcr u) (divisor u) (rx u) (sent u ++ [v]) (delay u (length (sent u))) (delay u).
Definition uart_ier (v : Z) (u : uart) : uart :=
  if dlab u then mkUart (ier u) (fcr u) (lcr u) (mcr u) (divisor u mod 256 + 256 * v) (rx u) (sent u) (busy u) (delay u)
  else mkUart v (fcr u) (lcr u) (mcr u) (divisor u) (rx u) (sent u) (busy u) (delay u).
Definition uart_fcr (v : Z) (u : uart) : uart :=
  mkUart (ier u) v (lcr u) (mcr u) (divisor u) (if Z.testbit v 1 then [] else rx u) (sent u) (busy u) (delay u).
Definition uart_lcr (v : Z) (u : uart) : uart :=
  mkUart (ier u) (fcr u) v (mcr u) (divisor u) (rx u) (sent u) (busy u) (delay u).
Definition uart_mcr (v : Z) (u : uart) : uart :=
  mkUart (ier u) (fcr u) (lcr u) v (divisor u) (rx u) (sent u) (busy u) (delay u).

Definition uart_status (u : uart) : Z * uart :=
  (Z.lor (match rx u with [] => 0 | _ => 1 end) (match busy u with O => 0x20 | _ => 0 end),
   mkUart (ier u) (fcr u) (lcr u) (mcr u) (divisor u) (rx u) (sent u) (pred (busy u)) (delay u)).
Definition uart_receive (u : uart) : Z * uart :=
  match rx u with
  | [] => (0, u)
  | v :: l => (v, mkUart (ier u) (fcr u) (lcr u) (mcr u) (divisor u) l (sent u) (busy u) (delay u))
  end.

(** ** Ports *)

Definition PIC1_COMMAND : Z := 0x20.
Definition PIC1_DATA : Z := 0x21.
Definition PIC2_COMMAND : Z := 0xA0.
Definition PIC2_DATA : Z := 0xA1.
Definition PIT_CHANNEL0 : Z := 0x40.
Definition PIT_COMMAND : Z := 0x43.
Definition COM1_DATA : Z := 0x3F8.
Definition COM1_IER : Z := 0x3F9.
Definition COM1_FCR : Z := 0x3FA.
Definition COM1_LCR : Z := 0x3FB.
Definition COM1_MCR : Z := 0x3FC.
Definition COM1_LSR : Z := 0x3FD.

Definition outb (port value : Z) (h : hw) : hw :=
  match port with
  | 0x20 => with_master (pic_command value) h
  | 0x21 => with_master (pic_data value) h
  | 0xA0 => with_slave (pic_command value) h
  | 0xA1 => with_slave (pic_data value) h
  | 0x40 => with_timer (pit_data value) h
  | 0x43 => with_timer (pit_command value) h
  | 0x3F8 => with_com1 (uart_data value) h
  | 0x3F9 => with_com1 (uart_ier value) h
  | 0x3FA => with_com1 (uart_fcr value) h
  | 0x3FB => with_com1 (uart_lcr value) h
  | 0x3FC => with_com1 (uart_mcr value) h
  | _ => h
  end.
Definition inb (port : Z) (h : hw) : Z * hw :=
  match port with
  | 0x21 => (imr (master h), h)
  | 0xA1 => (imr (slave h), h)
  | 0x60 =>
      match keyboard h with
      | [] => (0, h)
      | code :: codes => (code, mkHw (master h) (slave h) (timer h) (com1 h) codes)
      end
  | 0x3F8 => let '(v, u) := uart_receive (com1 h) in (v, with_com1 (λ _, u) h)
  | 0x3FD => let '(v, u) := uart_status (com1 h) in (v, with_com1 (λ _, u) h)
  | _ => (0xFF, h)
  end.
Definition io_wait (h : hw) : hw := outb 0x80 0 h.

(** ** Interrupt controllers ([pic.rs]) *)

Definition PIC_EOI : Z := 0x20.
Definition ICW1_ICW4 : Z := 0x01.
Definition ICW1_INIT : Z := 0x10.
Definition ICW4_8086 : Z := 0x01.
Definition CASCADE_IRQ : Z := 2.
Definition IRQ_BASE : Z := 32.
Definition IRQ_COUNT : Z := 16.

Definition pic_remap (offset1 offset2 : Z) (h : hw) : hw :=
  let h := io_wait (outb PIC1_COMMAND (Z.lor ICW1_INIT ICW1_ICW4) h) in
  let h := io_wait (outb PIC2_COMMAND (Z.lor ICW1_INIT ICW1_ICW4) h) in
  let h := io_wait (outb PIC1_DATA offset1 h) in
  let h := io_wait (outb PIC2_DATA offset2 h) in
  let h := io_wait (outb PIC1_DATA (Z.shiftl 1 CASCADE_IRQ) h) in
  let h := io_wait (outb PIC2_DATA 2 h) in
  let h := io_wait (outb PIC1_DATA ICW4_8086 h) in
  let h := io_wait (outb PIC2_DATA ICW4_8086 h) in
  outb PIC2_DATA 0xff (outb PIC1_DATA 0xff h).
Definition pic_init (h : hw) : hw := pic_remap IRQ_BASE (IRQ_BASE + 8) h.

(** [!(1 << bit)] on bytes. *)
Definition clear_mask (bit : Z) : Z := 255 - Z.shiftl 1 bit.
Definition unmask_irq (irq : Z) (h : hw) : hw :=
  if IRQ_COUNT <=? irq then h
  else
    let '(port, bit) := if irq <? 8 then (PIC1_DATA, irq) else (PIC2_DATA, irq - 8) in
    let '(m, h) := inb port h in
    let h := outb port (Z.land m (clear_mask bit)) h in
    if 8 <=? irq then
      let '(m, h) := inb PIC1_DATA h in
      outb PIC1_DATA (Z.land m (clear_mask CASCADE_IRQ)) h
    else h.

Definition end_of_interrupt (irq : Z) (h : hw) : hw :=
  let h := if 8 <=? irq then outb PIC2_COMMAND PIC_EOI h else h in
  outb PIC1_COMMAND PIC_EOI h.

(** ** Timer ([pit.rs]) *)

Definition PIT_BASE_FREQ : Z := 1193182.
Definition pit_init (divisor : Z) (h : hw) : hw :=
  let divisor := as_u16 divisor in
  let h := outb PIT_COMMAND 0x36 h in
  let h := outb PIT_CHANNEL0 (as_u8 (Z.land divisor 0xff)) h in
  outb PIT_CHANNEL0 (as_u8 (Z.shiftr divisor 8)) h.
Definition init_100hz (h : hw) : hw := pit_init (PIT_BASE_FREQ / 100) h.

(** ** Serial port ([stdio.rs]) *)

Definition LSR_DATA_READY : Z := 0x01.
Definition LSR_THRE : Z := 0x20.

(** Reading and dropping what is there. *)
Fixpoint drain (fuel : nat) (h : hw) : outcome hw :=
  match fuel with
  | O => Diverge
  | S fuel =>
      let '(v, h) := inb COM1_LSR h in
      if Z.land v LSR_DATA_READY =? 0 then Ret h
      else let '(_, h) := inb COM1_DATA h in drain fuel h
  end.
Definition init_serial_interrupts (fuel : nat) (h : hw) : outcome hw :=
  let h := outb COM1_IER 0x00 h in
  let h := outb COM1_LCR 0x80 h in
  let h := outb COM1_DATA 0x01 h in
  let h := outb COM1_IER 0x00 h in
  let h := outb COM1_LCR 0x03 h in
  let h := outb COM1_FCR 0xC7 h in
  let h := outb COM1_MCR 0x0B h in
  let h := outb COM1_IER 0x01 h in
  drain fuel h.

(** Waiting for the transmitter, then one byte. *)
Fixpoint serial_putc (fuel : nat) (c : Z) (h : hw) : outcome hw :=
  match fuel with
  | O => Diverge
  | S fuel =>
      let '(lsr, h) := inb COM1_LSR h in
      if Z.land lsr LSR_THRE =? 0 then serial_putc fuel c h else Ret (outb COM1_DATA c h)
  end.
Definition serial_write (fuel : nat) (buf : list Z) (h : hw) : outcome hw := for_each buf (serial_putc fuel) h.

(** [serial_puts] stops at a zero byte. *)
Fixpoint serial_puts (fuel : nat) (text : list Z) (h : hw) : outcome hw :=
  match text with
  | [] => Ret h
  | c :: text => if c =? 0 then Ret h else h ← serial_putc fuel c h; serial_puts fuel text h
  end.

Inductive LogLevel := Debug | Info | Warning | Error.
Definition level_number (l : LogLevel) : Z := match l with Debug => 0 | Info => 1 | Warning => 2 | Error => 3 end.
Definition should_print (current level : LogLevel) : bool := level_number current <=? level_number level.
Definition text_bytes (s : string) : list Z := Z.of_N ∘ Ascii.N_of_ascii <$> String.list_ascii_of_string s.
Definition prefix (level : LogLevel) : string :=
  match level with Error => "[ERROR] " | Warning => "[WARN]  " | Info => "[INFO]  " | Debug => "[DEBUG] " end.
(** [CURRENT_LEVEL] is never assigned. *)
Definition CURRENT_LEVEL : LogLevel := Info.

(** The formats [{}] and [{:#x}] of unsigned numbers of up to 64 bits. *)
Definition digit_char (d : Z) : Z := if d <? 10 then 48 + d else 87 + d.
Fixpoint digits (fuel : nat) (base n : Z) (acc : list Z) : list Z :=
  match fuel with
  | O => acc
  | S fuel =>
      let acc := digit_char (n mod base) :: acc in
      if n / base =? 0 then acc else digits fuel base (n / base) acc
  end.
Definition fmt_dec (n : Z) : list Z := digits 20 10 n [].
Definition fmt_hex (n : Z) : list Z := text_bytes "0x" ++ digits 16 16 n [].

(** [pieces] are the strings the formatted message is written in. *)
Definition printk (fuel : nat) (current level : LogLevel) (pieces : list (list Z)) (h : hw) : outcome hw :=
  if should_print current level then
    h ← serial_puts fuel (text_bytes (prefix level)) h;
    h ← for_each pieces (serial_puts fuel) h;
    serial_puts fuel [10] h
  else Ret h.

(** ** The set-up at boot *)

(** The calls [kernel_main] makes before it enables interrupts. *)
Definition setup_interrupts (fuel : nat) (h : hw) : outcome hw :=
  let h := pic_init h in
  h ← init_serial_interrupts fuel h;
  let h := unmask_irq 4 (unmask_irq 1 (unmask_irq 0 h)) in
  Ret (init_100hz h).
