(* ===== verification/DevicesCorrect.v ===== *)
(** * Correctness of the device set-up *)

From S2P Require Import Prelude Devices.
Local Open Scope Z_scope.

(** ** Interrupt masks *)

Lemma clear_mask_bit bit i : 0 ≤ bit < 8 → 0 ≤ i < 8 → Z.testbit (clear_mask bit) i = negb (i =? bit).
Proof.
  intros Hb Hi. unfold clear_mask. assert (bit ∈ seqZ 0 8) as Hbit by (apply elem_of_seqZ; lia). assert (i ∈ seqZ 0 8) as Hin by (apply elem_of_seqZ; lia).
  assert (Forall (λ b, Forall (λ i, Z.testbit (255 - Z.shiftl 1 b) i = negb (i =? b)) (seqZ 0 8)) (seqZ 0 8)) as H
    by (apply (bool_decide_unpack _); by vm_compute).
  rewrite Forall_forall in H. specialize (H bit Hbit). rewrite Forall_forall in H. by apply H.
Qed.

Definition operating (h : hw) : Prop := pic_phase (master h) = Operating ∧ pic_phase (slave h) = Operating.

(** Line [i] is enabled: not masked, and for a line of the slave the cascade
    line of the master is not masked either. *)
Definition masked (h : hw) (i : Z) : bool := if i <? 8 then Z.testbit (imr (master h)) i else Z.testbit (imr (slave h)) (i - 8).
Definition enabled (h : hw) (i : Z) : bool := negb (masked h i) && ((i <? 8) || negb (masked h CASCADE_IRQ)).

(** [unmask_irq] enables the interrupt line it is given, for both
    controllers, and changes the mask of no other line except, for a line of
    the slave, the cascade line; an irq number above 15 changes nothing. *)
Theorem unmask_irq_correct irq h :
  0 ≤ irq → operating h →
  operating (unmask_irq irq h) ∧ (irq < 16 → enabled (unmask_irq irq h) irq = true) ∧
  (∀ i, 0 ≤ i < 16 → i ≠ irq → (8 ≤ irq → i ≠ CASCADE_IRQ) → masked (unmask_irq irq h) i = masked h i) ∧
  (16 ≤ irq → unmask_irq irq h = h) ∧
  timer (unmask_irq irq h) = timer h ∧ com1 (unmask_irq irq h) = com1 h.
Proof.
  intros H0 [Hm Hs]. unfold unmask_irq, IRQ_COUNT, CASCADE_IRQ in *.
  destruct (Z.leb_spec 16 irq); [split_and!; done || lia|].
  destruct (Z.ltb_spec irq 8).
  - replace (8 <=? irq) with false by lia. cbn [inb PIC1_DATA outb]. unfold with_master, pic_data. rewrite Hm.
    split_and!; [by split| | |lia|done|done].
    + intros _. unfold enabled, masked. cbn [master slave imr]. replace (irq <? 8) with true by lia.
      rewrite Z.land_spec, clear_mask_bit, Z.eqb_refl by lia. by rewrite andb_false_r.
    + intros i Hi Hne _. unfold masked. cbn [master slave imr]. destruct (Z.ltb_spec i 8); [|done].
      rewrite Z.land_spec, clear_mask_bit by lia. replace (i =? irq) with false by lia. by rewrite andb_true_r.
  - replace (8 <=? irq) with true by lia. cbn [inb PIC2_DATA PIC1_DATA outb]. unfold with_master, with_slave, pic_data. cbn [slave master imr]. rewrite Hm, Hs.
    split_and!; [by split| | |lia|done|done].
    + intros _. unfold enabled, masked. cbn [master slave imr]. replace (irq <? 8) with false by lia. cbn [Z.ltb].
      rewrite !Z.land_spec, !clear_mask_bit, !Z.eqb_refl by lia. by rewrite !andb_false_r.
    + intros i Hi Hne Hc. unfold masked. cbn [master slave imr]. destruct (Z.ltb_spec i 8).
      * rewrite Z.land_spec, clear_mask_bit by lia. replace (i =? 2) with false by lia. by rewrite andb_true_r.
      * rewrite Z.land_spec, clear_mask_bit by lia. replace (i - 8 =? irq - 8) with false by lia. by rewrite andb_true_r.
Qed.

(** ** The serial port *)

Definition transmit (c : Z) (u : uart) : uart :=
  mkUart (ier u) (fcr u) (lcr u) (mcr u) (divisor u) (rx u) (sent u ++ [c]) (delay u (length (sent u))) (delay u).
(** The transmitter has become ready. *)
Definition settled (u : uart) : uart :=
  mkUart (ier u) (fcr u) (lcr u) (mcr u) (divisor u) (rx u) (sent u) 0 (delay u).

(** The transmitter never needs [fuel] polls; besides, bytes written to the
    data register are transmitted. *)
Definition polled (fuel : nat) (h : hw) : Prop := (busy (com1 h) < fuel)%nat ∧ ∀ n, (delay (com1 h) n < fuel)%nat.
Definition transmitting (fuel : nat) (h : hw) : Prop :=
  dlab (com1 h) = false ∧ (busy (com1 h) < fuel)%nat ∧ (∀ n, (delay (com1 h) n < fuel)%nat).

(** The effect of output: the text is transmitted and nothing else happens. *)
Record emits (fuel : nat) (text : list Z) (h h' : hw) : Prop := {
  em_sent : sent (com1 h') = sent (com1 h) ++ text;
  em_rx : rx (com1 h') = rx (com1 h);
  em_line : transmitting fuel h';
  em_others : master h' = master h ∧ slave h' = slave h ∧ timer h' = timer h ∧ keyboard h' = keyboard h;
}.

Lemma emits_nil fuel h : transmitting fuel h → emits fuel [] h h.
Proof. intros H. split; [by rewrite app_nil_r|done|done|done]. Qed.
Lemma emits_app fuel t1 t2 h1 h2 h3 : emits fuel t1 h1 h2 → emits fuel t2 h2 h3 → emits fuel (t1 ++ t2) h1 h3.
Proof.
  intros [S1 R1 L1 (M1 & V1 & T1 & K1)] [S2 R2 L2 (M2 & V2 & T2 & K2)].
  split; [by rewrite S2, S1, app_assoc|by rewrite R2, R1|done|]. by rewrite M2, V2, T2, K2.
Qed.

Lemma thre_bit u : Z.land (uart_status u).1 LSR_THRE = match busy u with O => 0x20 | _ => 0 end.
Proof. unfold uart_status. cbn [fst]. by destruct (rx u), (busy u). Qed.
(** Polling ends with a write to the data register. *)
Lemma serial_putc_eq fuel c h :
  (busy (com1 h) < fuel)%nat → serial_putc fuel c h = Ret (with_com1 (λ u, uart_data c (settled u)) h).
Proof.
  revert h. induction fuel as [|fuel IH]; intros h Hb; [lia|].
  cbn [serial_putc]. unfold COM1_LSR. cbn [inb]. pose proof (thre_bit (com1 h)) as Ht.
  destruct (uart_status (com1 h)) as [v u] eqn:Eu. cbn [fst] in Ht. rewrite Ht.
  unfold uart_status in Eu. injection Eu as _ <-. destruct (busy (com1 h)) as [|b] eqn:Ebusy; [done|].
  cbn [Z.eqb pred]. rewrite IH; [done|]. cbn. lia.
Qed.
Lemma serial_putc_spec fuel c h :
  transmitting fuel h → ∃ h', serial_putc fuel c h = Ret h' ∧ emits fuel [c] h h'.
Proof.
  intros (Hd & Hb & Hdel). rewrite serial_putc_eq by done. eexists. split; [done|].
  assert (uart_data c (settled (com1 h)) = transmit c (settled (com1 h))) as E.
  { unfold uart_data. by replace (dlab (settled (com1 h))) with false by (symmetry; exact Hd). }
  unfold with_com1. rewrite E. split; [done|done|split_and!; [done|apply Hdel|exact Hdel]|done].
Qed.
Lemma serial_write_spec fuel buf h :
  transmitting fuel h → ∃ h', serial_write fuel buf h = Ret h' ∧ emits fuel buf h h'.
Proof.
  revert h. unfold serial_write. induction buf as [|c buf IH]; intros h Htr; [exists h; split; [done|by apply emits_nil]|].
  cbn [for_each]. destruct (serial_putc_spec fuel c h Htr) as (h1 & -> & E1). rewrite Ret_bind.
  destruct (IH h1 (em_line _ _ _ _ E1)) as (h2 & -> & E2). exists h2. split; [done|]. by eapply (emits_app _ [c]).
Qed.
(** Writing to the serial port ends and loses nothing.  If the transmitter
    gets ready again after at most [n] polls of the status register, however
    long that takes each time, [serial_write] returns after transmitting
    exactly the given bytes in order; received bytes and the other devices
    are untouched. *)
Theorem serial_write_transmits n buf h :
  dlab (com1 h) = false → (busy (com1 h) ≤ n)%nat → (∀ k, delay (com1 h) k ≤ n)%nat →
  ∃ h', serial_write (S n) buf h = Ret h' ∧ sent (com1 h') = sent (com1 h) ++ buf ∧ rx (com1 h') = rx (com1 h) ∧
    master h' = master h ∧ slave h' = slave h ∧ timer h' = timer h.
Proof.
  intros Hd Hb Hdel. destruct (serial_write_spec (S n) buf h) as (h' & Hw & [E1 E2 _ (E3 & E4 & E5 & _)]).
  { split_and!; [done|lia|]. intros k. specialize (Hdel k). lia. }
  by exists h'.
Qed.

(** ** Messages *)

(** Text without a zero byte is written as it is. *)
Lemma serial_puts_spec fuel text h :
  transmitting fuel h → 0 ∉ text → ∃ h', serial_puts fuel text h = Ret h' ∧ emits fuel text h h'.
Proof.
  revert h. induction text as [|c text IH]; intros h Htr H0; cbn [serial_puts]; [exists h; split; [done|by apply emits_nil]|].
  apply not_elem_of_cons in H0 as [Hc H0]. replace (c =? 0) with false by lia.
  destruct (serial_putc_spec fuel c h Htr) as (h1 & -> & E1). rewrite Ret_bind.
  destruct (IH h1 (em_line _ _ _ _ E1) H0) as (h2 & -> & E2). exists h2. split; [done|]. by eapply (emits_app _ [c]).
Qed.
Lemma pieces_spec fuel pieces h :
  transmitting fuel h → 0 ∉ concat pieces → ∃ h', for_each pieces (serial_puts fuel) h = Ret h' ∧ emits fuel (concat pieces) h h'.
Proof.
  revert h. induction pieces as [|p pieces IH]; intros h Htr H0; cbn [for_each concat] in *; [exists h; split; [done|by apply emits_nil]|].
  rewrite elem_of_app in H0. destruct (serial_puts_spec fuel p h Htr) as (h1 & -> & E1); [tauto|]. rewrite Ret_bind.
  destruct (IH h1 (em_line _ _ _ _ E1)) as (h2 & -> & E2); [tauto|]. exists h2. split; [done|]. by eapply emits_app.
Qed.

(** The line a message comes to. *)
Definition log_line (level : LogLevel) (pieces : list (list Z)) : list Z := text_bytes (prefix level) ++ concat pieces ++ [10].

Lemma printk_spec fuel current level pieces h :
  should_print current level = true → transmitting fuel h → 0 ∉ concat pieces →
  ∃ h', printk fuel current level pieces h = Ret h' ∧ emits fuel (log_line level pieces) h h'.
Proof.
  intros Hs Htr H0. unfold printk. rewrite Hs.
  destruct (serial_puts_spec fuel (text_bytes (prefix level)) h Htr) as (h1 & -> & E1); [destruct level; by apply (bool_decide_unpack _)|].
  rewrite Ret_bind. destruct (pieces_spec fuel pieces h1 (em_line _ _ _ _ E1) H0) as (h2 & -> & E2). rewrite Ret_bind.
  destruct (serial_puts_spec fuel [10] h2 (em_line _ _ _ _ E2)) as (h3 & -> & E3); [by apply (bool_decide_unpack _)|].
  exists h3. split; [done|]. eapply emits_app; [done|]. by eapply emits_app.
Qed.

(** Before the port is configured its state is unknown: output returns all the
    same, and reaches no other device. *)
Record touches (fuel : nat) (h h' : hw) : Prop := {
  tc_polled : polled fuel h';
  tc_others : master h' = master h ∧ slave h' = slave h ∧ timer h' = timer h ∧ keyboard h' = keyboard h;
}.
Lemma touches_trans fuel h1 h2 h3 : touches fuel h1 h2 → touches fuel h2 h3 → touches fuel h1 h3.
Proof. intros [_ (M1 & V1 & T1 & K1)] [P2 (M2 & V2 & T2 & K2)]. split; [done|]. by rewrite M2, V2, T2, K2. Qed.
Lemma serial_putc_touches fuel c h : polled fuel h → ∃ h', serial_putc fuel c h = Ret h' ∧ touches fuel h h'.
Proof.
  intros [Hb Hdel]. rewrite serial_putc_eq by done. eexists. split; [done|]. split; [|done]. unfold polled, with_com1, uart_data. cbn [com1].
  destruct (dlab _); cbn; split; [lia|exact Hdel|apply Hdel|exact Hdel].
Qed.
Lemma serial_puts_touches fuel text h : polled fuel h → ∃ h', serial_puts fuel text h = Ret h' ∧ touches fuel h h'.
Proof.
  revert h. induction text as [|c text IH]; intros h Hp; cbn [serial_puts]; [exists h; split; [done|by split]|].
  destruct (c =? 0); [exists h; split; [done|by split]|]. destruct (serial_putc_touches fuel c h Hp) as (h1 & -> & T1). rewrite Ret_bind.
  destruct (IH h1 (tc_polled _ _ _ T1)) as (h2 & -> & T2). exists h2. split; [done|]. by eapply touches_trans.
Qed.
Lemma printk_touches fuel current level piece h :
  polled fuel h → ∃ h', printk fuel current level [piece] h = Ret h' ∧ touches fuel h h'.
Proof.
  intros Hp. unfold printk. destruct (should_print current level); [|exists h; split; [done|by split]].
  destruct (serial_puts_touches fuel (text_bytes (prefix level)) h Hp) as (h1 & -> & T1). rewrite Ret_bind. cbn [for_each].
  destruct (serial_puts_touches fuel piece h1 (tc_polled _ _ _ T1)) as (h2 & -> & T2). rewrite !Ret_bind.
  destruct (serial_puts_touches fuel [10] h2 (tc_polled _ _ _ T2)) as (h3 & -> & T3). exists h3. split; [done|].
  eapply touches_trans; [exact T1|]. by eapply touches_trans.
Qed.

(** ** Numbers in messages *)

Definition char_digit (c : Z) : Z := if c <? 58 then c - 48 else c - 87.
Definition numeral (base : Z) (text : list Z) : Z := foldl (λ v c, base * v + char_digit c) 0 text.

Lemma char_digit_char d : 0 ≤ d < 16 → char_digit (digit_char d) = d ∧ 48 ≤ digit_char d < 103.
Proof. intros Hd. unfold char_digit, digit_char. repeat case_match; lia. Qed.
Lemma numeral_from base text v : foldl (λ v c, base * v + char_digit c) v text = v * base ^ zlen text + numeral base text.
Proof.
  unfold numeral. revert v. induction text as [|c text IH]; intros v; cbn [foldl]; [change (zlen (A := Z) []) with 0; rewrite Z.pow_0_r; cbn; lia|].
  rewrite IH, (IH (base * 0 + _)). replace (zlen (c :: text)) with (zlen text + 1) by (unfold zlen; cbn; lia).
  rewrite Z.pow_add_r by (unfold zlen; lia). lia.
Qed.
Lemma digits_spec fuel base n acc :
  2 ≤ base ≤ 16 → 0 ≤ n < base ^ Z.of_nat fuel →
  numeral base (digits fuel base n acc) = n * base ^ zlen acc + numeral base acc ∧
  (Forall (λ c, 48 ≤ c) acc → Forall (λ c, 48 ≤ c) (digits fuel base n acc)).
Proof.
  intros Hb. revert n acc. induction fuel as [|fuel IH]; intros n acc Hn; cbn [digits].
  { replace n with 0 by (cbn in Hn; lia). split; [lia|done]. }
  pose proof (Z.mod_pos_bound n base ltac:(lia)) as Hm. destruct (char_digit_char (n mod base)) as [Hc Hr]; [lia|].
  assert (numeral base (digit_char (n mod base) :: acc) = n mod base * base ^ zlen acc + numeral base acc) as Hcons.
  { unfold numeral at 1. cbn [foldl]. rewrite numeral_from, Hc. lia. }
  pose proof (Z.div_mod n base ltac:(lia)) as Hdm. destruct (Z.eqb_spec (n / base) 0) as [E|E].
  - rewrite Hcons. split; [nia|]. intros Ha. constructor; [lia|done].
  - destruct (IH (n / base) (digit_char (n mod base) :: acc)) as [Hv Hf].
    { split; [apply Z.div_pos; lia|]. apply Z.div_lt_upper_bound; [lia|].
      replace (Z.of_nat (S fuel)) with (Z.of_nat fuel + 1) in Hn by lia. rewrite Z.pow_add_r in Hn by lia. lia. }
    split; [|intros Ha; apply Hf; constructor; [lia|done]]. rewrite Hv, Hcons.
    replace (zlen (digit_char (n mod base) :: acc)) with (zlen acc + 1) by (unfold zlen; cbn; lia).
    rewrite Z.pow_add_r by (unfold zlen; lia). nia.
Qed.
(** Formatted numbers read back as what they stand for, and contain no zero
    byte. *)
Lemma fmt_dec_correct n : 0 ≤ n < 2 ^ 64 → numeral 10 (fmt_dec n) = n ∧ 0 ∉ fmt_dec n.
Proof.
  intros Hn. destruct (digits_spec 20 10 n []) as [Hv Hf]; [lia|cbn; lia|]. split.
  { unfold fmt_dec. rewrite Hv. change (n * 1 + 0 = n). lia. }
  intros H0. specialize (Hf (Forall_nil_2 _)). rewrite Forall_forall in Hf. specialize (Hf 0 H0). lia.
Qed.
Lemma fmt_hex_correct n : 0 ≤ n < 2 ^ 64 → (∃ ds, fmt_hex n = text_bytes "0x" ++ ds ∧ numeral 16 ds = n) ∧ 0 ∉ fmt_hex n.
Proof.
  intros Hn. destruct (digits_spec 16 16 n []) as [Hv Hf]; [lia|cbn; lia|]. split.
  - eexists. split; [reflexivity|]. rewrite Hv. change (n * 1 + 0 = n). lia.
  - unfold fmt_hex. rewrite elem_of_app. intros [H0|H0]; [revert H0; by apply (bool_decide_unpack _)|].
    specialize (Hf (Forall_nil_2 _)). rewrite Forall_forall in Hf. specialize (Hf 0 H0). lia.
Qed.

(** ** Configuring the port *)

Lemma init_serial_spec n h :
  ∃ u, init_serial_interrupts (S n) h = Ret (with_com1 (λ _, u) h) ∧
    divisor u = 1 ∧ lcr u = 3 ∧ ier u = 1 ∧ rx u = [] ∧ sent u = sent (com1 h) ∧
    busy u = pred (busy (com1 h)) ∧ delay u = delay (com1 h).
Proof.
  assert (∀ x, (x / 256 * 256 + 1) mod 256 + 256 * 0 = 1) as Hdiv.
  { intros x. rewrite (Z.add_comm (x / 256 * 256) 1), Z.mod_add by done. done. }
  assert (∃ x y, outb COM1_IER 0 h = with_com1 (λ u, mkUart x (fcr u) (lcr u) (mcr u) y (rx u) (sent u) (busy u) (delay u)) h) as (x & y & E).
  { unfold COM1_IER. cbn [outb]. unfold with_com1, uart_ier. destruct (dlab _); by eexists _, _. }
  unfold init_serial_interrupts. cbv zeta. rewrite E. clear E. destruct h as [m s t [u1 u2 u3 u4 u5 u6 u7 u8 u9] kb].
  destruct u8; eexists; (split; [reflexivity|]); split_and!; try reflexivity; apply Hdiv.
Qed.

(** ** The boot sequence *)

(** Whatever state the devices are in, the set-up of [kernel_main] leaves
    the controllers delivering line [i] at vector [32 + i], in 8086 mode and
    properly cascaded, with exactly the timer, the keyboard and the serial
    port enabled; the timer runs in mode 3 with reload value 11931, which is
    100 interrupts a second; the serial port is at 115200 baud 8N1 with its
    receive interrupt on and nothing stale in its buffer. *)
Theorem interrupts_configured n h :
  ∃ h', setup_interrupts (S n) h = Ret h' ∧ operating h' ∧
    (pic_base (master h'), pic_base (slave h')) = (32, 40) ∧
    (pic_cascade (master h'), pic_cascade (slave h')) = (4, 2) ∧ (pic_mode (master h'), pic_mode (slave h')) = (1, 1) ∧
    (∀ i, 0 ≤ i < 16 → enabled h' i = bool_decide (i ∈ [0; 1; 4])) ∧
    pit_mode (timer h') = 3 ∧ PIT_BASE_FREQ / pit_reload (timer h') = 100 ∧ pit_low (timer h') = None ∧
    divisor (com1 h') = 1 ∧ lcr (com1 h') = 3 ∧ ier (com1 h') = 1 ∧ rx (com1 h') = [] ∧ sent (com1 h') = sent (com1 h) ∧
    (∀ fuel, polled fuel h → transmitting fuel h').
Proof.
  unfold setup_interrupts. destruct (init_serial_spec n (pic_init h)) as (u & -> & U). rewrite Ret_bind.
  destruct h as [[p1 n1 b1 c1 m1 i1 s1] [p2 n2 b2 c2 m2 i2 s2] [pm pl pr] u0 kb].
  eexists. split; [reflexivity|]. destruct U as (U1 & U2 & U3 & U4 & U5 & U6 & U7). split_and!; try reflexivity; try assumption; [by split| |].
  2: { intros fuel [Hb Hd]. cbn in U6, U7, Hb, Hd. split_and!; cbn [com1 with_com1 init_100hz pit_init outb]; [unfold dlab; cbn; by rewrite U2|cbn; lia|]. intros k. cbn. rewrite U7. apply Hd. }
  intros i Hi. assert (i ∈ seqZ 0 16) as Hin by (apply elem_of_seqZ; lia).
  change (negb (if i <? 8 then Z.testbit 0xEC i else Z.testbit 0xFF (i - 8)) && ((i <? 8) || false) = bool_decide (i ∈ [0; 1; 4])).
  assert (Forall (λ i, negb (if i <? 8 then Z.testbit 0xEC i else Z.testbit 0xFF (i - 8)) && ((i <? 8) || false) = bool_decide (i ∈ [0; 1; 4])) (seqZ 0 16)) as H
    by (apply (bool_decide_unpack _); by vm_compute).
  rewrite Forall_forall in H. by apply H.
Qed.

(** A machine behind its firmware: everything masked, a slow serial line. *)
Definition sample_hw : hw :=
  mkHw (mkPic Operating true 8 4 1 0xff 0) (mkPic Operating true 0x70 2 1 0xff 0) (mkPit 3 None 65536)
    (mkUart 0 0 3 0 12 [65] [] 3 (λ n, n mod 7)%nat) [0x1e].

Lemma unmask_irq_correct_witness :
  enabled (unmask_irq 12 sample_hw) 12 = true ∧ masked (unmask_irq 12 sample_hw) 11 = masked sample_hw 11.
Proof.
  destruct (unmask_irq_correct 12 sample_hw) as (_ & H1 & H2 & _); [lia|by split|]. split; [apply H1; lia|].
  apply H2; [lia|lia|]. intros _. discriminate.
Defined.

Lemma serial_write_transmits_witness :
  ∃ h', serial_write 8 [72; 105; 13; 10] sample_hw = Ret h' ∧ sent (com1 h') = [72; 105; 13; 10] ∧ rx (com1 h') = [65].
Proof.
  destruct (serial_write_transmits 7 [72; 105; 13; 10] sample_hw) as (h' & H1 & H2 & H3 & _); [reflexivity|cbn; lia| |].
  { intros k. cbn [delay com1 sample_hw]. pose proof (Nat.mod_upper_bound k 7). lia. }
  exists h'. split; [exact H1|]. split; [exact H2|exact H3].
Defined.
