(* ===== verification/Traps.v ===== *)
(** * Descriptor tables and interrupt dispatch

    [src/trap/gdt.rs], [src/trap/idt.rs] and [syscall::init]: the tables the
    processor reads, as the kernel fills them in, and the handler the
    interrupt stubs call.  Addresses of statics and stubs are parameters. *)

From S2P Require Import Prelude Bytes SerialInput Buddy Address Paging ProcLayout Elf Proc Devices.
Local Open Scope Z_scope.
Local Open Scope paging_scope.

(** ** Segments ([gdt.rs]) *)

Definition KERNEL_CODE_SELECTOR : Z := 0x08.
Definition KERNEL_DATA_SELECTOR : Z := 0x10.
Definition TSS_SELECTOR : Z := 0x28.
Definition DOUBLE_FAULT_IST_INDEX : Z := 1.
Definition GDT_ENTRIES : Z := 7.
Definition STACK_SIZE : Z := 16 * 1024.
Definition GDT_TSS_LOW : Z := 5.
Definition GDT_TSS_HIGH : Z := 6.

Record TaskStateSegment := mkTss { tss_rsp : list Z; tss_ist : list Z; iomap_base : Z }.
(** [size_of::<TaskStateSegment>()], packed. *)
Definition TSS_SIZE : Z := 4 + 3 * 8 + 8 + 7 * 8 + 8 + 2 + 2.
Definition TSS0 : TaskStateSegment := mkTss [0; 0; 0] [0; 0; 0; 0; 0; 0; 0] (as_u16 TSS_SIZE).

Definition segment_descriptor (access flags : Z) : Z :=
  let limit := 0x000FFFFF in
  Z.land limit 0xFFFF .| Z.shiftl access 40 .| Z.shiftl (Z.land (Z.shiftr limit 16) 0xF) 48 .| Z.shiftl flags 52.

Definition tss_descriptor (base limit : Z) : Z * Z :=
  let low := Z.land limit 0xFFFF .| Z.shiftl (Z.land base 0xFFFFFF) 16 .| Z.shiftl 0x89 40
    .| Z.shiftl (Z.land (Z.shiftr limit 16) 0xF) 48 .| Z.shiftl (Z.land (Z.shiftr base 24) 0xFF) 56 in
  let high := Z.shiftr base 32 in
  (low, high).

Definition GDT0 : list Z :=
  [0; segment_descriptor 0x9A 0xA; segment_descriptor 0x92 0xC; segment_descriptor 0xF2 0xC; segment_descriptor 0xFA 0xA; 0; 0].

Definition stack_top (stack : Z) : outcome Z := uadd stack STACK_SIZE.

(** The registers the tables are loaded into. *)
Record tables := mkTables {
  GDT : list Z; TSS : TaskStateSegment;
  gdtr : Z * Z; data_segment : Z; task_register : Z;
}.

Section gdt.
Context (gdt_addr tss_addr ring0_stack double_fault_stack : Z).

Definition init_tss (t : TaskStateSegment) : outcome TaskStateSegment :=
  r0 ← stack_top ring0_stack;
  rsp ← expect (arr_set (tss_rsp t) 0 r0);
  df ← stack_top double_fault_stack;
  ist ← expect (arr_set (tss_ist t) (DOUBLE_FAULT_IST_INDEX - 1) df);
  Ret (mkTss rsp ist (iomap_base t)).

Definition init_tss_descriptor (gdt : list Z) : outcome (list Z) :=
  let '(low, high) := tss_descriptor tss_addr (TSS_SIZE - 1) in
  gdt ← expect (arr_set gdt GDT_TSS_LOW low);
  expect (arr_set gdt GDT_TSS_HIGH high).

Definition load_gdt : Z * Z := (as_u16 (GDT_ENTRIES * 8 - 1), gdt_addr).

Definition gdt_init (t : tables) : outcome tables :=
  tss ← init_tss (TSS t);
  gdt ← init_tss_descriptor (GDT t);
  Ret (mkTables gdt tss load_gdt KERNEL_DATA_SELECTOR TSS_SELECTOR).
End gdt.

(** ** Interrupt gates ([idt.rs]) *)

Definition IDT_ENTRIES : Z := 256.
Definition INTERRUPT_GATE : Z := 0x8E.

Record IdtEntry := mkIdt {
  offset_low : Z; selector : Z; ist : Z; type_attr : Z; offset_mid : Z; offset_high : Z; reserved : Z;
}.
Definition IdtEntry_missing : IdtEntry := mkIdt 0 0 0 0 0 0 0.
Definition set_handler (handler i : Z) (_ : IdtEntry) : IdtEntry :=
  mkIdt (as_u16 handler) KERNEL_CODE_SELECTOR (Z.land i 0x7) INTERRUPT_GATE
    (as_u16 (Z.shiftr handler 16)) (as_u32 (Z.shiftr handler 32)) 0.
Definition IDT0 : list IdtEntry := replicate 256 IdtEntry_missing.

Section idt.
Context (exception_stub irq_stub : Z → Z).

Definition EXCEPTION_HANDLERS : list Z := exception_stub <$> seqZ 0 32.
Definition IRQ_HANDLERS : list Z := (λ i, irq_stub (32 + i)) <$> seqZ 0 IRQ_COUNT.

Definition set_entry (vector handler i : Z) (idt : list IdtEntry) : outcome (list IdtEntry) :=
  e ← expect (arr_get idt vector);
  expect (arr_set idt vector (set_handler handler i e)).

Definition init_entries (idt : list IdtEntry) : outcome (list IdtEntry) :=
  idt ← for_range 0 (zlen EXCEPTION_HANDLERS) (λ vector idt,
    let i := if vector =? 8 then DOUBLE_FAULT_IST_INDEX else 0 in
    handler ← expect (arr_get EXCEPTION_HANDLERS vector);
    set_entry vector handler i idt) idt;
  for_range 0 (zlen IRQ_HANDLERS) (λ irq idt,
    handler ← expect (arr_get IRQ_HANDLERS irq);
    vector ← uadd IRQ_BASE irq;
    set_entry vector handler 0 idt) idt.
End idt.

(** The operand of [lidt]. *)
Definition idt_load (idt_addr : Z) : Z * Z := (as_u16 (IDT_ENTRIES * 16 - 1), idt_addr).

(** ** Handlers *)

Definition exception_name (vector : Z) : string :=
  match vector with
  | 0 => "Divide Error" | 1 => "Debug" | 2 => "NMI" | 3 => "Breakpoint" | 4 => "Overflow"
  | 5 => "Bound Range Exceeded" | 6 => "Invalid Opcode" | 7 => "Device Not Available" | 8 => "Double Fault"
  | 9 => "Coprocessor Segment Overrun" | 10 => "Invalid TSS" | 11 => "Segment Not Present"
  | 12 => "Stack Segment Fault" | 13 => "General Protection Fault" | 14 => "Page Fault" | 15 => "Reserved"
  | 16 => "x87 Floating-Point Exception" | 17 => "Alignment Check" | 18 => "Machine Check"
  | 19 => "SIMD Floating-Point Exception" | 20 => "Virtualization Exception" | 21 => "Control Protection Exception"
  | 22 | 23 | 24 | 25 | 26 | 27 => "Reserved"
  | 28 => "Hypervisor Injection Exception" | 29 => "VMM Communication Exception" | 30 => "Security Exception" | 31 => "Reserved"
  | _ => "Unknown"
  end.

(** The pieces of the messages that the handlers print. *)
Definition exception_message (vector error_code rip : Z) : list (list Z) :=
  [text_bytes "CPU exception #"; fmt_dec vector; text_bytes " ("; text_bytes (exception_name vector); text_bytes ") error=";
   fmt_hex error_code; text_bytes " rip="; fmt_hex rip].
Definition keyboard_message (scancode : Z) : list (list Z) := [text_bytes "keyboard scancode "; fmt_hex scancode].
Definition unexpected_message (irq vector : Z) : list (list Z) :=
  [text_bytes "unexpected IRQ "; fmt_dec irq; text_bytes " vector "; fmt_dec vector].

(** Every exception is fatal: a message, then a panic. *)
Definition cpu_exception_handler (fuel : nat) (vector error_code rip : Z) (h : hw) : outcome unit :=
  _ ← printk fuel CURRENT_LEVEL Error (exception_message vector error_code rip) h;
  Panic.

(** The loop of [handle_serial_rx_interrupt] at the ports. *)
Definition byte_of (v : Z) : Byte.byte := default Byte.x00 (Byte.of_N (Z.to_N v)).
Fixpoint serial_rx (fuel : nat) (h : hw) (q : SerialInput) : outcome (hw * SerialInput) :=
  match fuel with
  | O => Diverge
  | S fuel =>
      let '(v, h) := inb COM1_LSR h in
      if Z.land v LSR_DATA_READY =? 0 then Ret (h, q)
      else
        let '(b, h) := inb COM1_DATA h in
        q ← Serial.push q (byte_of b);
        serial_rx fuel h q
  end.

Section irq.
Context `{FS : FrameSource B}.
Context (A : addresses).

Record irq_state := mkIrq {
  TIMER_TICKS : Z;
  devices : hw;
  SERIAL_INPUT : SerialInput;
  process : tasks (B := B);
}.

(** The fuel is for the bytes waiting at the serial port and for its
    transmitter.  The result tells whether the processor now runs another process than the interrupted one. *)
Definition irq_handler (fuel : nat) (vector : Z) (s : irq_state) : outcome (bool * irq_state) :=
  let irq := as_u8 (Z.max 0 (vector - IRQ_BASE)) in
  match irq with
  | 0 =>
      let ticks := (TIMER_TICKS s + 1) mod 2 ^ 64 in
      let h := end_of_interrupt irq (devices s) in
      '(switched, t) ← on_timer_tick A (process s);
      Ret (switched, mkIrq ticks h (SERIAL_INPUT s) t)
  | 1 =>
      let '(scancode, h) := inb 0x60 (devices s) in
      h ← printk fuel CURRENT_LEVEL Info (keyboard_message scancode) h;
      Ret (false, mkIrq (TIMER_TICKS s) (end_of_interrupt irq h) (SERIAL_INPUT s) (process s))
  | 4 =>
      '(h, r) ← serial_rx fuel (devices s) (SERIAL_INPUT s);
      Ret (false, mkIrq (TIMER_TICKS s) (end_of_interrupt irq h) r (process s))
  | _ =>
      h ← printk fuel CURRENT_LEVEL Warning (unexpected_message irq vector) (devices s);
      Ret (false, mkIrq (TIMER_TICKS s) (end_of_interrupt irq h) (SERIAL_INPUT s) (process s))
  end.
End irq.

(** ** The system call registers ([syscall::init]) *)

Definition IA32_EFER : Z := 0xC0000080.
Definition IA32_STAR : Z := 0xC0000081.
Definition IA32_LSTAR : Z := 0xC0000082.
Definition IA32_FMASK : Z := 0xC0000084.
Definition EFER_SCE : Z := 1.
Definition RFLAGS_IF_MASK : Z := Z.shiftl 1 9.
(** The processor hands a register over in two halves. *)
Definition rdmsr (r : Z) (msr : Z → Z) : Z :=
  let low := as_u32 (msr r) in
  let high := as_u32 (Z.shiftr (msr r) 32) in
  Z.shiftl high 32 mod 2 ^ 64 .| low.
Definition wrmsr (r v : Z) (msr : Z → Z) : Z → Z := λ x, if x =? r then v else msr x.

Definition syscall_init (entry : Z) (msr : Z → Z) : Z → Z :=
  let efer := rdmsr IA32_EFER msr .| EFER_SCE in
  let msr := wrmsr IA32_EFER efer msr in
  let user_star := (USER_DATA_SELECTOR - 8) mod 2 ^ 64 in
  let star := Z.shiftl user_star 48 mod 2 ^ 64 .| Z.shiftl KERNEL_CODE_SELECTOR 32 in
  let msr := wrmsr IA32_STAR star msr in
  let msr := wrmsr IA32_LSTAR entry msr in
  wrmsr IA32_FMASK RFLAGS_IF_MASK msr.
