(* ===== verification/TrapsCorrect.v ===== *)
(** * Correctness of the descriptor tables and of interrupt dispatch *)

From S2P Require Import Prelude Bytes SerialInput Buddy BuddyCorrect Address Paging PagingCorrect ProcLayout Elf Proc Sched SchedCorrect Machine Devices DevicesCorrect Traps.
Local Open Scope Z_scope.
Local Open Scope paging_scope.

(** ** Bit fields *)

Lemma testbit_above a k n : 0 ≤ k → 0 ≤ a < 2 ^ k → k ≤ n → Z.testbit a n = false.
Proof.
  intros Hk Ha Hn. destruct (decide (a = 0)) as [->|Hne]; [apply Z.bits_0|]. apply Z.bits_above_log2; [lia|].
  apply Z.log2_lt_pow2; [lia|]. assert (2 ^ k ≤ 2 ^ n) by (apply Z.pow_le_mono_r; lia). lia.
Qed.
Lemma lor_field a b k : 0 ≤ k → 0 ≤ a < 2 ^ k → Z.lor a (Z.shiftl b k) = a + b * 2 ^ k.
Proof.
  intros Hk Ha. rewrite Z.shiftl_mul_pow2 by done.
  assert (Z.land a (b * 2 ^ k) = 0) as Hdis.
  { apply Z.bits_inj'. intros n Hn. rewrite Z.land_spec, Z.bits_0.
    destruct (Z.ltb_spec n k); [rewrite Z.mul_pow2_bits_low by done; apply andb_false_r|]. by rewrite (testbit_above a k). }
  rewrite Z.add_nocarry_lxor by done. symmetry. by apply Z.lxor_lor.
Qed.

(** Splitting a number into fields and putting them together again. *)
Lemma split_field x k : 0 ≤ k → x mod 2 ^ k + 2 ^ k * (x / 2 ^ k) = x.
Proof. intros Hk. rewrite (Z.div_mod x (2 ^ k)) at 3; [lia|]. apply Z.pow_nonzero; lia. Qed.

(** ** Descriptors as the processor reads them *)

Definition seg_limit (d : Z) : Z := d mod 2 ^ 16 + 2 ^ 16 * (d / 2 ^ 48 mod 2 ^ 4).
Definition seg_base (d : Z) : Z := d / 2 ^ 16 mod 2 ^ 24 + 2 ^ 24 * (d / 2 ^ 56 mod 2 ^ 8).
Record segment := mkSegment { present : bool; dpl : Z; user_type : bool; seg_type : Z; long_mode : bool; default32 : bool; pages : bool }.
Definition decode_segment (d : Z) : segment :=
  mkSegment (Z.testbit d 47) (d / 2 ^ 45 mod 4) (Z.testbit d 44) (d / 2 ^ 40 mod 2 ^ 4) (Z.testbit d 53) (Z.testbit d 54) (Z.testbit d 55).
(** A system descriptor of 16 bytes. *)
Definition system_base (low high : Z) : Z := seg_base low + 2 ^ 32 * (high mod 2 ^ 32).

Lemma tss_low base limit :
  0 ≤ base < 2 ^ 64 → 0 ≤ limit < 2 ^ 20 →
  (tss_descriptor base limit).1 =
    limit mod 2 ^ 16 + 2 ^ 16 * (base mod 2 ^ 24 + 2 ^ 24 * (0x89 + 2 ^ 8 * (limit / 2 ^ 16 + 2 ^ 8 * (base / 2 ^ 24 mod 2 ^ 8)))).
Proof.
  intros Hb Hl. unfold tss_descriptor. cbn [fst]. change 0xFFFF with (Z.ones 16). change 0xFFFFFF with (Z.ones 24). change 0xFF with (Z.ones 8).
  change 0xF with (Z.ones 4). rewrite !Z.land_ones, !Z.shiftr_div_pow2 by lia.
  set (l := limit mod 2 ^ 16). set (b := base mod 2 ^ 24). set (c := base / 2 ^ 24 mod 2 ^ 8).
  assert (0 ≤ l < 2 ^ 16) by (apply Z.mod_pos_bound; lia). assert (0 ≤ b < 2 ^ 24) by (apply Z.mod_pos_bound; lia).
  assert (0 ≤ limit / 2 ^ 16 < 2 ^ 4) by (split; [apply Z.div_pos; lia|apply Z.div_lt_upper_bound; lia]).
  rewrite (Z.mod_small (limit / 2 ^ 16)) by done.
  rewrite (lor_field l b 16) by lia. rewrite (lor_field (l + b * 2 ^ 16) 0x89 40) by lia.
  rewrite (lor_field _ (limit / 2 ^ 16) 48) by lia. rewrite lor_field by lia. lia.
Qed.

Lemma tss_descriptor_decodes base limit :
  0 ≤ base < 2 ^ 64 → 0 ≤ limit < 2 ^ 20 →
  system_base (tss_descriptor base limit).1 (tss_descriptor base limit).2 = base ∧
  seg_limit (tss_descriptor base limit).1 = limit ∧
  decode_segment (tss_descriptor base limit).1 = mkSegment true 0 false 9 false false false.
Proof.
  intros Hb Hl. rewrite tss_low by done. cbn [snd tss_descriptor]. rewrite Z.shiftr_div_pow2 by lia.
  pose proof (split_field limit 16 ltac:(lia)) as El. pose proof (split_field base 24 ltac:(lia)) as Eb.
  pose proof (split_field (base / 2 ^ 24) 8 ltac:(lia)) as Ec. rewrite Z.div_div in Ec by lia. change (2 ^ 24 * 2 ^ 8) with (2 ^ 32) in Ec.
  set (l := limit mod 2 ^ 16) in *. set (b := base mod 2 ^ 24) in *. set (c := base / 2 ^ 24 mod 2 ^ 8) in *. set (m := limit / 2 ^ 16) in *.
  assert (0 ≤ l < 2 ^ 16) as H1 by (apply Z.mod_pos_bound; lia). assert (0 ≤ b < 2 ^ 24) as H2 by (apply Z.mod_pos_bound; lia).
  assert (0 ≤ c < 2 ^ 8) as H3 by (apply Z.mod_pos_bound; lia).
  assert (0 ≤ m < 2 ^ 4) as H4 by (split; [apply Z.div_pos; lia|apply Z.div_lt_upper_bound; lia]).
  assert (0 ≤ base / 2 ^ 32 < 2 ^ 32) as H5 by (split; [apply Z.div_pos; lia|apply Z.div_lt_upper_bound; lia]).
  unfold system_base, seg_base, seg_limit, decode_segment. rewrite !Z.testbit_eqb, (Z.mod_small (base / 2 ^ 32)) by lia.
  clearbody l b c m. set (h := base / 2 ^ 32) in *. set (b24 := base / 2 ^ 24) in *. clearbody h b24. clear Hl.
  change (2 ^ 16) with 65536 in *. change (2 ^ 24) with 16777216 in *. change (2 ^ 8) with 256 in *. change (2 ^ 48) with 281474976710656.
  change (2 ^ 56) with 72057594037927936. change (2 ^ 4) with 16 in *. change (2 ^ 32) with 4294967296 in *.
  change (2 ^ 40) with 1099511627776. change (2 ^ 44) with 17592186044416. change (2 ^ 45) with 35184372088832. change (2 ^ 47) with 140737488355328.
  change (2 ^ 53) with 9007199254740992. change (2 ^ 54) with 18014398509481984. change (2 ^ 55) with 36028797018963968.
  split_and!; [Z.to_euclidean_division_equations; lia|Z.to_euclidean_division_equations; lia|].
  f_equal; Z.to_euclidean_division_equations; lia.
Qed.

(** ** Segments *)

(** The descriptor a selector names. *)
Definition descriptor (t : tables) (sel : Z) : option Z := arr_get (GDT t) (sel / 8).

(** [gdt::init] gives the processor what it needs: ring 0 and ring 3 code
    in long mode and writable data, each with the privilege level of the
    selectors that name them, and a descriptor of an available 64-bit TSS
    that decodes to the address and size of the TSS wherever it lies; the TSS
    has the ring 0 stack in [rsp0] and the double fault stack in the entry of
    the interrupt stack table that the double fault gate selects. *)
Theorem gdt_init_correct gdt_addr tss_addr ring0 df t :
  GDT t = GDT0 → TSS t = TSS0 → 0 ≤ tss_addr < 2 ^ 64 →
  0 ≤ ring0 → ring0 + STACK_SIZE ≤ usize_max → 0 ≤ df → df + STACK_SIZE ≤ usize_max →
  ∃ t' low high, gdt_init gdt_addr tss_addr ring0 df t = Ret t' ∧
    decode_segment <$> descriptor t' KERNEL_CODE_SELECTOR = Some (mkSegment true 0 true 0xA true false true) ∧
    decode_segment <$> descriptor t' KERNEL_DATA_SELECTOR = Some (mkSegment true 0 true 0x2 false true true) ∧
    decode_segment <$> descriptor t' USER_DATA_SELECTOR = Some (mkSegment true 3 true 0x2 false true true) ∧
    decode_segment <$> descriptor t' USER_CODE_SELECTOR = Some (mkSegment true 3 true 0xA true false true) ∧
    USER_DATA_SELECTOR mod 4 = 3 ∧ USER_CODE_SELECTOR mod 4 = 3 ∧
    descriptor t' TSS_SELECTOR = Some low ∧ descriptor t' (TSS_SELECTOR + 8) = Some high ∧
    decode_segment low = mkSegment true 0 false 9 false false false ∧ system_base low high = tss_addr ∧ seg_limit low = TSS_SIZE - 1 ∧
    arr_get (tss_rsp (TSS t')) 0 = Some (ring0 + STACK_SIZE) ∧
    arr_get (tss_ist (TSS t')) (DOUBLE_FAULT_IST_INDEX - 1) = Some (df + STACK_SIZE) ∧
    gdtr t' = (8 * GDT_ENTRIES - 1, gdt_addr) ∧ task_register t' = TSS_SELECTOR ∧ data_segment t' = KERNEL_DATA_SELECTOR.
Proof.
  intros Hg Ht Htss H1 H2 H3 H4. destruct (tss_descriptor_decodes tss_addr (TSS_SIZE - 1) Htss ltac:(by vm_compute)) as (D1 & D2 & D3).
  destruct (tss_descriptor tss_addr (TSS_SIZE - 1)) as [low high] eqn:Ed. cbn [fst snd] in *.
  unfold gdt_init, init_tss, init_tss_descriptor, stack_top. rewrite Hg, Ht, Ed, !uadd_ok, !Ret_bind by done.
  eexists _, low, high. split; [reflexivity|]. split_and!; reflexivity || done.
Qed.

(** ** Gates *)

Definition gate_offset (e : IdtEntry) : Z := offset_low e + 2 ^ 16 * (offset_mid e + 2 ^ 16 * offset_high e).

Lemma set_handler_offset h i e : 0 ≤ h < 2 ^ 64 → gate_offset (set_handler h i e) = h.
Proof.
  intros Hh. unfold gate_offset, set_handler. cbn [offset_low offset_mid offset_high]. unfold as_u16, as_u32. rewrite !Z.shiftr_div_pow2 by lia.
  rewrite (Z.mod_small (h / 2 ^ 32)) by (split; [apply Z.div_pos; lia|apply Z.div_lt_upper_bound; lia]).
  replace (h / 2 ^ 32) with (h / 2 ^ 16 / 2 ^ 16) by (rewrite Z.div_div by lia; done). rewrite !split_field by lia. done.
Qed.

(** Writing entries in any order. *)
Lemma fill_entries body off entry l idt :
  (∀ i idt, i ∈ l → zlen idt = 256 → body i idt = expect (arr_set idt (off + i) (entry i))) →
  (∀ i, i ∈ l → 0 ≤ off + i < 256) → zlen idt = 256 →
  ∃ idt', for_each l body idt = Ret idt' ∧ zlen idt' = 256 ∧
    ∀ v, arr_get idt' v = if decide (v - off ∈ l) then Some (entry (v - off)) else arr_get (A := IdtEntry) idt v.
Proof.
  revert idt. induction l as [|i l IH]; intros idt Hbody Hr Hlen.
  { exists idt. split_and!; [done|done|]. intros v. rewrite decide_False; [done|]. apply not_elem_of_nil. }
  cbn [for_each]. rewrite Hbody by (done || by left). destruct (arr_set_is_Some idt (off + i) (entry i)) as [idt1 E1].
  { rewrite Hlen. apply Hr. by left. }
  rewrite E1. cbn [expect]. rewrite Ret_bind. destruct (IH idt1) as (idt' & -> & Hlen' & Hget).
  { intros j t Hj. apply Hbody. by right. }
  { intros j Hj. apply Hr. by right. }
  { by rewrite (arr_set_zlen _ _ _ _ E1). }
  exists idt'. split_and!; [done|done|]. intros v. rewrite Hget, (arr_set_get _ _ _ _ v E1).
  destruct (decide (v - off ∈ l)); [by rewrite decide_True by (by right)|].
  destruct (decide (off + i = v)) as [<-|]; [rewrite decide_True by (rewrite elem_of_cons; left; lia); do 2 f_equal; lia|].
  rewrite decide_False; [done|]. rewrite elem_of_cons. intros [?|?]; [lia|done].
Qed.

Section stubs.
Context (exc irq : Z → Z) (Hexc : ∀ v, 0 ≤ exc v < 2 ^ 64) (Hirq : ∀ v, 0 ≤ irq v < 2 ^ 64).

Lemma handlers_get (f : Z → Z) n i : 0 ≤ i < n → arr_get (f <$> seqZ 0 n) i = Some (f i).
Proof.
  intros Hi. unfold arr_get, zlen. rewrite length_fmap, length_seqZ, Z2Nat.id by lia.
  replace ((0 <=? i) && (i <? n)) with true by lia. rewrite list_lookup_fmap, lookup_seqZ_lt by lia. cbn. do 2 f_equal. lia.
Qed.

(** [idt::init] installs for each of the first 32 vectors the stub of that
    exception and for vectors 32 to 47 the stub of that interrupt line, as
    present ring 0 interrupt gates into the kernel's code segment whose three
    offset fields decode to the stub's address; only the double fault gate
    uses the interrupt stack table; the other 208 entries are untouched. *)
Theorem idt_init_correct idt :
  zlen idt = IDT_ENTRIES →
  ∃ idt', init_entries exc irq idt = Ret idt' ∧ zlen idt' = IDT_ENTRIES ∧
    ∀ v, 0 ≤ v < IDT_ENTRIES →
      if v <? 48 then ∃ e, arr_get idt' v = Some e ∧ gate_offset e = (if v <? 32 then exc v else irq v) ∧
        selector e = KERNEL_CODE_SELECTOR ∧ type_attr e = INTERRUPT_GATE ∧ ist e = (if v =? 8 then DOUBLE_FAULT_IST_INDEX else 0)
      else arr_get idt' v = arr_get idt v.
Proof.
  unfold IDT_ENTRIES. intros Hlen. unfold init_entries, for_range.
  change (zlen (EXCEPTION_HANDLERS exc)) with 32. change (zlen (IRQ_HANDLERS irq)) with 16.
  destruct (fill_entries (λ vector idt,
    handler ← expect (arr_get (EXCEPTION_HANDLERS exc) vector);
    set_entry vector handler (if vector =? 8 then DOUBLE_FAULT_IST_INDEX else 0) idt) 0
    (λ i, set_handler (exc i) (if i =? 8 then DOUBLE_FAULT_IST_INDEX else 0) IdtEntry_missing) (seqZ 0 (32 - 0)) idt) as (idt1 & -> & Hlen1 & Hget1).
  { intros i t Hi%elem_of_seqZ Ht. unfold EXCEPTION_HANDLERS. rewrite handlers_get by lia. cbn [expect]. rewrite Ret_bind. unfold set_entry.
    destruct (proj2 (arr_get_is_Some t i)) as [e ->]; [rewrite Ht; lia|]. by rewrite Z.add_0_l. }
  { intros i Hi%elem_of_seqZ. lia. }
  { done. }
  rewrite Ret_bind.
  destruct (fill_entries (λ i idt,
    handler ← expect (arr_get (IRQ_HANDLERS irq) i); vector ← uadd IRQ_BASE i; set_entry vector handler 0 idt) 32
    (λ i, set_handler (irq (32 + i)) 0 IdtEntry_missing) (seqZ 0 (16 - 0)) idt1) as (idt2 & -> & Hlen2 & Hget2).
  { intros i t Hi%elem_of_seqZ Ht. unfold IRQ_HANDLERS. rewrite handlers_get by (unfold IRQ_COUNT; lia). cbn [expect]. rewrite Ret_bind.
    unfold IRQ_BASE. rewrite uadd_ok, Ret_bind by (unfold usize_max; lia). unfold set_entry.
    destruct (proj2 (arr_get_is_Some t (32 + i))) as [e ->]; [rewrite Ht; lia|]. done. }
  { intros i Hi%elem_of_seqZ. lia. }
  { done. }
  exists idt2. split_and!; [done|done|]. intros v Hv. rewrite Hget2, Hget1, !Z.sub_0_r.
  destruct (Z.ltb_spec v 48).
  - destruct (decide (v - 32 ∈ seqZ 0 16)) as [Hin|Hin]; rewrite elem_of_seqZ in Hin.
    + eexists. split; [done|]. replace (v <? 32) with false by lia. replace (v =? 8) with false by lia.
      rewrite set_handler_offset by done. split_and!; [f_equal; lia|done..].
    + rewrite decide_True by (apply elem_of_seqZ; lia). eexists. split; [done|]. replace (v <? 32) with true by lia.
      rewrite set_handler_offset by done. split_and!; [done|done|done|]. cbn. by destruct (v =? 8).
  - rewrite !decide_False by (rewrite elem_of_seqZ; lia). done.
Qed.
End stubs.

(** ** Interrupt dispatch *)

Lemma data_ready u : Z.land (uart_status u).1 LSR_DATA_READY = match rx u with [] => 0 | _ => 1 end.
Proof. unfold uart_status. cbn [fst]. by destruct (rx u), (busy u). Qed.

(** The receive loop empties the port into the queue. *)
Lemma serial_rx_spec fuel h q :
  ring_ok q → (length (rx (com1 h)) < fuel)%nat →
  ∃ h' q', serial_rx fuel h q = Ret (h', q') ∧ ring_ok q' ∧
    queue q' = foldl bounded_push (queue q) (byte_of <$> rx (com1 h)) ∧
    rx (com1 h') = [] ∧ master h' = master h ∧ slave h' = slave h ∧ timer h' = timer h ∧
    keyboard h' = keyboard h ∧ sent (com1 h') = sent (com1 h).
Proof.
  revert h q. induction fuel as [|fuel IH]; intros h q Hq Hf; [lia|].
  cbn [serial_rx]. unfold COM1_LSR. cbn [inb]. pose proof (data_ready (com1 h)) as Hd.
  destruct (uart_status (com1 h)) as [v u] eqn:Eu. cbn [fst] in Hd. rewrite Hd. unfold uart_status in Eu. injection Eu as _ <-.
  destruct (rx (com1 h)) as [|b l] eqn:Erx; cbn [Z.eqb].
  - eexists _, q. split; [done|]. split_and!; done.
  - unfold COM1_DATA. cbn [inb com1 with_com1 uart_receive rx]. cbn [com1 with_com1].
    destruct (push_spec q (byte_of b) Hq) as (q1 & -> & Hq1 & Hqueue). rewrite Ret_bind.
    match goal with |- context [serial_rx fuel ?h1 q1] => set (h1' := h1) end.
    cbn [length] in Hf. destruct (IH h1' q1) as (h' & q' & Heq & Hok & Hqu & Hrx & Hrest); [done|cbn; lia|].
    exists h', q'. rewrite Heq. split_and!; [done|done| |done|apply Hrest..]. rewrite Hqu, Hqueue. done.
Qed.

(** Both controllers are told, the slave only for its own lines. *)
Definition acknowledged (irq : Z) (h h' : hw) : Prop :=
  master h' = pic_command PIC_EOI (master h) ∧
  slave h' = (if 8 <=? irq then pic_command PIC_EOI (slave h) else slave h) ∧ timer h' = timer h.

Lemma eoi_acknowledged irq h h' : master h = master h' → slave h = slave h' → timer h = timer h' →
  acknowledged irq h (end_of_interrupt irq h') ∧ com1 (end_of_interrupt irq h') = com1 h' ∧ keyboard (end_of_interrupt irq h') = keyboard h'.
Proof. intros E1 E2 E3. unfold acknowledged, end_of_interrupt. rewrite E1, E2, E3. by destruct (8 <=? irq). Qed.

Section dispatch.
Context `{FS : FrameSource B}.
Context (A : addresses) (HA : addresses_ok A).

Lemma fmt_dec_clean n : 0 ≤ n < 2 ^ 64 → 0 ∉ fmt_dec n.
Proof. apply fmt_dec_correct. Qed.
Lemma fmt_hex_clean n : 0 ≤ n < 2 ^ 64 → 0 ∉ fmt_hex n.
Proof. apply fmt_hex_correct. Qed.

(** What each line prints. *)
Definition irq_text (v : Z) (h : hw) : list Z :=
  if (v =? 32) || (v =? 36) then []
  else if v =? 33 then log_line Info (keyboard_message (List.hd 0 (keyboard h)))
  else log_line Warning (unexpected_message (v - 32) v).

(** The lines that only print. *)
Lemma irq_prints fuel v h :
  32 ≤ v < 48 → v ≠ 32 → v ≠ 36 → transmitting fuel h → Forall (λ c, 0 ≤ c < 256) (keyboard h) →
  let '(code, h1) := if v =? 33 then inb 0x60 h else (0, h) in
  ∃ h', printk fuel CURRENT_LEVEL (if v =? 33 then Info else Warning)
      (if v =? 33 then keyboard_message code else unexpected_message (v - 32) v) h1 = Ret h' ∧
    emits fuel (irq_text v h) h1 h' ∧ com1 h1 = com1 h ∧ master h1 = master h ∧ slave h1 = slave h ∧ timer h1 = timer h ∧
    keyboard h1 = (if v =? 33 then List.tl (keyboard h) else keyboard h).
Proof.
  intros Hv H1 H2 Htr Hk. unfold irq_text. replace ((v =? 32) || (v =? 36)) with false by lia. destruct (Z.eqb_spec v 33) as [->|H3].
  - destruct (inb 0x60 h) as [code h1] eqn:E.
    assert (code = List.hd 0 (keyboard h) ∧ com1 h1 = com1 h ∧ master h1 = master h ∧ slave h1 = slave h ∧ timer h1 = timer h ∧
      keyboard h1 = List.tl (keyboard h) ∧ 0 ≤ code < 256) as (-> & C1 & C2 & C3 & C4 & C5 & C6).
    { cbn in E. destruct (keyboard h) as [|c l] eqn:Ek; injection E as <- <-; [by rewrite Ek; split_and!|]. apply Forall_cons in Hk as [Hk _]. split_and!; (done || lia). }
    destruct (printk_spec fuel CURRENT_LEVEL Info (keyboard_message (List.hd 0 (keyboard h))) h1) as (h' & Hp & He); [done|by unfold transmitting; rewrite C1| |].
    { cbn [keyboard_message concat]. rewrite app_nil_r, elem_of_app. intros [H0|H0]; [revert H0; by apply (bool_decide_unpack _)|].
      revert H0. apply fmt_hex_clean. lia. }
    exists h'. by split_and!.
  - destruct (printk_spec fuel CURRENT_LEVEL Warning (unexpected_message (v - 32) v) h) as (h' & Hp & He); [done|done| |by exists h'; split_and!].
    cbn [unexpected_message concat]. rewrite app_nil_r, !elem_of_app. intros [H0|[H0|[H0|H0]]].
    + revert H0. by apply (bool_decide_unpack _).
    + revert H0. apply fmt_dec_clean. lia.
    + revert H0. by apply (bool_decide_unpack _).
    + revert H0. apply fmt_dec_clean. lia.
Qed.

(** C38: [__irq_handler] for every line of the controllers, with a serial
    transmitter that gets ready within the polls the fuel allows: it returns,
    has sent the end of interrupt exactly once to each controller concerned,
    and has changed only what its line is about.  The timer line counts the
    tick and does what a timer interrupt does to the processes (and
    acknowledges before it switches); the serial line moves everything
    received into the input queue and leaves the port empty; the keyboard line
    takes one scancode from the keyboard and transmits the line of log that
    shows it in hexadecimal; every other line transmits a warning with its
    number and its vector.  Nothing else is transmitted, taken from the
    keyboard or received. *)
Theorem irq_handler_correct fuel v (s : irq_state (B := B)) p a :
  32 ≤ v < 48 → ring_ok (SERIAL_INPUT s) → (length (rx (com1 (devices s))) < fuel)%nat →
  transmitting fuel (devices s) → Forall (λ c, 0 ≤ c < 256) (keyboard (devices s)) →
  models A p a → process s = with_if false p →
  ∃ sw s', irq_handler A fuel v s = Ret (sw, s') ∧ acknowledged (v - 32) (devices s) (devices s') ∧
    TIMER_TICKS s' = (if v =? 32 then (TIMER_TICKS s + 1) mod 2 ^ 64 else TIMER_TICKS s) ∧
    (if v =? 32 then timer_interrupt A p = Ret (if sw then process s' else with_if true (process s'))
     else sw = false ∧ process s' = process s) ∧
    queue (SERIAL_INPUT s') = (if v =? 36 then foldl bounded_push (queue (SERIAL_INPUT s)) (byte_of <$> rx (com1 (devices s)))
      else queue (SERIAL_INPUT s)) ∧
    rx (com1 (devices s')) = (if v =? 36 then [] else rx (com1 (devices s))) ∧
    keyboard (devices s') = (if v =? 33 then List.tl (keyboard (devices s)) else keyboard (devices s)) ∧
    sent (com1 (devices s')) = sent (com1 (devices s)) ++ irq_text v (devices s).
Proof.
  intros Hv Hring Hfuel Htr Hkb Hm Hp. unfold irq_handler, IRQ_BASE. replace (Z.max 0 (v - 32)) with (v - 32) by lia.
  unfold as_u8. rewrite Z.mod_small by lia.
  assert (v = 32 ∨ v = 36 ∨ (v ≠ 32 ∧ v ≠ 36)) as [->|[->|[H1 H2]]] by lia.
  - destruct (eoi_acknowledged (32 - 32) (devices s) (devices s) eq_refl eq_refl eq_refl) as (Hack & Hcom & Hkey). change (32 - 32) with 0 in *.
    destruct (tick_refines A HA p a Hm) as (p' & Hrun & _). unfold timer_interrupt in Hrun.
    destruct Hm as (_ & Hif & _). rewrite Hif, <- Hp in Hrun. destruct (on_timer_tick A (process s)) as [[sw t]| |] eqn:Ht; [|discriminate Hrun..].
    rewrite Ret_bind in Hrun. rewrite Ret_bind. eexists sw, _. split; [done|]. cbn [devices TIMER_TICKS process SERIAL_INPUT]. rewrite Hcom.
    split_and!; try done; [|by rewrite app_nil_r]. cbn [Z.eqb]. unfold timer_interrupt. by rewrite Hif, <- Hp, Ht.
  - change (36 - 32) with 4 in *. destruct (serial_rx_spec fuel (devices s) (SERIAL_INPUT s) Hring Hfuel) as (h' & q' & -> & _ & Hq & Hrx & E1 & E2 & E3 & E4 & E5).
    rewrite Ret_bind. eexists false, _. split; [done|]. cbn [devices TIMER_TICKS process SERIAL_INPUT].
    destruct (eoi_acknowledged 4 (devices s) h' (eq_sym E1) (eq_sym E2) (eq_sym E3)) as (Hack' & Hcom' & Hkey'). rewrite Hcom', Hkey'. split_and!; try done. by rewrite app_nil_r.
  - replace (v =? 32) with false by lia. replace (v =? 36) with false by lia.
    pose proof (irq_prints fuel v (devices s) Hv H1 H2 Htr Hkb) as Hpr.
    assert (∀ h1 h', com1 h1 = com1 (devices s) → master h1 = master (devices s) → slave h1 = slave (devices s) → timer h1 = timer (devices s) →
      emits fuel (irq_text v (devices s)) h1 h' →
      let e := end_of_interrupt (v - 32) h' in
      acknowledged (v - 32) (devices s) e ∧ rx (com1 e) = rx (com1 (devices s)) ∧ keyboard e = keyboard h1 ∧
      sent (com1 e) = sent (com1 (devices s)) ++ irq_text v (devices s)) as Hend.
    { intros h1 h' C1 C2 C3 C4 [S1 S2 _ (M1 & M2 & M3 & M4)] e. rewrite C1 in S1, S2. rewrite C2 in M1. rewrite C3 in M2. rewrite C4 in M3.
      destruct (eoi_acknowledged (v - 32) (devices s) h' (eq_sym M1) (eq_sym M2) (eq_sym M3)) as (Hack & Hcom & Hkey).
      unfold e. rewrite Hcom, Hkey. by split_and!. }
    destruct (Z.eqb_spec v 33) as [->|H3].
    + change (33 - 32) with 1 in *. cbn match. destruct (inb 0x60 (devices s)) as [code h1]. destruct Hpr as (h' & -> & He & C1 & C2 & C3 & C4 & C5).
      rewrite Ret_bind. destruct (Hend h1 h' C1 C2 C3 C4 He) as (G1 & G2 & G3 & G4). rewrite C5 in G3.
      eexists false, _. split; [done|]. cbn [devices TIMER_TICKS process SERIAL_INPUT]. by split_and!.
    + destruct Hpr as (h' & Hpr & He & _). destruct (Hend (devices s) h' eq_refl eq_refl eq_refl eq_refl He) as (G1 & G2 & G3 & G4).
      set (irq := v - 32) in *. eexists false, (mkIrq (TIMER_TICKS s) (end_of_interrupt irq h') (SERIAL_INPUT s) (process s)). split.
      { assert (irq ≠ 0 ∧ irq ≠ 1 ∧ irq ≠ 4) as (N0 & N1 & N4) by lia. clearbody irq.
        destruct irq as [|[[]|[|[]|]|]|]; try lia; rewrite Hpr; reflexivity. }
      cbn [devices TIMER_TICKS process SERIAL_INPUT]. by split_and!.
Qed.

(** An exception is reported before the kernel panics. *)
Lemma cpu_exception_reports fuel vector error_code rip h :
  transmitting fuel h → 0 ≤ vector < 2 ^ 64 → 0 ≤ error_code < 2 ^ 64 → 0 ≤ rip < 2 ^ 64 →
  (∃ h', printk fuel CURRENT_LEVEL Error (exception_message vector error_code rip) h = Ret h' ∧
    emits fuel (log_line Error (exception_message vector error_code rip)) h h') ∧
  cpu_exception_handler fuel vector error_code rip h = Panic.
Proof.
  intros Htr Hv He Hr. destruct (printk_spec fuel CURRENT_LEVEL Error (exception_message vector error_code rip) h) as (h' & Hp & Hem); [done|done| |].
  { cbn [exception_message concat]. rewrite app_nil_r, !elem_of_app. intros [H0|[H0|[H0|[H0|[H0|[H0|[H0|H0]]]]]]].
    all: try (revert H0; by apply (bool_decide_unpack _)).
    - by apply (fmt_dec_clean vector).
    - revert H0. unfold exception_name. repeat case_match; by apply (bool_decide_unpack _).
    - by apply (fmt_hex_clean error_code).
    - by apply (fmt_hex_clean rip). }
  split; [by exists h'|]. unfold cpu_exception_handler. by rewrite Hp.
Qed.
End dispatch.

(** ** System call registers *)

(** The selectors the processor loads on [syscall] and [sysretq]. *)
Definition syscall_cs (star : Z) : Z := star / 2 ^ 32 mod 2 ^ 16.
Definition syscall_ss (star : Z) : Z := star / 2 ^ 32 mod 2 ^ 16 + 8.
Definition sysret_cs (star : Z) : Z := Z.lor (star / 2 ^ 48 mod 2 ^ 16 + 16) 3.
Definition sysret_ss (star : Z) : Z := Z.lor (star / 2 ^ 48 mod 2 ^ 16 + 8) 3.

(** The halves make up the register. *)
Lemma rdmsr_bits r msr i : 0 ≤ i < 64 → Z.testbit (rdmsr r msr) i = Z.testbit (msr r) i.
Proof.
  intros Hi. unfold rdmsr, as_u32. rewrite Z.lor_spec, Z.mod_pow2_bits_low by lia. destruct (decide (i < 32)) as [Hl|Hl].
  - rewrite Z.shiftl_spec_low, Z.mod_pow2_bits_low by lia. done.
  - rewrite Z.shiftl_spec, !Z.mod_pow2_bits_low by lia. rewrite (Z.mod_pow2_bits_high (msr r)) by lia. rewrite Z.shiftr_spec by lia. by rewrite orb_false_r, Z.sub_add.
Qed.

(** After [syscall::init] the [syscall] instruction is enabled and enters
    the kernel's entry routine with the kernel's selectors and interrupts
    off; [sysretq] returns to the user code and data selectors; the other
    bits of EFER and all other registers are kept. *)
Theorem syscall_init_correct entry msr :
  let m := syscall_init entry msr in
  Z.testbit (m IA32_EFER) 0 = true ∧ (∀ i, 0 < i < 64 → Z.testbit (m IA32_EFER) i = Z.testbit (msr IA32_EFER) i) ∧
  m IA32_LSTAR = entry ∧
  syscall_cs (m IA32_STAR) = KERNEL_CODE_SELECTOR ∧ syscall_ss (m IA32_STAR) = KERNEL_DATA_SELECTOR ∧
  sysret_cs (m IA32_STAR) = USER_CODE_SELECTOR ∧ sysret_ss (m IA32_STAR) = USER_DATA_SELECTOR ∧
  Z.testbit (m IA32_FMASK) RFLAGS_IF = true ∧
  ∀ r, r ∉ [IA32_EFER; IA32_STAR; IA32_LSTAR; IA32_FMASK] → m r = msr r.
Proof.
  cbv zeta. assert (syscall_init entry msr IA32_EFER = Z.lor (rdmsr IA32_EFER msr) 1) as E by reflexivity. rewrite E.
  split; [rewrite Z.lor_spec; apply orb_true_r|]. split.
  { intros i Hi. rewrite Z.lor_spec, rdmsr_bits by lia. replace (Z.testbit 1 i) with false; [apply orb_false_r|]. symmetry. by apply (testbit_above 1 1); lia. }
  split_and!; try reflexivity. intros r Hr. rewrite !not_elem_of_cons in Hr. destruct Hr as (H1 & H2 & H3 & H4 & _).
  unfold syscall_init, wrmsr. by rewrite !(proj2 (Z.eqb_neq _ _)) by done.
Qed.

(** ** Concrete tables *)

Lemma gdt_init_correct_witness :
  ∃ t' low high, gdt_init 0x1000 0xFFFF800000123450 0x4000 0x8000 (mkTables GDT0 TSS0 (0, 0) 0 0) = Ret t' ∧
    descriptor t' TSS_SELECTOR = Some low ∧ system_base low high = 0xFFFF800000123450.
Proof.
  destruct (gdt_init_correct 0x1000 0xFFFF800000123450 0x4000 0x8000 (mkTables GDT0 TSS0 (0, 0) 0 0))
    as (t' & low & high & H1 & _ & _ & _ & _ & _ & _ & H2 & _ & _ & H3 & _); [reflexivity|reflexivity|lia|lia|by vm_compute|lia|by vm_compute|].
  exists t', low, high. split; [exact H1|]. split; [exact H2|exact H3].
Defined.

Lemma stubs_in_range : ∀ v : Z, 0 ≤ 0x100000 + 64 * (v mod 256) < 2 ^ 64.
Proof. intros v. pose proof (Z.mod_pos_bound v 256 ltac:(lia)). lia. Qed.

Lemma idt_init_correct_witness :
  ∃ idt', init_entries (λ v, 0x100000 + 64 * (v mod 256)) (λ v, 0x100000 + 64 * (v mod 256)) IDT0 = Ret idt' ∧
    ∃ e, arr_get idt' 8 = Some e ∧ gate_offset e = 0x100200 ∧ ist e = 1.
Proof.
  destruct (idt_init_correct (λ v, 0x100000 + 64 * (v mod 256)) (λ v, 0x100000 + 64 * (v mod 256)) stubs_in_range stubs_in_range IDT0)
    as (idt' & H1 & _ & H2); [reflexivity|]. exists idt'. split; [exact H1|].
  destruct (H2 8 ltac:(by vm_compute)) as (e & He & Ho & _ & _ & Hi). exists e. auto.
Defined.

(** A key press and a byte on the serial line, on the machine [trio]. *)
Definition trio_irq : irq_state (B := BuddyAllocator) := mkIrq 41 sample_hw Serial.new (with_if false trio).
Lemma new_ring : ring_ok Serial.new.
Proof. by split. Qed.

Lemma sample_transmitting : transmitting 8 sample_hw.
Proof. split_and!; [reflexivity|cbn; lia|]. intros n. cbn [delay com1 sample_hw]. pose proof (Nat.mod_upper_bound n 7). lia. Qed.
Lemma irq_handler_correct_witness :
  (∃ sw s', irq_handler medium_addresses 8 36 trio_irq = Ret (sw, s') ∧ queue (SERIAL_INPUT s') = [Byte.x41] ∧
    rx (com1 (devices s')) = []) ∧
  ∃ sw s', irq_handler medium_addresses 8 33 trio_irq = Ret (sw, s') ∧ keyboard (devices s') = [] ∧
    sent (com1 (devices s')) = text_bytes "[INFO]  keyboard scancode 0x1e" ++ [10].
Proof.
  assert (Forall (λ c, 0 ≤ c < 256) (keyboard (devices trio_irq))) as Hk by (repeat constructor; lia).
  split.
  - destruct (irq_handler_correct medium_addresses medium_addresses_ok 8 36 trio_irq trio trio_rr)
      as (sw & s' & H1 & _ & _ & _ & H2 & H3 & _); [lia|exact new_ring|cbn; lia|exact sample_transmitting|exact Hk|exact trio_models|reflexivity|].
    exists sw, s'. split; [exact H1|]. clear H1. split; [rewrite H2; vm_compute; reflexivity|exact H3].
  - destruct (irq_handler_correct medium_addresses medium_addresses_ok 8 33 trio_irq trio trio_rr)
      as (sw & s' & H1 & _ & _ & _ & _ & _ & H2 & H3); [lia|exact new_ring|cbn; lia|exact sample_transmitting|exact Hk|exact trio_models|reflexivity|].
    exists sw, s'. split; [exact H1|]. clear H1. split; [exact H2|]. rewrite H3. vm_compute. reflexivity.
Defined.
