(* ===== verification/Commands.v ===== *)
(** * Shell commands ([src/user/commands.rs])

    The command line: splitting into words, redirections, loading the program
    named by the first word from [/bin], and the built-in commands.  A command
    line is UTF-8; words and paths are its bytes. *)

From S2P Require Import Prelude Bytes RamFs Elf.
From stdpp Require Import sorting.
From Stdlib Require Import Strings.Byte.
From Stdlib Require Strings.String.
Local Open Scope Z_scope.

Inductive CommandError :=
  | CmdEmpty
  | CmdUnknown
  | CmdMissingArgument
  | CmdBadExecutable
  | CmdFs (e : FsError).

Record CommandOutput := mkOutput { out_stdout : bytes; out_stderr : bytes }.

Abbreviation CmdResult A := (Result A CommandError).

Definition output_stdout (text : bytes) : CommandOutput := mkOutput text [].
Definition output_empty : CommandOutput := mkOutput [] [].

(** ** [str::split_whitespace] *)

(** The length in bytes of a white space character at the head of the text
    (the characters with the Unicode property White_Space), or 0. *)
Definition ws_len (s : bytes) : nat :=
  match s with
  | x20 :: _ | x09 :: _ | x0a :: _ | x0b :: _ | x0c :: _ | x0d :: _ => 1
  | xc2 :: x85 :: _ | xc2 :: xa0 :: _ => 2
  | xe1 :: x9a :: x80 :: _ => 3
  | xe2 :: x80 :: c :: _ =>
      if (((0x80 <=? Z_of_byte c) && (Z_of_byte c <=? 0x8a)) || (Z_of_byte c =? 0xa8)
          || (Z_of_byte c =? 0xa9) || (Z_of_byte c =? 0xaf))%Z then 3 else 0
  | xe2 :: x81 :: x9f :: _ => 3
  | xe3 :: x80 :: x80 :: _ => 3
  | _ => 0
  end%nat.

Definition flush (word : bytes) : list bytes := if bool_decide (word = []) then [] else [word].

(** [skip] counts the bytes left of a white space character. *)
Fixpoint split_ws (skip : nat) (s word : bytes) : list bytes :=
  match s with
  | [] => flush word
  | c :: s' =>
      match skip with
      | S k => split_ws k s' word
      | O =>
          match ws_len s with
          | O => split_ws 0 s' (word ++ [c])
          | S n => flush word ++ split_ws n s' []
          end
      end
  end.

Definition to_str (b : bytes) : string := String.string_of_list_byte b.
Definition split_whitespace (line : string) : list string :=
  to_str <$> split_ws 0 (str_bytes line) [].

(** ** Commands *)

Definition read_file (fs : RamFs) (path : string) : CmdResult bytes :=
  map_err CmdFs (Fs.read fs path).

(** [fs.op(..)?; Ok(CommandOutput::empty())] *)
Definition done_or_err (r : FsResult unit * RamFs) : CmdResult CommandOutput * RamFs :=
  match r with
  | (Ok _, fs) => (Ok output_empty, fs)
  | (Err e, fs) => (Err (CmdFs e), fs)
  end.

Definition load_program (fs : RamFs) (name : string) : outcome (CmdResult ProgramId) :=
  match Program.from_name name with
  | None => Ret (Err CmdUnknown)
  | Some program =>
      match Fs.read fs ("/bin/" +:+ Program.name program)%string with
      | Err e => Ret (Err (CmdFs e))
      | Ok image =>
          parsed ← parse image;
          Ret match parsed with
              | Err _ => Err CmdBadExecutable
              | Ok p => if bool_decide (p_program p = program) then Ok program
                        else Err CmdBadExecutable
              end
      end
  end.

Definition cmd_ls (fs : RamFs) (words : list string) : CmdResult CommandOutput :=
  let path := default "/"%string (words !! 1%nat) in
  match Fs.list fs path with
  | Err e => Err (CmdFs e)
  | Ok names =>
      let names := merge_sort String.le names in
      Ok (output_stdout (concat ((λ n, str_bytes n ++ [x0a]) <$> names)))
  end.

Definition cmd_rm (fs : RamFs) (words : list string) : CmdResult CommandOutput * RamFs :=
  match words !! 1%nat with
  | None => (Err CmdMissingArgument, fs)
  | Some path => done_or_err (Fs.remove fs path)
  end.

Definition cmd_mv (fs : RamFs) (words : list string) : CmdResult CommandOutput * RamFs :=
  match words !! 1%nat, words !! 2%nat with
  | Some old, Some new => done_or_err (Fs.rename fs old new)
  | _, _ => (Err CmdMissingArgument, fs)
  end.

Definition cmd_cp (fs : RamFs) (words : list string) : CmdResult CommandOutput * RamFs :=
  match words !! 1%nat, words !! 2%nat with
  | Some src, Some dst => done_or_err (Fs.copy fs src dst)
  | _, _ => (Err CmdMissingArgument, fs)
  end.

Definition cmd_touch (fs : RamFs) (words : list string) : CmdResult CommandOutput * RamFs :=
  match words !! 1%nat with
  | None => (Err CmdMissingArgument, fs)
  | Some path => done_or_err (Fs.touch fs path)
  end.

(** [for path in &words[1..] { out.extend(&fs.read(path)?) }] *)
Fixpoint cat_files (fs : RamFs) (paths : list string) (out : bytes) : CmdResult bytes :=
  match paths with
  | [] => Ok out
  | path :: rest =>
      match read_file fs path with
      | Ok data => cat_files fs rest (out ++ data)
      | Err e => Err e
      end
  end.

Definition cmd_cat (fs : RamFs) (words : list string) (stdin : bytes) : CmdResult CommandOutput :=
  if bool_decide (length words = 1%nat) then Ok (output_stdout stdin)
  else
    match cat_files fs (drop 1 words) [] with
    | Ok out => Ok (output_stdout out)
    | Err e => Err e
    end.

Fixpoint echo_words (first : bool) (words : list string) (out : bytes) : bytes :=
  match words with
  | [] => out
  | word :: rest => echo_words false rest ((if first then out else out ++ [x20]) ++ str_bytes word)
  end.
Definition cmd_echo (words : list string) : CmdResult CommandOutput :=
  Ok (output_stdout (echo_words true (drop 1 words) [] ++ [x0a])).

Definition dispatch (fs : RamFs) (words : list string) (stdin : bytes)
    : outcome (CmdResult CommandOutput * RamFs) :=
  match words with
  | [] => Ret (Err CmdEmpty, fs)
  | name :: _ =>
      loaded ← load_program fs name;
      Ret match loaded with
          | Err e => (Err e, fs)
          | Ok Ls => (cmd_ls fs words, fs)
          | Ok Rm => cmd_rm fs words
          | Ok Mv => cmd_mv fs words
          | Ok Cp => cmd_cp fs words
          | Ok Touch => cmd_touch fs words
          | Ok Cat => (cmd_cat fs words stdin, fs)
          | Ok Echo => (cmd_echo words, fs)
          | Ok (Sleep | Count | Shell) => (Err CmdUnknown, fs)
          end
  end.

(** The redirection loop.  The source's vector is [kept ++ rest] and its
    [index] the length of [kept]; draining an operator and its path shortens
    [rest] by two. *)
Fixpoint redirections (fs : RamFs) (kept rest : list string) (input : bytes)
    (redirect_out : option (string * bool))
    : CmdResult (list string * bytes * option (string * bool)) :=
  match rest with
  | [] => Ok (kept, input, redirect_out)
  | op :: rest1 =>
      if bool_decide (op = ">"%string ∨ op = ">>"%string ∨ op = "<"%string) then
        match rest1 with
        | [] => Err CmdMissingArgument
        | path :: rest2 =>
            if bool_decide (op = "<"%string) then
              match read_file fs path with
              | Ok data => redirections fs kept rest2 data redirect_out
              | Err e => Err e
              end
            else redirections fs kept rest2 input (Some (path, bool_decide (op = ">>"%string)))
        end
      else redirections fs (kept ++ [op]) rest1 input redirect_out
  end.

Definition run_command (fs : RamFs) (line : string) (stdin : bytes)
    : outcome (CmdResult CommandOutput * RamFs) :=
  let words := split_whitespace line in
  if bool_decide (words = []) then Ret (Err CmdEmpty, fs)
  else
    match redirections fs [] words stdin None with
    | Err e => Ret (Err e, fs)
    | Ok (words, input, redirect_out) =>
        '(r, fs) ← dispatch fs words input;
        match r with
        | Err e => Ret (Err e, fs)
        | Ok output =>
            match redirect_out with
            | None => Ret (Ok output, fs)
            | Some (path, append) =>
                let r := if (append : bool) then Fs.append fs path (out_stdout output)
                         else Fs.write fs path (out_stdout output) in
                Ret (done_or_err r)
            end
        end
    end.

Definition seeded_fs : outcome RamFs := fs ← Fs.new; install_programs fs.

Example echo_redirect_cat :
  (fs ← seeded_fs;
   '(_, fs) ← run_command fs "echo hi  there > /tmp/x" [];
   '(r, _) ← run_command fs "cat < /tmp/x" [];
   Ret r) = Ret (Ok (output_stdout (str_bytes "hi there" ++ [x0a]))).
Proof. vm_compute. reflexivity. Qed.

(** ** Words *)

(** A word as typed: printable ASCII without spaces. *)
Definition plain_byte (c : byte) : Prop := 0x21 ≤ Z_of_byte c ≤ 0x7e.
Record typed_word (w : string) : Prop := {
  tw_bytes : Forall plain_byte (str_bytes w);
  tw_nonempty : w ≠ ""%string;
}.
Definition is_operator (w : string) : Prop := w = ">"%string ∨ w = ">>"%string ∨ w = "<"%string.

(** The words separated by single spaces. *)
Fixpoint join (ws : list string) : bytes :=
  match ws with
  | [] => []
  | [w] => str_bytes w
  | w :: rest => str_bytes w ++ [x20] ++ join rest
  end.

Lemma ws_len_plain c s : plain_byte c → ws_len (c :: s) = 0%nat.
Proof.
  intros H. unfold plain_byte in H.
  assert (Byte.to_N c ≤ 126)%N as Hc by (unfold Z_of_byte in H; lia).
  destruct c; try reflexivity; exfalso; revert H Hc; vm_compute; intros [H1 H2] H3;
    first [by apply H1|by apply H2|by apply H3].
Qed.

Lemma split_ws_word w s word :
  Forall plain_byte w → split_ws 0 (w ++ s) word = split_ws 0 s (word ++ w).
Proof.
  intros Hw. revert word. induction Hw as [|c w Hc Hw IH]; intros word.
  - by rewrite app_nil_r.
  - cbn [app split_ws]. rewrite ws_len_plain by done. rewrite IH, <- app_assoc. done.
Qed.

Lemma to_str_bytes w : to_str (str_bytes w) = w.
Proof. apply String.string_of_list_byte_of_string. Qed.

Lemma str_bytes_nonempty w : w ≠ ""%string → str_bytes w ≠ [].
Proof. by destruct w. Qed.

Lemma split_join ws : Forall typed_word ws → to_str <$> split_ws 0 (join ws) [] = ws.
Proof.
  induction 1 as [|w ws [Hb Hn] Hws IH]; [done|]. destruct ws as [|w' ws].
  - simpl. rewrite <- (app_nil_r (str_bytes w)), split_ws_word by done. simpl. unfold flush.
    rewrite bool_decide_false by (by apply str_bytes_nonempty). simpl. by rewrite to_str_bytes.
  - cbn [join]. rewrite split_ws_word by done. cbn [app split_ws ws_len].
    unfold flush. rewrite bool_decide_false by (by apply str_bytes_nonempty).
    rewrite fmap_app. cbn [fmap list_fmap app]. rewrite to_str_bytes. f_equal. exact IH.
Qed.

Lemma echo_join first ws out :
  echo_words first ws out =
    match ws with
    | [] => out
    | _ => (if first then out else out ++ [x20]) ++ join ws
    end.
Proof.
  revert first out. induction ws as [|w ws IH]; intros first out; [done|].
  cbn [echo_words]. rewrite IH. destruct ws as [|w' ws]; [done|].
  cbn [join]. by rewrite <- !app_assoc.
Qed.

Lemma split_line ws : Forall typed_word ws → split_whitespace (to_str (join ws)) = ws.
Proof.
  intros H. unfold split_whitespace, to_str at 2, str_bytes.
  rewrite String.list_byte_of_string_of_list_byte. by apply split_join.
Qed.

(** ** Redirections *)

Lemma redirections_plain fs kept ws rest input ro :
  Forall (λ w, ¬ is_operator w) ws →
  redirections fs kept (ws ++ rest) input ro = redirections fs (kept ++ ws) rest input ro.
Proof.
  intros H. revert kept. induction H as [|w ws Hw Hws IH]; intros kept; [by rewrite app_nil_r|].
  cbn [app redirections]. rewrite bool_decide_false by done. by rewrite IH, <- app_assoc.
Qed.

Lemma redirections_out fs kept path input append :
  redirections fs kept [(if (append : bool) then ">>" else ">")%string; path] input None =
    Ok (kept, input, Some (path, append)).
Proof. by destruct append. Qed.

(** The line [echo w1 .. wn > path], or with [>>]. *)
Definition echo_line (ws : list string) (append : bool) (path : string) : string :=
  to_str (join (["echo"%string] ++ ws ++ [(if append then ">>" else ">")%string; path])).

Lemma echo_words_line ws append path :
  Forall typed_word ws → typed_word path →
  split_whitespace (echo_line ws append path) =
    ["echo"%string] ++ ws ++ [(if append then ">>" else ">")%string; path].
Proof.
  intros Hws Hp. apply split_line. apply Forall_app. split.
  - constructor; [|done]. split; [|done]. repeat constructor; vm_compute; congruence.
  - apply Forall_app. split; [done|]. constructor; [|by constructor].
    destruct append; (split; [|done]); repeat constructor; vm_compute; congruence.
Qed.

(** ** Claims *)

(** Typing [echo w1 .. wn > path] (or [>>]) stores the words, separated by
    single spaces and ended by a newline, in the file (or appends them), prints
    nothing, and [cat < path] then prints what the file holds. *)
Theorem echo_redirect_correct fs ws (append : bool) path stdin fs' :
  Forall typed_word ws → Forall (λ w, ¬ is_operator w) ws → typed_word path →
  load_program fs "echo" = Ret (Ok Echo) →
  (if append then Fs.append else Fs.write) fs path (join ws ++ [x0a]) = (Ok (), fs') →
  run_command fs (echo_line ws append path) stdin = Ret (Ok output_empty, fs') ∧
  ∀ data, load_program fs' "cat" = Ret (Ok Cat) → Fs.read fs' path = Ok data →
    run_command fs' (to_str (join ["cat"; "<"; path]%string)) stdin = Ret (Ok (output_stdout data), fs').
Proof.
  intros Hws Hop Hp Hecho Hw. split.
  - unfold run_command. rewrite echo_words_line by done. rewrite bool_decide_false by done.
    change (["echo"%string] ++ ws ++ ?r) with (("echo"%string :: ws) ++ r).
    rewrite redirections_plain by (constructor; [intros [|[|]]; done|done]).
    rewrite redirections_out. cbn [app]. unfold dispatch. rewrite Hecho, Ret_bind.
    assert (cmd_echo ("echo"%string :: ws) = Ok (output_stdout (join ws ++ [x0a]))) as ->.
    { unfold cmd_echo. change (drop 1 (_ :: ws)) with ws. rewrite echo_join. by destruct ws. }
    cbn [mbind outcome_bind out_stdout output_stdout]. by destruct append; rewrite Hw.
  - intros data Hcat Hr. unfold run_command. rewrite split_line.
    2: { repeat constructor; try (vm_compute; congruence); apply Hp. }
    rewrite bool_decide_false by done.
    cbn [redirections]. rewrite bool_decide_false by (intros [|[|]]; done).
    rewrite bool_decide_true by (by right; right). rewrite bool_decide_true by done.
    unfold read_file. rewrite Hr. simpl. by rewrite Hcat.
Qed.

Definition sample_seeded : RamFs :=
  match seeded_fs with Ret fs => fs | _ => mkRamFs (Dir ∅) end.

Lemma echo_redirect_correct_witness :
  let fs' := (Fs.write sample_seeded "/tmp/x" (join ["hi"; "there"]%string ++ [x0a])).2 in
  run_command sample_seeded (echo_line ["hi"; "there"]%string false "/tmp/x") [] =
    Ret (Ok output_empty, fs').
Proof.
  intros fs'. apply (echo_redirect_correct sample_seeded ["hi"; "there"]%string false "/tmp/x" [] fs').
  - repeat constructor; vm_compute; congruence.
  - repeat constructor; intros [H|[H|H]]; discriminate H.
  - repeat constructor; vm_compute; congruence.
  - vm_compute. reflexivity.
  - vm_compute. reflexivity.
Defined.
