(* ===== verification/Shell.v ===== *)
(** * The kernel shell ([src/main.rs])

    Line editing, background and foreground jobs, and starting programs.  The
    shell's surroundings are the file system behind its lock, the processes,
    and the serial port, of which only the text written matters here.  Lines
    are bytes: [handle_byte] accepts printable ASCII only. *)

From S2P Require Import Prelude Bytes RamFs Elf Commands Buddy Address Paging ProcLayout Proc.
From stdpp Require Import pretty.
From Stdlib Require Import Strings.Byte.
Local Open Scope Z_scope.

Inductive JobKind := JobSleep | JobCount.
Record Job := mkJob { job_id : Z; job_name : string; job_kind : JobKind; remaining : Z; total : Z; background : bool }.
Record Shell := mkShell { line : bytes; jobs : list Job; active : option Job; next_job_id : Z; last_second : Z }.
Definition Shell_new : Shell := mkShell [] [] None 1 0.

Definition with_line (l : bytes) (s : Shell) : Shell := mkShell l (jobs s) (active s) (next_job_id s) (last_second s).
Definition with_jobs (js : list Job) (s : Shell) : Shell := mkShell (line s) js (active s) (next_job_id s) (last_second s).
Definition with_active (a : option Job) (s : Shell) : Shell := mkShell (line s) (jobs s) a (next_job_id s) (last_second s).
Definition with_next_id (n : Z) (s : Shell) : Shell := mkShell (line s) (jobs s) (active s) n (last_second s).
Definition with_second (n : Z) (s : Shell) : Shell := mkShell (line s) (jobs s) (active s) (next_job_id s) n.

(** ** Text *)

Definition crlf : bytes := [x0d; x0a].
(** [format!("{}", n)]. *)
Definition show (n : Z) : bytes := str_bytes (pretty (Z.to_N n)).

Definition is_ascii_digit (b : byte) : bool := (0x30 <=? Z_of_byte b) && (Z_of_byte b <=? 0x39).
Definition is_ascii_graphic (b : byte) : bool := (0x21 <=? Z_of_byte b) && (Z_of_byte b <=? 0x7e).

(** The loop of [parse_u32] and [parse_u64]; [max] is the type's maximum. *)
Fixpoint parse_loop (max value : Z) (text : bytes) : option Z :=
  match text with
  | [] => Some value
  | b :: text =>
      if is_ascii_digit b then
        let v := value * 10 in
        if v <=? max then
          let v := v + (Z_of_byte b - 0x30) in
          if v <=? max then parse_loop max v text else None
        else None
      else None
  end.
Definition parse_u32 (text : bytes) : option Z := parse_loop (2 ^ 32 - 1) 0 text.
Definition parse_u64 (text : bytes) : option Z := parse_loop (2 ^ 64 - 1) 0 text.

(** [trim_start], [trim_end] and [trim] on ASCII text. *)
Definition is_space (b : byte) : bool :=
  match b with x20 | x09 | x0a | x0b | x0c | x0d => true | _ => false end.
Fixpoint trim_start (l : bytes) : bytes :=
  match l with b :: l' => if is_space b then trim_start l' else l | [] => [] end.
Definition trim_end (l : bytes) : bytes := reverse (trim_start (reverse l)).
Definition trim (l : bytes) : bytes := trim_end (trim_start l).

(** [trim_start_matches("/bin/")]: the prefix goes as often as it is there. *)
Fixpoint trim_bin (fuel : nat) (s : bytes) : bytes :=
  match fuel, s with
  | S fuel, x2f :: x62 :: x69 :: x6e :: x2f :: rest => trim_bin fuel rest
  | _, _ => s
  end.

(** ** Jobs *)

Definition tick_job (j : Job) : Job * bytes :=
  if remaining j =? 0 then (j, [])
  else
    let j := mkJob (job_id j) (job_name j) (job_kind j) (remaining j - 1) (total j) (background j) in
    (j, match job_kind j with
        | JobCount => str_bytes (job_name j) ++ [x3a; x20] ++ show (total j - remaining j) ++ crlf
        | JobSleep => []
        end).

Definition prompt : bytes := str_bytes "zeronix:/home$ ".

(** The loop over [jobs]: finished jobs are removed and reported. *)
Fixpoint tick_jobs (idle : bool) (js : list Job) : list Job * bytes :=
  match js with
  | [] => ([], [])
  | j :: js =>
      let '(j, o1) := tick_job j in
      let '(js, o2) := tick_jobs idle js in
      if remaining j =? 0 then
        (js, o1 ++ crlf ++ [x5b] ++ show (job_id j) ++ str_bytes "] done " ++ str_bytes (job_name j) ++ crlf
             ++ (if idle then prompt else []) ++ o2)
      else (j :: js, o1 ++ o2)
  end.

Definition tick_one_second (s : Shell) : Shell * bytes :=
  let '(a, o1) :=
    match active s with
    | None => (None, [])
    | Some job =>
        let '(job, o) := tick_job job in
        if remaining job =? 0 then (None, o ++ str_bytes (job_name job) ++ str_bytes " done" ++ crlf ++ prompt)
        else (Some job, o)
    end in
  let '(js, o2) := tick_jobs (bool_decide (a = None)) (jobs s) in
  (with_jobs js (with_active a s), o1 ++ o2).

(** [poll_jobs] with the seconds since boot. *)
Fixpoint poll_loop (fuel : nat) (seconds : Z) (s : Shell) : outcome (Shell * bytes) :=
  if last_second s <? seconds then
    match fuel with
    | O => Diverge
    | S fuel =>
        n ← uadd (last_second s) 1;
        let '(s, o1) := tick_one_second (with_second n s) in
        '(s, o2) ← poll_loop fuel seconds s;
        Ret (s, o1 ++ o2)
    end
  else Ret (s, []).
Definition poll_jobs (fuel : nat) (timer_ticks : Z) (s : Shell) : outcome (Shell * bytes) := poll_loop fuel (timer_ticks / 100) s.

Definition suspend_active_job (s : Shell) : Shell * bytes :=
  match active s with
  | None => (s, [])
  | Some job =>
      let job := mkJob (job_id job) (job_name job) (job_kind job) (remaining job) (total job) true in
      (with_jobs (jobs s ++ [job]) (with_active None s),
       crlf ++ [x5b] ++ show (job_id job) ++ str_bytes "] stopped " ++ str_bytes (job_name job) ++ crlf ++ prompt)
  end.

Definition print_jobs (s : Shell) : bytes :=
  match jobs s with
  | [] => str_bytes "no background jobs" ++ crlf
  | js => concat ((λ j, [x5b] ++ show (job_id j) ++ str_bytes "] " ++ str_bytes (job_name j) ++ [x20] ++ show (remaining j)
      ++ str_bytes "s remaining" ++ crlf) <$> js)
  end.

(** The first job with this id, and the others. *)
Fixpoint take_job (id : Z) (js : list Job) : option (Job * list Job) :=
  match js with
  | [] => None
  | j :: js =>
      if job_id j =? id then Some (j, js)
      else match take_job id js with Some (k, js) => Some (k, j :: js) | None => None end
  end.

Definition foreground_job (id : option bytes) (s : Shell) : Shell * bytes :=
  match id ≫= parse_u64 with
  | None => (s, str_bytes "usage: fg <job-id>" ++ crlf)
  | Some id =>
      match take_job id (jobs s) with
      | None => (s, str_bytes "fg: no such job" ++ crlf)
      | Some (job, js) =>
          let job := mkJob (job_id job) (job_name job) (job_kind job) (remaining job) (total job) false in
          (with_active (Some job) (with_jobs js s), str_bytes (job_name job) ++ str_bytes " foreground" ++ crlf)
      end
  end.

(** ** Commands *)

Section commands.
Context `{FS : FrameSource B}.
Context (A : addresses).

(** What a command runs in.  [errors] are the messages of [printk]. *)
Record env := mkEnv { e_fs : option RamFs; e_tasks : tasks (B := B); e_out : bytes; e_errors : list CommandError }.
Definition write (o : bytes) (e : env) : env := mkEnv (e_fs e) (e_tasks e) (e_out e ++ o) (e_errors e).

Definition start_long_job (command : string) (words : list string) (bg : bool) (s : Shell) (e : env) : outcome (Shell * env) :=
  match e_fs e with
  | None => Ret (s, write (str_bytes "shell: filesystem is not initialized" ++ crlf) e)
  | Some fs =>
      program_ok ← load_program fs command;
      match program_ok with
      | Err _ => Ret (s, write (str_bytes "shell: executable not found" ++ crlf) e)
      | Ok _ =>
          let seconds := Z.max (default 5 (words !! 1%nat ≫= λ w, parse_u32 (str_bytes w))) 1 in
          let id := next_job_id s in
          n ← uadd id 1;
          let s := with_next_id n s in
          let job := mkJob id command (if bool_decide (command = "count"%string) then JobCount else JobSleep) seconds seconds bg in
          if bg then Ret (with_jobs (jobs s ++ [job]) s, write ([x5b] ++ show id ++ str_bytes "] " ++ str_bytes command ++ crlf) e)
          else Ret (with_active (Some job) s, write (str_bytes command ++ str_bytes " running; Ctrl-Z sends it to background" ++ crlf) e)
      end
  end.

Definition run_elf (program : option string) (e : env) : outcome env :=
  match program with
  | None => Ret (write (str_bytes "usage: run <program>" ++ crlf) e)
  | Some program =>
      let name := str_bytes program in
      let path := ("/bin/" +:+ to_str (trim_bin (length name) name))%string in
      match (λ fs, Fs.read fs path) <$> e_fs e with
      | Some (Ok image) =>
          '(r, t) ← spawn_elf A image (e_tasks e);
          let e := mkEnv (e_fs e) t (e_out e) (e_errors e) in
          match r with
          | Ok p =>
              proc ← expect (procs t !! p);
              Ret (write (str_bytes "started pid " ++ show (pid proc) ++ crlf) e)
          | Err _ => Ret (write (str_bytes "run: invalid executable" ++ crlf) e)
          end
      | _ => Ret (write (str_bytes "run: executable not found" ++ crlf) e)
      end
  end.

(** The hook for the exec system call: the new process id, and
    [InvalidArgument] for any error. *)
Definition exec_program (image : bytes) (t : tasks (B := B)) : outcome (option Z * tasks) :=
  '(r, t) ← spawn_elf A image t;
  match r with
  | Ok p => proc ← expect (procs t !! p); Ret (Some (pid proc), t)
  | Err _ => Ret (None, t)
  end.

(** The result tells whether the line was a command of the shell itself. *)
Definition run_shell_command (l : bytes) (bg : bool) (s : Shell) (e : env) : outcome (bool * Shell * env) :=
  let words := split_whitespace (to_str l) in
  match words with
  | [] => Ret (true, s, e)
  | command :: _ =>
      if bool_decide (command = "jobs"%string) then Ret (true, s, write (print_jobs s) e)
      else if bool_decide (command = "fg"%string) then
        let '(s, o) := foreground_job (str_bytes <$> words !! 1%nat) s in Ret (true, s, write o e)
      else if bool_decide (command = "run"%string ∨ command = "exec"%string) then
        e ← run_elf (words !! 1%nat) e; Ret (true, s, e)
      else if bool_decide (command = "sleep"%string ∨ command = "count"%string) then
        '(s, e) ← start_long_job command words bg s e; Ret (true, s, e)
      else Ret (false, s, e)
  end.

Definition run_line (s : Shell) (e : env) : outcome (Shell * env) :=
  let l := trim (line s) in
  match l with
  | [] => Ret (s, e)
  | _ =>
      let bg := bool_decide (last l = Some x26) in
      let l := if bg then trim_end (take (length l - 1) l) else l in
      if bg && bool_decide (l = []) then Ret (s, e)
      else
        '(handled, s, e) ← run_shell_command l bg s e;
        if (handled : bool) then Ret (s, e)
        else
          match e_fs e with
          | None => Ret (s, write (str_bytes "shell: filesystem is not initialized" ++ crlf) e)
          | Some fs =>
              '(r, fs) ← run_command fs (to_str l) [];
              let e := mkEnv (Some fs) (e_tasks e) (e_out e) (e_errors e) in
              match r with
              | Ok output => Ret (s, write (out_stderr output) (write (out_stdout output) e))
              | Err err => Ret (s, mkEnv (e_fs e) (e_tasks e) (e_out e) (e_errors e ++ [err]))
              end
          end
  end.

Definition handle_byte (b : byte) (s : Shell) (e : env) : outcome (Shell * env) :=
  match active s with
  | Some _ =>
      if bool_decide (b = x1a) then let '(s, o) := suspend_active_job s in Ret (s, write o e)
      else Ret (s, e)
  | None =>
      if bool_decide (b = x0d ∨ b = x0a) then
        '(s, e) ← run_line s (write crlf e);
        Ret (with_line [] s, write prompt e)
      else if bool_decide (b = x08 ∨ b = x7f) then
        match line s with
        | [] => Ret (s, e)
        | _ => Ret (with_line (take (length (line s) - 1) (line s)) s, write [x08; x20; x08] e)
        end
      else if is_ascii_graphic b || bool_decide (b = x20) then
        Ret (with_line (line s ++ [b]) s, write [b] e)
      else Ret (s, e)
  end.

(** The keys typed one after the other. *)
Fixpoint type_keys (keys : bytes) (s : Shell) (e : env) : outcome (Shell * env) :=
  match keys with
  | [] => Ret (s, e)
  | b :: keys => '(s, e) ← handle_byte b s e; type_keys keys s e
  end.
End commands.
