(* ===== verification/ShellCorrect.v ===== *)
(** * Correctness of the kernel shell *)

From stdpp Require Import pretty.
From Stdlib Require Import Strings.Byte.
From S2P Require Import Prelude Bytes RamFs Elf Commands Buddy Address Paging PagingCorrect ProcLayout Proc Machine Shell.
Local Open Scope Z_scope.

(** ** Numbers *)

Definition digit (b : byte) : Z := Z_of_byte b - 0x30.
(** The value of a decimal text, without any bound. *)
Definition decimal (text : bytes) : Z := foldl (λ v b, 10 * v + digit b) 0 text.

Lemma digit_range b : is_ascii_digit b = true → 0 ≤ digit b ≤ 9.
Proof. unfold is_ascii_digit, digit. lia. Qed.
Lemma decimal_from_mono text v : Forall (λ b, is_ascii_digit b = true) text → 0 ≤ v → v ≤ foldl (λ v b, 10 * v + digit b) v text.
Proof.
  intros H. revert v. induction H as [|b text Hb H IH]; intros v Hv; simpl; [lia|].
  pose proof (digit_range b Hb). specialize (IH (10 * v + digit b) ltac:(lia)). lia.
Qed.

Lemma parse_loop_spec max text v n :
  0 ≤ v ≤ max →
  parse_loop max v text = Some n ↔
    Forall (λ b, is_ascii_digit b = true) text ∧ foldl (λ v b, 10 * v + digit b) v text = n ∧ n ≤ max.
Proof.
  revert v. induction text as [|b text IH]; intros v Hv; simpl.
  - split; [intros [= <-]; split_and!; [constructor|done|lia]|by intros (_ & -> & _)].
  - destruct (is_ascii_digit b) eqn:Hb; [|split; [done|]; intros (H & _); apply Forall_cons in H as [H _]; congruence].
    pose proof (digit_range b Hb) as Hd. fold (digit b).
    assert (∀ w, 10 * v + digit b = w → max < w → ¬ (Forall (λ b, is_ascii_digit b = true) (b :: text) ∧
      foldl (λ v b, 10 * v + digit b) (10 * v + digit b) text = n ∧ n ≤ max)) as Hbig.
    { intros w <- Hw (H & Hn & Hmax). apply Forall_cons in H as [_ H]. pose proof (decimal_from_mono text (10 * v + digit b) H ltac:(lia)). lia. }
    destruct (Z.leb_spec (v * 10) max).
    + destruct (Z.leb_spec (v * 10 + digit b) max).
      * rewrite IH by lia. replace (v * 10 + digit b) with (10 * v + digit b) by lia. rewrite Forall_cons. tauto.
      * split; [done|]. intros H1. exfalso. by eapply (Hbig _ eq_refl); [lia|].
    + split; [done|]. intros H1. exfalso. by eapply (Hbig _ eq_refl); [lia|].
Qed.

(** [parse_u32] and [parse_u64] accept exactly the texts of decimal digits
    whose value fits the type, leading zeros and the empty text (as 0)
    included, and return that value; anything else, overflow included, is
    rejected. *)
Theorem parse_unsigned_correct text n :
  (parse_u32 text = Some n ↔ Forall (λ b, is_ascii_digit b = true) text ∧ decimal text = n ∧ n < 2 ^ 32) ∧
  (parse_u64 text = Some n ↔ Forall (λ b, is_ascii_digit b = true) text ∧ decimal text = n ∧ n < 2 ^ 64).
Proof.
  unfold parse_u32, parse_u64. rewrite !parse_loop_spec by lia. fold (decimal text).
  split; (split; (intros (? & ? & ?); (split; [assumption|]); (split; [assumption|lia]))).
Qed.

(** ** Time *)

(** A job [n] seconds later. *)
Definition elapse (n : Z) (j : Job) : Job :=
  mkJob (job_id j) (job_name j) (job_kind j) (remaining j - n) (total j) (background j).
Definition unfinished (j : Job) : Prop := 0 < remaining j.
#[global] Instance unfinished_dec j : Decision (unfinished j) := decide (0 < remaining j).

Definition all_jobs (s : Shell) : list Job := jobs s ++ option_list (active s).

Lemma tick_job_elapse j : unfinished j → (tick_job j).1 = elapse 1 j.
Proof. unfold unfinished, tick_job. intros H. by replace (remaining j =? 0) with false by lia. Qed.

Lemma tick_jobs_spec idle js : Forall unfinished js → (tick_jobs idle js).1 = filter unfinished (elapse 1 <$> js).
Proof.
  induction 1 as [|j js Hj Hjs IH]; [done|]. cbn [tick_jobs]. pose proof (tick_job_elapse j Hj) as E.
  destruct (tick_job j) as [j1 o1]. cbn [fst] in E. subst j1. destruct (tick_jobs idle js) as [js1 o2]. cbn [fst] in IH. subst js1.
  rewrite fmap_cons, filter_cons. unfold unfinished in Hj. cbn [elapse remaining].
  destruct (Z.eqb_spec (remaining j - 1) 0);
    [rewrite decide_False by (unfold unfinished; cbn; lia)|rewrite decide_True by (unfold unfinished; cbn; lia)]; done.
Qed.

(** The jobs after [n] seconds. *)
Definition later (n : Z) (js : list Job) : list Job := filter unfinished (elapse n <$> js).
Definition later_active (n : Z) (a : option Job) : option Job := j ← a; if decide (unfinished (elapse n j)) then Some (elapse n j) else None.

Lemma elapse_add m n j : elapse m (elapse n j) = elapse (n + m) j.
Proof. unfold elapse. cbn. f_equal. lia. Qed.
Lemma later_add m n js : 0 ≤ m → later m (later n js) = later (n + m) js.
Proof.
  intros Hm. unfold later. induction js as [|j js IH]; [done|]. rewrite !fmap_cons, !filter_cons.
  destruct (decide (unfinished (elapse n j))) as [H|H].
  - rewrite fmap_cons, filter_cons, elapse_add, IH. done.
  - rewrite IH. rewrite decide_False; [done|]. unfold unfinished in *. cbn in *. lia.
Qed.
Lemma later_active_add m n a : 0 ≤ m → later_active m (later_active n a) = later_active (n + m) a.
Proof.
  intros Hm. destruct a as [j|]; [|done]. cbn. destruct (decide (unfinished (elapse n j))) as [H|H]; cbn.
  - by rewrite elapse_add.
  - rewrite decide_False; [done|]. unfold unfinished in *. cbn in *. lia.
Qed.

Definition timely (s : Shell) : Prop := Forall unfinished (all_jobs s).

Lemma tick_one_second_spec s :
  timely s →
  let s' := (tick_one_second s).1 in
  jobs s' = later 1 (jobs s) ∧ active s' = later_active 1 (active s) ∧ line s' = line s ∧
  next_job_id s' = next_job_id s ∧ last_second s' = last_second s.
Proof.
  unfold timely, all_jobs. intros [Hj Ha]%Forall_app. unfold tick_one_second.
  assert (∃ o, match active s with
    | None => (None, [])
    | Some job => let '(job, o) := tick_job job in
        if remaining job =? 0 then (None, o ++ str_bytes (job_name job) ++ str_bytes " done" ++ crlf ++ prompt) else (Some job, o)
    end = (later_active 1 (active s), o)) as [o ->].
  { destruct (active s) as [j|]; [|by eexists]. apply Forall_inv in Ha. pose proof (tick_job_elapse j Ha) as E.
    destruct (tick_job j) as [j1 o1]. cbn [fst] in E. subst j1. cbn [later_active mbind option_bind]. unfold unfinished in Ha. cbn [elapse remaining].
    destruct (Z.eqb_spec (remaining j - 1) 0);
      [rewrite decide_False by (unfold unfinished; cbn; lia)|rewrite decide_True by (unfold unfinished; cbn; lia)]; by eexists. }
  pose proof (tick_jobs_spec (bool_decide (later_active 1 (active s) = None)) (jobs s) Hj) as E.
  destruct (tick_jobs _ (jobs s)) as [js o2]. cbn [fst] in E. subst js. done.
Qed.

(** [poll_jobs] with enough fuel for the seconds to catch up. *)
Lemma later_0 js : Forall unfinished js → later 0 js = js.
Proof.
  unfold later. induction 1 as [|j js Hj _ IH]; [done|]. rewrite fmap_cons, filter_cons.
  assert (elapse 0 j = j) as E by (destruct j; unfold elapse; cbn; f_equal; lia). rewrite E, decide_True, IH by done. done.
Qed.
Lemma later_active_0 a : Forall unfinished (option_list a) → later_active 0 a = a.
Proof.
  destruct a as [j|]; [|done]. intros Hj%Forall_inv. cbn.
  assert (elapse 0 j = j) as E by (destruct j; unfold elapse; cbn; f_equal; lia). rewrite E. by rewrite decide_True.
Qed.
Lemma later_unfinished n js : Forall unfinished (later n js).
Proof. apply Forall_forall. intros j [? _]%list_elem_of_filter. done. Qed.
Lemma later_active_unfinished n a : Forall unfinished (option_list (later_active n a)).
Proof. destruct a as [j|]; cbn; [|done]. case_decide; cbn; auto. Qed.

Lemma poll_loop_spec fuel seconds s :
  timely s → 0 ≤ last_second s → seconds < 2 ^ 64 → seconds - last_second s ≤ Z.of_nat fuel →
  let k := Z.max 0 (seconds - last_second s) in
  ∃ o, poll_loop fuel seconds s =
    Ret (mkShell (line s) (later k (jobs s)) (later_active k (active s)) (next_job_id s) (last_second s + k), o).
Proof.
  revert s. induction fuel as [|fuel IH]; intros s Ht H0 Hs Hf; cbn zeta; cbn [poll_loop].
  all: destruct (Z.ltb_spec (last_second s) seconds); [try lia|].
  1,3: replace (Z.max 0 (seconds - last_second s)) with 0 by lia; unfold timely, all_jobs in Ht; apply Forall_app in Ht as [Hj Ha];
    rewrite later_0, later_active_0, Z.add_0_r by done; exists []; by destruct s.
  rewrite uadd_ok by (unfold usize_max; lia). cbn [mbind outcome_bind].
  assert (timely (with_second (last_second s + 1) s)) as Ht1 by exact Ht.
  pose proof (tick_one_second_spec _ Ht1) as (Ej & Ea & El & En & Els).
  destruct (tick_one_second (with_second (last_second s + 1) s)) as [s1 o1]. cbn [fst] in Ej, Ea, El, En, Els.
  cbn [with_second jobs active line next_job_id last_second] in Ej, Ea, El, En, Els.
  edestruct (IH s1) as [o2 E2]; [|lia|lia|lia|].
  { unfold timely, all_jobs. rewrite Ej, Ea. apply Forall_app. split; [apply later_unfinished|apply later_active_unfinished]. }
  rewrite E2. cbn [mbind outcome_bind]. rewrite Ej, Ea, El, En, Els, later_add, later_active_add by lia.
  replace (1 + Z.max 0 (seconds - (last_second s + 1))) with (Z.max 0 (seconds - last_second s)) by lia.
  replace (last_second s + 1 + Z.max 0 (seconds - (last_second s + 1))) with (last_second s + Z.max 0 (seconds - last_second s)) by lia.
  by eexists.
Qed.

(** ** The invariant of the shell *)

Definition printable (b : byte) : Prop := is_ascii_graphic b || bool_decide (b = x20) = true.

Record job_ok (j : Job) : Prop := {
  jo_remaining : 0 < remaining j ≤ total j;
  jo_total : total j < 2 ^ 32;
  jo_name : job_name j = match job_kind j with JobSleep => "sleep"%string | JobCount => "count"%string end
}.

(** Distinct ids below the next one, and well-formed jobs. *)
Definition entries_ok (next : Z) (js : list Job) : Prop :=
  NoDup (job_id <$> js) ∧ Forall (λ j, 1 ≤ job_id j < next ∧ job_ok j) js.

Record shell_ok (s : Shell) : Prop := {
  so_entries : entries_ok (next_job_id s) (all_jobs s);
  so_background : Forall (λ j, background j = true) (jobs s);
  so_active : Forall (λ j, background j = false) (option_list (active s));
  so_line : Forall printable (line s);
  so_next : 1 ≤ next_job_id s;
  so_second : 0 ≤ last_second s
}.

Lemma shell_ok_timely s : shell_ok s → timely s.
Proof. intros [[_ H] _ _ _ _ _]. eapply Forall_impl; [exact H|]. intros j [_ []]. unfold unfinished. lia. Qed.

(** A job without its background flag, which the entries do not depend on. *)
Definition core (j : Job) : Job := mkJob (job_id j) (job_name j) (job_kind j) (remaining j) (total j) false.

Lemma entries_ok_core n l l' : core <$> l' ≡ₚ core <$> l → entries_ok n l → entries_ok n l'.
Proof.
  assert (∀ k, entries_ok n k ↔ entries_ok n (core <$> k)) as Hc.
  { intros k. unfold entries_ok. rewrite <-list_fmap_compose, Forall_fmap. f_equiv; [done|]. apply Forall_proper; [|done].
    intros j. unfold compose. cbn. split; (intros [? []]; split; [done|]; by split). }
  rewrite (Hc l), (Hc l'). intros Hp. unfold entries_ok. by rewrite Hp.
Qed.
Lemma entries_ok_snoc n l j :
  1 ≤ n → entries_ok n l → job_id j = n → job_ok j → entries_ok (n + 1) (l ++ [j]).
Proof.
  intros Hn [Hd Hf] Hj Hok. split.
  - rewrite fmap_app. apply NoDup_app. split_and!; [done| |apply NoDup_singleton].
    intros x (k & -> & Hk)%list_elem_of_fmap Hx%list_elem_of_singleton. rewrite Forall_forall in Hf. destruct (Hf _ Hk). lia.
  - apply Forall_app. split; [|constructor; [split; [lia|done]|constructor]]. eapply Forall_impl; [exact Hf|].
    intros k [? ?]. split; [lia|done].
Qed.

Lemma later_all n s : later n (all_jobs s) = later n (jobs s) ++ option_list (later_active n (active s)).
Proof.
  unfold all_jobs, later. rewrite fmap_app, filter_app. f_equal. destruct (active s) as [j|]; [|done].
  change (elapse n <$> option_list (Some j)) with [elapse n j]. rewrite filter_cons. cbn [later_active mbind option_bind]. by case_decide.
Qed.
Lemma entries_ok_later n k js : 0 ≤ k → entries_ok n js → entries_ok n (later k js).
Proof.
  intros Hk [Hd Hf]. split.
  - eapply sublist_NoDup; [|apply fmap_sublist, sublist_filter]. by rewrite <-list_fmap_compose.
  - apply Forall_forall. intros j [Hu (i & -> & Hi)%list_elem_of_fmap]%list_elem_of_filter.
    rewrite Forall_forall in Hf. destruct (Hf _ Hi) as [? []]. unfold unfinished in Hu. cbn in *. split; [done|]. split; cbn; [lia|lia|done].
Qed.

(** ** Steps that keep the invariant *)

Lemma shell_ok_line s l : shell_ok s → Forall printable l → shell_ok (with_line l s).
Proof. intros [] ?. by split. Qed.

Lemma shell_ok_later k s n : 0 ≤ k → 0 ≤ n → shell_ok s →
  shell_ok (mkShell (line s) (later k (jobs s)) (later_active k (active s)) (next_job_id s) n).
Proof.
  intros Hk Hn0 [He Hb Ha Hl Hn Hsec]. split; cbn [jobs active line next_job_id]; [| | |done|done|done].
  - unfold all_jobs. cbn [jobs active]. rewrite <-later_all. by apply entries_ok_later.
  - apply Forall_forall. intros j [_ (i & -> & Hi)%list_elem_of_fmap]%list_elem_of_filter. rewrite Forall_forall in Hb. by apply (Hb i).
  - destruct (active s) as [j|]; cbn; [|done]. apply Forall_inv in Ha. case_decide; cbn; auto.
Qed.

Lemma suspend_ok s : shell_ok s → shell_ok (suspend_active_job s).1.
Proof.
  intros Hs. unfold suspend_active_job. destruct (active s) as [j|] eqn:E; [|done]. destruct Hs as [He Hb Ha Hl Hn Hsec].
  split; cbn; [|by apply Forall_app; auto|done|done|done|done].
  eapply entries_ok_core; [|exact He]. unfold all_jobs. cbn. rewrite E, app_nil_r, !fmap_app. done.
Qed.

Lemma take_job_perm id js j js' : take_job id js = Some (j, js') → js ≡ₚ j :: js'.
Proof.
  revert js'. induction js as [|i js IH]; intros js'; cbn [take_job]; [done|].
  destruct (job_id i =? id); [by intros [= <- <-]|]. destruct (take_job id js) as [[k ks]|]; [|done].
  intros [= <- <-]. rewrite (IH ks) by done. apply Permutation_swap.
Qed.

Lemma foreground_ok id s : active s = None → shell_ok s → shell_ok (foreground_job id s).1.
Proof.
  intros Hi Hs. unfold foreground_job. destruct (id ≫= parse_u64) as [n|]; [|done].
  destruct (take_job n (jobs s)) as [[j js]|] eqn:E; [|done]. apply take_job_perm in E. destruct Hs as [He Hb Ha Hl Hn Hsec].
  split; cbn; [|by rewrite E in Hb; apply Forall_cons in Hb as [_ ?]|auto|done|done|done].
  eapply entries_ok_core; [|exact He]. unfold all_jobs. cbn. rewrite Hi, app_nil_r, E, fmap_app. cbn. by rewrite Permutation_app_comm.
Qed.

Section running.
Context `{FS : FrameSource B}.
Context (A : addresses).

Lemma start_long_job_ok command words bg s (e : env (B := B)) s' e' :
  active s = None → command = "sleep"%string ∨ command = "count"%string → shell_ok s →
  start_long_job command words bg s e = Ret (s', e') → shell_ok s'.
Proof.
  intros Hi Hc Hs. unfold start_long_job. destruct (e_fs e) as [fs|]; [|by intros [= <- _]].
  destruct (load_program fs command) as [[r|r]| |]; cbn [mbind outcome_bind]; try done; [|by intros [= <- _]].
  set (secs := Z.max _ 1).
  assert (1 ≤ secs < 2 ^ 32) as Hsecs.
  { unfold secs. split; [lia|]. destruct (words !! 1%nat) as [w|]; cbn [mbind option_bind default from_option id]; [|lia].
    destruct (parse_u32 (str_bytes w)) as [n|] eqn:E; cbn [default from_option id]; [|lia].
    unfold parse_u32 in E. apply parse_loop_spec in E as (_ & _ & E); lia. }
  clearbody secs. destruct (uadd (next_job_id s) 1) as [n| |] eqn:En; cbn [mbind outcome_bind]; try done. assert (n = next_job_id s + 1) as ->.
  { unfold uadd, checked_add in En. destruct (_ <=? _); [|done]. by injection En. }
  destruct Hs as [He Hb Ha Hl Hn Hsec].
  assert (∀ b, job_ok (mkJob (next_job_id s) command
    (if bool_decide (command = "count"%string) then JobCount else JobSleep) secs secs b)) as Hok.
  { intros b. split; cbn; [lia|lia|]. by destruct Hc as [-> | ->]. }
  unfold all_jobs in He. rewrite Hi in He. cbn in He. rewrite app_nil_r in He.
  destruct bg; intros [= <- _].
  - split; cbn; [|by apply Forall_app; auto|by rewrite Hi|done|lia|done]. unfold all_jobs. cbn. rewrite Hi. cbn. rewrite app_nil_r. by apply entries_ok_snoc.
  - split; cbn; [|done|auto|done|lia|done]. unfold all_jobs. cbn. by apply entries_ok_snoc.
Qed.

Lemma run_shell_command_ok l bg s (e : env (B := B)) h s' e' :
  active s = None → shell_ok s → run_shell_command A l bg s e = Ret (h, s', e') → shell_ok s'.
Proof.
  intros Hi Hs. unfold run_shell_command. destruct (split_whitespace (to_str l)) as [|c ws]; [by intros [= _ <- _]|].
  repeat case_bool_decide.
  - by intros [= _ <- _].
  - pose proof (foreground_ok (str_bytes <$> (c :: ws) !! 1%nat) s Hi Hs) as H1. destruct (foreground_job _ s). by intros [= _ <- _].
  - destruct (run_elf A _ e); cbn; try done. by intros [= _ <- _].
  - destruct (start_long_job c (c :: ws) bg s e) as [[s1 e1]| |] eqn:E; cbn [mbind outcome_bind]; try done.
    intros [= _ <- _]. by eapply start_long_job_ok.
  - by intros [= _ <- _].
Qed.

Lemma run_line_ok s (e : env (B := B)) s' e' : active s = None → shell_ok s → run_line A s e = Ret (s', e') → shell_ok s'.
Proof.
  intros Hi Hs. unfold run_line. destruct (trim (line s)) as [|b l]; [by intros [= <- _]|]. cbn zeta.
  case_match; [by intros [= <- _]|].
  destruct (run_shell_command A _ _ s e) as [[[h s1] e1]| |] eqn:E; cbn [mbind outcome_bind]; try done.
  apply run_shell_command_ok in E; [|done|done]. destruct h; [by intros [= <- _]|]. destruct (e_fs e1) as [fs|]; [|by intros [= <- _]].
  destruct (run_command fs _ _) as [[[o|o] fs']| |]; cbn [mbind outcome_bind]; try done; by intros [= <- _].
Qed.

Lemma handle_byte_ok b s (e : env (B := B)) s' e' : shell_ok s → handle_byte A b s e = Ret (s', e') → shell_ok s'.
Proof.
  intros Hs. unfold handle_byte. destruct (active s) as [j|] eqn:Hi.
  { case_bool_decide; [|by intros [= <- _]]. pose proof (suspend_ok s Hs) as H1. destruct (suspend_active_job s). by intros [= <- _]. }
  case_bool_decide.
  { destruct (run_line A s _) as [[s1 e1]| |] eqn:E; cbn [mbind outcome_bind]; try done. intros [= <- _].
    apply shell_ok_line; [by eapply run_line_ok|constructor]. }
  case_bool_decide.
  { destruct (line s) as [|c l] eqn:El; intros [= <- _]; [done|]. apply shell_ok_line; [done|]. rewrite <-El. apply Forall_take, Hs. }
  case_match eqn:Hp; intros [= <- _]; [|done]. apply shell_ok_line; [done|]. apply Forall_app. split; [apply Hs|]. by constructor.
Qed.

(** What the shell does with its surroundings: a key, the clock, or a change
    made by the running processes. *)
Inductive shell_step : Shell * env (B := B) → Shell * env → Prop :=
| step_key b s e s' e' : handle_byte A b s e = Ret (s', e') → shell_step (s, e) (s', e')
| step_poll fuel ticks s e s' o : poll_jobs fuel ticks s = Ret (s', o) → shell_step (s, e) (s', write o e)
| step_others s e e' : shell_step (s, e) (s, e').

Lemma tick_one_second_ok s : shell_ok s → shell_ok (tick_one_second s).1.
Proof.
  intros Hs. pose proof (tick_one_second_spec s (shell_ok_timely s Hs)) as (Ej & Ea & El & En & Es).
  destruct (tick_one_second s) as [[l js a n sec] o]. cbn in *. subst. apply shell_ok_later; [lia|apply Hs|done].
Qed.
Lemma poll_loop_ok fuel seconds s s' o : shell_ok s → poll_loop fuel seconds s = Ret (s', o) → shell_ok s'.
Proof.
  revert s o. induction fuel as [|fuel IH]; intros s o Hs; cbn [poll_loop]; (case_match eqn:Hlt; [|by intros [= <- _]]); [done|].
  destruct (uadd (last_second s) 1) as [n| |] eqn:En; cbn [mbind outcome_bind]; try done.
  assert (shell_ok (with_second n s)) as H1.
  { destruct Hs. split; try done. cbn. unfold uadd, checked_add in En. destruct (_ <=? _); [|done]. injection En as <-. lia. }
  pose proof (tick_one_second_ok _ H1) as H2. destruct (tick_one_second (with_second n s)) as [s1 o1]. cbn [fst] in H2.
  destruct (poll_loop fuel seconds s1) as [[s2 o2]| |] eqn:E; cbn [mbind outcome_bind]; try done. intros [= <- _]. by eapply IH.
Qed.

(** C40: The shell's state is well formed for as long as it runs, whatever is
    typed, however the clock advances and whatever the processes do: job ids
    are distinct and below the next one, every listed job has between 1 and
    [total] seconds left (so that the subtractions of [tick_job] never wrap),
    exactly the jobs of the list are background jobs, and the line holds
    printable characters only. *)
Theorem shell_reachable e0 s e : rtc shell_step (Shell_new, e0) (s, e) → shell_ok s.
Proof.
  intros H. change (shell_ok (s, e).1). assert (shell_ok (Shell_new, e0).1) as H0.
  { repeat split; cbn; try constructor; lia. }
  revert H0. induction H as [|x y z Hxy _ IH]; [done|]. intros Hx. apply IH.
  destruct Hxy; cbn [fst] in *; [by eapply handle_byte_ok|by eapply poll_loop_ok|done].
Qed.

(** ** Line editing *)

Lemma write_write o1 o2 (e : env (B := B)) : write o2 (write o1 e) = write (o1 ++ o2) e.
Proof. unfold write. cbn. by rewrite app_assoc. Qed.
Lemma type_keys_app k1 k2 s (e : env (B := B)) :
  type_keys A (k1 ++ k2) s e = '(s, e) ← type_keys A k1 s e; type_keys A k2 s e.
Proof.
  revert s e. induction k1 as [|b k1 IH]; intros s e; [done|]. cbn [app type_keys].
  destruct (handle_byte A b s e) as [[s1 e1]| |]; cbn [mbind outcome_bind]; [apply IH|done|done].
Qed.
Lemma type_printable keys s (e : env (B := B)) :
  active s = None → Forall printable keys → type_keys A keys s e = Ret (with_line (line s ++ keys) s, write keys e).
Proof.
  intros Hi H. revert s e Hi. induction H as [|b keys Hb _ IH]; intros s e Hi; cbn [type_keys].
  { rewrite app_nil_r. unfold write. rewrite app_nil_r. by destruct s, e. }
  assert (handle_byte A b s e = Ret (with_line (line s ++ [b]) s, write [b] e)) as ->.
  { unfold handle_byte. rewrite Hi. unfold printable in Hb.
    rewrite (bool_decide_eq_false_2 (b = x0d ∨ b = x0a)), (bool_decide_eq_false_2 (b = x08 ∨ b = x7f)), Hb by (by intros [-> | ->]). done. }
  cbn [mbind outcome_bind]. rewrite IH by done. cbn [with_line line]. by rewrite write_write, <-app_assoc.
Qed.
Definition rubout : bytes := [x08; x20; x08].
Lemma type_erase n s (e : env (B := B)) :
  active s = None → (n ≤ length (line s))%nat →
  type_keys A (replicate n x7f) s e = Ret (with_line (take (length (line s) - n) (line s)) s, write (concat (replicate n rubout)) e).
Proof.
  revert s e. induction n as [|n IH]; intros s e Hi Hn; cbn [replicate type_keys].
  { rewrite Nat.sub_0_r, firstn_all. unfold write. cbn. rewrite app_nil_r. by destruct s, e. }
  assert (handle_byte A x7f s e = Ret (with_line (take (length (line s) - 1) (line s)) s, write rubout e)) as ->.
  { unfold handle_byte. rewrite Hi. destruct (line s); [cbn in Hn; lia|done]. }
  cbn [mbind outcome_bind]. rewrite IH; [|done|cbn; rewrite length_take; lia].
  cbn [with_line line]. rewrite write_write, length_take, take_take. cbn [concat].
  replace (_ `min` _)%nat with (length (line s) - S n)%nat by lia. done.
Qed.

(** Erasing what was typed restores the shell: after printable keys and as
    many backspaces on an idle shell, the line and everything else is as it
    was, and what was echoed is the keys and one rub-out for each. *)
Theorem typing_erased keys s (e : env (B := B)) :
  active s = None → Forall printable keys →
  type_keys A (keys ++ replicate (length keys) x7f) s e = Ret (s, write (keys ++ concat (replicate (length keys) rubout)) e).
Proof.
  intros Hi Hk. rewrite type_keys_app, type_printable by done. cbn [mbind outcome_bind].
  rewrite type_erase; [|done|cbn; rewrite length_app; lia]. cbn [with_line line]. rewrite write_write, length_app, Nat.add_sub, take_app_length.
  by destruct s.
Qed.
End running.

(** [poll_jobs] terminates and catches up: with one iteration per second
    since the last call it returns, the clock is at the current second, every
    job has that many seconds less, and exactly the jobs that have no second
    left are gone, in the background and in the foreground. *)
Theorem poll_jobs_correct s ticks :
  shell_ok s → 0 ≤ ticks < 2 ^ 64 →
  let k := Z.max 0 (ticks / 100 - last_second s) in
  ∃ o, poll_jobs (Z.to_nat k) ticks s =
    Ret (mkShell (line s) (later k (jobs s)) (later_active k (active s)) (next_job_id s) (Z.max (last_second s) (ticks / 100)), o).
Proof.
  intros Hs Ht k. unfold poll_jobs. pose proof (so_second s Hs).
  destruct (poll_loop_spec (Z.to_nat k) (ticks / 100) s) as [o E]; [by apply shell_ok_timely|done| |lia|].
  { Z.to_euclidean_division_equations; lia. }
  exists o. rewrite E. fold k. do 3 f_equal. lia.
Qed.

(** ** Witnesses *)

Definition busy_shell : Shell :=
  mkShell (str_bytes "ls") [mkJob 1 "sleep" JobSleep 3 5 true; mkJob 2 "count" JobCount 2 2 true] None 3 4.
Lemma busy_shell_ok : shell_ok busy_shell.
Proof.
  split; cbn; [split|..].
  - apply (bool_decide_unpack _). by vm_compute.
  - repeat constructor; cbn; lia.
  - by repeat constructor.
  - by repeat constructor.
  - by repeat constructor.
  - lia.
  - lia.
Qed.

Lemma poll_jobs_correct_witness :
  ∃ o, poll_jobs 2 650 busy_shell = Ret (mkShell (str_bytes "ls") [mkJob 1 "sleep" JobSleep 1 5 true] None 3 6, o).
Proof. destruct (poll_jobs_correct busy_shell 650 busy_shell_ok ltac:(lia)) as [o E]. exists o. exact E. Defined.

Definition quiet : env (B := BuddyAllocator) := mkEnv (match seeded_fs with Ret fs => Some fs | _ => None end) trio [] [].

Lemma typing_erased_witness :
  type_keys medium_addresses [x6c; x73; x7f; x7f] busy_shell quiet = Ret (busy_shell, write [x6c; x73; x08; x20; x08; x08; x20; x08] quiet).
Proof. apply (typing_erased medium_addresses [x6c; x73] busy_shell quiet); [done|]. by repeat constructor. Defined.

Lemma type_keys_steps keys s e s' e' :
  type_keys medium_addresses keys s e = Ret (s', e') → rtc (shell_step medium_addresses) (s, e) (s', e').
Proof.
  revert s e. induction keys as [|b keys IH]; intros s e; cbn [type_keys]; [by intros [= <- <-]|].
  destruct (handle_byte medium_addresses b s e) as [[s1 e1]| |] eqn:E; cbn [mbind outcome_bind]; try done.
  intros H. eapply rtc_l; [by apply (step_key _ b)|by apply IH].
Qed.

(** [sleep 10 &] and then [count] in the foreground, sent to the background
    after its third second. *)
Definition session : bytes := str_bytes "sleep 10 &" ++ [x0d] ++ str_bytes "count" ++ [x0d].
Lemma shell_reachable_witness :
  shell_ok (mkShell [] [mkJob 1 "sleep" JobSleep 7 10 true; mkJob 2 "count" JobCount 2 5 true] None 3 3).
Proof.
  destruct (type_keys medium_addresses session Shell_new quiet) as [[s1 e1]| |] eqn:E1; [|by vm_compute in E1|by vm_compute in E1].
  assert (s1 = mkShell [] [mkJob 1 "sleep" JobSleep 10 10 true] (Some (mkJob 2 "count" JobCount 5 5 false)) 3 0) as ->.
  { assert (match type_keys medium_addresses session Shell_new quiet with Ret (s, _) => s | _ => Shell_new end = s1) as <- by by rewrite E1.
    by vm_compute. }
  apply type_keys_steps in E1. eapply (shell_reachable medium_addresses quiet _ _). etransitivity; [exact E1|].
  eapply rtc_l; [apply (step_poll _ 3 342); vm_compute; reflexivity|]. eapply rtc_l; [apply (step_key _ x1a); reflexivity|]. apply rtc_refl.
Defined.
