(* ===== verification/ShellEnds.v ===== *)
(** * Handling a key ends

    Whatever a user types, the shell comes back to its loop or the kernel
    panics: no command loops forever, as long as the page allocator is intact,
    and every key leaves it so.  Where there is room for a process and the
    programs in the file system are sane, it comes back. *)

From stdpp Require Import pretty.
From Stdlib Require Import Strings.Byte.
From S2P Require Import Prelude Bytes RamFs Elf ElfCorrect Commands Buddy Address Paging PagingInv PagingCorrect PagingInit ProcLayout Proc SpaceBuild Spawn SpawnView Sched SchedCorrect System SpawnCorrect SystemCorrect Shell ShellCorrect.
Local Open Scope Z_scope.

(** ** Code without loops of its own *)

Lemma ends_expect {A} (o : option A) : ends false (expect o) (λ _, True).
Proof. by destruct o. Qed.
Lemma ends_assert b : ends false (assert_that b) (λ _, True).
Proof. by destruct b. Qed.
Lemma ends_any {A B} (m : outcome A) (f : A → outcome B) P :
  ends false m (λ _, True) → (∀ a, ends false (f a) P) → ends false (m ≫= f) P.
Proof. intros Hm Hf. by eapply ends_bind; [exact Hm|]. Qed.
Lemma ends_weaken {A} (m : outcome A) (P : A → Prop) : ends false m P → ends false m (λ _, True).
Proof. intros H. by eapply ends_mono. Qed.
(** A loop whose body keeps [P]. *)
Lemma ends_for_each {A S} (l : list A) (body : A → S → outcome S) (P : S → Prop) s :
  (∀ a s, P s → ends false (body a s) P) → P s → ends false (for_each l body s) P.
Proof.
  intros Hb. revert s. induction l as [|a l IH]; intros s Hs; [done|]. cbn [for_each]. eapply ends_bind; [by apply Hb|]. apply IH.
Qed.

Create HintDb ending.
#[export] Hint Resolve ends_expect ends_assert : ending.
Ltac ends_steps :=
  repeat first
    [ done
    | by eauto with ending
    | apply ends_any; [|intros ?]
    | case_match ].

Lemma parse_load_ends image offset : ends false (parse_load image offset) (λ _, True).
Proof. unfold parse_load, uadd. ends_steps. Qed.
#[export] Hint Resolve parse_load_ends : ending.
Lemma find_load_ends image phoff phentsize indices : ends false (find_load image phoff phentsize indices) (λ _, True).
Proof.
  induction indices as [|i rest IH]; [done|]. cbn [find_load]. unfold umul, uadd. ends_steps.
Qed.
Lemma parse_ends image : ends false (parse image) (λ _, True).
Proof. unfold parse. pose proof (find_load_ends image). ends_steps. Qed.
#[export] Hint Resolve parse_ends : ending.

Lemma load_program_ends fs name : ends false (load_program fs name) (λ _, True).
Proof. unfold load_program. ends_steps. Qed.
#[export] Hint Resolve load_program_ends : ending.
Lemma run_command_ends fs l stdin : ends false (run_command fs l stdin) (λ _, True).
Proof. unfold run_command, Commands.dispatch. ends_steps. Qed.

(** ** Starting a program *)

Section frames.
Context `{FS : FrameSource B, FL : !FrameLaws B}.

(** The page allocator, where there is one, is intact. *)
Definition frames_ok (p : paging (B := B)) : Prop := ∀ b, pg_buddy p = Some b → fr_ok b.

Lemma frames_ok_some m b k : fr_ok b → frames_ok (mkPaging m (Some b) k).
Proof. by intros H b' [= <-]. Qed.

Lemma below_ends limit (b : B) : fr_ok b → ends false (frame_below 0 limit b) (λ '(_, b'), fr_ok b').
Proof. intros Hb. destruct (fr_below b 0 limit Hb) as (r & b' & -> & H & _); [done|exact H]. Qed.

Lemma get_or_create_ends table index flags m (b : B) :
  fr_ok b → ends false (Mapper.get_or_create_table table index flags m b) (λ '(_, _, b'), fr_ok b').
Proof.
  intros Hb. unfold Mapper.get_or_create_table, entry, set_entry, phys_to_virt, uadd. apply ends_any; [apply ends_expect|intros e].
  eapply (ends_bind _ _ _ _ (λ '(_, b'), fr_ok b')).
  - case_match; [|by ends_steps]. eapply ends_bind; [by apply below_ends|]. intros [frame b1] Hb1. ends_steps.
  - intros [m1 b1] Hb1. ends_steps.
Qed.
Lemma map_ends root virt phys flags m (b : B) : fr_ok b → ends false (Mapper.map root virt phys flags m b) (λ '(_, b'), fr_ok b').
Proof.
  intros Hb. unfold Mapper.map, set_entry. eapply ends_bind; [by apply get_or_create_ends|]. intros [[t1 m1] b1] H1.
  eapply ends_bind; [by apply get_or_create_ends|]. intros [[t2 m2] b2] H2. eapply ends_bind; [by apply get_or_create_ends|]. intros [[t3 m3] b3] H3. ends_steps.
Qed.
Lemma map_into_ends root virt phys flags (p : paging (B := B)) :
  frames_ok p → ends false (map_into_page_table root virt phys flags p) frames_ok.
Proof.
  intros Hp. unfold map_into_page_table, Mapper.new, phys_to_virt, uadd. destruct (pg_buddy p) as [b|] eqn:Eb; [|done]. cbn [expect]. rewrite Ret_bind.
  apply ends_any; [ends_steps|intros r]. eapply ends_bind; [by apply map_ends, Hp|]. intros [m1 b1] H1. by apply frames_ok_some.
Qed.
Lemma create_ends (p : paging (B := B)) : frames_ok p → ends false (create_user_page_table p) (λ '(_, p'), frames_ok p').
Proof.
  intros Hp. unfold create_user_page_table, kernel_pml4. apply ends_any; [ends_steps|intros k]. destruct (pg_buddy p) as [b|] eqn:Eb; [|done]. cbn [expect]. rewrite Ret_bind.
  eapply ends_bind; [by apply below_ends, Hp|]. intros [frame b1] H1. apply ends_any; [apply ends_expect|intros u]. unfold uadd.
  do 2 (apply ends_any; [apply ends_expect|intros ?]). apply ends_any.
  - apply ends_for_each; [|done]. intros i m _. unfold entry, set_entry. ends_steps.
  - intros m. by apply frames_ok_some.
Qed.
Lemma allocate_ends order (p : paging (B := B)) : 0 ≤ order → frames_ok p → ends false (allocate_frames order p) (λ '(_, p'), frames_ok p').
Proof.
  intros Ho Hp. unfold allocate_frames. destruct (pg_buddy p) as [b|] eqn:Eb; [|done]. cbn [expect]. rewrite Ret_bind.
  destruct (fr_alloc b order (Hp b Eb) Ho) as (r & b' & -> & H & _). by apply frames_ok_some.
Qed.

Context (A : addresses).

Lemma bootdata_ends pt (p : paging (B := B)) : frames_ok p → ends false (map_bootdata_identity A pt p) frames_ok.
Proof.
  intros Hp. unfold map_bootdata_identity, ProcLayout.align_down, uadd, usub. do 3 (apply ends_any; [ends_steps|intros ?]).
  apply ends_for_each; [|done]. intros x p1 H1. by apply map_into_ends.
Qed.
Lemma user_stack_ends pt top phys (p : paging (B := B)) : frames_ok p → ends false (map_user_stack pt top phys p) frames_ok.
Proof.
  intros Hp. unfold map_user_stack, uadd, usub, umul. apply ends_any; [ends_steps|intros bottom]. apply ends_for_each; [|done].
  intros i p1 H1. do 3 (apply ends_any; [ends_steps|intros ?]). by apply map_into_ends.
Qed.
Lemma enter_queue_ends pid pt k c u rip rsp (s : tasks (B := B)) :
  frames_ok (pg s) → ends false (enter_queue A pid pt k c u rip rsp s) (λ '(_, s'), frames_ok (pg s')).
Proof. intros Hp. unfold enter_queue, ProcLayout.align_down, uadd, usub. do 4 (apply ends_any; [ends_steps|intros ?]). exact Hp. Qed.
Lemma load_code_ends c code (p : paging (B := B)) : frames_ok p → ends false (load_code c code p) frames_ok.
Proof. intros Hp. unfold load_code, uadd. apply ends_any; [ends_steps|intros ?]. exact Hp. Qed.
Lemma init_ends (s : tasks (B := B)) : frames_ok (pg s) → ends false (init A s) (λ s', frames_ok (pg s')).
Proof. intros Hp. unfold init, kernel_pml4. case_match; [done|]. apply ends_any; [ends_steps|intros ?]. exact Hp. Qed.

(** Any image at all, loadable or not. *)
Lemma spawn_elf_ends image (s : tasks (B := B)) :
  frames_ok (pg s) → ends false (spawn_elf A image s) (λ '(_, s'), frames_ok (pg s')).
Proof.
  intros Hp. unfold spawn_elf. eapply ends_bind; [by apply init_ends|]. clear s Hp. intros s Hp. apply ends_any; [apply parse_ends|].
  intros [e|err]; [|done]. cbv zeta. case_match; [done|]. cbn [fetch_pid]. set (s1 := with_next_pid _ s).
  apply ends_any; [unfold user_stack_top, uadd, usub, umul; ends_steps|intros top].
  eapply ends_bind; [by apply create_ends|]. intros [pt p1] H1. eapply ends_bind; [by apply bootdata_ends|]. intros p2 H2.
  eapply ends_bind; [by apply allocate_ends|]. intros [[k|] p3] H3; [|done].
  eapply ends_bind; [by apply allocate_ends|]. intros [[c|] p4] H4; [|done].
  eapply ends_bind; [by apply allocate_ends|]. intros [[u|] p5] H5; [|done].
  apply ends_any; [apply ends_expect|intros rest]. eapply ends_bind; [by apply load_code_ends|]. intros p6 H6.
  eapply ends_bind; [by apply map_into_ends|]. intros p7 H7. eapply ends_bind; [by apply user_stack_ends|]. intros p8 H8.
  eapply ends_bind; [by apply enter_queue_ends|]. by intros [r s2] H9.
Qed.

(** ** Keys *)

Definition env_frames_ok (e : env (B := B)) : Prop := frames_ok (pg (e_tasks e)).

Lemma run_elf_ends program (e : env (B := B)) : env_frames_ok e → ends false (run_elf A program e) env_frames_ok.
Proof.
  intros He. unfold run_elf. destruct program as [program|]; [|done]. destruct (_ <$> _) as [[image|]|]; [|done..].
  eapply ends_bind; [by apply spawn_elf_ends|]. intros [[r|] t] Ht; [|done]. apply ends_any; [apply ends_expect|by intros p].
Qed.
Lemma start_long_job_ends command words bg s (e : env (B := B)) :
  env_frames_ok e → ends false (start_long_job command words bg s e) (λ '(_, e'), env_frames_ok e').
Proof.
  intros He. unfold start_long_job, uadd. destruct (e_fs e) as [fs|]; [|done]. apply ends_any; [apply load_program_ends|]. intros [p|]; [|done].
  apply ends_any; [apply ends_expect|]. intros n. by destruct bg.
Qed.
Lemma run_shell_command_ends l bg s (e : env (B := B)) :
  env_frames_ok e → ends false (run_shell_command A l bg s e) (λ '(_, _, e'), env_frames_ok e').
Proof.
  intros He. unfold run_shell_command. destruct (split_whitespace (to_str l)) as [|c ws]; [done|]. repeat case_bool_decide; [done| | | |done].
  - by destruct (foreground_job _ s).
  - eapply ends_bind; [by apply run_elf_ends|done].
  - eapply ends_bind; [by apply start_long_job_ends|]. by intros [s1 e1].
Qed.
Lemma run_line_ends s (e : env (B := B)) : env_frames_ok e → ends false (run_line A s e) (λ '(_, e'), env_frames_ok e').
Proof.
  intros He. unfold run_line. destruct (trim (line s)) as [|b l]; [done|]. cbn zeta. case_match; [done|].
  eapply ends_bind; [by apply run_shell_command_ends|]. intros [[[] s1] e1] H1; [done|]. destruct (e_fs e1) as [fs|]; [|done].
  apply ends_any; [apply run_command_ends|]. intros [[o|o] fs']; exact H1.
Qed.
Lemma handle_byte_ends b s (e : env (B := B)) : env_frames_ok e → ends false (handle_byte A b s e) (λ '(_, e'), env_frames_ok e').
Proof.
  intros He. unfold handle_byte. destruct (active s) as [j|]; [case_bool_decide; [by destruct (suspend_active_job s)|done]|].
  case_bool_decide; [eapply ends_bind; [by apply run_line_ends|by intros [s1 e1] H1]|].
  case_bool_decide; [by destruct (line s)|by case_match].
Qed.
Lemma type_keys_ends keys s (e : env (B := B)) : env_frames_ok e → ends false (type_keys A keys s e) (λ '(_, e'), env_frames_ok e').
Proof.
  revert s e. induction keys as [|b keys IH]; intros s e He; cbn [type_keys]; [done|]. eapply ends_bind; [by apply handle_byte_ends|].
  intros [s1 e1] H1. by apply IH.
Qed.

(** ** Keys that are sure to return *)

Definition is_enter (b : byte) : Prop := b = x0d ∨ b = x0a.

(** A program may be started: there are a process slot and memory for it, job
    numbers are left, and every file is an image that can be parsed without a
    panic and asks for lower addresses. *)
Record enter_ok (s : Shell) (e : env (B := B)) : Prop := {
  en_system : system A (e_tasks e);
  en_slot : slot_free (e_tasks e);
  en_room : room (pg (e_tasks e)) (spawn_room A);
  en_jobs : next_job_id s < usize_max;
  en_files : ∀ fs path image, e_fs e = Some fs → Fs.read fs path = Ok image →
    zlen image ≤ isize_max ∧ (∃ r, parse image = Ret r) ∧ ∀ p, parse image = Ret (Ok p) → low_addr (virt_addr (p_load p));
}.

Context (Hboot : low_range (bootdata A)).

Lemma load_program_returns s (e : env (B := B)) fs name : enter_ok s e → e_fs e = Some fs → ∃ r, load_program fs name = Ret r.
Proof.
  intros He Hfs. unfold load_program. destruct (Program.from_name name) as [p|]; [|by eexists]. destruct (Fs.read fs _) as [image|] eqn:Hr; [|by eexists].
  destruct (en_files s e He fs _ image Hfs Hr) as (_ & [r ->] & _). by eexists.
Qed.
Lemma run_elf_returns s program (e : env (B := B)) : enter_ok s e → ∃ e', run_elf A program e = Ret e'.
Proof.
  intros He. unfold run_elf. destruct program as [program|]; [|by eexists]. destruct (e_fs e) as [fs|] eqn:Hfs; [|by eexists]. cbn [fmap option_fmap option_map].
  destruct (Fs.read fs _) as [image|] eqn:Hr; [|by eexists]. destruct (en_files s e He fs _ image Hfs Hr) as (Hl & Hp & Hlow).
  pose proof (spawn_elf_spec A Hboot true (e_tasks e) image (en_system s e He) (en_slot s e He) Hl Hlow) as Hs.
  apply ends_total in Hs as ([res t] & -> & _ & Hres); [|intros _; split; [done|apply He]]. rewrite Ret_bind. cbv zeta.
  destruct res as [r|err]; [|by eexists]. destruct Hres as (p & _ & _ & _ & Hu). destruct (us_new _ _ _ _ _ _ _ _ Hu) as (q & _ & _ & _ & Hq & _). rewrite Hq. by eexists.
Qed.
Lemma run_command_returns s (e : env (B := B)) fs l stdin : enter_ok s e → e_fs e = Some fs → ∃ r, run_command fs l stdin = Ret r.
Proof.
  intros He Hfs. unfold run_command. case_bool_decide; [by eexists|]. destruct (redirections _ _ _ _ _) as [[[ws input] ro]|]; [|by eexists].
  unfold Commands.dispatch. destruct ws as [|name ws]; [by eexists|]. destruct (load_program_returns s e fs name He Hfs) as [r ->]. rewrite !Ret_bind.
  destruct (match r with Ok _ => _ | Err _ => _ end) as [[o|] fs1]; [|by eexists]. destruct ro as [[path ap]|]; by eexists.
Qed.
Lemma shell_command_returns l bg s (e : env (B := B)) :
  enter_ok s e → ∃ h s1 e1, run_shell_command A l bg s e = Ret (h, s1, e1) ∧ (h = false → e1 = e).
Proof.
  intros He. unfold run_shell_command. destruct (split_whitespace _) as [|c ws]; [by do 3 eexists|].
  case_bool_decide; [by do 3 eexists|]. case_bool_decide; [destruct (foreground_job _ s); by do 3 eexists|].
  case_bool_decide; [destruct (run_elf_returns s ((c :: ws) !! 1%nat) e He) as [e1 ->]; by do 3 eexists|].
  case_bool_decide; [|by do 3 eexists]. unfold start_long_job. destruct (e_fs e) as [fs|] eqn:Hfs; [|by do 3 eexists].
  destruct (load_program_returns s e fs c He Hfs) as [[p|] ->]; [|by do 3 eexists]. rewrite Ret_bind, uadd_ok by (pose proof (en_jobs s e He); lia).
  destruct bg; by do 3 eexists.
Qed.
Lemma run_line_returns s (e : env (B := B)) : enter_ok s e → ∃ r, run_line A s e = Ret r.
Proof.
  intros He. unfold run_line. destruct (trim (line s)) as [|b l]; [by eexists|]. cbn zeta. generalize (bool_decide (last (b :: l) = Some x26)). intros bg.
  generalize (if bg then trim_end (take (length (b :: l) - 1) (b :: l)) else b :: l). intros l1. case_match; [by eexists|].
  destruct (shell_command_returns l1 bg s e He) as (h & s1 & e1 & -> & Hsame). rewrite Ret_bind. destruct h; [by eexists|]. rewrite (Hsame eq_refl).
  destruct (e_fs e) as [fs|] eqn:Hfs; [|by eexists]. destruct (run_command_returns s e fs (to_str l1) [] He Hfs) as [[r fs'] ->].
  rewrite Ret_bind. destruct r; by eexists.
Qed.
Lemma handle_byte_returns b s (e : env (B := B)) : (is_enter b → enter_ok s e) → ∃ r, handle_byte A b s e = Ret r.
Proof.
  intros He. unfold handle_byte. destruct (active s) as [j|]; [case_bool_decide; [destruct (suspend_active_job s)|]; by eexists|].
  case_bool_decide as Hb.
  { destruct (run_line_returns s (write crlf e)) as [[s1 e1] ->]; [|by eexists]. destruct (He Hb) as [E1 E2 E3 E4 E5]. by split. }
  case_bool_decide; [destruct (line s); by eexists|]. case_match; by eexists.
Qed.
(** Where every Enter finds what it needs, all keys are handled. *)
Lemma type_keys_returns keys s (e : env (B := B)) :
  (∀ k1 b k2 s1 e1, keys = k1 ++ b :: k2 → type_keys A k1 s e = Ret (s1, e1) → is_enter b → enter_ok s1 e1) →
  ∃ s' e', type_keys A keys s e = Ret (s', e').
Proof.
  revert s e. induction keys as [|b keys IH]; intros s e He; cbn [type_keys]; [by do 2 eexists|].
  destruct (handle_byte_returns b s e) as [[s1 e1] Hb]; [by apply (He [] b keys s e)|]. rewrite Hb, Ret_bind. apply IH.
  intros k1 c k2 s2 e2 -> Hk. apply (He (b :: k1) c k2 s2 e2); [done|]. cbn [type_keys]. by rewrite Hb.
Qed.
End frames.
