(* ===== verification/Console.v ===== *)
(** * The main loop ([kernel_main] in [src/main.rs])

    One iteration after the processor wakes up: the jobs, then every byte in
    the serial input buffer.  The composition of the shell with the input
    queue the receive interrupt fills; interrupts that arrive during the
    iteration are handled as if after it. *)

From stdpp Require Import pretty.
From Stdlib Require Import Strings.Byte.
From S2P Require Import Prelude Bytes SerialInput RamFs Elf ElfCorrect Commands Buddy BuddyCorrect Address Paging PagingInv PagingCorrect PagingInit ProcLayout Proc SpaceBuild Spawn SpawnView Sched SchedCorrect System SpawnCorrect SystemCorrect Machine Shell ShellCorrect ShellEnds.
Local Open Scope Z_scope.

Section loop.
Context `{FS : FrameSource B}.
Context (A : addresses).

(** [while let Some(byte) = stdio::read_serial_byte()]. *)
Fixpoint read_input (fuel : nat) (q : SerialInput) (s : Shell) (e : env (B := B)) : outcome (SerialInput * Shell * env) :=
  match fuel with
  | O => Diverge
  | S fuel =>
      '(b, q) ← Serial.pop q;
      match b with
      | None => Ret (q, s, e)
      | Some b => '(s, e) ← handle_byte A b s e; read_input fuel q s e
      end
  end.

Definition main_iteration (fuel : nat) (timer_ticks : Z) (q : SerialInput) (s : Shell) (e : env (B := B)) : outcome (SerialInput * Shell * env) :=
  '(s, o) ← poll_jobs fuel timer_ticks s;
  read_input fuel q s (write o e).

Lemma read_input_spec fuel q s (e : env (B := B)) :
  ring_ok q → (length (queue q) < fuel)%nat →
  ∃ q', ring_ok q' ∧ queue q' = [] ∧
    read_input fuel q s e = '(s, e) ← type_keys A (queue q) s e; Ret (q', s, e).
Proof.
  revert q s e. induction fuel as [|fuel IH]; intros q s e Hq Hf; [lia|]. cbn [read_input].
  destruct (pop_spec q Hq) as (q1 & Hq1 & -> & Eq1). cbn [mbind outcome_bind].
  destruct (queue q) as [|b l] eqn:El; cbn [List.hd_error List.tl type_keys] in *.
  { exists q1. by split_and!. }
  destruct (handle_byte A b s e) as [[s1 e1]| |]; cbn [mbind outcome_bind].
  - destruct (IH q1 s1 e1 Hq1) as (q2 & H2 & E2 & ->); [rewrite Eq1; cbn in Hf; lia|]. exists q2. rewrite Eq1. done.
  - destruct (IH q1 s e Hq1) as (q2 & H2 & E2 & _); [rewrite Eq1; cbn in Hf; lia|]. by exists q2.
  - destruct (IH q1 s e Hq1) as (q2 & H2 & E2 & _); [rewrite Eq1; cbn in Hf; lia|]. by exists q2.
Qed.

Lemma type_keys_ok keys s (e : env (B := B)) s' e' : shell_ok s → type_keys A keys s e = Ret (s', e') → shell_ok s'.
Proof.
  revert s e. induction keys as [|b keys IH]; intros s e Hs; cbn [type_keys]; [by intros [= <- _]|].
  intros ([s1 e1] & Hb & H)%bind_Ret. eapply IH; [|exact H]. by eapply handle_byte_ok.
Qed.

(** The shell when the jobs are up to date. *)
Definition caught_up (ticks : Z) (s : Shell) : Shell :=
  let k := Z.max 0 (ticks / 100 - last_second s) in
  mkShell (line s) (later k (jobs s)) (later_active k (active s)) (next_job_id s) (Z.max (last_second s) (ticks / 100)).

(** The iteration in terms of the keys it handles. *)
Lemma main_iteration_eq fuel ticks q s (e : env (B := B)) :
  shell_ok s → ring_ok q → 0 ≤ ticks < 2 ^ 64 →
  ticks / 100 - last_second s ≤ Z.of_nat fuel → (length (queue q) < fuel)%nat →
  ∃ q' o, ring_ok q' ∧ queue q' = [] ∧
    main_iteration fuel ticks q s e = '(s, e) ← type_keys A (queue q) (caught_up ticks s) (write o e); Ret (q', s, e).
Proof.
  intros Hs Hq Ht Hf Hl. unfold main_iteration, poll_jobs, caught_up. pose proof (so_second s Hs).
  destruct (poll_loop_spec fuel (ticks / 100) s) as [o E]; [by apply shell_ok_timely|done| |lia|].
  { Z.to_euclidean_division_equations; lia. }
  rewrite E. cbn [mbind outcome_bind]. set (k := Z.max 0 _). replace (last_second s + k) with (Z.max (last_second s) (ticks / 100)) by lia.
  destruct (read_input_spec fuel q
    (mkShell (line s) (later k (jobs s)) (later_active k (active s)) (next_job_id s) (Z.max (last_second s) (ticks / 100)))
    (write o e) Hq Hl) as (q' & ? & ? & ?).
  by exists q', o.
Qed.
End loop.

Section iteration.
Context `{FS : FrameSource B, FL : !FrameLaws B}.
Context (A : addresses) (Hboot : low_range (bootdata A)).

End iteration.

(** The keys [ls] and Enter, on the 256-frame machine with [ls] in [/bin]. *)
Definition ls_image : bytes := match build_program_image Ls with Ret image => image | _ => [] end.
Definition bin_ls (image : bytes) : RamFs := mkRamFs (Dir {[ "bin"%string := Dir {[ "ls"%string := File image ]} ]}).
Definition ls_env : env (B := BuddyAllocator) := mkEnv (Some (bin_ls ls_image)) medium_start [] [].
Definition ls_keys : SerialInput := match Serial.rx_loop [x6c; x73; x0d] Serial.new with Ret q => q | _ => Serial.new end.
Lemma bin_ls_files content path image : Fs.read (bin_ls content) path = Ok image → image = content.
Proof.
  unfold Fs.read, node, bin_ls. destruct (split_path path) as [parts|]; [|done]. cbn [root].
  destruct parts as [|p1 parts]; cbn [walk]; [done|]. destruct (decide (p1 = "bin"%string)) as [->|N1]; [rewrite lookup_singleton_eq|by rewrite lookup_singleton_ne].
  destruct parts as [|p2 parts]; cbn [walk]; [done|]. destruct (decide (p2 = "ls"%string)) as [->|N2]; [rewrite lookup_singleton_eq|by rewrite lookup_singleton_ne].
  destruct parts as [|p3 parts]; cbn [walk]; [by intros [= <-]|done].
Qed.

Lemma one_enter k1 b k2 : [x6c; x73; x0d] = k1 ++ b :: k2 → is_enter b → k1 = [x6c; x73].
Proof.
  intros Hk Hb. destruct k1 as [|c1 [|c2 [|c3 k1]]]; simplify_list_eq; first [done | by destruct Hb | by destruct k1].
Qed.

