(* ===== verification/Kernel.v ===== *)
(** * The kernel as a whole

    The composition of the components: the boot sequence of [kernel_main]
    ([src/main.rs]) in the order of the source, and a system call with the
    hooks that [kernel_main] registers.  [serial_console_write] and
    [exec_program] are functions of [src/main.rs], the exit hook is
    [task::proc::exit_current]. *)

From S2P Require Import Prelude Bytes RamFs FdTable Elf Buddy Address Paging ProcLayout Proc SpawnCorrect Boot Syscall Devices Traps Shell.
Local Open Scope Z_scope.

Record kernel := mkKernel {
  kn_tasks : tasks (B := BuddyAllocator);
  kn_tables : tables;
  kn_idt : list IdtEntry;
  kn_idtr : Z * Z;
  kn_msr : Z → Z;
  kn_hw : hw;
  kn_calls : KState;
}.

(** Addresses of statics and assembly labels. *)
Record statics := mkStatics {
  gdt_addr : Z; tss_addr : Z; ring0_stack : Z; double_fault_stack : Z; idt_addr : Z;
  exception_stub_addr : Z → Z; irq_stub_addr : Z → Z; syscall_entry_addr : Z;
}.

Section kernel.
Context (A : addresses) (L : statics).

(** ** Hooks *)

Definition serial_console_write (fuel : nat) (data : bytes) (h : hw) : outcome hw := serial_write fuel (Z_of_byte <$> data) h.

(** What the exec hook answers when the processes are [t]. *)
Definition exec_answer (t : tasks (B := BuddyAllocator)) (image : bytes) : SysResult :=
  match exec_program A image t with
  | Ret (Some pid, _) => Ok pid
  | _ => Err InvalidArgument
  end.

(** The system call layer logs the calls of its hooks; this is what they do. *)
Definition run_hook (fuel : nat) (c : hook_call) (x : tasks (B := BuddyAllocator) * hw) : outcome (tasks * hw) :=
  let '(t, h) := x in
  match c with
  | ConsoleWrite data => h ← serial_console_write fuel data h; Ret (t, h)
  | ExecProgram image => '(_, t) ← exec_program A image t; Ret (t, h)
  | ExitCurrent status => t ← exit_current A status t; Ret (t, h)
  end.

(** A system call of the running process, from its entry to its return.  The
    answer of the exec hook depends on the processes at the time of the call. *)
Definition system_call (fuel : nat) (number arg0 arg1 arg2 : Z) (k : kernel) : outcome (sysret * kernel) :=
  let c := kn_calls k in
  let c := mkK (k_fs c) (k_fd c) (k_console c) ((λ _, exec_answer (kn_tasks k)) <$> k_exec c) (k_exit c) (k_held c) (k_mem c) [] (k_room c) in
  '(r, c) ← dispatch number arg0 arg1 arg2 c;
  '(t, h) ← for_each (k_log c) (run_hook fuel) (kn_tasks k, kn_hw k);
  Ret (r, mkKernel t (kn_tables k) (kn_idt k) (kn_idtr k) (kn_msr k) h c).

(** ** Booting *)

(** [kernel_main] from its first message to the shell's prompt, when it was
    called with the magic number and boot information that the Multiboot2
    parser accepts: [mem_map] and [img] are what the parser and the linker
    give.  The fuel is for the serial port. *)
Definition kernel_main (fuel : nat) (mem_map : list MemoryArea) (img : KernelImage) (m0 : pmem) (c : Context) (k : kernel) : outcome kernel :=
  h ← printk fuel CURRENT_LEVEL Info [text_bytes "Welcome to Zeronix!"] (kn_hw k);
  b ← buddy_new (boot_metadata mem_map) mem_map (boot_reserved img);
  '(addr, p) ← init_kernel_page_table mem_map img (mkPaging m0 (Some b) 0);
  let t := load_cr3 (switch_cr3 addr) (mkTasks [] [] 1 None [] c false 0 0 p) in
  tables ← gdt_init (gdt_addr L) (tss_addr L) (ring0_stack L) (double_fault_stack L) (kn_tables k);
  rsp0 ← expect (arr_get (tss_rsp (TSS tables)) 0);
  let t := set_kernel_stack rsp0 t in
  let msr := syscall_init (syscall_entry_addr L) (kn_msr k) in
  '(_, calls) ← init_runtime_fs (kn_calls k);
  '(_, calls) ← set_console_write calls;
  '(_, calls) ← set_process_hooks (exec_answer t) calls;
  idt ← init_entries (exception_stub_addr L) (irq_stub_addr L) (kn_idt k);
  t ← init A t;
  syscall_smoke ← syscall_write_smoke_program;
  '(_, t) ← spawn_user A syscall_smoke t;
  '(_, t) ← spawn_user A [Byte.xeb; Byte.xfe] t;
  h ← setup_interrupts fuel h;
  let t := enable_interrupts t in
  h ← printk fuel CURRENT_LEVEL Info [text_bytes "Zeronix boot successfully!"] h;
  h ← serial_write fuel (Z_of_byte <$> prompt) h;
  Ret (mkKernel t tables idt (idt_load (idt_addr L)) msr h calls).
End kernel.
