(* ===== verification/KernelFiles.v ===== *)
(** * What the kernel boots with: files and the system call layer

    The seeded file system holds the image of every program, and the
    registrations of [kernel_main] leave the system call layer ready. *)

From S2P Require Import Prelude Bytes RamFs FdTable Elf ElfCorrect Buddy ProcLayout Proc SpawnCorrect Syscall SyscallCorrect Kernel.
Local Open Scope Z_scope.

Definition program_path (program : ProgramId) : string := ("/bin/" +:+ Program.name program)%string.

(** The file of a program is an image of its code, to be loaded on one page of
    the lower half and entered at its first byte. *)
Record installed (fs : RamFs) (program : ProgramId) (image code : bytes) (e : ParsedElf) : Prop := {
  in_read : Fs.read fs (program_path program) = Ok image;
  in_code : user_program_code program = Ret code;
  in_parse : parse image = Ret (Ok e);
  in_program : p_program e = program;
  in_segment : segment_bytes image e = code;
  in_entry : p_entry e = virt_addr (p_load e);
  in_base : virt_addr (p_load e) = 0x400000 + 0x1000 * Program.id program;
  in_size : file_size (p_load e) ≤ PAGE_SIZE ∧ mem_size (p_load e) ≤ PAGE_SIZE;
  in_length : zlen image ≤ isize_max;
}.
Definition all_installed (fs : RamFs) : Prop := ∀ program, ∃ image code e, installed fs program image code e.

Lemma seeded_installed : ∃ fs, (fs ← Fs.new; seed_runtime_fs fs) = Ret fs ∧ all_installed fs.
Proof.
  eexists. split; [vm_compute; reflexivity|]. intros program.
  destruct program; (eexists _, _, _; split;
    [vm_compute; reflexivity|vm_compute; reflexivity|vm_compute; reflexivity|vm_compute; reflexivity|vm_compute; reflexivity
    |vm_compute; reflexivity|vm_compute; reflexivity|vm_compute; split; congruence|vm_compute; congruence]).
Qed.

(** Storing under a lock nobody holds. *)
Lemma store_alone l f c : k_held c = [] → k_held (f (set_held [l] c)) = [l] →
  with_lock l (modify f) c = Ret ((), set_held [] (f (set_held [l] c))).
Proof.
  intros Hh Hf. rewrite with_lock_eq by (rewrite Hh; apply not_elem_of_nil). unfold modify. rewrite Hh, Hf. by rewrite (drop_lock [] l) by apply not_elem_of_nil.
Qed.

(** The system call layer after the registrations of [kernel_main]. *)
Lemma calls_booted exec c :
  k_held c = [] →
  ∃ fs c1 c2 c3, init_runtime_fs c = Ret ((), c1) ∧ set_console_write c1 = Ret ((), c2) ∧ set_process_hooks exec c2 = Ret ((), c3) ∧
    ready c3 fs Fd.new ∧ all_installed fs ∧ k_console c3 = true ∧ k_exec c3 = Some exec ∧ k_exit c3 = true ∧ k_mem c3 = k_mem c.
Proof.
  intros Hh. destruct seeded_installed as (fs & Hfs & Hall).
  unfold init_runtime_fs, set_console_write, set_process_hooks.
  assert ((lift (fs ← Fs.new; seed_runtime_fs fs) : K RamFs) c = Ret (fs, c)) as El by (unfold lift; by rewrite Hfs).
  eexists fs, _, _, _. split.
  { unfold mbind at 1, K_bind at 1. rewrite El. unfold mbind at 1, K_bind at 1. rewrite (store_alone KERNEL_FS) by done.
    rewrite (store_alone KERNEL_FD_TABLE) by done. reflexivity. }
  split; [rewrite (store_alone CONSOLE_WRITE) by done; reflexivity|].
  split; [unfold mbind at 1, K_bind at 1; rewrite (store_alone EXEC_PROGRAM) by done; rewrite (store_alone EXIT_CURRENT) by done; reflexivity|].
  clear Hfs El. by split_and!.
Qed.
