(* ===== verification/KernelCorrect.v ===== *)
(** * Correctness of the kernel as a whole

    The boot sequence establishes what the components need, and system calls
    carry from the calling process through the hooks to processes and devices. *)

From S2P Require Import Prelude Bytes Links RamFs FdTable Elf ElfCorrect UserCode Buddy BuddyInv BuddyOps BuddyInit BuddyCorrect Address Paging PagingInv PagingMap PagingPlan PagingCorrect PagingInit ProcLayout Proc SpaceBuild Spawn SpawnView Sched SchedCorrect System SpawnCorrect SystemCorrect Machine Boot Syscall SyscallCorrect Devices DevicesCorrect Traps TrapsCorrect Shell Kernel KernelFiles.
Local Open Scope Z_scope.

(** ** Booting *)

Record statics_ok (A : addresses) (L : statics) : Prop := {
  st_tss : 0 ≤ tss_addr L < 2 ^ 64;
  st_ring0 : 0 ≤ ring0_stack L ∧ ring0_stack L + STACK_SIZE ≤ usize_max;
  st_df : 0 ≤ double_fault_stack L ∧ double_fault_stack L + STACK_SIZE ≤ usize_max;
  st_exc : ∀ v, 0 ≤ exception_stub_addr L v < 2 ^ 64;
  st_irq : ∀ v, 0 ≤ irq_stub_addr L v < 2 ^ 64;
  st_top : ring0_stack_top A = ring0_stack L + STACK_SIZE;
}.

(** The statics as the image has them, before any code runs, and a serial port
    whose transmitter gets ready within [fuel] polls. *)
Record initial (fuel : nat) (k : kernel) : Prop := {
  ki_gdt : GDT (kn_tables k) = GDT0;
  ki_tss : TSS (kn_tables k) = TSS0;
  ki_idt : kn_idt k = IDT0;
  ki_held : k_held (kn_calls k) = [];
  ki_serial : polled fuel (kn_hw k);
}.

(** What booting prints once the serial port is configured. *)
Definition boot_text : list Z := log_line Info [text_bytes "Zeronix boot successfully!"] ++ (Z_of_byte <$> prompt).

(** What user mode and the devices find after booting. *)
Record operational (fuel : nat) (L : statics) (k : kernel) : Prop := {
  op_rsp0 : arr_get (tss_rsp (TSS (kn_tables k))) 0 = Some (ring0_stack L + STACK_SIZE);
  op_df : arr_get (tss_ist (TSS (kn_tables k))) (DOUBLE_FAULT_IST_INDEX - 1) = Some (double_fault_stack L + STACK_SIZE);
  op_tss : ∃ low high, descriptor (kn_tables k) TSS_SELECTOR = Some low ∧ descriptor (kn_tables k) (TSS_SELECTOR + 8) = Some high ∧
    system_base low high = tss_addr L ∧ task_register (kn_tables k) = TSS_SELECTOR;
  op_gates : ∀ v, 0 ≤ v < 48 → ∃ e, arr_get (kn_idt k) v = Some e ∧ type_attr e = INTERRUPT_GATE ∧ selector e = KERNEL_CODE_SELECTOR ∧
    gate_offset e = (if v <? 32 then exception_stub_addr L v else irq_stub_addr L v) ∧ ist e = (if v =? 8 then DOUBLE_FAULT_IST_INDEX else 0);
  op_syscall : kn_msr k IA32_LSTAR = syscall_entry_addr L ∧ Z.testbit (kn_msr k IA32_EFER) 0 = true ∧ Z.testbit (kn_msr k IA32_FMASK) RFLAGS_IF = true ∧
    sysret_cs (kn_msr k IA32_STAR) = USER_CODE_SELECTOR ∧ sysret_ss (kn_msr k IA32_STAR) = USER_DATA_SELECTOR;
  op_lines : ∀ i, 0 ≤ i < 16 → enabled (kn_hw k) i = bool_decide (i ∈ [0; 1; 4]);
  op_vectors : (pic_base (master (kn_hw k)), pic_base (slave (kn_hw k))) = (32, 40);
  op_rate : PIT_BASE_FREQ / pit_reload (timer (kn_hw k)) = 100;
  op_output : ∃ before, sent (com1 (kn_hw k)) = before ++ boot_text;
  op_serial : transmitting fuel (kn_hw k) ∧ rx (com1 (kn_hw k)) = [];
  op_files : ∃ fs, ready (kn_calls k) fs Fd.new ∧ all_installed fs;
  op_hooks : k_console (kn_calls k) = true ∧ is_Some (k_exec (kn_calls k)) ∧ k_exit (kn_calls k) = true;
}.

Section boot.
Context (A : addresses) (L : statics) (HL : statics_ok A L) (fuel : nat).

(** The devices during the boot: messages before and after the set-up. *)
Lemma devices_booted h :
  polled fuel h →
  ∃ h1 h2 h3 h4, printk fuel CURRENT_LEVEL Info [text_bytes "Welcome to Zeronix!"] h = Ret h1 ∧ setup_interrupts fuel h1 = Ret h2 ∧
    printk fuel CURRENT_LEVEL Info [text_bytes "Zeronix boot successfully!"] h2 = Ret h3 ∧ serial_write fuel (Z_of_byte <$> prompt) h3 = Ret h4 ∧
    (pic_base (master h4), pic_base (slave h4)) = (32, 40) ∧ (∀ i, 0 ≤ i < 16 → enabled h4 i = bool_decide (i ∈ [0; 1; 4])) ∧
    PIT_BASE_FREQ / pit_reload (timer h4) = 100 ∧ transmitting fuel h4 ∧ rx (com1 h4) = [] ∧
    ∃ before, sent (com1 h4) = before ++ boot_text.
Proof.
  intros Hp. destruct (printk_touches fuel CURRENT_LEVEL Info (text_bytes "Welcome to Zeronix!") h Hp) as (h1 & P1 & [T1 _]).
  destruct fuel as [|n] eqn:Ef; [by destruct Hp; lia|]. rewrite <- Ef in *.
  destruct (interrupts_configured n h1) as (h2 & W1 & _ & W2 & _ & _ & W3 & _ & W4 & _ & _ & _ & _ & W5 & _ & W6). rewrite <- Ef in W1.
  destruct (printk_spec fuel CURRENT_LEVEL Info [text_bytes "Zeronix boot successfully!"] h2) as (h3 & P3 & E3); [done|by apply W6|by apply (bool_decide_unpack _)|].
  destruct (serial_write_spec fuel (Z_of_byte <$> prompt) h3 (em_line _ _ _ _ E3)) as (h4 & P4 & E4).
  pose proof (emits_app _ _ _ _ _ _ E3 E4) as [S R T (M1 & M2 & M3 & _)]. exists h1, h2, h3, h4.
  unfold enabled, masked in *. rewrite M1, M2, M3. split_and!; [done..|by rewrite R|by exists (sent (com1 h2))].
Qed.

(** The hardware part does not touch what [kernel_boot] is about. *)
Lemma kernel_main_splits mem_map img m0 c k s :
  initial fuel k → kernel_boot A mem_map img m0 c = Ret s →
  ∃ k', kernel_main A L fuel mem_map img m0 c k = Ret k' ∧ kn_tasks k' = s ∧ operational fuel L k'.
Proof.
  intros [K1 K2 K3 K4 K5] Hb. unfold kernel_boot in Hb.
  apply bind_Ret in Hb as (b & Hb & Hr). apply bind_Ret in Hr as ([addr p] & Hp & Hr). cbv zeta in Hr.
  apply bind_Ret in Hr as (s1 & H1 & Hr). apply bind_Ret in Hr as (smoke & H2 & Hr).
  apply bind_Ret in Hr as ([r1 s2] & H3 & Hr). apply bind_Ret in Hr as ([r2 s3] & H4 & [= <-]).
  destruct HL as [L1 [L2 L2'] [L3 L3'] L4 L5 L6].
  destruct (gdt_init_correct (gdt_addr L) (tss_addr L) (ring0_stack L) (double_fault_stack L) (kn_tables k) K1 K2 L1 L2 L2' L3 L3')
    as (t & low & high & Hg & _ & _ & _ & _ & _ & _ & D1 & D2 & _ & D3 & _ & D4 & D5 & _ & D6 & _).
  destruct (calls_booted (exec_answer A (set_kernel_stack (ring0_stack L + STACK_SIZE) (load_cr3 (switch_cr3 addr) (mkTasks [] [] 1 None [] c false 0 0 p))))
    (kn_calls k) K4) as (fs & c1 & c2 & c3 & C1 & C2 & C3 & C4 & C5 & C6 & C7 & C8 & _).
  destruct (idt_init_correct (exception_stub_addr L) (irq_stub_addr L) L4 L5 (kn_idt k)) as (idt & I1 & _ & I2); [by rewrite K3|].
  destruct (devices_booted (kn_hw k) K5) as (h1 & h2 & h3 & h4 & W1 & W2 & W3 & W4 & D7 & D8 & D9 & D10 & D11 & D12).
  eexists. split; [|split; [|]].
  - unfold kernel_main. rewrite W1, Ret_bind, Hb, Ret_bind, Hp, Ret_bind. cbv zeta. rewrite Hg, Ret_bind, D4. cbn [expect]. rewrite Ret_bind.
    rewrite C1, Ret_bind, C2, Ret_bind, C3, Ret_bind, I1, Ret_bind. rewrite <- L6, H1, Ret_bind, H2, Ret_bind, H3, Ret_bind, H4, Ret_bind, W2, Ret_bind. cbv zeta. rewrite W3, Ret_bind, W4, Ret_bind.
    reflexivity.
  - reflexivity.
  - clear Hb Hp H1 H2 H3 H4 Hg C1 C2 C3 I1 W1 W2 W3 W4.
    destruct (syscall_init_correct (syscall_entry_addr L) (kn_msr k)) as (M1 & _ & M2 & _ & _ & M3 & M4 & M5 & _).
    split; cbn [kn_tables kn_idt kn_msr kn_hw kn_calls]; [done|done|by exists low, high| |done|done|done|done|done|done|by exists fs|by rewrite C7].
    intros v Hv. specialize (I2 v ltac:(unfold IDT_ENTRIES; lia)). replace (v <? 48) with true in I2 by lia.
    destruct I2 as (e & ? & ? & ? & ? & ?). by exists e.
Qed.

(** A machine that can boot: a sane memory map and image, boot data where the
    kernel expects it, a page allocator that starts coalesced and with room
    for the kernel's tables and two processes, and a root that is not frame 0. *)
Record bootable (mem_map : list MemoryArea) (img : KernelImage) (m0 : pmem) (b : BuddyAllocator) : Prop := {
  bt_image : image_ok mem_map img;
  bt_bootdata : bootdata A = bootdata_range img;
  bt_memory : ∀ t, length (m0 t) = 512%nat;
  bt_reserved : reserved_ok (boot_reserved img);
  bt_areas : ∀ a, a ∈ mem_map → area_ok a;
  bt_disjoint : areas_disjoint mem_map;
  bt_new : buddy_new (boot_metadata mem_map) mem_map (boot_reserved img) = Ret b;
  bt_coalesced : coalesced b;
  bt_room : roomy b (S (length (PagingPlan.tables (kernel_plan mem_map img))) + 2 * spawn_room A);
  bt_root : ∀ p, init_kernel_page_table mem_map img (mkPaging m0 (Some b) 0) ≠ Ret (0, p);
}.

(** The processes after booting: [c0] runs on the kernel's table, [r1] and
    [r2] are user processes and wait. *)
Record booted_tasks (s : tasks (B := BuddyAllocator)) (c0 r1 r2 : nat) : Prop := {
  bo_system : system A s;
  bo_isolated : isolated s;
  bo_if : IF s = true;
  bo_queue : READY_QUEUE s = [r1; r2];
  bo_current : CURRENT s = Some c0 ∧ ∃ p0, procs s !! c0 = Some p0 ∧ pid p0 = 0 ∧ pagetable p0 = KERNEL_PML4 (pg s) ∧
    state p0 = Running ∧ ticks_left p0 = DEFAULT_TIME_SLICE_TICKS;
  bo_first : ∃ p1, procs s !! r1 = Some p1 ∧ pid p1 = 1 ∧ kind p1 = UserProc;
  bo_second : ∃ p2, procs s !! r2 = Some p2 ∧ pid p2 = 2 ∧ kind p2 = UserProc;
}.

Lemma kernel_main_spec mem_map img m0 c k b :
  initial fuel k → bootable mem_map img m0 b →
  ∃ k' c0 r1 r2, kernel_main A L fuel mem_map img m0 c k = Ret k' ∧ operational fuel L k' ∧ booted_tasks (kn_tasks k') c0 r1 r2.
Proof.
  intros Hk [Himg Hbd Hm0 Hres Hareas Hdis Hb Hco Hroom Hr0].
  destruct (kernel_boot_correct A mem_map img m0 c Himg Hbd Hm0 b Hres Hareas Hdis Hb Hco Hroom Hr0)
    as (s & r1 & r2 & p1 & p2 & H1 & H2 & H3 & H4 & (c0 & p0 & H5) & H6 & H7 & H8 & H9 & H10 & H11 & H12).
  destruct (kernel_main_splits mem_map img m0 c k s Hk H1) as (k' & M1 & M2 & M3). subst s. clear Hr0 H1 Hb.
  exists k', c0, r1, r2. split_and!; [done|done|]. split; [done|done|done|done| |by exists p1|by exists p2].
  split; [apply H5|]. exists p0. apply H5.
Qed.

(** C7: booting.  On a machine that can boot, with a serial transmitter that
    gets ready within [fuel] polls, [kernel_main] reaches the shell.
    Interrupts are then on and the system invariant and memory isolation hold,
    the boot process runs on the kernel's table and two user processes with
    ids 1 and 2 wait; the TSS, the gates of all exceptions and interrupt
    lines, the system call registers, the interrupt controllers and the timer
    are set up for it, the last thing transmitted is the message of success
    and the shell's prompt, the file system holds an image of every program, and
    no lock of the system call layer is held. *)
Theorem kernel_main_correct mem_map img m0 c k b :
  initial fuel k → bootable mem_map img m0 b →
  ∃ k' c0 r1 r2, kernel_main A L fuel mem_map img m0 c k = Ret k' ∧ operational fuel L k' ∧ booted_tasks (kn_tasks k') c0 r1 r2.
Proof. apply kernel_main_spec. Qed.

(** The running process has the processor: its page table and kernel stack
    are the ones in use. *)
Definition on_cpu (s : tasks (B := BuddyAllocator)) (r : nat) (id : Z) : Prop :=
  CURRENT s = Some r ∧ IF s = true ∧ ∃ p, procs s !! r = Some p ∧ pid p = id ∧ CR3 s = switch_cr3 (pagetable p) ∧ rsp0 s = kstack_top p.

Lemma models_on_cpu s a s0 p : models A s a → blocks_kept s0 s → procs s0 !! rr_cur a = Some p → on_cpu s (rr_cur a) (pid p).
Proof.
  intros [Hok [Hif _]] Hk Hp. destruct (so_run _ _ _ Hok) as (q & Hq & _ & Hcr & Hr0 & _).
  destruct (Hk _ _ Hp) as (q' & Hq' & Hb). rewrite Hq in Hq'. injection Hq' as <-.
  split_and!; [apply (so_current _ _ _ Hok)|done|]. exists q. split_and!; [done|apply Hb|done|done].
Qed.

(** C8: the booted kernel multitasks.  With nothing but timer interrupts, the
    first user process has the processor after 5 ticks, the second after 10,
    and the boot process with the shell again after 15, each with its own
    page table and kernel stack. *)
Theorem booted_multitasking mem_map img m0 c k b :
  addresses_ok A → initial fuel k → bootable mem_map img m0 b →
  ∃ k' c0 r1 r2 s1 s2 s3, kernel_main A L fuel mem_map img m0 c k = Ret k' ∧ on_cpu (kn_tasks k') c0 0 ∧
    run_events A (replicate 5 Tick) (kn_tasks k') = Ret s1 ∧ on_cpu s1 r1 1 ∧
    run_events A (replicate 10 Tick) (kn_tasks k') = Ret s2 ∧ on_cpu s2 r2 2 ∧
    run_events A (replicate 15 Tick) (kn_tasks k') = Ret s3 ∧ on_cpu s3 c0 0.
Proof.
  intros HA Hk Hbt. destruct (kernel_main_spec mem_map img m0 c k b Hk Hbt) as (k' & c0 & r1 & r2 & Hm & _ & [B1 _ B2 B3 [B4 (p0 & B5 & B6 & _ & B7 & B8)] (p1 & B9 & B10 & _) (p2 & B11 & B12 & _)]).
  set (s := kn_tasks k') in *. set (a := mkRr c0 5 true [r1; r2]).
  assert (models A s a) as Ha.
  { pose proof (sy_sched _ _ B1) as Hs. rewrite B4 in Hs. split; [exact Hs|]. split; [done|]. split; [done|].
    split; [unfold runs; cbn; rewrite B5; by rewrite bool_decide_true|]. by exists p0. }
  assert (∀ n, ∃ s', run_events A (replicate n Tick) s = Ret s' ∧ models A s' (rr_run (replicate n Tick) a) ∧ blocks_kept s s') as Hrun.
  { intros n. apply events_refine_kept; [done|by apply Forall_replicate|done]. }
  destruct (Hrun 5%nat) as (s1 & R1 & M1 & K1). destruct (Hrun 10%nat) as (s2 & R2 & M2 & K2). destruct (Hrun 15%nat) as (s3 & R3 & M3 & K3).
  exists k', c0, r1, r2, s1, s2, s3. clear Hrun. split; [exact Hm|]. clear Hm. fold s. split_and!.
  - rewrite <- B6. by apply (models_on_cpu s a s p0).
  - exact R1.
  - rewrite <- B10. by apply (models_on_cpu s1 _ s p1 M1).
  - exact R2.
  - rewrite <- B12. by apply (models_on_cpu s2 _ s p2 M2).
  - exact R3.
  - rewrite <- B6. by apply (models_on_cpu s3 _ s p0 M3).
Qed.
End boot.

(** ** Booting the 256-frame machine *)

Definition small_statics : statics :=
  mkStatics 0x20000 0x21000 0x5000 0x15000 0x22000 (λ v, 0x100000 + 64 * (v mod 256)) (λ v, 0x100000 + 64 * (v mod 256)) 0x7000.
Lemma small_statics_ok : statics_ok medium_addresses small_statics.
Proof. split; [by split|by split|by split|apply stubs_in_range|apply stubs_in_range|reflexivity]. Qed.
Definition powered_on : kernel :=
  mkKernel (mkTasks [] [] 1 None [] Context_new false 0 0 (mkPaging (λ _, table_new) None 0)) (mkTables GDT0 TSS0 (0, 0) 0 0) IDT0 (0, 0)
    (λ _, 0) sample_hw (blank (λ _, Byte.x00)).

Lemma powered_on_initial : initial 8 powered_on.
Proof. split; [done..|]. split; apply sample_transmitting. Qed.
Lemma medium_bootable : bootable medium_addresses medium_map small_image (λ _, table_new) medium.
Proof.
  split; [exact medium_image_ok|reflexivity|reflexivity|exact medium_reserved_ok|exact medium_map_ok|exact medium_map_disjoint
    |exact medium_boot_new|exact medium_coalesced|exact medium_boot_room|exact medium_root].
Qed.

Lemma kernel_main_correct_witness :
  ∃ k' c0 r1 r2, kernel_main medium_addresses small_statics 8 medium_map small_image (λ _, table_new) Context_new powered_on = Ret k' ∧
    operational 8 small_statics k' ∧ booted_tasks medium_addresses (kn_tasks k') c0 r1 r2.
Proof.
  exact (kernel_main_correct medium_addresses small_statics small_statics_ok 8 medium_map small_image (λ _, table_new) Context_new powered_on medium
    powered_on_initial medium_bootable).
Defined.

Lemma booted_multitasking_witness :
  ∃ k' r2 s2, kernel_main medium_addresses small_statics 8 medium_map small_image (λ _, table_new) Context_new powered_on = Ret k' ∧
    run_events medium_addresses (replicate 10 Tick) (kn_tasks k') = Ret s2 ∧ on_cpu s2 r2 2.
Proof.
  destruct (booted_multitasking medium_addresses small_statics small_statics_ok 8 medium_map small_image (λ _, table_new) Context_new powered_on medium
    medium_addresses_ok powered_on_initial medium_bootable) as (k' & c0 & r1 & r2 & s1 & s2 & s3 & H1 & _ & _ & _ & H2 & H3 & _).
  exists k', r2, s2. split; [exact H1|]. split; [exact H2|exact H3].
Defined.
