(* ===== verification/UserAccess.v ===== *)
(** * System calls and the caller's page table

    While a system call runs, CR3 still holds the caller's root, and the
    kernel follows the caller's pointers in supervisor mode.  Here the memory
    of a call is what the processor finds through that root: an access to an
    address that is not mapped is a page fault, which the exception handler
    of [src/trap/idt.rs] turns into a panic.  Neither [syscall_read],
    [syscall_write] nor [copy_user_cstr] looks at the user bit of a page, so
    neither does this model.

    [boot.S] does not set CR0.WP, whose value the boot loader leaves open: it
    is the parameter [WP]. *)

From S2P Require Import Prelude Bytes RamFs FdTable Elf Buddy Address Paging PagingInv ProcLayout Proc SpaceBuild Syscall Devices Kernel.
From Stdlib Require Import Strings.Byte.
Local Open Scope Z_scope.

(** ** Bytes through a page table *)

(** The addresses that are no general protection fault. *)
Definition canonical_addr (a : Z) : bool := ((0 <=? a) && (a <? 2 ^ 47)) || ((KERNEL_VMA <=? a) && (a <? 2 ^ 64)).

Definition load_byte (cr3 : Z) (m : pmem) (a : Z) : option byte :=
  if canonical_addr a then '(pa, _) ← translate m cr3 a; read_byte m pa else None.

(** Byte [o] of the physical memory changed to [b]. *)
Definition set_byte (i : nat) (b : byte) (w : Z) : Z := from_le (<[i := b]> (to_le 8 w)).
Definition write_byte (o : Z) (b : byte) (m : pmem) : pmem :=
  let frame := o - o mod PAGE_SIZE in
  pm_upd frame (alter (set_byte (Z.to_nat (o mod 8)) b) (Z.to_nat (o mod PAGE_SIZE / 8)) (m frame)) m.

Section access.
Context (WP : bool).

(** A supervisor store: with [WP] the writable bit counts. *)
Definition store_byte (cr3 a : Z) (b : byte) (m : pmem) : option pmem :=
  if canonical_addr a then
    '(pa, rt) ← translate m cr3 a;
    if WP && negb (r_write rt) then None else Some (write_byte pa b m)
  else None.

(** [dst[..n].copy_from_slice(src)] byte by byte; a fault panics. *)
Fixpoint copy_out (cr3 a : Z) (src : bytes) (m : pmem) : outcome pmem :=
  match src with
  | [] => Ret m
  | b :: src => m ← expect (store_byte cr3 a b m); copy_out cr3 (a + 1) src m
  end.

(** ** What a call reads of its caller's memory *)

(** The bytes [copy_user_cstr] looks at: up to the first zero, at most 256. *)
Fixpoint cstr_loads (fuel : nat) (mem : Z → byte) (ptr offset : Z) : list Z :=
  match fuel with
  | O => []
  | S fuel =>
      ptr + offset ::
        if bool_decide (mem (ptr + offset) = x00) then [] else cstr_loads fuel mem ptr (offset + 1)
  end.
Definition string_loads (mem : Z → byte) (ptr : Z) : list Z :=
  if ptr =? 0 then [] else cstr_loads (Z.to_nat MAX_USER_STRING) mem ptr 0.

(** Whether [FileDescriptorTable::write] gets as far as copying the buffer. *)
Definition copies_buffer (fs : RamFs) (t : FileDescriptorTable) (fd : Z) : bool :=
  match Fd.get t fd with
  | Some (Stdout _ | Stderr _) => true
  | Some (OpenedFile path _ flags) =>
      Flags.contains flags Flags.WRITE &&
      (negb (Flags.contains flags Flags.APPEND) || match (Fs.append fs path []).1 with Ok _ => true | Err _ => false end)
  | Some (Stdin _ _) | None => false
  end.
(** Both locks are taken before the buffer is looked at. *)
Definition buffer_loads (c : KState) (fd ptr len : Z) : list Z :=
  if (ptr =? 0) || bool_decide (KERNEL_FS ∈ k_held c) || bool_decide (KERNEL_FD_TABLE ∈ k_held c) then [] else
  match k_fs c, k_fd c with
  | Some fs, Some t => if copies_buffer fs t fd then seqZ ptr len else []
  | _, _ => []
  end.

Definition loads (number arg0 arg1 arg2 : Z) (c : KState) : list Z :=
  if number =? Number.Write then buffer_loads c arg0 arg1 arg2
  else if (number =? Number.Open) || (number =? Number.Unlink) || (number =? Number.Mkdir) || (number =? Number.Exec) then
    string_loads (k_mem c) arg0
  else if number =? Number.Rename then
    string_loads (k_mem c) arg0 ++
      match copy_user_cstr (k_mem c) arg0 with Ret (Ok _) => string_loads (k_mem c) arg1 | _ => [] end
  else [].

(** ** A system call of the running process *)

Definition with_calls (c : KState) (k : kernel) : kernel :=
  mkKernel (kn_tasks k) (kn_tables k) (kn_idt k) (kn_idtr k) (kn_msr k) (kn_hw k) c.
Definition with_tasks (t : tasks) (k : kernel) : kernel :=
  mkKernel t (kn_tables k) (kn_idt k) (kn_idtr k) (kn_msr k) (kn_hw k) (kn_calls k).
Definition with_phys (m : pmem) (t : tasks (B := BuddyAllocator)) : tasks :=
  with_pg (mkPaging m (pg_buddy (pg t)) (KERNEL_PML4 (pg t))) t.

(** The memory of the running process. *)
Definition seen (k : kernel) (a : Z) : option byte := load_byte (CR3 (kn_tasks k)) (pg_mem (pg (kn_tasks k))) a.
Definition seeing (k : kernel) : kernel := with_calls (set_mem (λ a, default x00 (seen k a)) (kn_calls k)) k.

(** The bytes a call leaves in its caller's memory. *)
Definition result_bytes (number arg1 : Z) (r : sysret) (c : KState) : bytes :=
  match r with
  | Return (Ok n) => if number =? Number.Read then load_bytes (k_mem c) arg1 n else []
  | _ => []
  end.

Context (A : addresses).

Definition user_call (fuel : nat) (number arg0 arg1 arg2 : Z) (k : kernel) : outcome (sysret * kernel) :=
  let k0 := seeing k in
  _ ← assert_that (forallb (λ a, bool_decide (is_Some (seen k a))) (loads number arg0 arg1 arg2 (kn_calls k0)));
  '(r, k1) ← system_call A fuel number arg0 arg1 arg2 k0;
  let t := kn_tasks k1 in
  m ← copy_out (CR3 t) arg1 (result_bytes number arg1 r (kn_calls k1)) (pg_mem (pg t));
  Ret (r, with_tasks (with_phys m t) k1).
End access.
