(* ===== verification/CallProgress.v ===== *)
(** * System calls return

    With the locks free, arguments of machine size and mapped pointers, every
    system call apart from [exec] and [exit] returns to its caller: nothing
    in the system call layer, the descriptor table or the file system panics. *)

From S2P Require Import Prelude Bytes RamFs FdTable FdCorrect Elf Syscall SyscallCorrect CallEffects Devices DevicesCorrect Traps Kernel UserAccess.
From Stdlib Require Import Strings.Byte.
Local Open Scope Z_scope.

(** ** Rules *)

Definition returns {A} (m : K A) (k : KState) : Prop := ∃ a k', m k = Ret (a, k').

Lemma returns_bind {A B} (m : K A) (f : A → K B) k :
  returns m k → (∀ a k', m k = Ret (a, k') → returns (f a) k') → returns (m ≫= f) k.
Proof. intros (a & k' & E) Hf. destruct (Hf a k' E) as (b & k2 & E2). exists b, k2. unfold mbind, K_bind. by rewrite E. Qed.
Lemma returns_gets {A B} (g : KState → A) (f : A → K B) k : returns (f (g k)) k → returns (gets g ≫= f) k.
Proof. done. Qed.
Lemma returns_lift {A B} (m : outcome A) a (f : A → K B) k : m = Ret a → returns (f a) k → returns (lift m ≫= f) k.
Proof. intros -> H. exact H. Qed.
Lemma returns_with_lock {A} l (m : K A) k : l ∉ k_held k → returns m (set_held (l :: k_held k) k) → returns (with_lock l m) k.
Proof. intros Hl (a & k' & E). unfold returns. rewrite with_lock_eq by done. rewrite E. by do 2 eexists. Qed.
Lemma returns_with_fs f k :
  KERNEL_FS ∉ k_held k → (∀ fs, k_fs k = Some fs → returns (f fs) (set_held (KERNEL_FS :: k_held k) k)) → returns (with_fs f) k.
Proof.
  intros Hl Hf. apply returns_with_lock; [done|]. apply returns_gets. cbn. destruct (k_fs k) as [fs|]; [|by do 2 eexists].
  apply returns_bind; [by apply Hf|]. intros [r fs'] k' _. by do 2 eexists.
Qed.
Lemma returns_with_fd_table {A} (f : FileDescriptorTable → K (A * FileDescriptorTable)) missing k :
  KERNEL_FD_TABLE ∉ k_held k → (∀ t, k_fd k = Some t → returns (f t) (set_held (KERNEL_FD_TABLE :: k_held k) k)) → returns (with_fd_table f missing) k.
Proof.
  intros Hl Hf. apply returns_with_lock; [done|]. apply returns_gets. cbn. destruct (k_fd k) as [t|]; [|by do 2 eexists].
  apply returns_bind; [by apply Hf|]. intros [r t'] k' _. by do 2 eexists.
Qed.

(** ** Strings *)

Lemma cstr_loop_returns fuel mem ptr offset acc :
  (∀ a, a ∈ cstr_loads fuel mem ptr offset → a ≤ usize_max) → ∃ r, cstr_loop fuel mem ptr offset acc = Ret r.
Proof.
  revert offset acc. induction fuel as [|fuel IH]; intros offset acc H; [by eexists|]. cbn [cstr_loop cstr_loads] in *.
  rewrite uadd_ok by (apply H; by left). rewrite Ret_bind. case_bool_decide; [by eexists|]. apply IH. intros a Ha. apply H. by right.
Qed.
Lemma string_returns {B} ptr (f : string → K (Result B SysError)) k :
  (∀ a, a ∈ string_loads (k_mem k) ptr → a ≤ usize_max) → (∀ path, copy_user_cstr (k_mem k) ptr = Ret (Ok path) → returns (f path) k) →
  returns (k_try (user_cstr ptr) f) k.
Proof.
  intros Ha Hf. assert (∃ r, copy_user_cstr (k_mem k) ptr = Ret r) as [r Hr].
  { unfold copy_user_cstr, string_loads in *. destruct (ptr =? 0); [by eexists|]. destruct (cstr_loop_returns _ _ _ _ [] Ha) as [r ->]. by eexists. }
  unfold k_try, user_cstr. unfold returns, mbind, K_bind, gets, lift. rewrite Hr. cbn. destruct r as [path|e]; [by apply Hf|by do 2 eexists].
Qed.

(** ** Descriptors *)

Section table.
Context (room : Z) (t : FileDescriptorTable) (fs : RamFs) (Ht : table_ok t).

Lemma close_returns fd : 0 ≤ fd → ∃ x, SyscallTable.close t fd = Ret x.
Proof.
  intros Hf. destruct (fd_step_safe_lemma room t fs (FdClose fd) Ht Hf) as (r & t' & fs' & H & _). apply bind_Ret in H as ([r1 t1] & H & _).
  unfold SyscallTable.close. rewrite H. by eexists.
Qed.
Lemma dup2_returns a b : growable room t b → ∃ x, SyscallTable.dup2 room t a b = Ret x.
Proof.
  intros Hf. destruct (fd_step_safe_lemma room t fs (FdDup2 a b) Ht Hf) as (r & t' & fs' & H & _). apply bind_Ret in H as ([r1 t1] & H & _).
  unfold SyscallTable.dup2. rewrite H. by eexists.
Qed.
Lemma read_returns fd buf : fits room t fs (FdRead fd buf) → ∃ x, SyscallTable.read fs t fd buf = Ret x.
Proof.
  intros Hf. destruct (fd_step_safe_lemma room t fs (FdRead fd buf) Ht Hf) as (r & t' & fs' & H & _). apply bind_Ret in H as ([[r1 t1] d] & H & _).
  unfold SyscallTable.read. rewrite H. by eexists.
Qed.
Lemma write_returns fd buf :
  fits room t fs (FdWrite fd buf) → ∃ r t' fs', SyscallTable.write fs t fd buf = Ret (r, t', fs') ∧ ∀ n, r = Ok n → n = zlen buf.
Proof.
  intros Hf. destruct (fd_step_safe_lemma room t fs (FdWrite fd buf) Ht Hf) as (r & t' & fs' & H & _). apply bind_Ret in H as ([[r1 t1] fs1] & H & _).
  unfold SyscallTable.write. rewrite H. do 3 eexists. split; [done|]. intros n Hn. destruct r1 as [v|]; [|done]. injection Hn as ->. by eapply fd_write_count.
Qed.
End table.

(** ** Calls *)

(** Arguments of machine size, sizes that fit a [usize], and memory for the
    entry that an open or a dup2 adds to the descriptor table. *)
Record call_fits (room : Z) (fs : RamFs) (t : FileDescriptorTable) (n a0 a1 a2 : Z) : Prop := {
  cf_args : 0 ≤ a0 ∧ 0 ≤ a1 ∧ 0 ≤ a2;
  cf_len : n = Number.Read ∨ n = Number.Write → a2 ≤ 2 ^ 63 - 1;
  cf_read : n = Number.Read → fits room t fs (FdRead a0 []);
  cf_write : n = Number.Write → ∀ buf, zlen buf = a2 → fits room t fs (FdWrite a0 buf);
  cf_open : n = Number.Open → insertable room t;
  cf_dup2 : n = Number.Dup2 → growable room t a1;
}.

Section calls.
Context (k : KState) (fs : RamFs) (t : FileDescriptorTable).
Context (Hfs : k_fs k = Some fs) (Hfd : k_fd k = Some t) (Ht : table_ok t) (Hfree : ∀ l, l ≠ EXIT_CURRENT → l ∉ k_held k).

Lemma fs_free : KERNEL_FS ∉ k_held k.
Proof. by apply Hfree. Qed.
Lemma fd_free l : l ≠ KERNEL_FD_TABLE → KERNEL_FD_TABLE ∉ k_held (set_held (l :: k_held k) k).
Proof. intros Hl. cbn. apply not_elem_of_cons. split; [done|by apply Hfree]. Qed.

(** The calls on the file system alone. *)
Lemma fs_returns (f : RamFs → SysResult * RamFs) : returns (with_fs (λ fs, mret (f fs))) k.
Proof. apply returns_with_fs; [apply fs_free|]. intros fs0 _. by do 2 eexists. Qed.
(** The calls on the descriptor table alone. *)
Lemma table_returns (f : FileDescriptorTable → outcome (SysResult * FileDescriptorTable)) missing :
  (∃ x, f t = Ret x) → returns (with_fd_table (λ t, lift (f t)) missing) k.
Proof.
  intros [x Hx]. apply returns_with_fd_table; [by apply Hfree|]. intros t0 E. rewrite Hfd in E. injection E as <-. unfold returns, lift. rewrite Hx. by do 2 eexists.
Qed.

Lemma table_returns_room (f : Z → FileDescriptorTable → outcome (SysResult * FileDescriptorTable)) missing :
  (∃ x, f (k_room k) t = Ret x) → returns (with_fd_table (λ t, room ← gets k_room; lift (f room t)) missing) k.
Proof.
  intros [x Hx]. apply returns_with_fd_table; [by apply Hfree|]. intros t0 E. rewrite Hfd in E. injection E as <-. apply returns_gets. cbn [k_room set_held].
  unfold returns, lift. rewrite Hx. by do 2 eexists.
Qed.

Lemma open_returns path flags :
  insertable (k_room k) t →
  returns (with_fs (λ fs, with_fd_table (λ t, room ← gets k_room; '(r, t', fs') ← lift (SyscallTable.open room fs t path flags); mret (r, fs', t'))
    (Err SysUnsupported, fs))) k.
Proof.
  intros Hroom. apply returns_with_fs; [apply fs_free|]. intros fs0 _. apply returns_with_fd_table; [by apply fd_free|]. intros t0 E. cbn in E. rewrite Hfd in E. injection E as <-.
  apply returns_gets. cbn [k_room set_held]. destruct (open_safe (k_room k) t fs0 path flags Ht Hroom) as (r & t' & fs' & H & _).
  cbn [fd_step] in H. apply bind_Ret in H as ([[r1 t1] fs1] & H & _). unfold SyscallTable.open. rewrite H. by do 2 eexists.
Qed.

Lemma syscall_read_returns fd ptr len : len ≤ 2 ^ 63 - 1 → fits (k_room k) t fs (FdRead fd []) → returns (syscall_read fd ptr len) k.
Proof.
  intros Hlen Hf. unfold syscall_read. destruct (ptr =? 0); [by do 2 eexists|]. unfold raw_len_ok.
  apply (returns_lift _ ()); [by rewrite bool_decide_true|]. apply returns_with_lock; [apply fs_free|]. apply returns_gets. cbn [k_fs set_held]. rewrite Hfs.
  apply returns_with_fd_table; [by apply fd_free|]. intros t0 E. cbn in E. rewrite Hfd in E. injection E as <-. apply returns_gets.
  destruct (read_returns (k_room k) t fs Ht fd (load_bytes (k_mem k) ptr len) Hf) as [[[r t'] d] Hx]. eapply returns_lift; [exact Hx|]. by do 2 eexists.
Qed.

Lemma mirror_returns fd buf k1 : k_held k1 = k_held k → returns (mirror_console_write fd buf) k1.
Proof.
  intros E. unfold mirror_console_write. destruct (negb _ && _); [by do 2 eexists|]. apply returns_with_lock; [rewrite E; by apply Hfree|].
  apply returns_gets. cbn. destruct (k_console k1); by do 2 eexists.
Qed.

Lemma syscall_write_returns fd ptr len :
  0 ≤ len ≤ 2 ^ 63 - 1 → (∀ buf, zlen buf = len → fits (k_room k) t fs (FdWrite fd buf)) → returns (syscall_write fd ptr len) k.
Proof.
  intros Hlen Hf. unfold syscall_write. destruct (ptr =? 0); [by do 2 eexists|]. unfold raw_len_ok.
  apply (returns_lift _ ()); [by rewrite bool_decide_true by lia|]. apply returns_gets.
  set (buf := load_bytes (k_mem k) ptr len). assert (zlen buf = len) as Hz by (apply zlen_load_bytes; lia).
  destruct (write_returns (k_room k) t fs Ht fd buf (Hf buf Hz)) as (r & t' & fs' & Hw & Hr).
  assert (∃ k1, with_fs (λ fs0, with_fd_table (λ t0, '(r, t', fs') ← lift (SyscallTable.write fs0 t0 fd buf); mret (r, fs', t'))
    (Err SysUnsupported, fs0)) k = Ret (r, k1)) as [k1 E1].
  { eexists. unfold with_fs. rewrite with_lock_eq by apply fs_free. unfold mbind at 1, K_bind at 1. cbn [gets k_fs set_held]. rewrite Hfs.
    unfold mbind at 1, K_bind at 1, with_fd_table. rewrite with_lock_eq by (by apply fd_free). unfold mbind, K_bind, lift. cbn [gets k_fd set_held]. rewrite Hfd, Hw. cbn.
    reflexivity. }
  assert (k_held k1 = k_held k) as Hh.
  { eapply (keeps_with_fs (k_held k)); [apply fs_free| |reflexivity|exact E1]. intros fs0. apply keeps_with_fd_table; [by apply fd_free|].
    intros t0. apply keeps_bind; [|intros [[r0 t1] fs1]; apply keeps_ret]. apply keeps_lift. unfold SyscallTable.write.
    apply bind_no_diverge; [apply fd_write_no_diverge|]. by intros [[r0 t1] fs1]. }
  unfold k_try. apply returns_bind; [by do 2 eexists|]. intros r1 k2 E2. rewrite E1 in E2. injection E2 as <- <-. destruct r as [n|e]; [|by do 2 eexists].
  rewrite (Hr n eq_refl), Hz. unfold slice_get. replace ((0 <=? 0) && (0 <=? len) && (len <=? zlen buf)) with true by lia.
  eapply returns_lift; [reflexivity|]. apply returns_bind; [by apply mirror_returns|]. intros u k3 _. by do 2 eexists.
Qed.

Lemma returning_returns m : returns m k → returns (returning m) k.
Proof. intros H. apply returns_bind; [done|]. intros r k' _. by do 2 eexists. Qed.

Lemma dispatch_returns n a0 a1 a2 :
  call_fits (k_room k) fs t n a0 a1 a2 → (∀ a, a ∈ loads n a0 a1 a2 k → a ≤ usize_max) → n ≠ Number.Exec → n ≠ Number.Exit → returns (dispatch n a0 a1 a2) k.
Proof.
  intros [(F0 & F1 & F2) F3 F4 F5 F6 F7] Hl Hx He. unfold loads in Hl. unfold dispatch.
  destruct (n =? Number.Read) eqn:E1; [apply Z.eqb_eq in E1; apply returning_returns, syscall_read_returns; auto|].
  destruct (n =? Number.Write) eqn:E2; [apply Z.eqb_eq in E2; apply returning_returns, syscall_write_returns; auto|].
  destruct (n =? Number.Open) eqn:E6; [apply Z.eqb_eq in E6; apply returning_returns, string_returns; [exact Hl|intros path _; by apply open_returns, F6]|].
  destruct (n =? Number.Close); [apply returning_returns, (table_returns (λ t, SyscallTable.close t a0)); by apply (close_returns 0 t fs)|].
  destruct (n =? Number.Dup2) eqn:E7; [apply Z.eqb_eq in E7; apply returning_returns, table_returns_room, (dup2_returns _ t fs); auto|].
  destruct (n =? Number.Unlink); [apply returning_returns, string_returns; [exact Hl|intros path _; apply fs_returns]|].
  destruct (n =? Number.Rename) eqn:E3.
  { apply Z.eqb_eq in E3 as ->. cbn in Hl. apply returning_returns, string_returns; [intros a Ha; apply Hl, elem_of_app; by left|].
    intros old Hold. rewrite Hold in Hl. apply string_returns; [intros a Ha; apply Hl, elem_of_app; by right|]. intros new _. apply fs_returns. }
  destruct (n =? Number.Mkdir); [apply returning_returns, string_returns; [exact Hl|intros path _; apply fs_returns]|].
  destruct (n =? Number.Fork); [by do 2 eexists|]. destruct (n =? Number.Exec) eqn:E4; [lia|]. destruct (n =? Number.Exit) eqn:E5; [lia|by do 2 eexists].
Qed.
End calls.
