(* ===== verification/UserMemory.v ===== *)
(** * Bytes stored through a page table

    What [copy_out] does to physical memory when the buffer lies in frames
    that hold data: exactly the bytes behind the buffer change, and every
    address space translates as before. *)

From S2P Require Import Prelude Bytes RamFs FdTable Elf Buddy BuddyCorrect Address Paging PagingInv PagingCorrect PagingInit ProcLayout Proc SpaceBuild Sched System SystemCorrect Syscall Devices Kernel UserAccess.
From Stdlib Require Import Strings.Byte.
Local Open Scope Z_scope.

(** ** One byte *)

Definition frame_of (o : Z) : Z := o - o mod PAGE_SIZE.

Lemma frame_of_div o : frame_of o = o / PAGE_SIZE * PAGE_SIZE.
Proof. unfold frame_of. pose proof (Z.div_mod o PAGE_SIZE ltac:(done)). lia. Qed.
Lemma frame_of_same x o : (PAGE_SIZE | x) → x ≤ o < x + PAGE_SIZE → frame_of o = x.
Proof. intros [c ->] Ho. rewrite frame_of_div. f_equal. unfold PAGE_SIZE in *. Z.to_euclidean_division_equations; lia. Qed.

Lemma to_set_byte i b w : (i < 8)%nat → to_le 8 (set_byte i b w) = <[i := b]> (to_le 8 w).
Proof.
  intros Hi. unfold set_byte. rewrite <- (to_from_le (<[i := b]> (to_le 8 w))) at 2. by rewrite length_insert, length_to_le.
Qed.

(** A byte is found where it was stored, and no other byte changes. *)
Lemma read_write_byte m o o' b :
  length (m (frame_of o)) = 512%nat →
  read_byte (write_byte o b m) o' = if decide (o' = o) then Some b else read_byte m o'.
Proof.
  intros Hlen. unfold read_byte, write_byte. fold (frame_of o) (frame_of o'). unfold pm_upd.
  pose proof (Z.mod_pos_bound o PAGE_SIZE ltac:(done)) as Bo. pose proof (Z.mod_pos_bound o' PAGE_SIZE ltac:(done)) as Bo'.
  pose proof (Z.mod_pos_bound o 8 ltac:(lia)) as B8. pose proof (Z.mod_pos_bound o' 8 ltac:(lia)) as B8'. unfold PAGE_SIZE in *.
  destruct (decide (frame_of o' = frame_of o)) as [Ef|Ef].
  2: { rewrite decide_False by congruence. done. }
  destruct (decide (o' mod 4096 / 8 = o mod 4096 / 8)) as [Ew|Ew].
  - rewrite Ew, list_lookup_alter_eq, Ef. destruct (lookup_lt_is_Some_2 (m (frame_of o)) (Z.to_nat (o mod 4096 / 8))) as [w Hw].
    { rewrite Hlen. Z.to_euclidean_division_equations; lia. }
    rewrite Hw. cbn [fmap option_fmap option_map mbind option_bind]. rewrite to_set_byte by lia. destruct (decide (o' = o)) as [->|Hne].
    + apply list_lookup_insert_eq. rewrite length_to_le. lia.
    + apply list_lookup_insert_ne. unfold frame_of, PAGE_SIZE in Ef. Z.to_euclidean_division_equations; lia.
  - rewrite list_lookup_alter_ne by (Z.to_euclidean_division_equations; lia). rewrite Ef, decide_False by congruence. done.
Qed.

Lemma read_byte_total m o : length (m (frame_of o)) = 512%nat → is_Some (read_byte m o).
Proof.
  intros Hl. unfold read_byte. fold (frame_of o). pose proof (Z.mod_pos_bound o PAGE_SIZE ltac:(done)) as Bo. unfold PAGE_SIZE in Bo.
  destruct (lookup_lt_is_Some_2 (m (frame_of o)) (Z.to_nat (o mod PAGE_SIZE / 8))) as [w ->].
  { rewrite Hl. unfold PAGE_SIZE. Z.to_euclidean_division_equations; lia. }
  cbn [mbind option_bind]. apply lookup_lt_is_Some_2. rewrite length_to_le. pose proof (Z.mod_pos_bound o 8). lia.
Qed.

Lemma write_byte_other m o b y : y ≠ frame_of o → write_byte o b m y = m y.
Proof. intros Hy. unfold write_byte, pm_upd. by rewrite decide_False. Qed.

(** ** A buffer *)

Section store.
Context `{FS : FrameSource B, FL : !FrameLaws B}.
Implicit Types (p : paging (B := B)).

(** Frames in [W] may have changed, page tables have not. *)
Record stored (rs : list Z) p p' (W : Z → Prop) : Prop := {
  st_ok : paging_ok p' rs;
  st_kernel : KERNEL_PML4 p' = KERNEL_PML4 p;
  st_free : ∀ j, pg_free p' j ↔ pg_free p j;
  st_leaf : ∀ r v, r ∈ rs → leaf (pg_mem p') r v = leaf (pg_mem p) r v;
  st_data : ∀ y, data_page rs p y ↔ data_page rs p' y;
  st_mem : ∀ y, ¬ W y → pg_mem p' y = pg_mem p y;
}.

Lemma stored_translate rs p p' W r v :
  paging_ok p rs → stored rs p p' W → r ∈ rs → translate (pg_mem p') r v = translate (pg_mem p) r v.
Proof.
  intros (b & _ & _ & Hsp) Hst Hr. destruct (st_ok _ _ _ _ Hst) as (b' & _ & _ & Hsp').
  rewrite (translate_leaf _ _ _ r v Hsp' Hr), (translate_leaf _ _ _ r v Hsp Hr). by rewrite (st_leaf _ _ _ _ Hst).
Qed.

Lemma stored_refl rs p W : paging_ok p rs → stored rs p p W.
Proof. by split. Qed.
Lemma stored_compose rs p1 p2 p3 W : stored rs p1 p2 W → stored rs p2 p3 W → stored rs p1 p3 W.
Proof.
  intros [A1 A2 A3 A4 A5 A6] [B1 B2 B3 B4 B5 B6]. split; [done|congruence| | | |].
  - intros j. by rewrite B3.
  - intros r v Hr. by rewrite B4, A4.
  - intros y. by rewrite A5.
  - intros y Hy. by rewrite B6, A6.
Qed.
Lemma wrote_stored rs p p' x (W : Z → Prop) : wrote rs p p' x → W x → stored rs p p' W.
Proof.
  intros [A1 A2 A3 A4 A5 A6 A7 A8] Hx. split; [done..| |].
  - intros y. split; [apply A6|]. intros [D1 D2]. split; [|by rewrite <- A3]. intros r q Hr Hq. rewrite <- A5 by done. by apply D1.
  - intros y Hy. apply A7. by intros ->.
Qed.

Definition with_mem (m : pmem) p : paging := mkPaging m (pg_buddy p) (KERNEL_PML4 p).

Lemma store_byte_spec WP rs p r a b pa rt (W : Z → Prop) :
  paging_ok p rs → r ∈ rs → canonical_addr a = true → translate (pg_mem p) r a = Some (pa, rt) → (WP = true → r_write rt = true) →
  data_page rs p (frame_of pa) → W (frame_of pa) →
  store_byte WP r a b (pg_mem p) = Some (write_byte pa b (pg_mem p)) ∧ stored rs p (with_mem (write_byte pa b (pg_mem p)) p) W ∧
  ∀ o, read_byte (write_byte pa b (pg_mem p)) o = if decide (o = pa) then Some b else read_byte (pg_mem p) o.
Proof.
  intros Hok Hr Hc Ht Hw Hd HW. pose proof Hok as (bd & _ & _ & Hsp). pose proof (sp_len _ _ _ Hsp) as Hlen. split_and!.
  - unfold store_byte. rewrite Hc, Ht. cbn. destruct WP; [|done]. by rewrite Hw.
  - eapply wrote_stored; [|exact HW]. apply (write_frame_spec rs p); [done|done|]. by rewrite length_alter.
  - intros o. apply read_write_byte. apply Hlen.
Qed.

(** The buffer of a call: mapped page by page to one stretch of memory that
    holds data. *)
Record buffer (WP : bool) (rs : list Z) (r a pa len : Z) (W : Z → Prop) p : Prop := {
  bf_map : ∀ i, 0 ≤ i < len → canonical_addr (a + i) = true ∧ ∃ rt, translate (pg_mem p) r (a + i) = Some (pa + i, rt) ∧ (WP = true → r_write rt = true);
  bf_data : ∀ i, 0 ≤ i < len → data_page rs p (frame_of (pa + i)) ∧ W (frame_of (pa + i));
}.

Lemma buffer_stored WP rs r a pa len W p p' :
  paging_ok p rs → r ∈ rs → stored rs p p' W → buffer WP rs r a pa len W p → buffer WP rs r a pa len W p'.
Proof.
  intros Hok Hr Hst [M D]. split.
  - intros i Hi. destruct (M i Hi) as (Hc & rt & Ht & Hw). split; [done|]. exists rt. by rewrite (stored_translate rs p p' W).
  - intros i Hi. destruct (D i Hi) as [Hd HW]. split; [by apply (st_data _ _ _ _ Hst)|done].
Qed.
Lemma buffer_tail WP rs r a pa len W p : buffer WP rs r a pa (1 + len) W p → buffer WP rs r (a + 1) (pa + 1) len W p.
Proof.
  intros [M D]. split; intros i Hi; [destruct (M (1 + i) ltac:(lia)) as (H1 & rt & H2 & H3)|destruct (D (1 + i) ltac:(lia)) as [H1 H2]].
  - rewrite <- !Z.add_assoc. split; [done|]. by exists rt.
  - by rewrite <- !Z.add_assoc.
Qed.
Lemma buffer_le WP rs r a pa len len' W p : len' ≤ len → buffer WP rs r a pa len W p → buffer WP rs r a pa len' W p.
Proof. intros Hle [M D]. split; intros i Hi; [apply M|apply D]; lia. Qed.

Lemma zlen_cons {X} (x : X) l : zlen (x :: l) = 1 + zlen l.
Proof. unfold zlen. simpl. lia. Qed.

Lemma copy_out_spec WP rs r src W p a pa :
  paging_ok p rs → r ∈ rs → buffer WP rs r a pa (zlen src) W p →
  ∃ m, copy_out WP r a src (pg_mem p) = Ret m ∧ stored rs p (with_mem m p) W ∧
    ∀ o, read_byte m o = if decide (pa ≤ o < pa + zlen src) then src !! Z.to_nat (o - pa) else read_byte (pg_mem p) o.
Proof.
  intros Hok Hr. revert p a pa Hok. induction src as [|b src IH]; intros p a pa Hok Hb.
  - exists (pg_mem p). split_and!; [done|destruct p; by apply stored_refl|]. intros o. rewrite decide_False; [done|]. unfold zlen. simpl. lia.
  - rewrite zlen_cons in *. assert (0 ≤ zlen src) as Hn by apply Nat2Z.is_nonneg. pose proof Hb as [M D].
    destruct (M 0 ltac:(lia)) as (Hc & rt & Ht & Hw). destruct (D 0 ltac:(lia)) as [Hd HW]. rewrite !Z.add_0_r in *.
    destruct (store_byte_spec WP rs p r a b pa rt W Hok Hr Hc Ht Hw Hd HW) as (H1 & H2 & H3).
    destruct (IH (with_mem (write_byte pa b (pg_mem p)) p) (a + 1) (pa + 1)) as (m & C1 & C2 & C3); [apply H2| |].
    { apply buffer_tail. by eapply buffer_stored. }
    exists m. cbn [copy_out]. rewrite H1. cbn [expect]. rewrite Ret_bind. split_and!; [exact C1| |].
    + eapply stored_compose; [exact H2|]. exact C2.
    + intros o. rewrite C3. cbn [with_mem pg_mem]. rewrite H3.
      destruct (decide (pa + 1 ≤ o < pa + 1 + zlen src)), (decide (pa ≤ o < pa + (1 + zlen src))); try lia.
      * replace (Z.to_nat (o - pa)) with (S (Z.to_nat (o - (pa + 1)))) by lia. done.
      * replace o with pa by lia. by rewrite decide_True, Z.sub_diag by done.
      * by rewrite decide_False by lia.
Qed.
End store.
