(* ===== verification/CallFootprint.v ===== *)
(** * What a system call can depend on

    A relational reading of the system call layer: two runs that differ only
    in the memory of the caller, outside the addresses that [loads] lists,
    give the same answer and leave the same kernel. *)

From S2P Require Import Prelude Bytes RamFs FdTable Elf Buddy Address Paging ProcLayout Proc Machine Syscall SyscallCorrect Devices DevicesCorrect Traps TrapsCorrect Kernel KernelCorrect UserAccess.
From Stdlib Require Import Strings.Byte.
Local Open Scope Z_scope.

(** ** Code that does not look at the caller's memory *)

Definition relabel {A} (mem : Z → byte) (o : outcome (A * KState)) : outcome (A * KState) :=
  match o with
  | Ret (a, k) => Ret (a, set_mem mem k)
  | Panic => Panic
  | Diverge => Diverge
  end.
Definition blind {A} (m : K A) : Prop := ∀ mem k, m (set_mem mem k) = relabel mem (m k).

Section rules.
Context {A B : Type}.
Lemma blind_ret (a : A) : blind (mret a : K A).
Proof. by intros mem k. Qed.
Lemma blind_bind (m : K A) (f : A → K B) : blind m → (∀ a, blind (f a)) → blind (m ≫= f).
Proof. intros Hm Hf mem k. unfold mbind, K_bind. rewrite Hm. destruct (m k) as [[a k']| |]; [apply Hf|done..]. Qed.
Lemma blind_gets (f : KState → A) : (∀ mem k, f (set_mem mem k) = f k) → blind (gets f).
Proof. intros Hf mem k. unfold gets. by rewrite Hf. Qed.
Lemma blind_modify f : (∀ mem k, f (set_mem mem k) = set_mem mem (f k)) → blind (modify f).
Proof. intros Hf mem k. unfold modify. by rewrite Hf. Qed.
Lemma blind_lift (m : outcome A) : blind (lift m).
Proof. intros mem k. by destruct m. Qed.
Lemma blind_acquire l : blind (acquire l).
Proof. intros mem k. unfold acquire. cbn. by case_match. Qed.
End rules.

Create HintDb blindness.
#[export] Hint Resolve blind_ret blind_gets blind_modify blind_lift blind_acquire : blindness.
Ltac blind_step :=
  repeat first
    [ apply blind_ret
    | apply blind_lift
    | apply blind_acquire
    | (apply blind_gets; done)
    | (apply blind_modify; done)
    | assumption
    | apply blind_bind; [|intros ?]
    | case_match ].

Lemma blind_try {A B E} (m : K (Result A E)) (f : A → K (Result B E)) : blind m → (∀ a, blind (f a)) → blind (k_try m f).
Proof. intros Hm Hf. unfold k_try. blind_step. apply Hf. Qed.
Lemma blind_with_lock {A} l (m : K A) : blind m → blind (with_lock l m).
Proof. intros Hm. unfold with_lock, release. by blind_step. Qed.
Lemma blind_with_fs f : (∀ fs, blind (f fs)) → blind (with_fs f).
Proof. intros Hf. apply blind_with_lock. blind_step. apply Hf. Qed.
Lemma blind_with_fd_table {A} (f : FileDescriptorTable → K (A * FileDescriptorTable)) missing : (∀ t, blind (f t)) → blind (with_fd_table f missing).
Proof. intros Hf. apply blind_with_lock. blind_step. apply Hf. Qed.
Lemma blind_returning m : blind m → blind (returning m).
Proof. intros Hm. unfold returning. by blind_step. Qed.
Lemma blind_exec fs path : blind (SyscallTable.exec fs path).
Proof. unfold SyscallTable.exec. case_match; [|apply blind_ret]. apply blind_bind; [apply blind_with_lock; by apply blind_gets|intros o]. by blind_step. Qed.
Lemma blind_mirror fd buf : blind (mirror_console_write fd buf).
Proof. unfold mirror_console_write. case_match; [apply blind_ret|]. apply blind_with_lock. by blind_step. Qed.

(** ** Strings *)

Lemma cstr_loop_loads fuel mem mem' ptr offset acc :
  (∀ a, a ∈ cstr_loads fuel mem ptr offset → mem' a = mem a) → cstr_loop fuel mem' ptr offset acc = cstr_loop fuel mem ptr offset acc.
Proof.
  revert offset acc. induction fuel as [|fuel IH]; intros offset acc H; [done|]. cbn [cstr_loop cstr_loads] in *.
  unfold uadd. destruct (checked_add ptr offset) as [a|] eqn:E; [|done]. cbn [expect]. rewrite !Ret_bind.
  assert (a = ptr + offset) as -> by (unfold checked_add in E; case_match; congruence).
  rewrite (H (ptr + offset)) by (by left). destruct (bool_decide (mem (ptr + offset) = x00)); [done|]. apply IH. intros a Ha. apply H. by right.
Qed.
Lemma copy_user_cstr_loads mem mem' ptr :
  (∀ a, a ∈ string_loads mem ptr → mem' a = mem a) → copy_user_cstr mem' ptr = copy_user_cstr mem ptr.
Proof.
  intros H. unfold copy_user_cstr, string_loads in *. destruct (ptr =? 0); [done|]. by rewrite (cstr_loop_loads _ mem mem').
Qed.

(** A call that starts by copying a string. *)
Lemma string_call {A} ptr (f : string → K (Result A SysError)) mem k :
  (∀ path, copy_user_cstr (k_mem k) ptr = Ret (Ok path) → f path (set_mem mem k) = relabel mem (f path k)) →
  (∀ a, a ∈ string_loads (k_mem k) ptr → mem a = k_mem k a) →
  k_try (user_cstr ptr) f (set_mem mem k) = relabel mem (k_try (user_cstr ptr) f k).
Proof.
  intros Hf Ha. unfold k_try, user_cstr, mbind, K_bind, gets, lift. cbn. rewrite (copy_user_cstr_loads (k_mem k) mem ptr Ha).
  destruct (copy_user_cstr (k_mem k) ptr) as [[path|e]| |] eqn:E; cbn; [by apply Hf|done..].
Qed.

(** ** Buffers *)

(** A failing append does not look at its data. *)
Lemma with_dir_same {A} (f g : gmap string Node → FsResult A * gmap string Node) parts n e n' :
  (∀ es x es', f es = (Err x, es') → g es = (Err x, es')) → with_dir n parts f = (Err e, n') → with_dir n parts g = (Err e, n').
Proof.
  intros Hfg. revert n n'. induction parts as [|part rest IH]; intros [content|es] n' H; cbn in *; [done| |done|].
  - destruct (f es) as [r es'] eqn:E. injection H as -> <-. by rewrite (Hfg _ _ _ E).
  - destruct (es !! part) as [child|]; [|done]. destruct (with_dir child rest f) as [r child'] eqn:E. injection H as -> <-. by rewrite (IH _ _ E).
Qed.
Lemma append_fails fs path b b' e fs' : Fs.append fs path b = (Err e, fs') → Fs.append fs path b' = (Err e, fs').
Proof.
  unfold Fs.append. destruct (split_path path) as [parts|]; [|done]. unfold at_parent. destruct (split_parent parts) as [[parent name]|]; [|done].
  unfold dir_mut. destruct (with_dir (root fs) parent _) as [r n] eqn:E. intros [= -> <-].
  eapply with_dir_same in E as ->; [done|].
  intros es x es'. cbv beta. by destruct (es !! name) as [[]|].
Qed.

(** Where [write] does not copy its buffer, it fails whatever it holds. *)
Lemma write_fails fs t fd : copies_buffer fs t fd = false → ∃ e t' fs', ∀ b, Fd.write t fs fd b = Ret (Err e, t', fs').
Proof.
  unfold copies_buffer, Fd.write, Fd.entry_mut. destruct (Fd.get t fd) as [[| | |path offset flags]|]; cbn [ok_or]; intros H; [by do 3 eexists|done|done| |by do 3 eexists].
  destruct (Flags.contains flags Flags.WRITE); cbn in *; [|by do 3 eexists]. destruct (Flags.contains flags Flags.APPEND); cbn in *; [|done].
  destruct (Fs.append fs path []) as [[u|e] fs'] eqn:E; [done|]. do 3 eexists. intros b. by rewrite (append_fails _ _ _ b _ _ E).
Qed.

(** [syscall_write] once the buffer is a slice. *)
Definition write_locked (fd : Z) (buf : bytes) : K SysResult :=
  with_fs (λ fs, with_fd_table (λ t, '(r, t', fs') ← lift (SyscallTable.write fs t fd buf); mret (r, fs', t')) (Err SysUnsupported, fs)).
Definition write_slice (fd : Z) (buf : bytes) : K SysResult :=
  k_try (write_locked fd buf)
    (λ written, shown ← lift (expect (slice_get buf 0 written)); _ ← mirror_console_write fd shown; mret (Ok written)).

Lemma blind_write_slice fd buf : blind (write_slice fd buf).
Proof.
  apply blind_try.
  - apply blind_with_fs. intros fs. apply blind_with_fd_table. intros t. apply blind_bind; [apply blind_lift|]. intros [[r t'] fs']. apply blind_ret.
  - intros n. apply blind_bind; [apply blind_lift|]. intros shown. apply blind_bind; [apply blind_mirror|]. intros. apply blind_ret.
Qed.

(** Both runs wait for the lock, or have it. *)
Lemma with_lock_same {A} l (m m' : K A) (P : A → Prop) k :
  (l ∉ k_held k → m (set_held (l :: k_held k) k) = m' (set_held (l :: k_held k) k) ∧
     ∀ a k1, m (set_held (l :: k_held k) k) = Ret (a, k1) → P a) →
  with_lock l m k = with_lock l m' k ∧ ∀ a k1, with_lock l m k = Ret (a, k1) → P a.
Proof.
  intros H. destruct (decide (l ∈ k_held k)) as [Hh|Hh].
  - unfold with_lock, mbind, K_bind, acquire. by rewrite bool_decide_true.
  - destruct (H Hh) as [E HP]. rewrite !with_lock_eq, <- E by done. split; [done|]. intros a k1 Hr.
    destruct (m (set_held (l :: k_held k) k)) as [[a' k']| |]; [|done..]. injection Hr as <- _. by eapply HP.
Qed.

(** Where the buffer is not looked at, the call fails whatever it holds. *)
Lemma write_unread fd ptr len k b b' :
  ptr ≠ 0 → 0 < len → buffer_loads k fd ptr len = [] → write_slice fd b k = write_slice fd b' k.
Proof.
  intros Hp Hlen Hl. unfold buffer_loads in Hl. rewrite (proj2 (Z.eqb_neq _ _) Hp) in Hl. cbn [orb] in Hl.
  assert (write_locked fd b k = write_locked fd b' k ∧ ∀ r k1, write_locked fd b k = Ret (r, k1) → ∃ e, r = Err e) as [E He].
  2: { unfold write_slice, k_try, mbind, K_bind. rewrite <- E. destruct (write_locked fd b k) as [[r k1]| |]; [|done..]. by destruct (He r k1 eq_refl) as [e ->]. }
  apply with_lock_same. intros Hfs. rewrite bool_decide_false in Hl by done. unfold mbind, K_bind, gets. cbn [k_fs set_held].
  destruct (k_fs k) as [fs|]; [|split; [done|]; intros r k1 [= <- _]; by eexists].
  destruct (with_lock_same KERNEL_FD_TABLE
    (o ← gets k_fd; match o with None => mret (Err SysUnsupported, fs)
       | Some t => '(r, t') ← ('(r, t', fs') ← lift (SyscallTable.write fs t fd b); mret (r, fs', t')); _ ← modify (set_fd (Some t')); mret r end)
    (o ← gets k_fd; match o with None => mret (Err SysUnsupported, fs)
       | Some t => '(r, t') ← ('(r, t', fs') ← lift (SyscallTable.write fs t fd b'); mret (r, fs', t')); _ ← modify (set_fd (Some t')); mret r end)
    (λ a, ∃ e, a.1 = Err e) (set_held (KERNEL_FS :: k_held k) k)) as [E HP].
  { intros Hfd. cbn in Hfd. apply not_elem_of_cons in Hfd as [_ Hfd]. rewrite bool_decide_false in Hl by done. cbn [orb] in Hl.
    unfold mbind, K_bind, gets, lift. cbn. destruct (k_fd k) as [t|]; [|split; [done|]; intros r k1 [= <- _]; by eexists].
    destruct (copies_buffer fs t fd) eqn:Hc; [by rewrite seqZ_cons in Hl by lia|]. destruct (write_fails fs t fd Hc) as (e & t' & fs' & Hw).
    unfold SyscallTable.write. rewrite !Hw. cbn. split; [done|]. intros r k1 [= <- _]. by eexists. }
  unfold with_fd_table. unfold mbind, K_bind, gets in *. rewrite <- E. split; [done|]. intros r k1 Hr.
  destruct (with_lock KERNEL_FD_TABLE _ _) as [[[r' fs'] k']| |]; [|done..]. destruct (HP _ _ eq_refl) as [e He]. injection Hr as <- _. by exists e.
Qed.

Lemma buffer_loads_cases k fd ptr len : buffer_loads k fd ptr len = [] ∨ buffer_loads k fd ptr len = seqZ ptr len.
Proof. unfold buffer_loads. repeat case_match; auto. Qed.

Lemma write_footprint fd ptr len mem k :
  (∀ a, a ∈ buffer_loads k fd ptr len → mem a = k_mem k a) → syscall_write fd ptr len (set_mem mem k) = relabel mem (syscall_write fd ptr len k).
Proof.
  intros Ha. unfold syscall_write. destruct (ptr =? 0) eqn:Hp; [done|]. apply Z.eqb_neq in Hp.
  unfold raw_len_ok. destruct (bool_decide (len ≤ 2 ^ 63 - 1)); [|done]. cbn [assert_that].
  change (write_slice fd (load_bytes mem ptr len) (set_mem mem k) = relabel mem (write_slice fd (load_bytes (k_mem k) ptr len) k)).
  rewrite blind_write_slice. f_equal. destruct (decide (0 < len)) as [Hlen|Hlen].
  2: { unfold load_bytes. by rewrite seqZ_nil by lia. }
  destruct (buffer_loads_cases k fd ptr len) as [E|E]; [by eapply write_unread|].
  f_equal. unfold load_bytes. apply list_fmap_ext. intros i a Hi. apply Ha. rewrite E. by eapply list_elem_of_lookup_2.
Qed.

(** [read] fills its buffer from the file: what was in it does not matter. *)
Definition answer {X Y} (o : outcome (X * Y)) : outcome X :=
  match o with Ret (x, _) => Ret x | Panic => Panic | Diverge => Diverge end.

Lemma copy_from_offset_len src offset b b' : zlen b' = zlen b → answer (copy_from_offset src offset b') = answer (copy_from_offset src offset b).
Proof. intros E. unfold copy_from_offset, copy_into. rewrite E. case_bool_decide; [done|]. by case_bool_decide. Qed.
Lemma fd_read_len t fs fd b b' : zlen b' = zlen b → answer (Fd.read t fs fd b') = answer (Fd.read t fs fd b).
Proof.
  intros E. assert (∀ src offset (g : Z → outcome FileDescriptorTable),
    answer ('(n, buf') ← copy_from_offset src offset b'; offset' ← uadd offset n; t' ← g offset'; Ret (Ok n : FdResult Z, t', buf')) =
    answer ('(n, buf') ← copy_from_offset src offset b; offset' ← uadd offset n; t' ← g offset'; Ret (Ok n : FdResult Z, t', buf'))) as H.
  { intros src offset g. pose proof (copy_from_offset_len src offset b b' E) as H.
    destruct (copy_from_offset src offset b') as [[n d]| |], (copy_from_offset src offset b) as [[n' d']| |]; try done.
    injection H as ->. cbn. destruct (uadd offset n') as [o| |]; [|done..]. cbn. by destruct (g o). }
  unfold Fd.read. destruct (Fd.entry_mut t fd) as [[data offset|?|?|path offset flags]|]; [apply (H data offset (λ o, Fd.set t fd (Stdin data o)))|done|done| |done].
  case_match; [done|]. destruct (Fs.read fs path) as [data|]; [|done]. apply (H data offset (λ o, Fd.set t fd (OpenedFile path o flags))).
Qed.

Lemma relabel_relabel {A} m1 m2 (o : outcome (A * KState)) : relabel m1 (relabel m2 o) = relabel m1 o.
Proof. by destruct o as [[]| |]. Qed.

(** Runs that agree once memory is forgotten. *)
Definition unseen {A} (m : K A) : Prop := ∀ m0 mem k, relabel m0 (m (set_mem mem k)) = relabel m0 (m k).
Lemma blind_unseen {A} (m : K A) : blind m → unseen m.
Proof. intros Hm m0 mem k. by rewrite Hm, relabel_relabel. Qed.
Lemma unseen_with_lock {A} l (m : K A) : unseen m → unseen (with_lock l m).
Proof.
  intros Hm m0 mem k. destruct (decide (l ∈ k_held k)) as [Hh|Hh].
  { unfold with_lock, mbind, K_bind, acquire. by rewrite !bool_decide_true. }
  rewrite !with_lock_eq by done. specialize (Hm m0 mem (set_held (l :: k_held k) k)).
  change (set_held (l :: k_held (set_mem mem k)) (set_mem mem k)) with (set_mem mem (set_held (l :: k_held k) k)).
  destruct (m (set_mem mem (set_held (l :: k_held k) k))) as [[a k1]| |], (m (set_held (l :: k_held k) k)) as [[a' k1']| |]; try done.
  injection Hm as -> E. destruct k1, k1'. cbn in *. by simplify_eq.
Qed.
Lemma unseen_read fd ptr len : unseen (syscall_read fd ptr len).
Proof.
  unfold syscall_read. destruct (ptr =? 0); [apply blind_unseen, blind_ret|]. unfold raw_len_ok.
  destruct (bool_decide _); [|done]. cbn [assert_that]. intros m0 mem k.
  apply (unseen_with_lock KERNEL_FS (o ← gets k_fs; match o with None => mret (Err SysUnsupported) | Some fs => _ end)).
  clear. intros m0 mem k. unfold mbind, K_bind, gets. cbn [k_fs set_mem]. destruct (k_fs k) as [fs|]; [|done].
  unfold with_fd_table. apply (unseen_with_lock KERNEL_FD_TABLE). clear. intros m0 mem k. unfold mbind, K_bind, gets, lift. cbn [k_fd set_mem].
  destruct (k_fd k) as [t|]; [|done]. unfold SyscallTable.read. cbn.
  pose proof (fd_read_len t fs fd (load_bytes (k_mem k) ptr len) (load_bytes mem ptr len)) as H.
  unfold load_bytes at 1 2, zlen in H. rewrite !length_fmap in H. specialize (H eq_refl).
  destruct (Fd.read t fs fd (load_bytes mem ptr len)) as [[[r t'] d]| |], (Fd.read t fs fd (load_bytes (k_mem k) ptr len)) as [[[r' t''] d']| |]; try done.
  injection H as -> ->. done.
Qed.

(** ** The dispatcher *)

Lemma string_unseen ptr (f : string → K SysResult) m0 mem k :
  (∀ path, blind (f path)) → (∀ a, a ∈ string_loads (k_mem k) ptr → mem a = k_mem k a) →
  relabel m0 (returning (k_try (user_cstr ptr) f) (set_mem mem k)) = relabel m0 (returning (k_try (user_cstr ptr) f) k).
Proof.
  intros Hf Ha. unfold returning, mbind, K_bind. rewrite string_call; [|intros path _; apply Hf|done].
  by destruct (k_try (user_cstr ptr) f k) as [[]| |].
Qed.

Lemma rename_unseen a0 a1 m0 mem k :
  (∀ a, a ∈ string_loads (k_mem k) a0 ++ match copy_user_cstr (k_mem k) a0 with Ret (Ok _) => string_loads (k_mem k) a1 | _ => [] end →
     mem a = k_mem k a) →
  let m := returning (k_try (user_cstr a0) (λ old, k_try (user_cstr a1) (λ new, with_fs (λ fs, mret (SyscallTable.rename fs old new))))) in
  relabel m0 (m (set_mem mem k)) = relabel m0 (m k).
Proof.
  intros Ha m. unfold m, returning, mbind, K_bind. rewrite string_call.
  - by destruct (k_try (user_cstr a0) _ k) as [[]| |].
  - intros old Hold. rewrite Hold in Ha. apply string_call; [|intros a Hin; apply Ha, elem_of_app; by right].
    intros new _. apply blind_with_fs. intros fs. apply blind_ret.
  - intros a Hin. apply Ha, elem_of_app. by left.
Qed.

Lemma blind_exit status : blind (syscall_exit status).
Proof. unfold syscall_exit, release. by blind_step. Qed.

Lemma returning_unseen m m0 mem k :
  relabel m0 (m (set_mem mem k)) = relabel m0 (m k) → relabel m0 (returning m (set_mem mem k)) = relabel m0 (returning m k).
Proof.
  intros H. unfold returning, mbind, K_bind. destruct (m (set_mem mem k)) as [[r k1]| |], (m k) as [[r' k1']| |]; try done.
  injection H as -> E. destruct k1, k1'. cbn in *. by simplify_eq.
Qed.

Lemma dispatch_unseen n a0 a1 a2 m0 mem k :
  (∀ a, a ∈ loads n a0 a1 a2 k → mem a = k_mem k a) →
  relabel m0 (dispatch n a0 a1 a2 (set_mem mem k)) = relabel m0 (dispatch n a0 a1 a2 k).
Proof.
  intros Ha. unfold loads in Ha. unfold dispatch.
  destruct (n =? Number.Read); [by apply returning_unseen, unseen_read|].
  destruct (n =? Number.Write); [apply returning_unseen; by rewrite write_footprint, relabel_relabel|].
  destruct (n =? Number.Open).
  { apply string_unseen; [|exact Ha]. intros path. apply blind_with_fs. intros fs. apply blind_with_fd_table. intros t. by blind_step. }
  destruct (n =? Number.Close); [apply blind_unseen, blind_returning, blind_with_fd_table; intros t; apply blind_lift|].
  destruct (n =? Number.Dup2); [apply blind_unseen, blind_returning, blind_with_fd_table; intros t; by blind_step|].
  destruct (n =? Number.Unlink).
  { apply string_unseen; [|exact Ha]. intros path. apply blind_with_fs. intros fs. apply blind_ret. }
  destruct (n =? Number.Rename) eqn:Hr.
  { apply rename_unseen. apply Z.eqb_eq in Hr as ->. exact Ha. }
  destruct (n =? Number.Mkdir).
  { apply string_unseen; [|exact Ha]. intros path. apply blind_with_fs. intros fs. apply blind_ret. }
  destruct (n =? Number.Fork); [done|].
  destruct (n =? Number.Exec).
  { apply string_unseen; [|exact Ha]. intros path. apply blind_with_fs. intros fs. apply blind_bind; [apply blind_exec|]. intros r. apply blind_ret. }
  destruct (n =? Number.Exit); [apply blind_unseen, blind_exit|done].
Qed.

(** ** The whole call *)

(** A kernel without the caller's memory. *)
Definition forgetting {X} (o : outcome (X * kernel)) : outcome (X * kernel) :=
  match o with
  | Ret (x, k) => Ret (x, with_calls (set_mem (λ _, x00) (kn_calls k)) k)
  | Panic => Panic
  | Diverge => Diverge
  end.

(** C11: what a system call can learn.  Run a call twice, with caller memories
    that agree on the addresses [loads] lists: the string arguments up to
    their terminator, or the buffer of a [write] that gets as far as copying
    it.  Then both runs give the same answer (or both panic, or both wait
    forever) and leave the same files, descriptors, processes and devices: no
    other byte of memory has any influence, whatever the number and the
    arguments of the call. *)
Theorem call_depends_only_on_loads A fuel n a0 a1 a2 mem k :
  (∀ a, a ∈ loads n a0 a1 a2 (kn_calls k) → mem a = k_mem (kn_calls k) a) →
  forgetting (system_call A fuel n a0 a1 a2 (with_calls (set_mem mem (kn_calls k)) k)) = forgetting (system_call A fuel n a0 a1 a2 k).
Proof.
  intros Ha. unfold system_call. cbn [with_calls kn_calls kn_tasks kn_tables kn_idt kn_idtr kn_msr kn_hw set_mem k_fs k_fd k_console k_exec k_exit k_held k_mem k_room].
  set (c := mkK _ _ _ _ _ _ (k_mem (kn_calls k)) [] _). pose proof (dispatch_unseen n a0 a1 a2 (λ _, x00) mem c) as H.
  assert (∀ a, a ∈ loads n a0 a1 a2 c → mem a = k_mem c a) as Hc by exact Ha. specialize (H Hc). clear Hc.
  change (set_mem mem c) with (mkK (k_fs c) (k_fd c) (k_console c) (k_exec c) (k_exit c) (k_held c) mem [] (k_room c)) in H. cbn [c k_fs k_fd k_console k_exec k_exit k_held k_room] in H.
  destruct (dispatch n a0 a1 a2 (mkK _ _ _ _ _ _ mem [] _)) as [[r c1]| |], (dispatch n a0 a1 a2 c) as [[r' c2]| |]; try done.
  injection H as -> H1 H2 H3 H4 H5 H6 H7 H8. rewrite !Ret_bind, H7. destruct (for_each _ _ _) as [[t h]| |]; [|done..].
  cbn. unfold with_calls, set_mem. cbn. by rewrite H1, H2, H3, H4, H5, H6, H7, H8.
Qed.

(** A process makes the directory it names at 4096; byte 9000 is a secret. *)
Definition naming (secret : byte) (a : Z) : byte := if a =? 9000 then secret else store_bytes (λ _, x00) 4096 (str_bytes "/d") a.
Definition naming_kernel (secret : byte) : kernel :=
  mkKernel medium_start (mkTables GDT0 TSS0 (0, 0) 0 0) IDT0 (0, 0) (λ _, 0) sample_hw
    (mkK (Some (mkRamFs (Dir ∅))) (Some Fd.new) true None true [] (naming secret) [] 64).

Lemma call_depends_only_on_loads_witness :
  loads Number.Mkdir 4096 0 0 (kn_calls (naming_kernel x41)) = [4096; 4097; 4098] ∧ naming x42 9000 ≠ naming x41 9000 ∧
  forgetting (system_call medium_addresses 1 Number.Mkdir 4096 0 0 (naming_kernel x42)) =
  forgetting (system_call medium_addresses 1 Number.Mkdir 4096 0 0 (naming_kernel x41)).
Proof.
  split; [vm_compute; reflexivity|]. split; [vm_compute; discriminate|].
  refine (call_depends_only_on_loads medium_addresses 1 Number.Mkdir 4096 0 0 (naming x42) (naming_kernel x41) _).
  change (loads Number.Mkdir 4096 0 0 (kn_calls (naming_kernel x41))) with (string_loads (naming x41) 4096).
  replace (string_loads (naming x41) 4096) with [4096; 4097; 4098] by (vm_compute; reflexivity).
  intros a Ha. rewrite !elem_of_cons, elem_of_nil in Ha. destruct Ha as [->|[->|[->|[]]]]; reflexivity.
Defined.
