(* ===== verification/KernelCalls.v ===== *)
(** * System calls of the whole kernel

    [exec] and [write] from the caller's registers to the new process and the
    serial line, [write] also with the bytes found through the caller's page
    table, and all together: what running an installed program does. *)

From S2P Require Import Prelude Bytes RamFs FdTable Elf ElfCorrect UserCode Buddy BuddyCorrect Address Paging PagingInv PagingCorrect PagingInit ProcLayout Proc SpaceBuild Spawn SpawnView Sched SchedCorrect System SpawnCorrect SystemCorrect Machine Syscall SyscallCorrect CallEffects Devices DevicesCorrect Traps TrapsCorrect Shell Kernel KernelFiles KernelCorrect UserAccess.
Local Open Scope Z_scope.

(** ** The exec call of the system call layer *)

Lemma dispatch_exec c fs fdt ptr a1 a2 path image f :
  ready c fs fdt → copy_user_cstr (k_mem c) ptr = Ret (Ok path) → Fs.read fs path = Ok image → k_exec c = Some f →
  dispatch Number.Exec ptr a1 a2 c = Ret (Return (f image), log_call (ExecProgram image) c).
Proof.
  intros [Hfs Hfd Hh] Hp Hi Hx. destruct c as [cfs cfd cc cx ce ch cm cl]. simpl in *. subst.
  unfold dispatch. simpl. unfold returning, k_try, user_cstr, lift, gets. unfold mbind, K_bind. simpl. rewrite Hp. simpl.
  unfold with_fs. rewrite with_lock_eq by (simpl; apply not_elem_of_nil). unfold mbind, K_bind, gets. simpl.
  unfold SyscallTable.exec. rewrite Hi. unfold mbind, K_bind. rewrite with_lock_eq by (simpl; set_solver). simpl. reflexivity.
Qed.

(** A path that cannot be read is reported and changes nothing. *)
Lemma dispatch_exec_missing c fs fdt ptr a1 a2 path err :
  ready c fs fdt → copy_user_cstr (k_mem c) ptr = Ret (Ok path) → Fs.read fs path = Err err →
  dispatch Number.Exec ptr a1 a2 c = Ret (Return (Err (sys_of_fs err)), c).
Proof.
  intros [Hfs Hfd Hh] Hp Hi. destruct c as [cfs cfd cc cx ce ch cm cl]. simpl in *. subst.
  unfold dispatch. simpl. unfold returning, k_try, user_cstr, lift, gets. unfold mbind, K_bind. simpl. rewrite Hp. simpl.
  unfold with_fs. rewrite with_lock_eq by (simpl; apply not_elem_of_nil). unfold mbind, K_bind, gets. simpl.
  unfold SyscallTable.exec. rewrite Hi. reflexivity.
Qed.

Section calls.
Context (A : addresses) (Hboot : low_range (bootdata A)).

(** The state of the system call layer at the start of a call. *)
Definition entering (k : kernel) : KState :=
  let c := kn_calls k in
  mkK (k_fs c) (k_fd c) (k_console c) ((λ _, exec_answer A (kn_tasks k)) <$> k_exec c) (k_exit c) (k_held c) (k_mem c) [] (k_room c).

Lemma entering_ready k fs fdt : ready (kn_calls k) fs fdt → ready (entering k) fs fdt.
Proof. intros []. by split. Qed.

Lemma system_call_eq fuel n a0 a1 a2 k r c t h :
  dispatch n a0 a1 a2 (entering k) = Ret (r, c) → for_each (k_log c) (run_hook A fuel) (kn_tasks k, kn_hw k) = Ret (t, h) →
  system_call A fuel n a0 a1 a2 k = Ret (r, mkKernel t (kn_tables k) (kn_idt k) (kn_idtr k) (kn_msr k) h c).
Proof. intros H1 H2. unfold system_call. fold (entering k). rewrite H1, Ret_bind, H2. done. Qed.

(** What [exec_program] does on a system with room for a process. *)
Definition loadable (image : bytes) : Prop :=
  zlen image ≤ isize_max ∧ (∃ r, parse image = Ret r) ∧ ∀ e, parse image = Ret (Ok e) → low_addr (virt_addr (p_load e)).

Lemma exec_program_spec image (t : tasks (B := BuddyAllocator)) :
  system A t → slot_free t → room (pg t) (spawn_room A) → loadable image →
  ∃ res t', exec_program A image t = Ret (match res with Ok _ => Some (NEXT_PID t) | Err _ => None end, t') ∧
    system A t' ∧ elf_result A t t' image res ∧ res ≠ Err NoMemory.
Proof.
  intros Hsys Hslot Hroom (Hlen & Hp & Hlow).
  pose proof (spawn_elf_spec A Hboot true t image Hsys Hslot Hlen Hlow ltac:(done)) as H.
  apply ends_total in H as ([res t'] & Heq & Hs & Hres). exists res, t'. unfold exec_program. rewrite Heq, Ret_bind.
  split_and!; [|done|done|intros ->; by destruct Hres].
  clear Heq. destruct res as [r|e]; [|done]. destruct Hres as (e & _ & _ & _ & Hus). destruct (us_new _ _ _ _ _ _ _ _ Hus) as (p & _ & _ & _ & Hr & _ & Hpid & _).
  rewrite Hr. cbn [expect]. rewrite Ret_bind. by rewrite Hpid.
Qed.

Lemma exec_call_spec fuel k fs fdt ptr a1 a2 path :
  ready (kn_calls k) fs fdt → is_Some (k_exec (kn_calls k)) → copy_user_cstr (k_mem (kn_calls k)) ptr = Ret (Ok path) →
  system A (kn_tasks k) → slot_free (kn_tasks k) → room (pg (kn_tasks k)) (spawn_room A) →
  (∀ image, Fs.read fs path = Ok image → loadable image) →
  ∃ r k', system_call A fuel Number.Exec ptr a1 a2 k = Ret (Return r, k') ∧ system A (kn_tasks k') ∧
    ready (kn_calls k') fs fdt ∧ kn_hw k' = kn_hw k ∧
    match Fs.read fs path with
    | Err err => r = Err (sys_of_fs err) ∧ kn_tasks k' = kn_tasks k
    | Ok image => ∃ res, elf_result A (kn_tasks k) (kn_tasks k') image res ∧ res ≠ Err NoMemory ∧
        r = match res with Ok _ => Ok (NEXT_PID (kn_tasks k)) | Err _ => Err InvalidArgument end
    end.
Proof.
  intros Hrdy [f Hf] Hp Hsys Hslot Hroom Hload. pose proof (entering_ready k fs fdt Hrdy) as Hrdy'.
  destruct (Fs.read fs path) as [image|err] eqn:Hi.
  - destruct (exec_program_spec image (kn_tasks k) Hsys Hslot Hroom (Hload image eq_refl)) as (res & t' & Hx & Hs & Hres & Hnm).
    assert (k_exec (entering k) = Some (exec_answer A (kn_tasks k))) as Hf' by (cbn; by rewrite Hf).
    pose proof (dispatch_exec (entering k) fs fdt ptr a1 a2 path image _ Hrdy' Hp Hi Hf') as Hd.
    assert (exec_answer A (kn_tasks k) image = match res with Ok _ => Ok (NEXT_PID (kn_tasks k)) | Err _ => Err InvalidArgument end) as Ha
      by (unfold exec_answer; rewrite Hx; by destruct res).
    rewrite Ha in Hd. eexists _, _. split; [eapply system_call_eq; [exact Hd|]|].
    { cbn [k_log log_call entering app for_each run_hook]. rewrite Hx, Ret_bind. reflexivity. }
    clear Hd Hx Ha Hf'. cbn [kn_tasks kn_calls kn_hw]. split_and!; [done|by destruct Hrdy'|done|by exists res].
  - pose proof (dispatch_exec_missing (entering k) fs fdt ptr a1 a2 path err Hrdy' Hp Hi) as Hd.
    eexists _, _. split; [eapply system_call_eq; [exact Hd|reflexivity]|]. clear Hd. by split_and!.
Qed.

(** An image on which the parser panics takes the kernel with it. *)
Lemma exec_call_panics fuel k fs fdt ptr a1 a2 path image :
  ready (kn_calls k) fs fdt → is_Some (k_exec (kn_calls k)) → copy_user_cstr (k_mem (kn_calls k)) ptr = Ret (Ok path) →
  system A (kn_tasks k) → Fs.read fs path = Ok image → parse image = Panic →
  system_call A fuel Number.Exec ptr a1 a2 k = Panic.
Proof.
  intros Hrdy [f Hf] Hp Hsys Hi Hpanic. pose proof (entering_ready k fs fdt Hrdy) as Hrdy'.
  assert (k_exec (entering k) = Some (exec_answer A (kn_tasks k))) as Hf' by (cbn; by rewrite Hf).
  assert (exec_program A image (kn_tasks k) = Panic) as Hx.
  { destruct (init_system A (kn_tasks k) Hsys) as (c & s1 & Hinit & _). unfold exec_program, spawn_elf. rewrite Hinit, Ret_bind, Hpanic. done. }
  unfold system_call. fold (entering k). rewrite (dispatch_exec (entering k) fs fdt ptr a1 a2 path image _ Hrdy' Hp Hi Hf'), Ret_bind.
  cbn [k_log log_call entering app for_each run_hook]. by rewrite Hx.
Qed.

(** C9: the exec system call from the caller's registers to the new process,
    in a state with the system invariant, a free process slot and memory for a
    process, for a caller's string that names any path.
    If the file behind the path is missing, or the parser returns on it and
    its segment, if it has one, asks for lower addresses (which the kernel
    does not check), the call returns with the system invariant intact, no
    lock held, and files, descriptors and devices as they were.  An unreadable
    path then gives the file system's error and changes nothing; an image that
    is no acceptable program gives [InvalidArgument] and creates nothing;
    otherwise the answer is the id of the new process, which is ready with the
    image's segment in its own address space.
    If the parser panics on the file, the call panics the kernel. *)
Theorem exec_call_correct fuel k fs fdt ptr a1 a2 path :
  ready (kn_calls k) fs fdt → is_Some (k_exec (kn_calls k)) → copy_user_cstr (k_mem (kn_calls k)) ptr = Ret (Ok path) →
  system A (kn_tasks k) → slot_free (kn_tasks k) → room (pg (kn_tasks k)) (spawn_room A) →
  ((∀ image, Fs.read fs path = Ok image → loadable image) →
   ∃ r k', system_call A fuel Number.Exec ptr a1 a2 k = Ret (Return r, k') ∧ system A (kn_tasks k') ∧
     ready (kn_calls k') fs fdt ∧ kn_hw k' = kn_hw k ∧
     match Fs.read fs path with
     | Err err => r = Err (sys_of_fs err) ∧ kn_tasks k' = kn_tasks k
     | Ok image => ∃ res, elf_result A (kn_tasks k) (kn_tasks k') image res ∧ res ≠ Err NoMemory ∧
         r = match res with Ok _ => Ok (NEXT_PID (kn_tasks k)) | Err _ => Err InvalidArgument end
     end) ∧
  (∀ image, Fs.read fs path = Ok image → parse image = Panic → system_call A fuel Number.Exec ptr a1 a2 k = Panic).
Proof.
  intros Hrdy Hx Hp Hsys Hslot Hroom. split; [by apply exec_call_spec|]. intros image. by eapply exec_call_panics.
Qed.

(** ** The write call *)

Lemma write_call_spec fuel k fs fdt fd ptr len m fdt' fs' :
  ready (kn_calls k) fs fdt → k_console (kn_calls k) = true → fd = 1 ∨ fd = 2 → ptr ≠ 0 → 0 ≤ len ≤ 2 ^ 63 - 1 →
  Fd.write fdt fs fd (load_bytes (k_mem (kn_calls k)) ptr len) = Ret (Ok m, fdt', fs') → transmitting fuel (kn_hw k) →
  ∃ k', system_call A fuel Number.Write fd ptr len k = Ret (Return (Ok m), k') ∧ ready (kn_calls k') fs' fdt' ∧
    kn_tasks k' = kn_tasks k ∧
    sent (com1 (kn_hw k')) = sent (com1 (kn_hw k)) ++ (Z_of_byte <$> load_bytes (k_mem (kn_calls k)) ptr len).
Proof.
  intros Hrdy Hcon Hfd Hp Hlen Hw Htr.
  destruct (syscall_write_effect (entering k) fs fdt fd ptr len (Ok m) fdt' fs' (entering_ready k fs fdt Hrdy) Hp Hlen Hw)
    as (c & Hd & Hrdy' & _ & Hlog).
  assert (k_log c = [ConsoleWrite (load_bytes (k_mem (kn_calls k)) ptr len)]) as Hlog1.
  { rewrite Hlog. cbn. unfold mirrored. rewrite Hcon. by destruct Hfd as [-> | ->]. }
  destruct (serial_write_spec fuel (Z_of_byte <$> load_bytes (k_mem (kn_calls k)) ptr len) (kn_hw k) Htr) as (h & Hs & [Hsent _ _ _]).
  eexists. split; [eapply system_call_eq; [exact Hd|]|].
  { rewrite Hlog1. cbn [for_each run_hook]. unfold serial_console_write. rewrite Hs. reflexivity. }
  clear Hd Hs Hlog Hlog1. by split_and!.
Qed.

(** ** The bytes behind the caller's pointer *)

(** A call that leaves nothing in its caller's memory. *)
Lemma user_call_eq WP fuel n a0 a1 a2 k r k1 :
  (∀ a, a ∈ loads n a0 a1 a2 (kn_calls (seeing k)) → is_Some (seen k a)) →
  system_call A fuel n a0 a1 a2 (seeing k) = Ret (r, k1) → result_bytes n a1 r (kn_calls k1) = [] →
  user_call WP A fuel n a0 a1 a2 k = Ret (r, k1).
Proof.
  intros Hl Hs Hb. unfold user_call. rewrite (proj2 (forallb_forall _ _)).
  2: { intros a Ha%list_elem_of_In. by apply bool_decide_eq_true, Hl. }
  cbn [assert_that]. rewrite Ret_bind, Hs, Ret_bind, Hb. cbn [copy_out]. rewrite Ret_bind. clear. by destruct k1 as [[? ? ? ? ? ? ? ? ? []]].
Qed.

Lemma user_call_fault WP fuel n a0 a1 a2 k a :
  a ∈ loads n a0 a1 a2 (kn_calls (seeing k)) → seen k a = None → user_call WP A fuel n a0 a1 a2 k = Panic.
Proof.
  intros Ha Hn. unfold user_call. destruct (forallb _ _) eqn:Hall; [|done]. rewrite forallb_forall in Hall.
  specialize (Hall a (proj1 (list_elem_of_In _ _) Ha)). cbv beta in Hall. rewrite Hn in Hall. by apply bool_decide_eq_true, is_Some_None in Hall.
Qed.

(** What the calls see where the page table maps something. *)
Lemma load_seen k ptr data :
  (∀ i, 0 ≤ i < zlen data → seen k (ptr + i) = data !! Z.to_nat i) → load_bytes (k_mem (kn_calls (seeing k))) ptr (zlen data) = data.
Proof.
  intros Hm. apply list_eq. intros i. unfold load_bytes. rewrite list_lookup_fmap. destruct (decide (Z.of_nat i < zlen data)) as [Hi|Hi].
  - rewrite lookup_seqZ_lt by done. cbn. rewrite Hm, Nat2Z.id by lia. destruct (lookup_lt_is_Some_2 data i) as [b ->]; [unfold zlen in Hi; lia|done].
  - rewrite lookup_seqZ_ge by lia. symmetry. apply lookup_ge_None_2. unfold zlen in Hi. lia.
Qed.

Lemma console_write fdt fs fd f buf :
  Fd.get fdt fd = Some f → (∃ data, f = Stdout data ∨ f = Stderr data) →
  ∃ fdt', Fd.write fdt fs fd buf = Ret (Ok (zlen buf), fdt', fs) ∧ copies_buffer fs fdt fd = true.
Proof.
  intros Hget [data Hf]. unfold copies_buffer, Fd.write, Fd.entry_mut. rewrite Hget. cbn [ok_or]. unfold Fd.set, Fd.get, arr_get, arr_set in *.
  destruct ((0 <=? fd) && (fd <? zlen (entries fdt))); [|done]. destruct Hf as [-> | ->]; cbn [expect]; rewrite !Ret_bind; by eexists.
Qed.

Lemma write_user_call_spec WP fuel k fs fdt fd f ptr data :
  ready (kn_calls k) fs fdt → k_console (kn_calls k) = true → fd = 1 ∨ fd = 2 →
  Fd.get fdt fd = Some f → (∃ d, f = Stdout d ∨ f = Stderr d) → ptr ≠ 0 → zlen data ≤ 2 ^ 63 - 1 →
  (∀ i, 0 ≤ i < zlen data → seen k (ptr + i) = data !! Z.to_nat i) → transmitting fuel (kn_hw k) →
  ∃ k', user_call WP A fuel Number.Write fd ptr (zlen data) k = Ret (Return (Ok (zlen data)), k') ∧
    kn_tasks k' = kn_tasks k ∧ (∃ fdt', ready (kn_calls k') fs fdt') ∧ sent (com1 (kn_hw k')) = sent (com1 (kn_hw k)) ++ (Z_of_byte <$> data).
Proof.
  intros [R1 R2 R3] Hcon Hfd Hget Hout Hp Hlen Hm Htr. pose proof (load_seen k ptr data Hm) as Hload.
  destruct (console_write fdt fs fd f data Hget Hout) as (fdt' & Hw & Hcp).
  destruct (write_call_spec fuel (seeing k) fs fdt fd ptr (zlen data) (zlen data) fdt' fs) as (k' & H1 & H2 & H3 & H4);
    [by split|done|done|done|split; [apply Nat2Z.is_nonneg|done]|by rewrite Hload|done|].
  exists k'. rewrite Hload in H4. split_and!; [|done|by exists fdt'|done]. apply user_call_eq; [|done|done].
  intros a Ha. cbn in Ha. unfold buffer_loads in Ha. destruct (_ || _); [by apply elem_of_nil in Ha|]. cbn in Ha. rewrite R1, R2, Hcp in Ha.
  apply elem_of_seqZ in Ha. replace a with (ptr + (a - ptr)) by lia. rewrite Hm by lia. apply lookup_lt_is_Some_2. unfold zlen in *. lia.
Qed.

(** ** Running an installed program *)

(** A byte as user mode reads it through the process's page table. *)
Definition user_memory (t : tasks (B := BuddyAllocator)) (p : Proc) (a : Z) : option Byte.byte :=
  '(pa, rt) ← translate (pg_mem (pg t)) (pagetable p) a;
  if r_user rt then read_byte (pg_mem (pg t)) pa else None.

(** The program's page is none of the stack's pages. *)
Lemma program_view program v c top st i :
  v = 0x400000 + 0x1000 * Program.id program → (∃ n, top = USER_STACK_TOP - n * USER_SLOT_SIZE) → 0 ≤ i < PAGE_SIZE →
  low_addr (v + i) ∧ user_view A v c top st (v + i) = Some (c + i, mkRights true false false).
Proof.
  intros Hv [n ->] Hi.
  assert (0 ≤ Program.id program < 16) as Hid by (by destruct program).
  unfold PAGE_SIZE in *. split; [unfold low_addr; lia|]. unfold user_view, PAGE_SIZE, USER_STACK_TOP, USER_SLOT_SIZE.
  replace ((v + i) / 4096) with (v / 4096) by (Z.to_euclidean_division_equations; lia).
  replace ((v + i) mod 4096) with i by (Z.to_euclidean_division_equations; lia).
  rewrite (proj2 (Z.eqb_neq _ _)) by (Z.to_euclidean_division_equations; lia).
  rewrite (proj2 (Z.eqb_neq _ _)) by (Z.to_euclidean_division_equations; lia). by rewrite Z.eqb_refl.
Qed.

Lemma spawned_program program s s' r v pid0 rip code :
  v = 0x400000 + 0x1000 * Program.id program → user_spawned A s s' r v (stack_top_of pid0) rip code → zlen code ≤ PAGE_SIZE →
  ∃ p tf, procs s' !! r = Some p ∧ pid p = NEXT_PID s ∧ kind p = UserProc ∧ trap_frame p = Some tf ∧
    (∀ i, (i < 20)%nat → kload (tf + 8 * Z.of_nat i) (pg_mem (pg s')) = tf_words (new_user rip (stack_top_of pid0)) !! i) ∧
    ∀ i, 0 ≤ i < zlen code → user_memory s' p (v + i) = code !! Z.to_nat i.
Proof.
  intros Hv Hus Hlen. destruct (us_new _ _ _ _ _ _ _ _ Hus) as (p & c & st & tf & H1 & _ & H2 & H3 & _ & _ & _ & H4 & _ & _ & _ & H5 & _ & H6 & H7).
  exists p, tf. split_and!; [done..|]. intros i Hi.
  destruct (program_view program v c (stack_top_of pid0) st i Hv) as [Hlow Hview]; [by exists pid0|lia|].
  unfold user_memory. rewrite H5, Hview by done. cbn. rewrite H6 by lia. unfold page_of. rewrite lookup_app_l; [done|]. unfold zlen in *. lia.
Qed.

(** A slice of code where it is loaded. *)
Lemma slice_lookup code off msg i :
  slice_get code off (off + zlen msg) = Some msg → 0 ≤ i < zlen msg → msg !! Z.to_nat i = code !! Z.to_nat (off + i).
Proof.
  intros Hs Hi. pose proof (slice_get_Some _ _ _ _ Hs) as (Ho & Hl & _). unfold slice_get in Hs.
  replace ((0 <=? off) && (off <=? off + zlen msg) && (off + zlen msg <=? zlen code)) with true in Hs by lia. injection Hs as Hs.
  rewrite <- Hs at 1. rewrite lookup_take_lt by (unfold zlen in *; lia). rewrite lookup_drop. f_equal. lia.
Qed.

(** The running process has its own page table in CR3. *)
Lemma running_cr3 (t : tasks (B := BuddyAllocator)) r p :
  system A t → CURRENT t = Some r → procs t !! r = Some p → kind p = UserProc → CR3 t = pagetable p.
Proof.
  intros Hsys Hc Hp Hk. pose proof (sy_sched _ _ Hsys) as Hs. rewrite Hc in Hs.
  destruct (so_run _ _ _ Hs) as (p' & Hp' & _ & Hcr & _). rewrite Hp in Hp'. injection Hp' as <-.
  destruct (sy_paging _ _ Hsys) as (bd & _ & _ & Hsp).
  destruct (sp_table _ _ _ Hsp (pagetable p) [] (pagetable p)) as [(F1 & F2 & F3) _]; [apply elem_of_roots; right; by exists r, p|simpl; lia|done|].
  rewrite Hcr. unfold switch_cr3. apply frame_mask; [done|done|lia].
Qed.

(** It sees its own memory. *)
Lemma running_sees (k : kernel) r p a b :
  system A (kn_tasks k) → CURRENT (kn_tasks k) = Some r → procs (kn_tasks k) !! r = Some p → kind p = UserProc →
  low_addr a → user_memory (kn_tasks k) p a = Some b → seen k a = Some b.
Proof.
  intros Hsys Hc Hp Hk [L1 L2] Hm. unfold seen, load_byte. rewrite (running_cr3 _ r p Hsys Hc Hp Hk).
  unfold canonical_addr. rewrite (proj2 (Z.leb_le _ _) L1), (proj2 (Z.ltb_lt _ _) L2). cbn [andb orb].
  unfold user_memory in Hm. destruct (translate _ _ a) as [[pa rt]|]; [|done]. cbn in *. by destruct (r_user rt).
Qed.

(** What the code of a program does once it is loaded. *)
Lemma program_prints program code base ret regs :
  user_program_code program = Ret code → 0 < base →
  ∃ c1 c2, UserCode.run 20 code ret (UserCode.start regs) [] = (UserCode.Exited, [c1; c2]) ∧
    (UserCode.nr c2, UserCode.arg0 c2) = (UserCode.Num Number.Exit, UserCode.Num 0) ∧
    ∀ WP polls k2 fs2 fdt2 data, ready (kn_calls k2) fs2 fdt2 → k_console (kn_calls k2) = true →
      Fd.get fdt2 1 = Some (Stdout data) → transmitting polls (kn_hw k2) →
      (∀ i, 0 ≤ i < zlen code → seen k2 (base + i) = code !! Z.to_nat i) →
      ∃ k3, user_call WP A polls (UserCode.at_base base (UserCode.nr c1)) (UserCode.at_base base (UserCode.arg0 c1))
          (UserCode.at_base base (UserCode.arg1 c1)) (UserCode.at_base base (UserCode.arg2 c1)) k2 =
            Ret (Return (Ok (zlen (exec_message program))), k3) ∧
        sent (com1 (kn_hw k3)) = sent (com1 (kn_hw k2)) ++ (Z_of_byte <$> exec_message program).
Proof.
  intros Hc Hbase. destruct (user_program_behaviour program base ret regs) as (code' & c1 & c2 & Hc' & Hrun & (W1 & W2 & W3 & off & W4 & W5) & E1 & E2).
  rewrite Hc in Hc'. injection Hc' as <-. exists c1, c2. split; [done|]. split; [by rewrite E1, E2|].
  intros WP polls k2 fs2 fdt2 data Hrdy Hcon Hget Htr Hmem. rewrite W1, W2, W3, W4.
  pose proof (slice_get_Some _ _ _ _ W5) as (Ho & Hl & _).
  assert (zlen (exec_message program) ≤ 2 ^ 63 - 1) as Hlen by (destruct program; vm_compute; congruence).
  destruct (write_user_call_spec WP polls k2 fs2 fdt2 1 (Stdout data) (base + off) (exec_message program))
    as (k3 & H1 & _ & _ & H2); [done|done|by left|done|by eexists; left|lia|done| |done|].
  { intros i Hi. rewrite (slice_lookup _ _ _ i W5 Hi), <- Z.add_assoc. apply Hmem. lia. }
  exists k3. split; [exact H1|exact H2].
Qed.

(** C3: running an installed program, end to end, in a state with the system
    invariant, a free process slot, memory for a process and descriptor 1 on the
    console.  The exec call on the path of a program answers with the id of a
    new process at the end of the queue, whose trap frame enters user mode at an
    address where, through its own page table, it finds the code of that
    program.  This code makes two system calls, whatever the registers hold; and
    whenever the process runs and makes the first of them, its code unchanged,
    the serial line transmits exactly the message that names the program, which
    the kernel reads through the page table of the process, and the call answers
    its length.  The second call is [exit] with status 0. *)
Theorem program_end_to_end fuel program k fs fdt ptr a1 a2 image code e :
  installed fs program image code e → ready (kn_calls k) fs fdt → is_Some (k_exec (kn_calls k)) →
  copy_user_cstr (k_mem (kn_calls k)) ptr = Ret (Ok (program_path program)) →
  system A (kn_tasks k) → slot_free (kn_tasks k) → room (pg (kn_tasks k)) (spawn_room A) →
  ∃ k1 r p tf base, system_call A fuel Number.Exec ptr a1 a2 k = Ret (Return (Ok (pid p)), k1) ∧
    READY_QUEUE (kn_tasks k1) = READY_QUEUE (kn_tasks k) ++ [r] ∧ procs (kn_tasks k1) !! r = Some p ∧ kind p = UserProc ∧
    trap_frame p = Some tf ∧ kload (tf + 120) (pg_mem (pg (kn_tasks k1))) = Some base ∧
    (∀ i, 0 ≤ i < zlen code → user_memory (kn_tasks k1) p (base + i) = code !! Z.to_nat i) ∧
    ∀ ret regs, ∃ c1 c2, UserCode.run 20 code ret (UserCode.start regs) [] = (UserCode.Exited, [c1; c2]) ∧
      (UserCode.nr c2, UserCode.arg0 c2) = (UserCode.Num Number.Exit, UserCode.Num 0) ∧
      ∀ WP polls k2 p2 fs2 fdt2 data, ready (kn_calls k2) fs2 fdt2 → k_console (kn_calls k2) = true →
        Fd.get fdt2 1 = Some (Stdout data) → transmitting polls (kn_hw k2) →
        system A (kn_tasks k2) → CURRENT (kn_tasks k2) = Some r → procs (kn_tasks k2) !! r = Some p2 → same_block p p2 →
        (∀ i, 0 ≤ i < zlen code → user_memory (kn_tasks k2) p2 (base + i) = user_memory (kn_tasks k1) p (base + i)) →
        ∃ k3, user_call WP A polls (UserCode.at_base base (UserCode.nr c1)) (UserCode.at_base base (UserCode.arg0 c1))
            (UserCode.at_base base (UserCode.arg1 c1)) (UserCode.at_base base (UserCode.arg2 c1)) k2 =
              Ret (Return (Ok (zlen (exec_message program))), k3) ∧
          sent (com1 (kn_hw k3)) = sent (com1 (kn_hw k2)) ++ (Z_of_byte <$> exec_message program).
Proof.
  intros [I1 I2 I3 I4 I5 I6 I7 [I8 I8'] I9] Hrdy Hx Hp Hsys Hslot Hroom.
  assert (0 ≤ Program.id program < 16) as Hid by (by destruct program).
  destruct (exec_call_spec fuel k fs fdt ptr a1 a2 (program_path program) Hrdy Hx Hp Hsys Hslot Hroom) as (res & k1 & H1 & _ & _ & _ & H2).
  { intros image' Hi. rewrite I1 in Hi. injection Hi as <-. split_and!; [done|by eexists|]. intros e' He. rewrite I3 in He. injection He as <-.
    rewrite I7. unfold low_addr. lia. }
  rewrite I1 in H2. destruct H2 as ([r|err] & Hres & Hnm & ->).
  2: { exfalso. clear H1. destruct err; [destruct Hres as [[? ?] _]; congruence| |done].
       destruct Hres as [(e' & He & [?|?]) _]; rewrite I3 in He; injection He as <-; lia. }
  destruct Hres as (e' & He & _ & _ & Hus). rewrite I3 in He. injection He as <-. rewrite I5, I6 in Hus.
  assert (zlen code ≤ PAGE_SIZE) as Hlen by (rewrite <- I5; destruct (parsed_segment image e I9 I3) as (_ & -> & _); done).
  destruct (spawned_program program _ _ _ _ _ _ _ I7 Hus Hlen) as (p & tf & P1 & P2 & P3 & P4 & P5 & P6).
  exists k1, r, p, tf, (virt_addr (p_load e)). rewrite P2. split_and!; [exact H1|apply Hus|done|done|done| |done|].
  { specialize (P5 15%nat ltac:(lia)). exact P5. }
  clear H1. intros ret regs. destruct (program_prints program code (virt_addr (p_load e)) ret regs I2) as (c1 & c2 & C1 & C2 & C3); [lia|].
  exists c1, c2. split_and!; [done|done|].
  intros WP polls k2 p2 fs2 fdt2 data Hr2 Hc2 Hg2 Ht2 Hs2 Hcur Hp2 Hsb Hm2. apply (C3 WP polls k2 fs2 fdt2 data); [done..|].
  intros i Hi. destruct (lookup_lt_is_Some_2 code (Z.to_nat i)) as [b Hb]; [unfold zlen in Hi; lia|]. rewrite Hb.
  apply (running_sees k2 r p2); [done|done|done|by rewrite (proj1 (proj2 (proj2 (proj2 (proj2 Hsb)))))|unfold low_addr; unfold PAGE_SIZE in Hlen; lia|].
  by rewrite Hm2, P6, Hb.
Qed.
End calls.

(** ** On the 256-frame machine: a process asks for [/bin/ls] *)

Definition boot_fs : RamFs := match (fs ← Fs.new; seed_runtime_fs fs) with Ret fs => fs | _ => mkRamFs (Dir ∅) end.
Lemma boot_fs_installed : all_installed boot_fs.
Proof. destruct seeded_installed as (fs & Hfs & Hall). unfold boot_fs. rewrite Hfs. exact Hall. Qed.

Definition path_mem : Z → Byte.byte := store_bytes (λ _, Byte.x00) 4096 (str_bytes "/bin/ls").
Definition ls_kernel : kernel :=
  mkKernel medium_start (mkTables GDT0 TSS0 (0, 0) 0 0) IDT0 (0, 0) (λ _, 0) sample_hw
    (mkK (Some boot_fs) (Some Fd.new) true (Some (λ _, Ok 7)) true [] path_mem [] 64).
Lemma ls_kernel_ready : ready (kn_calls ls_kernel) boot_fs Fd.new.
Proof. by split. Qed.
Lemma ls_path : copy_user_cstr (k_mem (kn_calls ls_kernel)) 4096 = Ret (Ok (program_path Ls)).
Proof. vm_compute. reflexivity. Qed.
Lemma ls_room : room (pg (kn_tasks ls_kernel)) (spawn_room medium_addresses).
Proof. rewrite medium_spawn_room. apply (medium_room 16). lia. Qed.
Lemma installed_loadable fs program image code e : installed fs program image code e → loadable image.
Proof.
  intros [_ _ I3 _ _ _ I7 _ I9]. split_and!; [done|by eexists|]. intros e' He. rewrite I3 in He. injection He as <-. rewrite I7.
  assert (0 ≤ Program.id program < 16) by (by destruct program). unfold low_addr. lia.
Qed.

Lemma exec_call_correct_witness :
  ∃ r k', system_call medium_addresses 1 Number.Exec 4096 0 0 ls_kernel = Ret (Return r, k') ∧ kn_hw k' = sample_hw.
Proof.
  destruct (boot_fs_installed Ls) as (image & code & e & Hin).
  destruct (exec_call_correct medium_addresses medium_bootdata 1 ls_kernel boot_fs Fd.new 4096 0 0 (program_path Ls))
    as [H _]; [exact ls_kernel_ready|eexists; reflexivity|exact ls_path|exact medium_system|by vm_compute|exact ls_room|].
  destruct H as (r & k' & H1 & _ & _ & H2 & _).
  { intros image' Hi. rewrite (in_read _ _ _ _ _ Hin) in Hi. injection Hi as <-. exact (installed_loadable _ _ _ _ _ Hin). }
  exists r, k'. split; [exact H1|exact H2].
Defined.


(** The system call layer after [exec]. *)
Lemma exec_calls_kept A fuel ptr a1 a2 k r k' :
  system_call A fuel Number.Exec ptr a1 a2 k = Ret (r, k') → k_console (kn_calls k') = k_console (kn_calls k).
Proof.
  unfold system_call. fold (entering A k). intros H. apply bind_Ret in H as ([r1 c] & Hd & H). apply bind_Ret in H as ([t h] & _ & [= _ <-]).
  apply exec_effect in Hd as [Hm _]. exact (mi_console _ _ _ Hm).
Qed.

(** The process asks for [/bin/ls], yields, and the program prints. *)
Lemma program_end_to_end_witness :
  ∃ k1 t2 n a0 a1 a2 k3, system_call medium_addresses 1 Number.Exec 4096 0 0 ls_kernel = Ret (Return (Ok 1), k1) ∧
    yield_now medium_addresses (with_if true (kn_tasks k1)) = Ret t2 ∧
    user_call false medium_addresses 8 n a0 a1 a2 (with_tasks t2 k1) = Ret (Return (Ok (zlen (exec_message Ls))), k3) ∧
    sent (com1 (kn_hw k3)) = sent (com1 sample_hw) ++ (Z_of_byte <$> exec_message Ls).
Proof.
  destruct (boot_fs_installed Ls) as (image & code & e & Hin).
  destruct (program_end_to_end medium_addresses medium_bootdata 1 Ls ls_kernel boot_fs Fd.new 4096 0 0 image code e)
    as (k1 & r & p & tf & base & H1 & H2 & H3 & H4 & _ & _ & H5 & H6);
    [exact Hin|exact ls_kernel_ready|eexists; reflexivity|exact ls_path|exact medium_system|by vm_compute|exact ls_room|].
  destruct (exec_call_spec medium_addresses medium_bootdata 1 ls_kernel boot_fs Fd.new 4096 0 0 (program_path Ls))
    as (res & k1' & G1 & G2 & G3 & G4 & G5); [exact ls_kernel_ready|eexists; reflexivity|exact ls_path|exact medium_system|by vm_compute|exact ls_room| |].
  { intros image' Hi. rewrite (in_read _ _ _ _ _ Hin) in Hi. injection Hi as <-. exact (installed_loadable _ _ _ _ _ Hin). }
  rewrite H1 in G1. injection G1 as <- <-. rewrite (in_read _ _ _ _ _ Hin) in G5.
  assert (pid p = 1) as Hpid by (destruct G5 as (x & _ & _ & E); destruct x; [by injection E|discriminate E]).
  pose proof (exec_calls_kept _ _ _ _ _ _ _ _ H1) as Hcon. clear G5.
  destruct (next_runs medium_addresses medium_addresses_ok (kn_tasks k1) r [] p G2 H2 H3) as (t2 & Hy & [Hs2 _] & Hc2 & Hpg & p2 & Hp2 & Hsb).
  destruct (H6 (UserCode.Num 0) (UserCode.Num 0)) as (c1 & c2 & _ & _ & H7).
  destruct (H7 false 8%nat (with_tasks t2 k1) p2 boot_fs Fd.new []) as (k3 & H8 & H9).
  - exact G3.
  - exact Hcon.
  - reflexivity.
  - cbn [with_tasks kn_hw]. rewrite G4. exact sample_transmitting.
  - exact Hs2.
  - exact Hc2.
  - exact Hp2.
  - exact Hsb.
  - intros i _. unfold user_memory. cbn [with_tasks kn_tasks]. rewrite Hpg. destruct Hsb as (_ & -> & _). reflexivity.
  - cbn [with_tasks kn_hw] in H9. rewrite G4 in H9. rewrite Hpid in H1. eexists k1, t2, _, _, _, _, k3.
    split; [exact H1|]. split; [exact Hy|]. split; [exact H8|exact H9].
Defined.
