(* ===== verification/UserCalls.v ===== *)
(** * Calls that use their caller's memory

    [write] transmits what the caller's page table maps at its pointer.
    [read] changes the memory of its caller: the bytes of the file arrive
    behind the pointer, in the pages of the running process, and nothing else
    in the machine changes. *)

From S2P Require Import Prelude Bytes RamFs FdTable FdCorrect Elf Buddy BuddyCorrect Address Paging PagingInv PagingCorrect PagingInit ProcLayout Proc SpaceBuild SpawnView Sched SchedCorrect System SpawnCorrect SystemCorrect Machine Syscall SyscallCorrect Devices DevicesCorrect Traps TrapsCorrect Kernel KernelFiles KernelCorrect UserAccess UserMemory KernelCalls.
From Stdlib Require Import Strings.Byte.
Local Open Scope Z_scope.

(** ** Writing *)

Section write.
Context (A : addresses).

(** C10: what [write] on a standard stream does with a pointer of the caller
    other than null, on a machine whose serial transmitter gets ready.  Where
    the caller's page table maps the whole buffer, whatever the rights of its
    pages, the call transmits exactly the bytes behind it on the serial line and
    answers their number; the pages may as well be the kernel's.  If a byte of
    the buffer is not mapped, the page fault is a panic. *)
Theorem write_call_through_page_table WP fuel k fs fdt fd f ptr len :
  ready (kn_calls k) fs fdt → k_console (kn_calls k) = true → fd = 1 ∨ fd = 2 →
  Fd.get fdt fd = Some f → (∃ d, f = Stdout d ∨ f = Stderr d) → ptr ≠ 0 → 0 ≤ len ≤ 2 ^ 63 - 1 → transmitting fuel (kn_hw k) →
  (∀ data, zlen data = len → (∀ i, 0 ≤ i < len → seen k (ptr + i) = data !! Z.to_nat i) →
    ∃ k', user_call WP A fuel Number.Write fd ptr len k = Ret (Return (Ok len), k') ∧
      kn_tasks k' = kn_tasks k ∧ (∃ fdt', ready (kn_calls k') fs fdt') ∧
      sent (com1 (kn_hw k')) = sent (com1 (kn_hw k)) ++ (Z_of_byte <$> data)) ∧
  ∀ i, 0 ≤ i < len → seen k (ptr + i) = None → user_call WP A fuel Number.Write fd ptr len k = Panic.
Proof.
  intros Hrdy Hcon Hfd Hget Hout Hp Hlen Htr. split.
  - intros data <- Hm. by eapply write_user_call_spec; [..|lia| |].
  - intros i Hi Hn. apply (user_call_fault A _ _ _ _ _ _ _ (ptr + i)); [|done]. destruct Hrdy as [R1 R2 R3].
    destruct (console_write fdt fs fd f [] Hget Hout) as (_ & _ & Hcp). cbn. unfold buffer_loads. cbn. rewrite R1, R2, R3, Hcp.
    rewrite (proj2 (Z.eqb_neq _ _) Hp), !bool_decide_false by apply not_elem_of_nil. cbn. apply elem_of_seqZ. lia.
Qed.

End write.

(** ** Reading: the descriptor's side *)

(** A descriptor one can read: its content and position. *)
Definition readable (fs : RamFs) (f : OpenFile) (data : bytes) (offset : Z) : Prop :=
  f = Stdin data offset ∨
  ∃ path flags, f = OpenedFile path offset flags ∧ Flags.contains flags Flags.READ = true ∧ Fs.read fs path = Ok data.
Definition advanced (n : Z) (f : OpenFile) : OpenFile :=
  match f with
  | Stdin data offset => Stdin data (offset + n)
  | OpenedFile path offset flags => OpenedFile path (offset + n) flags
  | _ => f
  end.

Lemma fd_read_open fdt fs fd f data offset buf :
  Fd.get fdt fd = Some f → readable fs f data offset → 0 ≤ offset → zlen data ≤ usize_max → offset ≤ usize_max →
  let n := read_count data offset buf in
  ∃ fdt', Fd.set fdt fd (advanced n f) = Ret fdt' ∧
    Fd.read fdt fs fd buf = Ret (Ok n, fdt', take (Z.to_nat n) (drop (Z.to_nat offset) data) ++ drop (Z.to_nat n) buf).
Proof.
  intros Hget Hr Ho Hd Hm n. pose proof (copy_from_offset_ok data offset buf Ho) as Hcopy. fold n in Hcopy.
  assert (uadd offset n = Ret (offset + n)) as Hadd.
  { apply uadd_ok. pose proof (zlen_nonneg data). pose proof (zlen_nonneg buf). unfold n, read_count. lia. }
  assert (∃ es, arr_set (entries fdt) fd (Some (advanced n f)) = Some es) as [es Hes].
  { unfold Fd.get, arr_get in Hget. unfold arr_set. destruct ((0 <=? fd) && (fd <? zlen (entries fdt))); [by eexists|done]. }
  exists (mkTable es). split; [unfold Fd.set; by rewrite Hes|]. unfold Fd.read, Fd.entry_mut. rewrite Hget. cbn [ok_or].
  destruct Hr as [-> |(path & flags & -> & Hfl & Hfs)]; cbn [advanced] in Hes; rewrite ?Hfl, ?Hfs; cbn [negb];
    rewrite Hcopy, Ret_bind, Hadd, Ret_bind; unfold Fd.set; by rewrite Hes.
Qed.

(** ** Reading: the system's side *)

Section call.
Context (A : addresses).

(** The running process may change its own frames. *)
Lemma system_stored (s : tasks (B := BuddyAllocator)) c p pg' (W : Z → Prop) :
  system A s → CURRENT s = Some c → procs s !! c = Some p → (∀ y, W y → ∃ j, owns p j ∧ y = j * PAGE_SIZE) →
  stored (roots s) (pg s) pg' W → system A (with_pg pg' s).
Proof.
  intros Hsys Hc Hp HW [T1 T2 T3 T4 T5 T6]. pose proof Hsys as [Hpg Hk Hs Hn Hpids Hbl Hown Hdis]. rewrite Hc in Hs.
  assert (roots (with_pg pg' s) = roots s) as Er by (unfold roots; cbn; by rewrite T2).
  split; [by rewrite Er|by cbn; rewrite T2| |done|done|done| |done].
  - cbn. rewrite Hc. pose proof Hs as [S1 S2 S3 S4 S5 S6 S7]. split; [done..|]. intros r Hr.
    destruct (S7 r Hr) as (q & w & Hq & Hw & Hres). exists q, w. split_and!; [done|done|]. destruct w; [|done].
    destruct Hres as [?|(Hrip & tf & rf & Htf & Hld & Hbit)]; [by left|right]. split; [done|]. exists tf, rf. split_and!; [done| |done].
    destruct (frame_word q tf 17 (Hbl r q Hq) Htf ltac:(lia)) as (j & Hj & Hkl). change (8 * Z.of_nat 17) with 136 in Hkl.
    rewrite Hkl in Hld |- *. cbn. rewrite T6; [done|]. intros (j' & Hj' & E)%HW. assert (j = j') as <- by (unfold PAGE_SIZE in E; lia).
    apply (Hdis r c q p j); [|done..]. intros ->. apply NoDup_cons in S4 as [? _]. done.
  - intros i q j Hq Ho. rewrite Er. apply T5. by eapply Hown.
Qed.

Lemma isolated_stored (s : tasks (B := BuddyAllocator)) pg' W :
  system A s → isolated s → stored (roots s) (pg s) pg' W → isolated (with_pg pg' s).
Proof.
  intros Hsys His Hst. eapply isolated_keep; [exact His|apply Hst| |].
  - intros x w Hx. cbn. by eapply stored_translate; [apply (sy_paging _ _ Hsys)|exact Hst|].
  - intros i q Hq _. left. exists q. split; [done|apply same_block_refl].
Qed.

(** A stretch of writable user pages of the running process. *)
Definition own_buffer (t : tasks (B := BuddyAllocator)) (p : Proc) (ptr pa len : Z) : Prop :=
  ∀ i, 0 ≤ i < len → canonical (ptr + i) ∧
    ∃ rt, translate (pg_mem (pg t)) (pagetable p) (ptr + i) = Some (pa + i, rt) ∧ r_user rt = true ∧ r_write rt = true.

Definition own_frame (p : Proc) (y : Z) : Prop := ∃ j, owns p j ∧ y = j * PAGE_SIZE.

Lemma own_buffer_ok WP (t : tasks (B := BuddyAllocator)) c p ptr pa len :
  system A t → isolated t → procs t !! c = Some p → kind p = UserProc → own_buffer t p ptr pa len →
  buffer WP (roots t) (pagetable p) ptr pa len (own_frame p) (pg t).
Proof.
  intros Hsys His Hp Hk Hb. split; intros i Hi; destruct (Hb i Hi) as (Hc & rt & Ht & Hu & Hw).
  - split; [|by exists rt]. unfold canonical_addr. destruct Hc as [[? ?]|[? ?]]; apply orb_true_iff; [left|right]; apply andb_true_iff; lia.
  - destruct (user_page_owned p (pa + i) rt) as [Ho _]; [by eapply (is_user t His c)|]. rewrite frame_of_div.
    split; [by eapply (sy_owned _ _ Hsys)|]. by eexists.
Qed.

(** The bytes stored for the caller are those of the file. *)
Lemma result_data c n data rest ptr len :
  0 ≤ n ≤ len → zlen data = n → load_bytes (k_mem c) ptr len = data ++ rest → result_bytes Number.Read ptr (Return (Ok n)) c = data.
Proof.
  intros Hn Hd Hl. cbn. assert (load_bytes (k_mem c) ptr n = take (Z.to_nat n) (load_bytes (k_mem c) ptr len)) as ->.
  { unfold load_bytes. rewrite <- fmap_take. f_equal. apply list_eq. intros i. destruct (decide (Z.of_nat i < n)) as [Hi|Hi].
    - rewrite lookup_take_lt by lia. rewrite !lookup_seqZ_lt by lia. done.
    - rewrite lookup_take_ge by lia. by rewrite lookup_seqZ_ge by lia. }
  rewrite Hl. apply take_app_length'. unfold zlen in Hd. lia.
Qed.

Lemma zlen_stretch len (data : bytes) offset :
  0 ≤ len → 0 ≤ offset → let n := Z.max 0 (Z.min len (zlen data - offset)) in
  zlen (take (Z.to_nat n) (drop (Z.to_nat offset) data)) = n.
Proof. intros Hl Ho n. unfold zlen in *. rewrite length_take, length_drop. lia. Qed.

Lemma read_system_call fuel k fs fdt fd f ptr len data offset :
  ready (kn_calls k) fs fdt → ptr ≠ 0 → 0 ≤ len ≤ 2 ^ 63 - 1 → Fd.get fdt fd = Some f → readable fs f data offset →
  0 ≤ offset ≤ usize_max → zlen data ≤ usize_max →
  let n := Z.max 0 (Z.min len (zlen data - offset)) in
  ∃ k1 fdt', system_call A fuel Number.Read fd ptr len k = Ret (Return (Ok n), k1) ∧ Fd.set fdt fd (advanced n f) = Ret fdt' ∧
    ready (kn_calls k1) fs fdt' ∧ kn_tasks k1 = kn_tasks k ∧ kn_hw k1 = kn_hw k ∧
    result_bytes Number.Read ptr (Return (Ok n)) (kn_calls k1) = take (Z.to_nat n) (drop (Z.to_nat offset) data).
Proof.
  intros Hrdy Hp Hlen Hget Hr Ho Hd n. pose proof (zlen_load_bytes (k_mem (kn_calls k)) ptr len ltac:(lia)) as Hz.
  destruct (fd_read_open fdt fs fd f data offset (load_bytes (k_mem (kn_calls k)) ptr len) Hget Hr) as (fdt' & Hset & Hread); [lia..|].
  unfold read_count in *. rewrite Hz in *. fold n in Hset, Hread.
  destruct (syscall_read_effect (entering A k) fs fdt fd ptr len (Ok n) fdt' _ (entering_ready A k fs fdt Hrdy) Hp Hlen Hread)
    as (c & Hdi & Hrdy' & Hlog & Hmem & _).
  eexists _, fdt'. split_and!; [eapply system_call_eq; [exact Hdi|rewrite Hlog; reflexivity]|done|done|done|done|].
  clear Hdi. cbn [kn_calls]. pose proof (zlen_nonneg data). eapply result_data; [|apply (zlen_stretch len)|exact Hmem]; [unfold n; lia|lia|lia].
Qed.

(** C5: the read call and the caller's memory.  The buffer lies in writable
    user pages of the running process, one stretch of physical memory.  The
    call answers with the number of bytes from the descriptor's position to
    the end of its content, at most the length of the buffer.  These bytes
    are then what the process finds at its pointer, and physical memory is
    otherwise what it was, every address space translates as before, no other
    process sees a difference, the position of the descriptor has advanced by
    that number, and the system invariant and isolation hold; the rights of
    the pages being right, it does not matter whether write protection is on. *)
Theorem read_call_correct WP fuel k fs fdt fd f c p ptr pa len data offset :
  let t := kn_tasks k in let n := Z.max 0 (Z.min len (zlen data - offset)) in
  system A t → isolated t → CURRENT t = Some c → procs t !! c = Some p → kind p = UserProc →
  ready (kn_calls k) fs fdt → Fd.get fdt fd = Some f → readable fs f data offset → 0 ≤ offset ≤ usize_max → zlen data ≤ usize_max →
  ptr ≠ 0 → 0 ≤ len ≤ 2 ^ 63 - 1 → own_buffer t p ptr pa len →
  ∃ k' fdt', user_call WP A fuel Number.Read fd ptr len k = Ret (Return (Ok n), k') ∧
    Fd.set fdt fd (advanced n f) = Ret fdt' ∧ ready (kn_calls k') fs fdt' ∧ kn_hw k' = kn_hw k ∧
    system A (kn_tasks k') ∧ isolated (kn_tasks k') ∧ procs (kn_tasks k') = procs t ∧ READY_QUEUE (kn_tasks k') = READY_QUEUE t ∧
    (∀ i, 0 ≤ i < n → user_memory (kn_tasks k') p (ptr + i) = data !! Z.to_nat (offset + i)) ∧
    (∀ o, ¬ pa ≤ o < pa + n → read_byte (pg_mem (pg (kn_tasks k'))) o = read_byte (pg_mem (pg t)) o) ∧
    (∀ r v, r ∈ roots t → translate (pg_mem (pg (kn_tasks k'))) r v = translate (pg_mem (pg t)) r v) ∧
    (∀ i q a, i ≠ c → procs t !! i = Some q → kind q = UserProc → canonical a → user_memory (kn_tasks k') q a = user_memory t q a).
Proof.
  intros t n Hsys His Hc Hp Hk Hrdy Hget Hr Ho Hd Hptr Hlen Hbuf.
  destruct (read_system_call fuel (seeing k) fs fdt fd f ptr len data offset) as (k1 & fdt' & H1 & H2 & H3 & H4 & H5 & H6); [by destruct Hrdy|done..|].
  fold n in H1, H2, H6. change (kn_tasks (seeing k)) with t in H4. change (kn_hw (seeing k)) with (kn_hw k) in H5.
  set (src := take (Z.to_nat n) (drop (Z.to_nat offset) data)) in *. assert (zlen src = n) as Hz by (apply zlen_stretch; lia).
  assert (pagetable p ∈ roots t) as Hin by (apply elem_of_roots; right; by exists c, p).
  pose proof (own_buffer_ok WP t c p ptr pa len Hsys His Hp Hk Hbuf) as Hb. apply (buffer_le _ _ _ _ _ _ (zlen src)) in Hb; [|rewrite Hz; unfold n; pose proof (zlen_nonneg data); lia].
  destruct (copy_out_spec WP (roots t) (pagetable p) src (own_frame p) (pg t) ptr pa (sy_paging _ _ Hsys) Hin Hb) as (m & C1 & C2 & C3).
  exists (with_tasks (with_phys m t) k1), fdt'.
  split_and!; [|done|done|done|exact (system_stored t c p (with_mem m (pg t)) _ Hsys Hc Hp (λ y H, H) C2)|exact (isolated_stored t (with_mem m (pg t)) _ Hsys His C2)|done|done| | | |].
  - unfold user_call. rewrite (eq_refl : loads Number.Read fd ptr len (kn_calls (seeing k)) = []). cbn [forallb assert_that].
    rewrite Ret_bind, H1, Ret_bind. cbv zeta. rewrite H6, H4, (running_cr3 A t c p Hsys Hc Hp Hk), C1. done.
  - intros i Hi. destruct (Hbuf i) as (_ & rt & Ht & Hu & _); [unfold n in Hi; lia|].
    unfold user_memory. cbn. rewrite (stored_translate _ _ _ _ _ _ (sy_paging _ _ Hsys) C2 Hin). unfold t in Ht. fold t in Ht. rewrite Ht. cbn. rewrite Hu, C3, decide_True by lia.
    unfold src. rewrite lookup_take_lt by lia. rewrite lookup_drop. f_equal. lia.
  - intros o Hno. cbn. rewrite C3. by rewrite decide_False by lia.
  - intros r v Hrin. cbn. exact (stored_translate _ _ _ _ _ _ (sy_paging _ _ Hsys) C2 Hrin).
  - intros i q a Hi Hq Hkq Hca. unfold user_memory. cbn.
    rewrite (stored_translate _ _ _ _ _ _ (sy_paging _ _ Hsys) C2) by (apply elem_of_roots; right; by exists i, q).
    destruct (translate (pg_mem (pg t)) (pagetable q) a) as [[x rt]|] eqn:Ht; [|done]. cbn. destruct (r_user rt) eqn:Hu; [|done].
    rewrite C3, decide_False; [done|]. intros Hx. destruct (user_page_owned q x rt) as [Hox _]; [by eapply (is_user t His i)|].
    destruct (Hbuf (x - pa)) as (Hcx & rt' & Ht' & Hu' & _); [unfold n in *; lia|]. replace (pa + (x - pa)) with x in Ht' by lia.
    destruct (user_page_owned p x rt') as [Hox' _]; [by eapply (is_user t His c)|]. by eapply (sy_disjoint _ _ Hsys i c q p).
Qed.
End call.

(** ** On the 256-frame machine: a process reads a file into its stack *)

Lemma medium_running :
  ∃ r s p c st, system medium_addresses s ∧ isolated s ∧ CURRENT s = Some r ∧ procs s !! r = Some p ∧ kind p = UserProc ∧
    ∀ w, low_addr w → translate (pg_mem (pg s)) (pagetable p) w = user_view medium_addresses (code_base_of 1) c (stack_top_of 1) st w.
Proof.
  destruct medium_spawned as (r & s1 & p & c & st & Heq & Hq & Hp & Hk & _ & _ & Hv). assert (slot_free medium_start) as Hslot by (clear; done).
  pose proof (step_kept medium_addresses medium_addresses_ok medium_bootdata _ _ (step_user _ _ _ _ _ Hslot Heq) medium_system) as [Hs Hi].
  specialize (Hi medium_isolated). clear Heq.
  destruct (next_runs medium_addresses medium_addresses_ok s1 r [] p Hs Hq Hp) as (s & _ & [Hs2 Hi2] & Hc & Hpg & q & Hq2 & (_ & E2 & _ & _ & E5 & _)).
  exists r, s, q, c, st. split_and!; [done|by apply Hi2|done|done|congruence|]. intros w Hw. rewrite Hpg, E2. by apply Hv.
Qed.

Definition hi_fs : RamFs := mkRamFs (Dir {[ "hi"%string := File [x68; x69] ]}).
Definition hi_fds : FileDescriptorTable := match Fd.open 64 Fd.new hi_fs "/hi" Flags.READ with Ret (_, t, _) => t | _ => Fd.new end.
Definition hi_kernel (t : tasks) : kernel :=
  mkKernel t (mkTables GDT0 TSS0 (0, 0) 0 0) IDT0 (0, 0) (λ _, 0) sample_hw
    (mkK (Some hi_fs) (Some hi_fds) true (Some (λ _, Ok 7)) true [] (λ _, x00) [] 64).

Lemma stack_buffer t p c st :
  (∀ w, low_addr w → translate (pg_mem (pg t)) (pagetable p) w = user_view medium_addresses (code_base_of 1) c (stack_top_of 1) st w) →
  own_buffer t p (stack_top_of 1 - 4096) (st + PAGE_SIZE) 4096.
Proof.
  intros Hv i Hi. change (stack_top_of 1) with 140737486254080 in *. assert (low_addr (140737486254080 - 4096 + i)) as Hlow by (unfold low_addr; lia).
  split; [by left|]. exists (mkRights true true true). rewrite Hv by done. split; [|done]. unfold user_view, PAGE_SIZE.
  rewrite (proj2 (Z.eqb_eq _ _)) by (Z.to_euclidean_division_equations; lia). do 2 f_equal. Z.to_euclidean_division_equations; lia.
Qed.

Lemma read_call_correct_witness :
  ∃ t k' p, user_call false medium_addresses 1 Number.Read 3 (stack_top_of 1 - 4096) 4096 (hi_kernel t) = Ret (Return (Ok 2), k') ∧
    system medium_addresses (kn_tasks k') ∧
    user_memory (kn_tasks k') p (stack_top_of 1 - 4096) = Some x68 ∧ user_memory (kn_tasks k') p (stack_top_of 1 - 4095) = Some x69.
Proof.
  destruct medium_running as (r & t & p & c & st & Hs & Hi & Hc & Hp & Hk & Hv).
  destruct (read_call_correct medium_addresses false 1 (hi_kernel t) hi_fs hi_fds 3 (OpenedFile "/hi" 0 Flags.READ) r p
    (stack_top_of 1 - 4096) (st + PAGE_SIZE) 4096 [x68; x69] 0) as (k' & fdt' & H1 & _ & _ & _ & H2 & _ & H3 & _ & H4 & _);
    [exact Hs|exact Hi|exact Hc|exact Hp|exact Hk|by split|by vm_compute| |by vm_compute|by vm_compute|by vm_compute|by vm_compute|by eapply stack_buffer|].
  { right. exists "/hi"%string, Flags.READ. by vm_compute. }
  exists t, k', p. split; [exact H1|]. split; [exact H2|].
  split; [rewrite <- (Z.add_0_r (stack_top_of 1 - 4096)); exact (H4 0 ltac:(by vm_compute))|exact (H4 1 ltac:(by vm_compute))].
Defined.

(** The running process prints a byte that is not its own: the page belongs to
    the kernel, and user mode may not touch it. *)
Lemma write_call_through_page_table_witness :
  ∃ t r p b k', CURRENT t = Some r ∧ procs t !! r = Some p ∧ kind p = UserProc ∧
    translate (pg_mem (pg t)) (pagetable p) 0x3100 = Some (0x3100, mkRights false true true) ∧
    read_byte (pg_mem (pg t)) 0x3100 = Some b ∧
    user_call false medium_addresses 8 Number.Write 1 0x3100 1 (hi_kernel t) = Ret (Return (Ok 1), k') ∧
    sent (com1 (kn_hw k')) = sent (com1 sample_hw) ++ [Z_of_byte b].
Proof.
  destruct medium_running as (r & t & p & c & st & Hs & Hi & Hc & Hp & Hk & Hv).
  assert (translate (pg_mem (pg t)) (pagetable p) 0x3100 = Some (0x3100, mkRights false true true)) as Ht by (rewrite Hv; by vm_compute).
  destruct (sy_paging _ _ Hs) as (bd & _ & _ & Hsp). destruct (read_byte_total (pg_mem (pg t)) 0x3100 (sp_len _ _ _ Hsp _)) as [b Hb].
  destruct (write_call_through_page_table medium_addresses false 8 (hi_kernel t) hi_fs hi_fds 1 (Stdout []) 0x3100 1) as [H _];
    [by split|done|by left|by vm_compute|by exists []; left|done|by vm_compute|exact sample_transmitting|].
  destruct (H [b]) as (k' & H1 & _ & _ & H2); [done| |].
  { intros i Hi0. assert (i = 0) as -> by lia. unfold seen, load_byte. cbn [hi_kernel kn_tasks]. rewrite (running_cr3 medium_addresses t r p Hs Hc Hp Hk).
    change (canonical_addr (0x3100 + 0)) with true. change (0x3100 + 0) with 0x3100. by rewrite Ht. }
  exists t, r, p, b, k'. split; [exact Hc|]. split; [exact Hp|]. split; [exact Hk|]. split; [exact Ht|]. split; [exact Hb|]. split; [exact H1|exact H2].
Defined.
