(* ===== verification/KernelRun.v ===== *)
(** * The running kernel

    After [kernel_main] everything happens through timer interrupts, the
    system calls of the running process and the keys the shell reads.  The
    invariant of the whole kernel, that the states reached in this way keep
    it, and that system calls return. *)

From S2P Require Import Prelude Bytes RamFs FdTable FdCorrect Commands Elf ElfCorrect Buddy BuddyCorrect Address Paging PagingInv PagingCorrect PagingInit ProcLayout Proc SpaceBuild SpawnView Sched SchedCorrect System SpawnCorrect SystemCorrect Machine Boot Syscall SyscallCorrect CallEffects CallProgress Devices DevicesCorrect Traps TrapsCorrect Shell Kernel KernelFiles KernelCorrect UserAccess UserMemory KernelCalls UserCalls.
From Stdlib Require Import Strings.Byte.
Local Open Scope Z_scope.

Section run.
Context (A : addresses) (HA : addresses_ok A) (Hboot : low_range (bootdata A)) (WP : bool) (fuel : nat).

(** ** The invariant *)

Record kernel_ok (k : kernel) : Prop := {
  ko_system : system A (kn_tasks k);
  ko_isolated : isolated (kn_tasks k);
  ko_fs : is_Some (k_fs (kn_calls k));
  ko_fd : ∃ t, k_fd (kn_calls k) = Some t ∧ table_ok t;
  ko_hooks : k_console (kn_calls k) = true ∧ is_Some (k_exec (kn_calls k)) ∧ k_exit (kn_calls k) = true;
  ko_held : k_held (kn_calls k) = [] ∨ k_held (kn_calls k) = [EXIT_CURRENT];
}.

(** ** Calls *)

(** A process may be started: there are address slots left, and the programs
    in the file system ask for addresses in the lower half. *)
Definition startable_files (t : tasks (B := BuddyAllocator)) (fs : option RamFs) : Prop :=
  slot_free t ∧ ∀ f path image, fs = Some f → Fs.read f path = Ok image →
    zlen image ≤ isize_max ∧ ∀ e, parse image = Ret (Ok e) → low_addr (virt_addr (p_load e)).

(** Calls whose arguments the kernel fails to check: the buffer of a read is
    the caller's own, and a program that is loaded may be started. *)
Definition polite (n arg1 arg2 : Z) (k : kernel) : Prop :=
  (n = Number.Read → ∃ c p pa, CURRENT (kn_tasks k) = Some c ∧ procs (kn_tasks k) !! c = Some p ∧ kind p = UserProc ∧
     own_buffer (kn_tasks k) p arg1 pa arg2) ∧
  (n = Number.Exec → startable_files (kn_tasks k) (k_fs (kn_calls k))).

(** The shell may be in any state when it gets a key; what it prints depends
    on the formatting of messages, so that the devices may be in any state
    afterwards. *)
Inductive kstep : kernel → kernel → Prop :=
  | kstep_call n a0 a1 a2 r k k' : polite n a1 a2 k → user_call WP A fuel n a0 a1 a2 k = Ret (r, k') → kstep k k'
  | kstep_timer k t : timer_interrupt A (kn_tasks k) = Ret t →
      kstep k (mkKernel t (kn_tables k) (kn_idt k) (kn_idtr k) (kn_msr k) (end_of_interrupt 0 (kn_hw k)) (kn_calls k))
  | kstep_key b sh sh' e h k : startable_files (kn_tasks k) (k_fs (kn_calls k)) →
      handle_byte A b sh (mkEnv (k_fs (kn_calls k)) (kn_tasks k) [] []) = Ret (sh', e) →
      kstep k (mkKernel (e_tasks e) (kn_tables k) (kn_idt k) (kn_idtr k) (kn_msr k) h (set_fs (e_fs e) (kn_calls k))).

(** ** The processes during a call *)

Lemma run_console l t h t' h' : Forall is_console l → for_each l (run_hook A fuel) (t, h) = Ret (t', h') → t' = t.
Proof.
  intros Hl. revert h. induction Hl as [|c l Hc Hl IH]; intros h H; [by injection H|]. destruct c; try done. cbn [for_each run_hook] in H.
  apply bind_Ret in H as ([t1 h1] & H1 & H). apply bind_Ret in H1 as (h2 & _ & [= <- <-]). by eapply IH.
Qed.

Lemma exec_kept image t o t' :
  slot_free t → zlen image ≤ isize_max → (∀ e, parse image = Ret (Ok e) → low_addr (virt_addr (p_load e))) →
  exec_program A image t = Ret (o, t') → system A t → kept A t t'.
Proof.
  intros Hs Hl He H. unfold exec_program in H. apply bind_Ret in H as ([res t1] & H1 & H).
  assert (t1 = t') as <-. { destruct res; [by apply bind_Ret in H as (? & _ & [= _ <-])|by injection H]. }
  clear H. apply (step_kept A HA Hboot). by eapply step_elf.
Qed.

(** The calls of the hooks that a system call of number [n] makes. *)
Record call_effect (n : Z) (k : kernel) (c : KState) : Prop := {
  ce_hooks : k_console c = k_console (kn_calls k) ∧ (is_Some (k_exec (kn_calls k)) → is_Some (k_exec c)) ∧ k_exit c = k_exit (kn_calls k);
  ce_fs : is_Some (k_fs (kn_calls k)) → is_Some (k_fs c);
  ce_fd : (∃ t, k_fd (kn_calls k) = Some t ∧ table_ok t) → ∃ t, k_fd c = Some t ∧ table_ok t;
  ce_log : Forall is_console (k_log c) ∨ (n = Number.Exec ∧ exec_log (k_fs (kn_calls k)) (k_log c)) ∨ (n = Number.Exit ∧ ∃ status, k_log c = [ExitCurrent status]);
  ce_held : k_held c = [] ∨ k_held c = [EXIT_CURRENT];
}.

Lemma milder_effect P n k c :
  milder P (entering A k) c → (Forall P (k_log c) → Forall is_console (k_log c) ∨ (n = Number.Exec ∧ exec_log (k_fs (kn_calls k)) (k_log c))) →
  k_held c = [] ∨ k_held c = [EXIT_CURRENT] → call_effect n k c.
Proof.
  intros [M1 M2 M3 M4 M5 M8 (l & M6 & M7)] Hl Hh. cbn in *. split; [split_and!; [done| |done]|done| | |done].
  - rewrite M2. intros [f ->]. by eexists.
  - intros (t & Ht & Hok). destruct M5 as [t' Ht']; [by eexists|]. exists t'. split; [done|]. apply M8; [|done]. intros t0 E. rewrite Ht in E. by injection E as <-.
  - rewrite <- M6 in M7. destruct (Hl M7); auto.
Qed.

Lemma dispatch_effect n a0 a1 a2 k r c :
  kernel_ok k → dispatch n a0 a1 a2 (entering A k) = Ret (r, c) → call_effect n k c.
Proof.
  intros [_ _ _ _ (_ & _ & Hx) Hh] Hd.
  assert (n ≠ Number.Exit → k_held c = [] ∨ k_held c = [EXIT_CURRENT]) as Hkeep.
  { intros Hne. assert (∀ l, l ≠ EXIT_CURRENT → l ∉ k_held (entering A k)) as Hfree.
    { intros l Hl. cbn. destruct Hh as [-> | ->]; [apply not_elem_of_nil|]. by rewrite list_elem_of_singleton. }
    destruct (keeps_dispatch _ Hfree n a0 a1 a2 Hne (entering A k) eq_refl) as [_ Hk]. rewrite (Hk _ _ Hd). exact Hh. }
  destruct (decide (n = Number.Exit)) as [->|Hne].
  { apply exit_effect in Hd as [Hfree Hd]. cbn in Hd. rewrite Hx in Hd. subst c. split; cbn; [split_and!; [done| |done]|done|done|by right; right; split; [|eexists]|].
    - by intros [f ->].
    - right. destruct Hh as [-> |E]; [done|]. cbn in Hfree. rewrite E in Hfree. exfalso. apply Hfree. by left. }
  destruct (decide (n = Number.Exec)) as [->|Hne2].
  - apply exec_effect in Hd as [Hm (l & Hl & Hlog)]. eapply milder_effect; [exact Hm| |by apply Hkeep]. intros _. right. split; [done|]. by rewrite Hl.
  - eapply milder_effect; [by eapply mild_dispatch| |by apply Hkeep]. by left.
Qed.

Lemma hooks_kept n k c t h :
  system A (kn_tasks k) → call_effect n k c →
  (n = Number.Exec → startable_files (kn_tasks k) (k_fs (kn_calls k))) →
  for_each (k_log c) (run_hook A fuel) (kn_tasks k, kn_hw k) = Ret (t, h) → kept A (kn_tasks k) t.
Proof.
  intros Hsys [_ _ _ Hlog _] Hp H. destruct Hlog as [Hc|[[-> Hx]|[_ [status Hx]]]].
  - rewrite (run_console _ _ _ _ _ Hc H). by split.
  - destruct Hx as [Hx|(fs & path & image & Hfs & Hi & Hx)]; rewrite Hx in H; [injection H as <- _; by split|]. destruct (Hp eq_refl) as [Hslot Hall].
    destruct (Hall fs path image Hfs Hi) as [Hl He]. cbn [for_each run_hook] in H. apply bind_Ret in H as ([t1 h1] & H1 & [= <- _]).
    apply bind_Ret in H1 as ([o t2] & H2 & [= <- _]). by eapply exec_kept.
  - rewrite Hx in H. cbn [for_each run_hook] in H. apply bind_Ret in H as ([t1 h1] & H1 & [= <- _]).
    apply bind_Ret in H1 as (t2 & H2 & [= <- _]). apply (step_kept A HA Hboot); [by eapply step_exit|done].
Qed.

(** ** The caller's memory after a call *)

Lemma fd_read_bound t fs fd buf n t' buf' : Fd.read t fs fd buf = Ret (Ok n, t', buf') → 0 ≤ n ≤ zlen buf.
Proof.
  assert (∀ src offset d, copy_from_offset src offset buf = Ret (n, d) → 0 ≤ n ≤ zlen buf) as Hc.
  { intros src offset d. pose proof (zlen_nonneg buf). unfold copy_from_offset. case_bool_decide; [intros [= <- _]; lia|].
    intros (d' & _ & [= <- _])%bind_Ret. lia. }
  unfold Fd.read. destruct (Fd.entry_mut t fd) as [[data offset| | |path offset flags]|]; try done; intros H.
  - apply bind_Ret in H as ([m d] & H1 & H). apply bind_Ret in H as (o & _ & H). apply bind_Ret in H as (t1 & _ & [= -> _ _]). by eapply Hc.
  - destruct (negb _); [done|]. destruct (Fs.read fs path) as [data|]; [|done].
    apply bind_Ret in H as ([m d] & H1 & H). apply bind_Ret in H as (o & _ & H). apply bind_Ret in H as (t1 & _ & [= -> _ _]). by eapply Hc.
Qed.

Lemma read_answer_bound fd ptr len k n c : dispatch Number.Read fd ptr len k = Ret (Return (Ok n), c) → 0 ≤ n ≤ Z.max 0 len.
Proof.
  unfold dispatch. cbn. unfold returning, mbind, K_bind. intros H. destruct (syscall_read fd ptr len k) as [[r k1]| |] eqn:E; [|done..].
  injection H as -> _. unfold syscall_read in E. destruct (ptr =? 0); [done|]. unfold raw_len_ok in E. destruct (bool_decide (len ≤ 2 ^ 63 - 1)); [|done].
  unfold mbind at 1, K_bind at 1, lift at 1 in E. cbn [assert_that] in E. rewrite Ret_bind in E. apply with_lock_body in E as (k2 & E & _).
  unfold mbind at 1, K_bind at 1, gets at 1 in E. cbn [k_fs set_held] in E. destruct (k_fs k) as [fs|]; [|done]. apply with_lock_body in E as (k3 & E & _).
  unfold mbind, K_bind, gets, lift in E. cbn [k_fd set_held] in E. destruct (k_fd k) as [t|]; [|done]. unfold SyscallTable.read in E. cbn in E.
  destruct (Fd.read t fs fd (load_bytes (k_mem k) ptr len)) as [[[[m|e] t'] d]| |] eqn:Hr; cbn in E; try done. injection E as -> _.
  apply fd_read_bound in Hr. unfold load_bytes, zlen in Hr. rewrite length_fmap, length_seqZ in Hr. lia.
Qed.

Lemma copied_kept n a1 a2 k (t : tasks (B := BuddyAllocator)) data m :
  system A t → isolated t → polite n a1 a2 k → (n ≠ Number.Read → data = []) → (n = Number.Read → t = kn_tasks k ∧ zlen data ≤ Z.max 0 a2) →
  copy_out WP (CR3 t) a1 data (pg_mem (pg t)) = Ret m → system A (with_phys m t) ∧ isolated (with_phys m t).
Proof.
  intros Hs Hi [Hp _] H1 H2 Hc. destruct (decide (n = Number.Read)) as [Hn|Hn].
  - destruct (Hp Hn) as (c & p & pa & Hcur & Hpc & Hk & Hb). destruct (H2 Hn) as [-> Hz].
    assert (pagetable p ∈ roots (kn_tasks k)) as Hin by (apply elem_of_roots; right; by exists c, p).
    pose proof (own_buffer_ok A WP _ c p a1 pa a2 Hs Hi Hpc Hk Hb) as Hbuf. rewrite (running_cr3 A _ c p Hs Hcur Hpc Hk) in Hc.
    assert (buffer WP (roots (kn_tasks k)) (pagetable p) a1 pa (zlen data) (own_frame p) (pg (kn_tasks k))) as Hbuf'.
    { destruct Hbuf as [M D]. split; intros i Hi0; [apply M|apply D]; lia. }
    destruct (copy_out_spec WP _ (pagetable p) data (own_frame p) (pg (kn_tasks k)) a1 pa (sy_paging _ _ Hs) Hin Hbuf') as (m' & C1 & C2 & _).
    rewrite C1 in Hc. injection Hc as ->. split.
    + exact (system_stored A _ c p (with_mem m (pg (kn_tasks k))) _ Hs Hcur Hpc (λ y H, H) C2).
    + exact (isolated_stored A _ (with_mem m (pg (kn_tasks k))) _ Hs Hi C2).
  - rewrite (H1 Hn) in Hc. injection Hc as <-. by destruct t as [? ? ? ? ? ? ? ? ? []].
Qed.

Lemma user_call_kept n a0 a1 a2 k r k' :
  kernel_ok k → polite n a1 a2 k → user_call WP A fuel n a0 a1 a2 k = Ret (r, k') → kernel_ok k'.
Proof.
  intros Hok Hp H. assert (kernel_ok (seeing k)) as Hok' by (by destruct Hok). unfold user_call in H. apply bind_Ret in H as (_ & _ & H).
  apply bind_Ret in H as ([r1 k1] & Hs & H). cbv zeta in H. apply bind_Ret in H as (m & Hm & [= <- <-]).
  unfold system_call in Hs. fold (entering A (seeing k)) in Hs. apply bind_Ret in Hs as ([r2 c] & Hd & Hs).
  apply bind_Ret in Hs as ([t h] & Hh & [= <- <-]). pose proof (dispatch_effect n a0 a1 a2 (seeing k) r2 c Hok' Hd) as Heff.
  destruct (hooks_kept n (seeing k) c t h (ko_system _ Hok') Heff) as [Hst Hit]; [apply Hp|done|]. specialize (Hit (ko_isolated _ Hok)).
  cbn [kn_tasks kn_calls] in Hm.
  destruct (copied_kept n a1 a2 k t (result_bytes n a1 r2 c) m Hst Hit Hp) as [S1 S2]; [| |exact Hm|].
  { intros Hn. unfold result_bytes. destruct r2 as [[v|]|]; [|done..]. by rewrite (proj2 (Z.eqb_neq _ _) Hn). }
  { intros ->. split; [|destruct r2 as [[v|]|]; cbn; [|pose proof (Z.le_max_l 0 a2); done..]].
    - destruct Heff as [_ _ _ [Hc|[[? _]|[? _]]] _]; [|done..]. exact (run_console _ _ _ _ _ Hc Hh).
    - apply read_answer_bound in Hd. rewrite zlen_load_bytes by lia. lia. }
  destruct Heff as [(E1 & E2 & E3) E4 E5 _ E6]. destruct Hok as [_ _ K1 K2 (K3 & K4 & K5) _].
  split; cbn; [done|done|by apply E4|by apply E5| |done]. split_and!; [by rewrite E1|by apply E2|by rewrite E3].
Qed.

(** ** The shell *)

(** What a command line does to the system: at most one process is started. *)
Definition shell_kept (e e' : env) : Prop :=
  (is_Some (e_fs e) → is_Some (e_fs e')) ∧
  (system A (e_tasks e) → startable_files (e_tasks e) (e_fs e) → kept A (e_tasks e) (e_tasks e')).

Lemma shell_kept_same e e' : e_fs e' = e_fs e → e_tasks e' = e_tasks e → shell_kept e e'.
Proof. intros E1 E2. split; [by rewrite E1|]. rewrite E2. by split. Qed.

Lemma run_elf_kept program e e' : run_elf A program e = Ret e' → shell_kept e e'.
Proof.
  unfold run_elf. destruct program as [program|]; [|intros [= <-]; by apply shell_kept_same]. destruct (e_fs e) as [fs|] eqn:Ef; cbn.
  2: { intros [= <-]. by apply shell_kept_same. }
  destruct (Fs.read fs _) as [image|err] eqn:Hi; cbn; [|intros [= <-]; by apply shell_kept_same].
  intros H. apply bind_Ret in H as ([r t] & Hs & H). cbv zeta in H.
  assert (e_tasks e' = t ∧ e_fs e' = Some fs) as [Et Efs] by (destruct r; [apply bind_Ret in H as (p & _ & [= <-])|injection H as <-]; done).
  clear H. split; [intros _; rewrite Efs; by eexists|]. intros Hsys [Hslot Hall]. rewrite Et. destruct (Hall fs _ image Ef Hi) as [Hl He].
  apply (step_kept A HA Hboot); [by eapply step_elf|done].
Qed.

Lemma long_job_kept command words bg sh e sh' e' : start_long_job command words bg sh e = Ret (sh', e') → shell_kept e e'.
Proof.
  unfold start_long_job. intros H. destruct (e_fs e); [|injection H as _ <-; by apply shell_kept_same]. apply bind_Ret in H as ([u|err] & _ & H).
  - apply bind_Ret in H as (m & _ & H). destruct bg; injection H as _ <-; by apply shell_kept_same.
  - injection H as _ <-. by apply shell_kept_same.
Qed.

Lemma shell_command_kept l bg sh e handled sh' e' :
  run_shell_command A l bg sh e = Ret (handled, sh', e') → shell_kept e e' ∧ (handled = false → e' = e).
Proof.
  unfold run_shell_command. destruct (split_whitespace (to_str l)) as [|command words]; [intros [= <- _ <-]; split; [by apply shell_kept_same|done]|].
  case_bool_decide; [intros [= <- _ <-]; split; [by apply shell_kept_same|done]|].
  case_bool_decide; [destruct (foreground_job _ sh); intros [= <- _ <-]; split; [by apply shell_kept_same|done]|].
  case_bool_decide; [intros (e1 & Hrun & [= <- _ <-])%bind_Ret; split; [by eapply run_elf_kept|done]|].
  case_bool_decide; [intros ([s1 e1] & Hrun & [= <- _ <-])%bind_Ret; split; [by eapply long_job_kept|done]|].
  intros [= <- _ <-]. split; [by apply shell_kept_same|done].
Qed.

Lemma run_line_kept sh e sh' e' : run_line A sh e = Ret (sh', e') → shell_kept e e'.
Proof.
  unfold run_line. destruct (trim (line sh)) as [|x l]; [intros [= _ <-]; by apply shell_kept_same|].
  cbv zeta. destruct (_ && bool_decide (_ = [])); [intros [= _ <-]; by apply shell_kept_same|].
  intros H. apply bind_Ret in H as ([[handled s1] e1] & Hc & H). apply shell_command_kept in Hc as [Hk Hsame].
  destruct handled; [injection H as _ <-; done|]. rewrite (Hsame eq_refl) in *. clear Hk Hsame.
  destruct (e_fs e) as [fs|] eqn:Ef; [|injection H as _ <-; by apply shell_kept_same].
  apply bind_Ret in H as ([r fs'] & _ & H). cbv zeta in H.
  assert (e_tasks e' = e_tasks e ∧ e_fs e' = Some fs') as [Et Efs] by (destruct r; injection H as _ <-; done).
  split; [intros _; rewrite Efs; by eexists|]. rewrite Et. by split.
Qed.

Lemma handle_byte_kept b sh e sh' e' : handle_byte A b sh e = Ret (sh', e') → shell_kept e e'.
Proof.
  unfold handle_byte. destruct (active sh) as [job|].
  { case_bool_decide; [destruct (suspend_active_job sh)|]; intros [= _ <-]; by apply shell_kept_same. }
  case_bool_decide; [intros ([s1 e1] & Hrun & [= _ <-])%bind_Ret; exact (run_line_kept _ _ _ _ Hrun)|].
  case_bool_decide; [destruct (line sh); intros [= _ <-]; by apply shell_kept_same|].
  destruct (is_ascii_graphic b || _); intros [= _ <-]; by apply shell_kept_same.
Qed.

Lemma kstep_ok k k' : kernel_ok k → kstep k k' → kernel_ok k'.
Proof.
  intros Hok Hs. destruct Hs as [n a0 a1 a2 r k k' Hp H|k t Ht|b sh sh' e h k Hf He]; [by eapply user_call_kept| |]; destruct Hok as [K1 K2 K3 K4 K5 K6].
  - destruct (step_kept A HA Hboot _ _ (step_tick A _ _ Ht) K1) as [T1 T2]. split; cbn; auto.
  - apply handle_byte_kept in He as [E1 E2]. destruct (E2 K1 Hf) as [T1 T2]. split; cbn; auto.
Qed.

(** ** Calls return *)

Lemma console_returns l t h : Forall is_console l → transmitting fuel h → ∃ h', for_each l (run_hook A fuel) (t, h) = Ret (t, h') ∧ transmitting fuel h'.
Proof.
  intros Hl. revert h. induction Hl as [|c l Hc Hl IH]; intros h Htr; [by exists h|]. destruct c; try done. cbn [for_each run_hook].
  destruct (serial_write_spec fuel (Z_of_byte <$> data) h Htr) as (h1 & H1 & [_ _ Htr1 _]). unfold serial_console_write. rewrite H1. cbn. by apply IH.
Qed.

(** The bytes a call reads are mapped. *)
Definition mapped (n a0 a1 a2 : Z) (k : kernel) : Prop := ∀ a, a ∈ loads n a0 a1 a2 (kn_calls (seeing k)) → is_Some (seen k a).

Lemma seen_usize k a : is_Some (seen k a) → a ≤ usize_max.
Proof.
  unfold seen, load_byte. destruct (canonical_addr a) eqn:E; [|by intros []]. intros _. unfold canonical_addr in E.
  apply orb_true_iff in E as [E|E]; apply andb_true_iff in E as [_ E]; apply Z.ltb_lt in E; unfold usize_max; lia.
Qed.

Lemma polite_copy n a0 a1 a2 k r c :
  kernel_ok k → polite n a1 a2 k → dispatch n a0 a1 a2 (entering A (seeing k)) = Ret (r, c) →
  ∃ m, copy_out WP (CR3 (kn_tasks k)) a1 (result_bytes n a1 r c) (pg_mem (pg (kn_tasks k))) = Ret m.
Proof.
  intros Hok [Hp _] Hd. destruct (decide (n = Number.Read)) as [->|Hn].
  2: { assert (result_bytes n a1 r c = []) as ->; [|by eexists]. unfold result_bytes. destruct r as [[v|]|]; [|done..]. by rewrite (proj2 (Z.eqb_neq _ _) Hn). }
  destruct (Hp eq_refl) as (i & p & pa & Hcur & Hpc & Hk & Hb). destruct Hok as [Hs Hi _ _ _ _].
  assert (pagetable p ∈ roots (kn_tasks k)) as Hin by (apply elem_of_roots; right; by exists i, p).
  assert (zlen (result_bytes Number.Read a1 r c) ≤ Z.max 0 a2) as Hz.
  { destruct r as [[v|]|]; cbn; [|apply Z.le_max_l..]. apply read_answer_bound in Hd. rewrite zlen_load_bytes by lia. lia. }
  destruct (own_buffer_ok A WP _ i p a1 pa a2 Hs Hi Hpc Hk Hb) as [M D]. rewrite (running_cr3 A _ i p Hs Hcur Hpc Hk).
  destruct (copy_out_spec WP _ (pagetable p) (result_bytes Number.Read a1 r c) (own_frame p) (pg (kn_tasks k)) a1 pa (sy_paging _ _ Hs) Hin) as (m & C1 & _); [|by exists m].
  split; intros j Hj; [apply M|apply D]; lia.
Qed.

Lemma user_call_returns n a0 a1 a2 k fs t :
  kernel_ok k → k_fs (kn_calls k) = Some fs → k_fd (kn_calls k) = Some t → polite n a1 a2 k → mapped n a0 a1 a2 k →
  call_fits (k_room (kn_calls k)) fs t n a0 a1 a2 → transmitting fuel (kn_hw k) → n ≠ Number.Exec → n ≠ Number.Exit →
  ∃ r k', user_call WP A fuel n a0 a1 a2 k = Ret (Return r, k') ∧ kernel_ok k' ∧ transmitting fuel (kn_hw k').
Proof.
  intros Hok Hfs Hfd Hp Hm Hf Htr Hx He. assert (table_ok t) as Ht.
  { destruct (ko_fd _ Hok) as (t0 & E & Ht0). rewrite Hfd in E. by injection E as <-. }
  destruct (dispatch_returns (entering A (seeing k)) fs t Hfs Hfd Ht) with (n := n) (a0 := a0) (a1 := a1) (a2 := a2) as (r & c & Hd); [|done| |done|done|].
  { intros l Hl. cbn. destruct (ko_held _ Hok) as [-> | ->]; [apply not_elem_of_nil|by rewrite list_elem_of_singleton]. }
  { intros a Ha. apply (seen_usize k), Hm. exact Ha. }
  destruct (mild_dispatch n a0 a1 a2 Hx He _ _ _ Hd) as [_ _ _ _ _ _ (l & Hlog & Hl)]. cbn [entering k_log app] in Hlog.
  destruct (console_returns l (kn_tasks k) (kn_hw k) Hl Htr) as (h & Hh & Htr').
  destruct (polite_copy n a0 a1 a2 k r c Hok Hp Hd) as [m Hc]. rewrite <- Hlog in Hh.
  destruct r as [r|]; [|exfalso; by eapply He, exit_only].
  assert (∃ k', user_call WP A fuel n a0 a1 a2 k = Ret (Return r, k') ∧ kn_hw k' = h) as (k' & Hu & <-).
  { eexists. unfold user_call. rewrite (proj2 (forallb_forall _ _)).
    2: { intros a Ha%list_elem_of_In. by apply bool_decide_eq_true, Hm. }
    cbn [assert_that]. rewrite Ret_bind, (system_call_eq A fuel n a0 a1 a2 (seeing k) _ _ _ _ Hd Hh), Ret_bind. cbv zeta. cbn [kn_tasks kn_calls]. rewrite Hc. by split. }
  exists r, k'. split_and!; [done|by eapply user_call_kept|done].
Qed.


(** Segments, gates and the system call registers are never changed. *)
Lemma kstep_fixed k k' : kstep k k' → kn_tables k' = kn_tables k ∧ kn_idt k' = kn_idt k ∧ kn_idtr k' = kn_idtr k ∧ kn_msr k' = kn_msr k.
Proof.
  intros [n a0 a1 a2 r k0 k1 _ H|k0 t _|b sh sh' e h k0 _ _]; [|done|done]. unfold user_call in H. apply bind_Ret in H as (_ & _ & H).
  apply bind_Ret in H as ([r1 k2] & Hs & H). cbv zeta in H. apply bind_Ret in H as (m & _ & [= <- <-]).
  unfold system_call in Hs. apply bind_Ret in Hs as ([r2 c] & _ & Hs). by apply bind_Ret in Hs as ([t h] & _ & [= <- <-]).
Qed.

Lemma kernel_reachable k k' :
  rtc kstep k k' → kernel_ok k →
  kernel_ok k' ∧ kn_tables k' = kn_tables k ∧ kn_idt k' = kn_idt k ∧ kn_idtr k' = kn_idtr k ∧ kn_msr k' = kn_msr k.
Proof.
  induction 1 as [k|k k1 k' Hs Hr IH]; intros Hok; [done|]. destruct (kstep_fixed k k1 Hs) as (<- & <- & <- & <-). apply IH. by eapply kstep_ok.
Qed.

Lemma booted_ok L k c0 r1 r2 : operational fuel L k → booted_tasks A (kn_tasks k) c0 r1 r2 → kernel_ok k.
Proof.
  intros Ho Hb. destruct (op_files _ _ _ Ho) as (fs & [F1 F2 F3] & _). split; [apply Hb|apply Hb|by eexists|by exists Fd.new; split; [|apply table_ok_new]|apply Ho|by left].
Qed.

(** C1: the whole kernel, from power on.  Boot a sane machine whose serial
    transmitter gets ready within [fuel] polls; then let timer
    interrupts, system calls of the running processes and keys typed at the
    shell happen in any order and number, with any arguments, as long as the
    buffer of a read is the caller's own, a program that is started asks
    for lower addresses and process slots are left, none of which the kernel
    checks.  In every state reached, the invariant of
    processes, page tables and frames holds, user processes are isolated from
    each other and from the kernel, the file system, the descriptor table and
    the hooks are in place and the table well formed, no lock is held but
    possibly that of the exit hook; gates, segments and system call registers are as booted; the next
    timer interrupt returns, and no system call but [exit] can wait for a
    lock forever. *)
Theorem kernel_reachable_safe L mem_map img m0 c k0 b k1 k :
  statics_ok A L → initial fuel k0 → bootable A mem_map img m0 b → kernel_main A L fuel mem_map img m0 c k0 = Ret k1 → rtc kstep k1 k →
  kernel_ok k ∧ kn_tables k = kn_tables k1 ∧ kn_idt k = kn_idt k1 ∧ kn_idtr k = kn_idtr k1 ∧ kn_msr k = kn_msr k1 ∧
  (∃ t, timer_interrupt A (kn_tasks k) = Ret t) ∧
  ∀ n a0 a1 a2, n ≠ Number.Exit → dispatch n a0 a1 a2 (kn_calls k) ≠ Diverge.
Proof.
  intros HL H0 Hb Hm Hr. destruct (kernel_main_spec A L HL fuel mem_map img m0 c k0 b H0 Hb) as (k1' & c0 & r1 & r2 & Hm' & Ho & Ht).
  rewrite Hm in Hm'. injection Hm' as <-. clear Hm. destruct (kernel_reachable k1 k Hr (booted_ok L k1 c0 r1 r2 Ho Ht)) as (Hk & E1 & E2 & E3 & E4).
  split_and!; [done..| |].
  - destruct (tick_kept A HA (kn_tasks k) (ko_system _ Hk)) as (t & Heq & _). by exists t.
  - intros n a0 a1 a2 Hn. apply (keeps_dispatch (k_held (kn_calls k))); [|done|done].
    intros l Hl. destruct (ko_held _ Hk) as [-> | ->]; [apply not_elem_of_nil|by rewrite list_elem_of_singleton].
Qed.
End run.

(** ** On the 256-frame machine: boot, a timer interrupt, an unknown call *)

Lemma kernel_reachable_safe_witness :
  ∃ k1 k2 k3, kernel_main medium_addresses small_statics 8 medium_map small_image (λ _, table_new) Context_new powered_on = Ret k1 ∧
    kstep medium_addresses false 8 k1 k2 ∧ user_call false medium_addresses 8 Number.WaitPid 0 0 0 k2 = Ret (Return (Err NoSuchSyscall), k3) ∧
    kernel_ok medium_addresses k3 ∧ kn_idt k3 = kn_idt k1.
Proof.
  destruct (kernel_main_spec medium_addresses small_statics small_statics_ok 8 medium_map small_image (λ _, table_new) Context_new powered_on medium
    powered_on_initial medium_bootable) as (k1 & c0 & r1 & r2 & Hm & _ & Hb).
  destruct (tick_kept medium_addresses medium_addresses_ok (kn_tasks k1) (bo_system _ _ _ _ _ Hb)) as (t & Ht & _).
  set (k2 := mkKernel t (kn_tables k1) (kn_idt k1) (kn_idtr k1) (kn_msr k1) (end_of_interrupt 0 (kn_hw k1)) (kn_calls k1)).
  assert (kstep medium_addresses false 8 k1 k2) as Hs by (by apply kstep_timer).
  assert (∃ k3, user_call false medium_addresses 8 Number.WaitPid 0 0 0 k2 = Ret (Return (Err NoSuchSyscall), k3)) as [k3 Hc] by (eexists; reflexivity).
  exists k1, k2, k3. split; [exact Hm|]. split; [exact Hs|]. split; [exact Hc|].
  assert (rtc (kstep medium_addresses false 8) k1 k3) as Hr.
  { eapply rtc_l; [exact Hs|]. apply rtc_once. eapply kstep_call; [|exact Hc]. by split. }
  destruct (kernel_reachable_safe medium_addresses medium_addresses_ok medium_bootdata false 8 small_statics medium_map small_image (λ _, table_new)
    Context_new powered_on medium k1 k3 small_statics_ok powered_on_initial medium_bootable Hm Hr) as (H1 & _ & H2 & _).
  split; [exact H1|exact H2].
Defined.

