(* ===== verification/IntrusiveList.v ===== *)
(** * The intrusive circular list ([src/list.rs])

    Nodes live in a word-addressed memory: a [ListNode] at address [p] has its
    [next] word at [p] and its [prev] word at [p + 8].  Memory is total; what
    the list operations need of it is that the words of distinct nodes are
    distinct ([nodes_ok]). *)

From S2P Require Import Prelude.
Local Open Scope Z_scope.

Definition mem := Z → Z.
Definition upd (a v : Z) (m : mem) : mem := λ x, if decide (x = a) then v else m x.

Definition next (m : mem) (p : Z) : Z := m p.
Definition prev (m : mem) (p : Z) : Z := m (p + 8).
Definition set_next (p v : Z) (m : mem) : mem := upd p v m.
Definition set_prev (p v : Z) (m : mem) : mem := upd (p + 8) v m.

(** [ListNode::init_at] and [ListNode::init]. *)
Definition init_at (p : Z) (m : mem) : mem := set_prev p p (set_next p p m).

Definition list_empty (head : Z) (m : mem) : bool :=
  if head =? 0 then true
  else if (prev m head =? 0) || (next m head =? 0) then true
  else (next m head =? head) && (prev m head =? head).

Definition list_insert_ (new prev_ next_ : Z) (m : mem) : mem :=
  let m := set_next prev_ new m in
  let m := set_prev next_ new m in
  let m := set_prev new prev_ m in
  set_next new next_ m.

Definition list_remove_ (prev_ next_ : Z) (m : mem) : mem :=
  let m := set_next prev_ next_ m in
  set_prev next_ prev_ m.

Definition list_add (new head : Z) (m : mem) : mem := list_insert_ new head (next m head) m.
Definition list_append (new head : Z) (m : mem) : mem := list_insert_ new (prev m head) head m.
Definition list_remove (old : Z) (m : mem) : mem :=
  init_at old (list_remove_ (prev m old) (next m old) m).
Definition list_move (entry head : Z) (m : mem) : mem := list_add entry head (list_remove entry m).
Definition list_move_tail (entry head : Z) (m : mem) : mem :=
  list_append entry head (list_remove entry m).

(** The [while] loops of [list_for_each!] and [list_for_each_safe!]: the body
    is any code that may change memory and some state of its own. *)
Section loops.
Context {S : Type} (head : Z) (body : Z → mem * S → mem * S).

Fixpoint for_each_loop (fuel : nat) (pos : Z) (s : mem * S) : outcome (mem * S) :=
  match fuel with
  | O => Diverge
  | Datatypes.S fuel' =>
      if pos =? head then Ret s
      else let s := body pos s in for_each_loop fuel' (next s.1 pos) s
  end.
Definition list_for_each (fuel : nat) (s : mem * S) : outcome (mem * S) :=
  for_each_loop fuel (next s.1 head) s.

Fixpoint for_each_safe_loop (fuel : nat) (pos : Z) (s : mem * S) : outcome (mem * S) :=
  match fuel with
  | O => Diverge
  | Datatypes.S fuel' =>
      if pos =? head then Ret s
      else let n := next s.1 pos in let s := body pos s in for_each_safe_loop fuel' n s
  end.
Definition list_for_each_safe (fuel : nat) (s : mem * S) : outcome (mem * S) :=
  for_each_safe_loop fuel (next s.1 head) s.
End loops.

(** ** Chains *)

(** From [a] the [next] pointers lead through [l], and the [prev] pointers
    lead back. *)
Fixpoint linked (m : mem) (a : Z) (l : list Z) : Prop :=
  match l with
  | [] => True
  | b :: l' => next m a = b ∧ prev m b = a ∧ linked m b l'
  end.

Definition last_or (a : Z) (l : list Z) : Z := default a (last l).

(** No word belongs to two nodes. *)
Definition nodes_ok (xs : list Z) : Prop :=
  NoDup xs ∧ ∀ x y, x ∈ xs → y ∈ xs → x ≠ y + 8.

(** A list with head [h] and the nodes [l], in order. *)
Record ring (m : mem) (h : Z) (l : list Z) : Prop := {
  ring_nodes : nodes_ok (h :: l);
  ring_linked : linked m h (l ++ [h]);
}.

Lemma upd_eq a v m : upd a v m a = v.
Proof. unfold upd. by rewrite decide_True. Qed.
Lemma upd_ne a v m x : x ≠ a → upd a v m x = m x.
Proof. intros. unfold upd. by rewrite decide_False. Qed.

Lemma last_or_cons a b l : last_or a (b :: l) = last_or b l.
Proof. unfold last_or. rewrite last_cons. by destruct (last l). Qed.
Lemma last_or_snoc a l b : last_or a (l ++ [b]) = b.
Proof. unfold last_or. by rewrite last_snoc. Qed.
Lemma last_or_in a l : last_or a l ∈ a :: l.
Proof.
  revert a. induction l as [|b l IH]; intros a; [by left|]. rewrite last_or_cons.
  right. apply IH.
Qed.

Lemma linked_app m a l1 l2 :
  linked m a (l1 ++ l2) ↔ linked m a l1 ∧ linked m (last_or a l1) l2.
Proof.
  revert a. induction l1 as [|b l1 IH]; intros a; simpl; [tauto|].
  rewrite IH, last_or_cons. tauto.
Qed.

(** A chain is kept when the [next] words of its nodes but the last, and the
    [prev] words of its nodes but the first, are kept. *)
Lemma linked_frame m m' a l :
  linked m a l → NoDup (a :: l) →
  (∀ x, x ∈ a :: l → x ≠ last_or a l → next m' x = next m x) →
  (∀ y, y ∈ l → prev m' y = prev m y) → linked m' a l.
Proof.
  revert a. induction l as [|b l IH]; intros a Hl Hnd Hn Hp; [done|].
  destruct Hl as (H1 & H2 & H3). apply NoDup_cons in Hnd as [Ha Hnd].
  rewrite last_or_cons in Hn. assert (a ≠ last_or b l) as Hne.
  { intros ->. apply Ha, last_or_in. }
  split_and!; [rewrite Hn; [done|by left|done]|rewrite Hp; [done|by left]|].
  apply IH; [done|done| |].
  - intros x Hx Hxl. apply Hn; [by right|done].
  - intros y Hy. apply Hp. by right.
Qed.

(** ** Insertion and removal *)

(** The words the two primitives write. *)
Lemma insert_words new p n m :
  p ≠ n + 8 → p ≠ new + 8 → n + 8 ≠ new → new ≠ p → new ≠ n →
  let m' := list_insert_ new p n m in
  next m' p = new ∧ prev m' n = new ∧ prev m' new = p ∧ next m' new = n ∧
  (∀ x, x ≠ p → x ≠ n + 8 → x ≠ new → x ≠ new + 8 → m' x = m x).
Proof.
  intros H1 H2 H3 H4 H5 m'. unfold m', list_insert_, set_next, set_prev, next, prev.
  split_and!; intros; rewrite ?upd_eq, ?upd_ne by lia; rewrite ?upd_eq, ?upd_ne by lia;
    rewrite ?upd_eq, ?upd_ne by lia; rewrite ?upd_eq, ?upd_ne by lia; done.
Qed.

Lemma nodes_ok_sub xs ys : nodes_ok xs → ys ⊆ xs → NoDup ys → nodes_ok ys.
Proof. intros [_ H] Hsub Hnd. split; [done|]. intros x y Hx Hy. apply H; by apply Hsub. Qed.

(** [m'] differs from [m] at most in the words of the list. *)
Definition same_but (ws : list Z) (m m' : mem) : Prop := ∀ x, x ∉ ws → m' x = m x.

(** Writing the [next] word of [p], the [prev] word of [n] and the words of
    nodes [xs] keeps a chain that has [p] only as its last node, [n] only as
    its first, and none of [xs]. *)
Lemma linked_same_but m m' a l p n xs U :
  nodes_ok U → a :: l ⊆ U → p :: n :: xs ⊆ U → NoDup (a :: l) →
  same_but (p :: (n + 8) :: xs ++ ((λ x, x + 8) <$> xs)) m m' →
  (p ∈ a :: l → p = last_or a l) → n ∉ l → (∀ x, x ∈ xs → x ∉ a :: l) →
  linked m a l → linked m' a l.
Proof.
  intros [_ Hw] Hsub Hpn Hnd Hm Hp Hn Hxs Hl. apply (linked_frame m); [done|done|..].
  - intros x Hx Hlast. apply Hm. intros Hin.
    apply elem_of_cons in Hin as [->|Hin]; [naive_solver|].
    apply elem_of_cons in Hin as [->|Hin]; [by apply (Hw (n + 8) n); auto; set_solver|].
    apply elem_of_app in Hin as [Hin|Hin]; [by apply (Hxs x)|].
    apply list_elem_of_fmap in Hin as (y & -> & Hy). apply (Hw (y + 8) y); auto; set_solver.
  - intros y Hy. apply Hm. intros Hin.
    apply elem_of_cons in Hin as [Heq|Hin]; [apply (Hw p y); auto; set_solver|].
    apply elem_of_cons in Hin as [Heq|Hin]; [assert (y = n) as -> by lia; done|].
    apply elem_of_app in Hin as [Hin|Hin]; [apply (Hw (y + 8) y); auto; set_solver|].
    apply list_elem_of_fmap in Hin as (z & Heq & Hz). assert (y = z) as -> by lia.
    apply (Hxs z); [done|by right].
Qed.

(** The first node of [l2], or the head. *)
Definition first_or (h : Z) (l : list Z) : Z := match l with [] => h | x :: _ => x end.

(** A ring seen from a place between two of its nodes. *)
Lemma ring_split m h l1 l2 :
  linked m h ((l1 ++ l2) ++ [h]) ↔
    linked m h l1 ∧ next m (last_or h l1) = first_or h l2 ∧
    prev m (first_or h l2) = last_or h l1 ∧ linked m (first_or h l2) (drop 1 (l2 ++ [h])).
Proof.
  rewrite <- app_assoc, linked_app. destruct l2; simpl; rewrite ?drop_0; tauto.
Qed.

(** The second part of a ring ends in the head, and has no node of the first. *)
Lemma second_part h l1 l2 :
  NoDup (h :: l1 ++ l2) →
  let n := first_or h l2 in let r := drop 1 (l2 ++ [h]) in
  n :: r = l2 ++ [h] ∧ NoDup (n :: r) ∧ n ∉ r ∧ last_or n r = h ∧
  (∀ x, x ∈ l1 → x ∉ n :: r).
Proof.
  intros [Hh (Hn1 & Hd & Hn2)%NoDup_app]%NoDup_cons n r.
  assert (n :: r = l2 ++ [h]) as Hr by (unfold n, r; by destruct l2).
  assert (NoDup (n :: r)) as Hnd.
  { rewrite Hr. apply NoDup_app. split_and!; [done| |apply NoDup_singleton].
    intros x Hx ->%list_elem_of_singleton. apply Hh. set_solver. }
  split_and!; [done|done|by apply NoDup_cons in Hnd as [? _]| |].
  - rewrite <- (last_or_cons h n r), Hr. apply last_or_snoc.
  - intros x Hx. rewrite Hr. rewrite elem_of_app, list_elem_of_singleton.
    intros [Hx2| ->]; [by apply (Hd x)|]. apply Hh. set_solver.
Qed.

Lemma ring_insert m h l1 l2 new :
  ring m h (l1 ++ l2) → nodes_ok (new :: h :: l1 ++ l2) →
  ring (list_insert_ new (last_or h l1) (first_or h l2) m) h (l1 ++ new :: l2).
Proof.
  intros [[Hnd _] Hl] HU. pose proof HU as [Hnd' Hw]. apply NoDup_cons in Hnd' as [Hnew _].
  apply ring_split in Hl as (Hl1 & Hpn & Hnp & Hl2).
  destruct (second_part h l1 l2 Hnd) as (Hr & Hndr & Hnr & Hlast & Hdis).
  set (p := last_or h l1) in *. set (n := first_or h l2) in *. set (r := drop 1 (l2 ++ [h])) in *.
  assert (p ∈ h :: l1) as Hp by apply last_or_in.
  assert (n ∈ h :: l2) as Hn by (assert (n ∈ l2 ++ [h]) by (rewrite <- Hr; by left); set_solver).
  assert (p ∈ h :: l1 ++ l2 ∧ n ∈ h :: l1 ++ l2) as [Hp' Hn'] by set_solver.
  destruct (insert_words new p n m) as (E1 & E2 & E3 & E4 & E5).
  { apply Hw; by right. }
  { apply Hw; [by right|by left]. }
  { apply not_eq_sym, Hw; [by left|by right]. }
  { by intros <-. }
  { by intros <-. }
  set (m' := list_insert_ new p n m) in *.
  assert (same_but (p :: (n + 8) :: [new] ++ ((λ x, x + 8) <$> [new])) m m') as Hsame.
  { intros x Hx. simpl in Hx. rewrite !not_elem_of_cons in Hx. apply E5; tauto. }
  assert (NoDup (h :: l1)) as Hnd1.
  { apply NoDup_cons in Hnd as [? (? & _ & _)%NoDup_app]. apply NoDup_cons. set_solver. }
  split.
  - apply (nodes_ok_sub _ _ HU); [set_solver|].
    rewrite <- Permutation_middle. apply NoDup_cons in Hnd as [? ?].
    apply NoDup_cons. split; [set_solver|]. apply NoDup_cons. set_solver.
  - replace (l1 ++ new :: l2) with ((l1 ++ [new]) ++ l2) by (by rewrite <- app_assoc).
    rewrite ring_split, last_or_snoc, linked_app. simpl. fold p n r. split_and!; try done.
    + apply (linked_same_but m m' h l1 p n [new] _ HU); try done; set_solver.
    + apply (linked_same_but m m' n r p n [new] _ HU); try done.
      * rewrite Hr. set_solver.
      * set_solver.
      * rewrite Hlast. intros Hpr. apply elem_of_cons in Hp as [->|Hp]; [done|]. by destruct (Hdis p Hp).
      * intros x ->%list_elem_of_singleton. rewrite Hr. set_solver.
Qed.

Lemma remove_words x p n m :
  p ≠ n + 8 → x ≠ p → x ≠ n → x ≠ n + 8 → p ≠ x + 8 → x ≠ x + 8 →
  prev m x = p → next m x = n →
  let m' := list_remove x m in
  next m' p = n ∧ prev m' n = p ∧ next m' x = x ∧ prev m' x = x ∧
  same_but (p :: (n + 8) :: [x] ++ ((λ x, x + 8) <$> [x])) m m'.
Proof.
  intros H1 H2 H3 H4 H5 H6 Hp Hn m'. unfold m', list_remove. rewrite Hp, Hn.
  unfold list_remove_, init_at, set_next, set_prev, next, prev, same_but. simpl.
  split_and!; intros; rewrite ?not_elem_of_cons in *; rewrite ?upd_eq, ?upd_ne by lia;
    rewrite ?upd_eq, ?upd_ne by lia; rewrite ?upd_eq, ?upd_ne by lia; rewrite ?upd_eq, ?upd_ne by lia; done.
Qed.

Lemma ring_remove m h l1 l2 x :
  ring m h (l1 ++ x :: l2) →
  ring (list_remove x m) h (l1 ++ l2) ∧
  next (list_remove x m) x = x ∧ prev (list_remove x m) x = x ∧
  same_but [last_or h l1; first_or h l2 + 8; x; x + 8] m (list_remove x m).
Proof.
  intros [HU Hl]. pose proof HU as [Hnd Hw].
  rewrite <- Permutation_middle in Hnd.
  assert (NoDup (h :: l1 ++ l2) ∧ x ∉ h :: l1 ++ l2) as [Hnd' Hx].
  { apply NoDup_cons in Hnd as [Hh Hnd]. apply NoDup_cons in Hnd as [Hx Hnd].
    split; [apply NoDup_cons; set_solver|set_solver]. }
  replace (l1 ++ x :: l2) with ((l1 ++ [x]) ++ l2) in Hl by (by rewrite <- app_assoc).
  apply ring_split in Hl as (Hl1 & Hxn & Hnx & Hl2). rewrite last_or_snoc in *.
  apply linked_app in Hl1 as [Hl1 (Hpx & Hxp & _)].
  destruct (second_part h l1 l2 Hnd') as (Hr & Hndr & Hnr & Hlast & Hdis).
  set (p := last_or h l1) in *. set (n := first_or h l2) in *. set (r := drop 1 (l2 ++ [h])) in *.
  assert (p ∈ h :: l1) as Hp by apply last_or_in.
  assert (n ∈ h :: l2) as Hn by (assert (n ∈ l2 ++ [h]) by (rewrite <- Hr; by left); set_solver).
  set (U := h :: l1 ++ x :: l2) in *.
  assert (p ∈ U ∧ n ∈ U ∧ x ∈ U) as (Hp' & Hn' & Hx') by (unfold U; set_solver).
  destruct (remove_words x p n m) as (E1 & E2 & E3 & E4 & Hsame); try done.
  1: { by apply Hw. }
  1-2: intros ->; set_solver.
  1-3: by apply Hw.
  split_and!; [|done|done|exact Hsame]. set (m' := list_remove x m) in *.
  assert (NoDup (h :: l1)) as Hnd1.
  { apply NoDup_cons in Hnd' as [? (? & _ & _)%NoDup_app]. apply NoDup_cons. set_solver. }
  split; [apply (nodes_ok_sub _ _ HU); [unfold U; set_solver|done]|].
  rewrite ring_split. fold p n r. split_and!; [|done|done|].
  - apply (linked_same_but m m' h l1 p n [x] _ HU); try done; unfold U; set_solver.
  - apply (linked_same_but m m' n r p n [x] _ HU); try done.
    + rewrite Hr. unfold U. set_solver.
    + unfold U. set_solver.
    + rewrite Hlast. intros Hpr. apply elem_of_cons in Hp as [->|Hp]; [done|]. by destruct (Hdis p Hp).
    + intros y ->%list_elem_of_singleton. rewrite Hr. set_solver.
Qed.

(** ** Queries *)

Lemma ring_ends m h l : ring m h l → next m h = first_or h l ∧ prev m h = last_or h l.
Proof.
  intros [_ Hl]. split.
  - destruct l; simpl in Hl; tauto.
  - apply linked_app in Hl as [_ (_ & H & _)]. done.
Qed.

Lemma ring_empty_iff m h l :
  ring m h l → (∀ x, x ∈ h :: l → x ≠ 0) → list_empty h m = bool_decide (l = []).
Proof.
  intros Hr Hnz. destruct (ring_ends _ _ _ Hr) as [Hn Hp]. unfold list_empty.
  replace (h =? 0) with false by (pose proof (Hnz h ltac:(by left)); lia).
  rewrite Hn, Hp. assert (first_or h l ∈ h :: l) as Hf.
  { destruct l; [by left|right; by left]. }
  pose proof (Hnz _ Hf). pose proof (Hnz _ (last_or_in h l)).
  replace (last_or h l =? 0) with false by lia. replace (first_or h l =? 0) with false by lia.
  simpl. destruct l as [|x l]; simpl.
  - unfold last_or. simpl. by rewrite Z.eqb_refl.
  - assert (x ≠ h). { destruct Hr as [[[? _]%NoDup_cons _] _]. set_solver. }
    by replace (x =? h) with false by lia.
Qed.

(** Neighbours of a node. *)
Lemma ring_next m h l1 x l2 : ring m h (l1 ++ x :: l2) → next m x = first_or h l2 ∧ x ≠ h.
Proof.
  intros [[[Hh _]%NoDup_cons _] Hl]. split; [|set_solver].
  replace (l1 ++ x :: l2) with ((l1 ++ [x]) ++ l2) in Hl by (by rewrite <- app_assoc).
  apply ring_split in Hl as (_ & Hn & _). by rewrite last_or_snoc in Hn.
Qed.

Lemma first_or_in h l : first_or h l ∈ h :: l.
Proof. destruct l; [by left|right; by left]. Qed.

(** ** Claims *)

(** On a well-formed list, [list_add] puts a new node first,
    [list_append] puts it last, [list_remove] takes out exactly the node it is
    given and leaves it linked to itself, and [list_empty] tells whether there
    is any node. *)
Theorem list_operations_correct m h l :
  ring m h l → (∀ x, x ∈ h :: l → x ≠ 0) →
  list_empty h m = bool_decide (l = []) ∧
  (∀ new, nodes_ok (new :: h :: l) →
     ring (list_add new h m) h (new :: l) ∧ ring (list_append new h m) h (l ++ [new])) ∧
  (∀ l1 x l2, l = l1 ++ x :: l2 →
     ring (list_remove x m) h (l1 ++ l2) ∧
     next (list_remove x m) x = x ∧ prev (list_remove x m) x = x) ∧
  (∀ l1 x l2, l = l1 ++ x :: l2 →
     ring (list_move x h m) h (x :: l1 ++ l2) ∧ ring (list_move_tail x h m) h ((l1 ++ l2) ++ [x])).
Proof.
  intros Hr Hnz. destruct (ring_ends _ _ _ Hr) as [Hn Hp].
  assert (∀ m' l' new, ring m' h l' → nodes_ok (new :: h :: l') →
     ring (list_add new h m') h (new :: l') ∧ ring (list_append new h m') h (l' ++ [new])) as Hins.
  { intros m' l' new Hr' Hok. destruct (ring_ends _ _ _ Hr') as [Hn' Hp'].
    unfold list_add, list_append. rewrite Hn', Hp'. split.
    - by apply (ring_insert m' h [] l' new).
    - pose proof (ring_insert m' h l' [] new) as H. rewrite app_nil_r in H. by apply H. }
  split_and!; [by apply ring_empty_iff|by intros; apply Hins| |].
  - intros l1 x l2 ->. destruct (ring_remove m h l1 l2 x Hr) as (? & ? & ? & _). done.
  - intros l1 x l2 ->. destruct (ring_remove m h l1 l2 x Hr) as (Hr' & _).
    apply Hins; [done|]. destruct Hr as [[Hnd Hw] _].
    split; [|intros a b Ha Hb; apply Hw; set_solver].
    rewrite <- Permutation_middle in Hnd. by rewrite Permutation_swap.
Qed.

(** A list of two nodes at 64 and 96 with its head at 32. *)
Definition sample_list : mem := list_append 96 32 (list_append 64 32 (init_at 32 (λ _, 0))).

Lemma list_operations_correct_witness :
  ring sample_list 32 [64; 96] ∧ ring (list_remove 64 sample_list) 32 [96].
Proof.
  assert (nodes_ok [32; 64; 96]) as Hok.
  { split; [by apply (bool_decide_unpack (NoDup [32; 64; 96])); vm_compute|].
    intros x y Hx Hy. apply list_elem_of_In in Hx, Hy. simpl in Hx, Hy.
    destruct Hx as [<-|[<-|[<-|[]]]], Hy as [<-|[<-|[<-|[]]]]; discriminate. }
  assert (ring sample_list 32 [64; 96]) as Hr by (split; [exact Hok|vm_compute; done]).
  split; [exact Hr|].
  destruct (list_operations_correct sample_list 32 [64; 96] Hr) as (_ & _ & Hrem & _).
  - intros x Hx. apply list_elem_of_In in Hx. simpl in Hx. destruct Hx as [<-|[<-|[<-|[]]]]; discriminate.
  - destruct (Hrem [] 64 [96] eq_refl) as [H _]. exact H.
Defined.
