(* ===== verification/ListLoops.v ===== *)
(** * Traversals of the intrusive list ([src/list.rs])

    The loops over containers ([list_for_each_entry!] and its safe variant,
    which reach the structure around a node with [container_of_mut!]), and
    what all four loops visit. *)

From S2P Require Import Prelude IntrusiveList.
Local Open Scope Z_scope.

(** [container_of_mut!]: the subtraction is checked. *)
Definition container_of_mut (ptr offset : Z) : outcome Z := usub ptr offset.

Section entry_loops.
Context {S : Type} (head offset : Z) (body : Z → mem * S → mem * S).

Fixpoint for_each_entry_loop (fuel : nat) (pos : Z) (s : mem * S) : outcome (mem * S) :=
  match fuel with
  | O => Diverge
  | Datatypes.S fuel =>
      if pos + offset =? head then Ret s
      else
        let s := body pos s in
        pos ← container_of_mut (next s.1 (pos + offset)) offset;
        for_each_entry_loop fuel pos s
  end.
Definition list_for_each_entry (fuel : nat) (s : mem * S) : outcome (mem * S) :=
  pos ← container_of_mut (next s.1 head) offset; for_each_entry_loop fuel pos s.

Fixpoint for_each_entry_safe_loop (fuel : nat) (pos : Z) (s : mem * S) : outcome (mem * S) :=
  match fuel with
  | O => Diverge
  | Datatypes.S fuel =>
      if pos + offset =? head then Ret s
      else
        n ← container_of_mut (next s.1 (pos + offset)) offset;
        let s := body pos s in
        for_each_entry_safe_loop fuel n s
  end.
Definition list_for_each_entry_safe (fuel : nat) (s : mem * S) : outcome (mem * S) :=
  pos ← container_of_mut (next s.1 head) offset; for_each_entry_safe_loop fuel pos s.
End entry_loops.

(** ** What the loops visit *)

Section visits.
Context {S : Type} (head : Z).

Definition visit (body : Z → mem * S → mem * S) (s : mem * S) (l : list Z) : mem * S := foldl (λ s x, body x s) s l.

(** A body that leaves the list alone, and one that may also take the current
    node out of it. *)
Definition keeps_list (body : Z → mem * S → mem * S) : Prop :=
  ∀ l x s, x ∈ l → ring s.1 head l → ring (body x s).1 head l.
Definition may_remove (body : Z → mem * S → mem * S) : Prop :=
  ∀ l1 x l2 s, ring s.1 head (l1 ++ x :: l2) → ring (body x s).1 head (l1 ++ x :: l2) ∨ ring (body x s).1 head (l1 ++ l2).

Lemma ring_first m l : ring m head l → next m head = first_or head l.
Proof. intros H. apply (ring_ends _ _ _ H). Qed.

Lemma for_each_visits body l1 l2 s :
  keeps_list body → ring s.1 head (l1 ++ l2) →
  for_each_loop head body (Datatypes.S (length l2)) (first_or head l2) s = Ret (visit body s l2) ∧ ring (visit body s l2).1 head (l1 ++ l2).
Proof.
  intros Hk. revert l1 s. induction l2 as [|x l2 IH]; intros l1 s Hr.
  { cbn. by rewrite Z.eqb_refl. }
  cbn [length first_or]. cbn [for_each_loop visit foldl]. destruct (ring_next _ _ _ _ _ Hr) as [_ Hne].
  replace (x =? head) with false by lia.
  assert (ring (body x s).1 head (l1 ++ x :: l2)) as Hr' by (apply Hk; [set_solver|done]).
  destruct (ring_next _ _ _ _ _ Hr') as [-> _]. specialize (IH (l1 ++ [x]) (body x s)). rewrite <- app_assoc in IH. by apply IH.
Qed.

Lemma for_each_safe_visits body l1 l2 s :
  may_remove body → ring s.1 head (l1 ++ l2) →
  for_each_safe_loop head body (Datatypes.S (length l2)) (first_or head l2) s = Ret (visit body s l2) ∧
  ∃ l2', l2' `sublist_of` l2 ∧ ring (visit body s l2).1 head (l1 ++ l2').
Proof.
  intros Hk. revert l1 s. induction l2 as [|x l2 IH]; intros l1 s Hr.
  { cbn. rewrite Z.eqb_refl. split; [done|]. by exists []. }
  cbn [length first_or]. cbn [for_each_safe_loop visit foldl]. destruct (ring_next _ _ _ _ _ Hr) as [-> Hne].
  replace (x =? head) with false by lia. destruct (Hk l1 x l2 s Hr) as [Hr'|Hr'].
  - specialize (IH (l1 ++ [x]) (body x s)). rewrite <- app_assoc in IH. destruct (IH Hr') as [Heq (l2' & Hs & Hr2)].
    split; [exact Heq|]. exists (x :: l2'). split; [by apply sublist_skip|]. by rewrite <- app_assoc in Hr2.
  - destruct (IH l1 (body x s) Hr') as [Heq (l2' & Hs & Hr2)]. split; [exact Heq|]. exists l2'. split; [by apply sublist_cons|done].
Qed.
End visits.

(** ** Containers are nodes, shifted *)

Lemma container_ok x offset : offset ≤ x → container_of_mut x offset = Ret (x - offset).
Proof. apply usub_ok. Qed.

Section containers.
Context {S : Type} (head offset : Z) (body : Z → mem * S → mem * S).

(** The body of the node loop that does what an entry loop does. *)
Definition at_node (x : Z) : mem * S → mem * S := body (x - offset).

Lemma for_each_entry_visits l1 l2 s :
  keeps_list head at_node → (∀ x, x ∈ head :: l1 ++ l2 → offset ≤ x) → ring s.1 head (l1 ++ l2) →
  for_each_entry_loop head offset body (Datatypes.S (length l2)) (first_or head l2 - offset) s = Ret (visit at_node s l2).
Proof.
  intros Hk. revert l1 s. induction l2 as [|x l2 IH]; intros l1 s Ho Hr.
  { cbn. by replace (head - offset + offset =? head) with true by lia. }
  cbn [length first_or]. cbn [for_each_entry_loop visit foldl]. destruct (ring_next _ _ _ _ _ Hr) as [_ Hne].
  replace (x - offset + offset) with x by lia. replace (x =? head) with false by lia.
  assert (ring (at_node x s).1 head (l1 ++ x :: l2)) as Hr' by (apply Hk; [set_solver|done]). fold (at_node x s).
  destruct (ring_next _ _ _ _ _ Hr') as [-> _]. rewrite container_ok by (apply Ho; pose proof (first_or_in head l2); set_solver). rewrite Ret_bind.
  specialize (IH (l1 ++ [x]) (at_node x s)). rewrite <- app_assoc in IH. by apply IH.
Qed.

Lemma for_each_entry_safe_visits l1 l2 s :
  may_remove head at_node → (∀ x, x ∈ head :: l1 ++ l2 → offset ≤ x) → ring s.1 head (l1 ++ l2) →
  for_each_entry_safe_loop head offset body (Datatypes.S (length l2)) (first_or head l2 - offset) s = Ret (visit at_node s l2).
Proof.
  intros Hk. revert l1 s. induction l2 as [|x l2 IH]; intros l1 s Ho Hr.
  { cbn. by replace (head - offset + offset =? head) with true by lia. }
  cbn [length first_or]. cbn [for_each_entry_safe_loop visit foldl]. destruct (ring_next _ _ _ _ _ Hr) as [Hn Hne].
  replace (x - offset + offset) with x by lia. replace (x =? head) with false by lia.
  rewrite Hn, container_ok by (apply Ho; pose proof (first_or_in head l2); set_solver). rewrite Ret_bind. cbv zeta. fold (at_node x s).
  destruct (Hk l1 x l2 s Hr) as [Hr'|Hr'].
  - specialize (IH (l1 ++ [x]) (at_node x s)). rewrite <- app_assoc in IH. by apply IH.
  - apply (IH l1 (at_node x s)); [|done]. intros y Hy. apply Ho. set_solver.
Qed.
End containers.

(** The four traversals end after visiting every element exactly once and
    in order, with one step more than the list has nodes: the plain loops for
    a body that leaves the list as it is, the safe ones also for a body that
    takes the current node out, which then leaves a well-formed list of the
    others; the loops over containers visit the structures around the nodes
    and never underflow when no node lies below the member's offset. *)
Theorem traversals_visit {S : Type} (head offset : Z) (body : Z → mem * S → mem * S) m l (s : S) :
  ring m head l → (∀ x, x ∈ head :: l → offset ≤ x) →
  (keeps_list head body → list_for_each head body (Datatypes.S (length l)) (m, s) = Ret (visit body (m, s) l)) ∧
  (may_remove head body → list_for_each_safe head body (Datatypes.S (length l)) (m, s) = Ret (visit body (m, s) l) ∧
     ∃ l', l' `sublist_of` l ∧ ring (visit body (m, s) l).1 head l') ∧
  (keeps_list head (at_node offset body) →
     list_for_each_entry head offset body (Datatypes.S (length l)) (m, s) = Ret (visit (at_node offset body) (m, s) l)) ∧
  (may_remove head (at_node offset body) →
     list_for_each_entry_safe head offset body (Datatypes.S (length l)) (m, s) = Ret (visit (at_node offset body) (m, s) l)).
Proof.
  intros Hr Ho. unfold list_for_each, list_for_each_safe, list_for_each_entry, list_for_each_entry_safe. cbn [fst].
  rewrite (ring_first head m l Hr), container_ok by (apply Ho, first_or_in). rewrite Ret_bind. split_and!; intros Hk.
  - by apply (for_each_visits head body [] l (m, s)).
  - by apply (for_each_safe_visits head body [] l (m, s)).
  - by apply (for_each_entry_visits head offset body [] l (m, s)).
  - by apply (for_each_entry_safe_visits head offset body [] l (m, s)).
Qed.

(** Removing every node while collecting the containers, as the test of the
    source does. *)
Definition collect_and_remove (x : Z) (s : mem * list Z) : mem * list Z := (list_remove (x + 16) s.1, s.2 ++ [x]).
Lemma collect_may_remove : may_remove 32 (at_node 16 collect_and_remove).
Proof.
  intros l1 x l2 s Hr. right. unfold at_node, collect_and_remove. cbn [fst]. replace (x - 16 + 16) with x by lia.
  by destruct (ring_remove s.1 32 l1 l2 x Hr) as (H & _).
Qed.
Lemma traversals_visit_witness :
  ∃ m', list_for_each_entry_safe 32 16 collect_and_remove 3 (sample_list, []) = Ret (m', [48; 80]).
Proof.
  assert (nodes_ok [32; 64; 96]) as Hok.
  { split; [by apply (bool_decide_unpack (NoDup [32; 64; 96])); vm_compute|].
    intros x y Hx Hy. apply list_elem_of_In in Hx, Hy. simpl in Hx, Hy.
    destruct Hx as [<-|[<-|[<-|[]]]], Hy as [<-|[<-|[<-|[]]]]; discriminate. }
  destruct (traversals_visit 32 16 collect_and_remove sample_list [64; 96] []) as (_ & _ & _ & H).
  - split; [exact Hok|vm_compute; done].
  - intros x Hx. apply list_elem_of_In in Hx. simpl in Hx. destruct Hx as [<-|[<-|[<-|[]]]]; lia.
  - eexists. exact (H collect_may_remove).
Defined.
