(* ===== verification/Heap.v ===== *)
(** * The kernel heap ([src/mem/alloc.rs])

    A first-fit allocator over an address-ordered intrusive free list.  Block
    headers, list links and back pointers are words of one memory: a
    [HeapNode] at [a] has its size at [a], and its list node at [a + 8].  The
    pages come from a [PageSource], which the buddy allocator implements. *)

From S2P Require Import Prelude Buddy Address AllocLayout IntrusiveList.
Local Open Scope Z_scope.

(** What the heap asks of the page allocator: one chunk, by its physical
    address. *)
Class PageSource (B : Type) := page_alloc : B → outcome (option Z * B).

Definition CHUNK_ORDER : Z := MAX_ORDER - 1.
Definition CHUNK_SIZE : Z := PAGE_SIZE * Z.shiftl 1 CHUNK_ORDER.
Definition BACK_PTR_SIZE : Z := 8.
(** [size_of::<HeapNode>()] and [align_of::<HeapNode>()]: three words. *)
Definition HEAP_NODE_SIZE : Z := 24.
Definition HEAP_NODE_ALIGN : Z := 8.
Definition MIN_FREE_BLOCK_SIZE : Z := HEAP_NODE_SIZE + BACK_PTR_SIZE + 1.

#[global] Instance buddy_page_source : PageSource BuddyAllocator :=
  Buddy.allocate CHUNK_ORDER.

Definition allocation_geometry : AllocationGeometry :=
  mkGeometry HEAP_NODE_SIZE HEAP_NODE_ALIGN BACK_PTR_SIZE.

Definition heap_normalize_layout (layout : Layout) : outcome Layout :=
  normalize_layout layout 8.
Definition heap_allocation_for_block (block_start block_size : Z) (layout : Layout)
    : outcome (option (Z * Z)) :=
  placement ← allocation_for_block block_start block_size layout allocation_geometry;
  Ret (p ← placement; Some (user_ptr p, used_size p)).
Definition heap_required_block_size (block_start : Z) (layout : Layout) : outcome (option Z) :=
  required_block_size block_start layout allocation_geometry.

(** The list node of a block, and [container_of_mut!(node, list_node, HeapNode)]. *)
Definition node_of (block : Z) : Z := block + 8.
Definition container_of (node : Z) : outcome Z := usub node 8.

(** [HeapNode::init_at]: the links are written as null, then as a loop. *)
Definition heap_node_init_at (block sz : Z) (m : mem) : mem :=
  let m := upd block sz m in
  let m := set_next (node_of block) 0 m in
  let m := set_prev (node_of block) 0 m in
  init_at (node_of block) m.

Section heap.
Context {B : Type} `{PageSource B} (head : Z).

Definition ensure_head_initialized (m : mem) : mem :=
  if (next m head =? 0) || (prev m head =? 0) then init_at head m else m.

Definition blocks_are_adjacent (left right : Z) (m : mem) : bool :=
  saturating_add left (m left) =? right.

(** The search loop of [insert_and_coalesce]. *)
Fixpoint find_place (fuel : nat) (block_addr prev_ current : Z) (m : mem) : outcome (Z * Z) :=
  match fuel with
  | O => Diverge
  | S fuel' =>
      if current =? head then Ret (prev_, current)
      else
        current_block ← container_of current;
        if block_addr <=? current_block then Ret (prev_, current)
        else find_place fuel' block_addr current (next m current) m
  end.

(** Adding the size of the right block to the left one and unlinking the right
    one. *)
Definition absorb (left right : Z) (m : mem) : outcome mem :=
  sz ← uadd (m left) (m right);
  let m := upd left sz m in
  Ret (list_remove (node_of right) m).

Definition insert_and_coalesce (fuel : nat) (block : Z) (m : mem) : outcome mem :=
  '(prev_, current) ← find_place fuel block head (next m head) m;
  let node := node_of block in
  let m := set_prev node prev_ m in
  let m := set_next node current m in
  let m := set_next prev_ node m in
  let m := set_prev current node m in
  '(merged, m) ←
    (if prev_ =? head then Ret (block, m)
     else
       prev_block ← container_of prev_;
       if blocks_are_adjacent prev_block block m then
         m ← absorb prev_block block m; Ret (prev_block, m)
       else Ret (block, m));
  let next_ := next m (node_of merged) in
  if next_ =? head then Ret m
  else
    next_block ← container_of next_;
    if blocks_are_adjacent merged next_block m then absorb merged next_block m
    else Ret m.

(** What happens to the block the search has found. *)
Definition take_from (fuel : nat) (block block_size user_ptr used_size : Z) (m : mem)
    : outcome mem :=
  let m := list_remove (node_of block) m in
  remaining ← usub block_size used_size;
  m ← (if MIN_FREE_BLOCK_SIZE <=? remaining then
         free_block ← uadd block used_size;
         let m := heap_node_init_at free_block remaining m in
         insert_and_coalesce fuel free_block m
       else Ret m);
  let m := upd block used_size m in
  back ← usub user_ptr BACK_PTR_SIZE;
  Ret (upd back block m).

Fixpoint search_loop (fuel all : nat) (node : Z) (layout : Layout) (m : mem)
    : outcome (option Z * mem) :=
  match fuel with
  | O => Diverge
  | S fuel' =>
      if node =? head then Ret (None, m)
      else
        let next_ := next m node in
        block ← container_of node;
        let block_size := m block in
        place ← heap_allocation_for_block block block_size layout;
        match place with
        | Some (user_ptr, used_size) =>
            m ← take_from all block block_size user_ptr used_size m;
            Ret (Some user_ptr, m)
        | None => search_loop fuel' all next_ layout m
        end
  end.

Definition allocate_from_free_list (fuel : nat) (layout : Layout) (m : mem)
    : outcome (option Z * mem) :=
  if list_empty head m then Ret (None, m)
  else search_loop fuel fuel (next m head) layout m.

(** The page allocator is behind a lock and an [Option]. *)
Definition grow_heap (fuel : nat) (m : mem) (buddy : option B) : outcome (bool * mem * option B) :=
  b ← expect buddy;
  '(phys, b) ← page_alloc b;
  match phys with
  | None => Ret (false, m, Some b)
  | Some phys =>
      virt ← uadd phys KERNEL_VMA;
      let m := heap_node_init_at virt CHUNK_SIZE m in
      m ← insert_and_coalesce fuel virt m;
      Ret (true, m, Some b)
  end.

(** The [loop] of [alloc]; 0 is the null pointer. *)
Fixpoint alloc_loop (rounds fuel : nat) (layout : Layout) (m : mem) (buddy : option B)
    : outcome (Z * mem * option B) :=
  match rounds with
  | O => Diverge
  | S rounds' =>
      '(found, m) ← allocate_from_free_list fuel layout m;
      match found with
      | Some ptr => Ret (ptr, m, buddy)
      | None =>
          required ← heap_required_block_size 0 layout;
          if CHUNK_SIZE <? default usize_max required then Ret (0, m, buddy)
          else
            '(grown, m, buddy) ← grow_heap fuel m buddy;
            if (grown : bool) then alloc_loop rounds' fuel layout m buddy
            else Ret (0, m, buddy)
      end
  end.

(** [rounds] bounds the iterations of [alloc]'s loop, [fuel] the length of the
    free list during the call. *)
Definition alloc (rounds fuel : nat) (layout : Layout) (m : mem) (buddy : option B)
    : outcome (Z * mem * option B) :=
  layout ← heap_normalize_layout layout;
  alloc_loop rounds fuel layout (ensure_head_initialized m) buddy.

Definition header_from_user_ptr (ptr : Z) (m : mem) : outcome Z :=
  back_ptr ← usub ptr BACK_PTR_SIZE; Ret (m back_ptr).

Definition dealloc (fuel : nat) (ptr : Z) (m : mem) : outcome mem :=
  if ptr =? 0 then Ret m
  else
    header ← header_from_user_ptr ptr m;
    let m := ensure_head_initialized m in
    let m := init_at (node_of header) m in
    insert_and_coalesce fuel header m.
End heap.
