(* ===== verification/HeapInv.v ===== *)
(** * Invariant of the kernel heap

    Blocks as intervals, the free list as an address-ordered list of blocks
    represented in memory, and the effect of inserting and coalescing. *)

From S2P Require Import Prelude Buddy Address AllocLayout IntrusiveList Heap.
Local Open Scope Z_scope.

(** ** Blocks *)

Abbreviation block := (Z * Z)%type.

Definition disj (b c : block) : Prop := b.1 + b.2 ≤ c.1 ∨ c.1 + c.2 ≤ b.1.

Fixpoint pdisj (l : list block) : Prop :=
  match l with
  | [] => True
  | b :: r => Forall (disj b) r ∧ pdisj r
  end.

Lemma disj_sym b c : disj b c → disj c b.
Proof. unfold disj. tauto. Qed.

Lemma pdisj_perm_1 l l' : l ≡ₚ l' → pdisj l → pdisj l'.
Proof.
  induction 1 as [|x l l' Hp IH|x y l|l1 l2 l3 _ IH1 _ IH2]; simpl; [done| | |by eauto].
  - intros [Hx Hl]. split; [by rewrite <- Hp|by apply IH].
  - intros [Hy [Hx Hl]]. apply Forall_cons in Hy as [Hyx Hy].
    split_and!; [|done|done]. apply Forall_cons. split; [by apply disj_sym|done].
Qed.
#[global] Instance pdisj_Permutation : Proper ((≡ₚ) ==> iff) pdisj.
Proof. intros l l' H. split; apply pdisj_perm_1; [done|by symmetry]. Qed.

Lemma pdisj_app l k :
  pdisj (l ++ k) ↔ pdisj l ∧ pdisj k ∧ ∀ b c, b ∈ l → c ∈ k → disj b c.
Proof.
  induction l as [|b l IH]; simpl; [set_solver|]. rewrite IH, Forall_app, !Forall_forall. set_solver.
Qed.

(** A block the heap manages: word aligned, room for a header and a back
    pointer, inside the address space. *)
Record blk_ok (b : block) : Prop := {
  bk_pos : 0 < b.1;
  bk_size : 40 ≤ b.2;
  bk_end : b.1 + b.2 ≤ usize_max;
  bk_align : (8 | b.1);
  bk_size_align : (8 | b.2);
}.

(** Ascending, with a gap between neighbours: nothing left to coalesce. *)
Fixpoint ordered (l : list block) : Prop :=
  match l with
  | [] => True
  | b :: r => Forall (λ c, b.1 + b.2 < c.1) r ∧ ordered r
  end.

Lemma ordered_app l k :
  ordered (l ++ k) ↔ ordered l ∧ ordered k ∧ ∀ b c, b ∈ l → c ∈ k → b.1 + b.2 < c.1.
Proof.
  induction l as [|b l IH]; simpl; [set_solver|]. rewrite IH, Forall_app, !Forall_forall. set_solver.
Qed.

(** ** Free lists in memory *)

Section free_list.
Context (head : Z).

(** The list head is not inside the block. *)
Definition head_apart (b : block) : Prop := head + 16 ≤ b.1 ∨ b.1 + b.2 ≤ head.

Record regions_ok (bs : list block) : Prop := {
  rg_blocks : Forall blk_ok bs;
  rg_head : Forall head_apart bs;
  rg_disj : pdisj bs;
}.

Definition nodes (l : list block) : list Z := (λ b, node_of b.1) <$> l.

Record free_rep (m : mem) (fl : list block) : Prop := {
  fr_ring : ring m head (nodes fl);
  fr_size : ∀ b, b ∈ fl → m b.1 = b.2;
}.

Lemma regions_ok_perm l l' : l ≡ₚ l' → regions_ok l → regions_ok l'.
Proof. intros Hp [H1 H2 H3]. rewrite Hp in H1, H2, H3. by split. Qed.

Lemma regions_ok_app l k :
  regions_ok (l ++ k) ↔
    regions_ok l ∧ regions_ok k ∧ ∀ b c, b ∈ l → c ∈ k → disj b c.
Proof.
  split.
  - intros [H1 H2 H3]. rewrite !Forall_app in *. rewrite pdisj_app in H3.
    destruct H1, H2, H3 as (? & ? & ?). done.
  - intros ([? ? ?] & [? ? ?] & Hd). split; [by apply Forall_app..|]. by apply pdisj_app.
Qed.

Lemma regions_ok_cons b l :
  regions_ok (b :: l) ↔ (blk_ok b ∧ head_apart b) ∧ regions_ok l ∧ ∀ c, c ∈ l → disj b c.
Proof.
  split.
  - intros [H1 H2 [H3 H4]]. apply Forall_cons in H1 as [], H2 as []. rewrite Forall_forall in H3. done.
  - intros ([? ?] & [? ? ?] & Hd). split; [by apply Forall_cons..|]. split; [by apply Forall_forall|done].
Qed.

Lemma regions_blk bs b : regions_ok bs → b ∈ bs → blk_ok b ∧ head_apart b.
Proof.
  intros [H1 H2 _] Hb. rewrite Forall_forall in H1, H2. auto.
Qed.

(** Two blocks of the region that touch the same byte are the same. *)
Lemma regions_same bs b c x :
  regions_ok bs → b ∈ bs → c ∈ bs → b.1 ≤ x < b.1 + b.2 → c.1 ≤ x < c.1 + c.2 → b = c.
Proof.
  intros Hr Hb Hc Hbx Hcx. destruct Hr as [_ _ Hd]. induction bs as [|d bs IH]; [set_solver|].
  destruct Hd as [Hd Hrest]. rewrite Forall_forall in Hd.
  apply elem_of_cons in Hb as [->|Hb], Hc as [->|Hc]; [done| | |by apply IH].
  - specialize (Hd _ Hc). unfold disj in Hd. lia.
  - specialize (Hd _ Hb). unfold disj in Hd. lia.
Qed.

Lemma regions_NoDup bs : regions_ok bs → NoDup bs.
Proof.
  intros [Hb _ Hd]. induction bs as [|d bs IH]; [constructor|].
  apply Forall_cons in Hb as [Hd1 Hb]. destruct Hd as [Hd Hrest]. constructor; [|by apply IH].
  intros Hin. rewrite Forall_forall in Hd. specialize (Hd _ Hin). unfold disj in Hd.
  pose proof (bk_size _ Hd1). lia.
Qed.

Lemma regions_nodes_ok bs : regions_ok bs → nodes_ok (head :: nodes bs).
Proof.
  intros Hr. assert (∀ x, x ∈ nodes bs → ∃ b, b ∈ bs ∧ x = b.1 + 8) as Hin.
  { intros x (b & -> & Hb)%list_elem_of_fmap. by exists b. }
  split.
  - apply NoDup_cons. split.
    + intros (b & Hb & ->)%Hin. destruct (regions_blk _ _ Hr Hb) as [[] Hh]. unfold head_apart in Hh. lia.
    + apply NoDup_fmap_2_strong; [|by apply regions_NoDup]. intros b c Hb Hc Heq.
      destruct (regions_blk _ _ Hr Hb) as [[] _], (regions_blk _ _ Hr Hc) as [[] _]. unfold node_of in Heq.
      apply (regions_same bs b c b.1); [done..|lia|lia].
  - intros x y Hx Hy Heq. apply elem_of_cons in Hx as [->|(b & Hb & ->)%Hin], Hy as [->|(c & Hc & ->)%Hin].
    + lia.
    + destruct (regions_blk _ _ Hr Hc) as [[] Hh]. unfold head_apart in Hh. lia.
    + destruct (regions_blk _ _ Hr Hb) as [[] Hh]. unfold head_apart in Hh. lia.
    + destruct (regions_blk _ _ Hr Hb) as [[] _], (regions_blk _ _ Hr Hc) as [[] _].
      assert (b = c) as -> by (apply (regions_same bs b c b.1); [done..|lia|lia]). lia.
Qed.

(** The words of the list head and of the headers of blocks at [addrs]. *)
Definition hdr_word (addrs : list Z) (x : Z) : Prop :=
  x = head ∨ x = head + 8 ∨ ∃ a, a ∈ addrs ∧ (x = a ∨ x = a + 8 ∨ x = a + 16).
Definition frame (addrs : list Z) (m m' : mem) : Prop :=
  ∀ x, ¬ hdr_word addrs x → m' x = m x.

Lemma frame_refl addrs m : frame addrs m m.
Proof. done. Qed.
Lemma frame_trans addrs m1 m2 m3 : frame addrs m1 m2 → frame addrs m2 m3 → frame addrs m1 m3.
Proof. intros H1 H2 x Hx. by rewrite H2, H1. Qed.
Lemma frame_mono addrs addrs' m m' : addrs ⊆ addrs' → frame addrs m m' → frame addrs' m m'.
Proof. intros Hs H x Hx. apply H. unfold hdr_word in *. set_solver. Qed.

Lemma nodes_app l k : nodes (l ++ k) = nodes l ++ nodes k.
Proof. apply fmap_app. Qed.

(** ** Walking the list *)

Lemma container_of_node a : 0 ≤ a → container_of (node_of a) = Ret a.
Proof. intros H. unfold container_of, node_of. rewrite usub_ok by lia. f_equal. lia. Qed.

Lemma find_place_spec m k l1 l2 a fuel :
  ring m head (nodes (k ++ l1 ++ l2)) → Forall (λ b, 0 < b.1) (l1 ++ l2) →
  (∀ b, b ∈ l1 → b.1 < a) → (∀ b, b ∈ l2 → a ≤ b.1) → (length l1 < fuel)%nat →
  find_place head fuel a (last_or head (nodes k)) (first_or head (nodes (l1 ++ l2))) m =
    Ret (last_or head (nodes (k ++ l1)), first_or head (nodes l2)).
Proof.
  revert k fuel. induction l1 as [|b l1 IH]; intros k fuel Hr Hpos H1 H2 Hf;
    (destruct fuel as [|fuel]; [simpl in Hf; lia|]); cbn [find_place].
  - rewrite app_nil_r. simpl. destruct l2 as [|c l2]; simpl; [by rewrite Z.eqb_refl|].
    rewrite nodes_app in Hr. apply ring_next in Hr as [_ Hne].
    replace (node_of c.1 =? head) with false by lia.
    apply Forall_cons in Hpos as [Hc _]. rewrite container_of_node by lia. simpl.
    specialize (H2 c ltac:(by left)). by replace (a <=? c.1) with true by lia.
  - simpl in Hpos. apply Forall_cons in Hpos as [Hb Hpos]. simpl first_or.
    rewrite nodes_app in Hr. simpl in Hr. pose proof (ring_next _ _ _ _ _ Hr) as [Hn Hne].
    replace (node_of b.1 =? head) with false by lia.
    rewrite container_of_node by lia. simpl. specialize (H1 b ltac:(by left)) as Hba.
    replace (a <=? b.1) with false by lia. rewrite Hn. fold (nodes (l1 ++ l2)).
    assert (node_of b.1 = last_or head (nodes (k ++ [b]))) as ->.
    { rewrite nodes_app. simpl. by rewrite last_or_snoc. }
    rewrite IH; [by rewrite <- app_assoc| |done| |done|simpl in Hf; lia].
    + rewrite <- app_assoc, nodes_app. exact Hr.
    + intros c Hc. apply H1. by right.
Qed.

(** ** Linking a block in *)

Lemma ring_agree m m' h l :
  (∀ x, x ∈ h :: l → m' x = m x ∧ m' (x + 8) = m (x + 8)) → ring m h l → ring m' h l.
Proof.
  intros Ha [Hok Hl]. split; [done|].
  assert (∀ a k, linked m a k → a ∈ h :: l → k ⊆ h :: l → linked m' a k) as Hgen.
  { intros a k. revert a. induction k as [|b k IH]; intros a; [done|]. simpl.
    intros (H1 & H2 & H3) Hin Hsub. assert (b ∈ h :: l) as Hb by set_solver.
    destruct (Ha a Hin) as [Ha1 _], (Ha b Hb) as [_ Hb2]. unfold next, prev in *.
    rewrite Ha1, Hb2. split_and!; [done..|]. apply IH; set_solver. }
  apply Hgen; [done|set_solver|]. set_solver.
Qed.

Lemma cons_sub (h : Z) (l k : list Z) : l ⊆ k → h :: l ⊆ h :: k.
Proof. intros H x [->|Hx]%elem_of_cons; [by left|right; by apply H]. Qed.

(** The address of a block is neither a link word nor inside another block. *)
Lemma size_word bs b x :
  regions_ok bs → b ∈ bs → x ∈ head :: nodes bs → b.1 ≠ x ∧ b.1 ≠ x + 8.
Proof.
  intros Hr Hb Hx. destruct (regions_blk _ _ Hr Hb) as [[] Hh]. unfold head_apart in Hh.
  apply elem_of_cons in Hx as [->|Hx]; [lia|]. apply list_elem_of_fmap in Hx as (c & -> & Hc).
  destruct (regions_blk _ _ Hr Hc) as [[] _]. unfold node_of.
  split; intros Heq; (assert (b = c) as -> by (apply (regions_same bs b c b.1); [done..|lia|lia])); lia.
Qed.

Lemma last_or_nodes l : last_or head (nodes l) = head ∨ ∃ b, b ∈ l ∧ last_or head (nodes l) = b.1 + 8.
Proof.
  pose proof (last_or_in head (nodes l)) as Hin. apply elem_of_cons in Hin as [|Hin]; [by left|right].
  apply list_elem_of_fmap in Hin as (b & Hb & Hin). exists b. split; [done|]. by rewrite Hb.
Qed.
Lemma first_or_nodes l : first_or head (nodes l) = head ∨ ∃ b, b ∈ l ∧ first_or head (nodes l) = b.1 + 8.
Proof. destruct l as [|b l]; [by left|right]. exists b. split; [by left|done]. Qed.

Lemma link_words (A : list Z) l1 l2 node x :
  l1.*1 ⊆ A → l2.*1 ⊆ A →
  (∃ a, a ∈ A ∧ node = a + 8) →
  ¬ hdr_word A x →
  x ∉ [last_or head (nodes l1); first_or head (nodes l2) + 8; node; node + 8].
Proof.
  intros H1 H2 (a & Ha & ->) Hx Hin. apply Hx. unfold hdr_word. rewrite !elem_of_cons in Hin.
  destruct Hin as [->|[->|[->|[->|[]%elem_of_nil]]]].
  - destruct (last_or_nodes l1) as [->|(b & Hb & ->)]; [by left|]. right; right. exists b.1.
    split; [apply H1, list_elem_of_fmap; eauto|lia].
  - destruct (first_or_nodes l2) as [->|(b & Hb & ->)]; [right; left; lia|]. right; right. exists b.1.
    split; [apply H2, list_elem_of_fmap; eauto|lia].
  - right; right. exists a. split; [done|lia].
  - right; right. exists a. split; [done|lia].
Qed.

(** The four writes of [insert_and_coalesce]. *)
Definition link_in (node prev_ current : Z) (m : mem) : mem :=
  set_prev current node (set_next prev_ node (set_next node current (set_prev node prev_ m))).

Lemma link_in_insert node p n m x :
  p ≠ n + 8 → p ≠ node + 8 → n + 8 ≠ node → node ≠ p → node ≠ n →
  link_in node p n m x = list_insert_ node p n m x.
Proof.
  intros. unfold link_in, list_insert_, set_next, set_prev, upd. repeat case_decide; try done; lia.
Qed.

Lemma link_in_spec m l1 l2 a s :
  free_rep m (l1 ++ l2) → regions_ok ((a, s) :: l1 ++ l2) → m a = s →
  let m' := link_in (node_of a) (last_or head (nodes l1)) (first_or head (nodes l2)) m in
  free_rep m' (l1 ++ (a, s) :: l2) ∧ frame (a :: (l1 ++ l2).*1) m m'.
Proof.
  intros [Hring Hsz] Hr Hm m'. rewrite nodes_app in Hring.
  pose proof (regions_nodes_ok _ Hr) as Hok. simpl in Hok. rewrite nodes_app in Hok.
  assert (nodes_ok (node_of a :: head :: nodes l1 ++ nodes l2)) as Hok'.
  { destruct Hok as [Hnd Hw]. split; [by rewrite Permutation_swap|]. intros x y Hx Hy. apply Hw; set_solver. }
  set (p := last_or head (nodes l1)) in *. set (n := first_or head (nodes l2)) in *.
  assert (p ∈ head :: nodes l1 ++ nodes l2) as Hp.
  { pose proof (last_or_in head (nodes l1)). set_solver. }
  assert (n ∈ head :: nodes l1 ++ nodes l2) as Hn.
  { unfold n. destruct l2; simpl; set_solver. }
  assert (∀ x, m' x = list_insert_ (node_of a) p n m x) as Heq.
  { pose proof Hok' as [[Hnew _]%NoDup_cons Hw]. intros x. apply link_in_insert.
    - apply Hw; by right.
    - apply Hw; [by right|by left].
    - apply not_eq_sym, Hw; [by left|by right].
    - by intros Heq; rewrite Heq in Hnew.
    - by intros Heq; rewrite Heq in Hnew. }
  pose proof (ring_insert m head (nodes l1) (nodes l2) (node_of a) Hring Hok') as Hri.
  assert (∀ x, x ∉ [p; n + 8; node_of a; node_of a + 8] → m' x = m x) as Hother.
  { intros x Hx. rewrite Heq. rewrite !not_elem_of_cons in Hx. unfold list_insert_, set_next, set_prev.
    rewrite !upd_ne by tauto. done. }
  split; [split|].
  - rewrite nodes_app. simpl. apply (ring_agree (list_insert_ (node_of a) p n m)); [|exact Hri].
    intros x _. by rewrite !Heq.
  - intros b Hb. assert (b ∈ (a, s) :: l1 ++ l2) as Hb' by set_solver.
    rewrite Hother.
    + apply elem_of_cons in Hb' as [->|Hb']; [done|by apply Hsz].
    + rewrite !not_elem_of_cons. simpl in Hr.
      assert (∀ x, x ∈ node_of a :: head :: nodes l1 ++ nodes l2 → b.1 ≠ x ∧ b.1 ≠ x + 8) as Hw.
      { intros x Hx. apply (size_word _ _ _ Hr Hb'). simpl. rewrite nodes_app. set_solver. }
      destruct (Hw p ltac:(by right)) as [Hwp _], (Hw n ltac:(by right)) as [_ Hwn],
        (Hw (node_of a) ltac:(by left)) as [Hwa Hwa'].
      split_and!; [done..|apply not_elem_of_nil].
  - intros x Hx. apply Hother. eapply (link_words (a :: (l1 ++ l2).*1)); [..|done].
    + rewrite fmap_app. set_solver.
    + rewrite fmap_app. set_solver.
    + exists a. split; [by left|done].
Qed.

(** ** Coalescing *)

Lemma regions_merge b t a s bs :
  regions_ok ((b, t) :: (a, s) :: bs) → b + t = a → regions_ok ((b, t + s) :: bs).
Proof.
  intros Hr Ha. apply regions_ok_cons in Hr as ((Hb & Hbh) & Hr & Hbd).
  apply regions_ok_cons in Hr as ((Hc & Hch) & Hr & Hcd). destruct Hb, Hc. simpl in *.
  apply regions_ok_cons. split_and!; [|unfold head_apart in *; simpl in *; lia|done|].
  - split; simpl; [lia..|done|by apply Z.divide_add_r].
  - intros d Hd. specialize (Hbd d ltac:(by right)). specialize (Hcd d Hd).
    destruct (regions_blk _ _ Hr Hd) as [[] _]. unfold disj in *. simpl in *. lia.
Qed.

(** Unlinking writes link words only. *)
Lemma unlink_spec m l1 b l2 :
  ring m head (nodes (l1 ++ b :: l2)) → regions_ok (l1 ++ b :: l2) →
  let m' := list_remove (node_of b.1) m in
  ring m' head (nodes (l1 ++ l2)) ∧ (∀ c, c ∈ l1 ++ b :: l2 → m' c.1 = m c.1) ∧
  frame ((l1 ++ b :: l2).*1) m m'.
Proof.
  intros Hring Hr m'. pose proof Hring as Hring'. rewrite nodes_app in Hring'.
  destruct (ring_remove m head _ _ _ Hring') as (Hring2 & _ & _ & Hsame). fold m' in Hring2, Hsame.
  set (bs := l1 ++ b :: l2) in *.
  assert (nodes l1 ⊆ nodes bs ∧ nodes l2 ⊆ nodes bs ∧ node_of b.1 ∈ nodes bs) as (Hs1 & Hs2 & Hs3).
  { unfold bs. rewrite !nodes_app. simpl. set_solver. }
  split_and!; [by rewrite nodes_app| |].
  - intros c Hc. apply Hsame. assert (∀ x, x ∈ head :: nodes bs → c.1 ≠ x ∧ c.1 ≠ x + 8) as Hw.
    { intros x. by apply size_word. }
    destruct (Hw (last_or head (nodes l1))) as [? _]; [apply (cons_sub _ _ _ Hs1), last_or_in|].
    destruct (Hw (first_or head (nodes l2))) as [_ ?]; [apply (cons_sub _ _ _ Hs2), first_or_in|].
    destruct (Hw (node_of b.1)) as [? ?]; [by right|].
    rewrite !not_elem_of_cons. split_and!; [done..|apply not_elem_of_nil].
  - intros x Hx. apply Hsame. eapply (link_words (bs.*1)); [..|done].
    + unfold bs. rewrite !fmap_app. set_solver.
    + unfold bs. rewrite fmap_app. simpl. set_solver.
    + exists b.1. split; [|done]. apply list_elem_of_fmap. exists b. split; [done|]. unfold bs. set_solver.
Qed.

(** A write to a size word keeps the links. *)
Lemma ring_size_word m bs l b v :
  regions_ok bs → b ∈ bs → l ⊆ bs → ring m head (nodes l) → ring (upd b.1 v m) head (nodes l).
Proof.
  intros Hr Hb Hsub. apply ring_agree. intros x Hx.
  destruct (size_word bs b x Hr Hb) as [H1 H2]; [|by rewrite !upd_ne by done].
  apply elem_of_cons in Hx as [->|(c & -> & Hc)%list_elem_of_fmap]; [by left|].
  right. apply list_elem_of_fmap. exists c. split; [done|by apply Hsub].
Qed.

Lemma absorb_spec m l1 b t a s l2 :
  free_rep m (l1 ++ (b, t) :: (a, s) :: l2) → regions_ok (l1 ++ (b, t) :: (a, s) :: l2) → b + t = a →
  ∃ m', absorb b a m = Ret m' ∧ free_rep m' (l1 ++ (b, t + s) :: l2) ∧
    frame ((l1 ++ (b, t) :: (a, s) :: l2).*1) m m'.
Proof.
  intros [Hring Hsz] Hr Hab. set (bs := l1 ++ (b, t) :: (a, s) :: l2) in *.
  assert ((b, t) ∈ bs ∧ (a, s) ∈ bs) as [Hb Ha] by (unfold bs; set_solver).
  assert (bs = (l1 ++ [(b, t)]) ++ (a, s) :: l2) as Ebs by (unfold bs; by rewrite <- app_assoc).
  destruct (regions_blk _ _ Hr Ha) as [[] _], (regions_blk _ _ Hr Hb) as [[] _]. simpl in *.
  unfold absorb. pose proof (Hsz _ Hb) as Eb. pose proof (Hsz _ Ha) as Ea. simpl in Eb, Ea.
  rewrite Eb, Ea, uadd_ok by lia. rewrite Ret_bind. eexists. split; [reflexivity|].
  pose proof (ring_size_word m bs bs (b, t) (t + s) Hr Hb ltac:(done) Hring) as Hring1.
  simpl in Hring1. rewrite Ebs in Hring1.
  destruct (unlink_spec (upd b (t + s) m) _ (a, s) l2 Hring1) as (Hring2 & Hkeep & Hfr); [by rewrite <- Ebs|].
  rewrite <- Ebs in Hkeep, Hfr. simpl in Hring2, Hkeep, Hfr. split; [split|].
  - rewrite <- app_assoc in Hring2. rewrite nodes_app in *. exact Hring2.
  - intros c Hc. assert (c = (b, t + s) ∨ c ∈ l1 ++ l2) as [->|Hc'] by set_solver; simpl.
    + pose proof (Hkeep _ Hb) as Hk. simpl in Hk. rewrite Hk. apply upd_eq.
    + assert (c ∈ bs) as Hcb by (unfold bs; set_solver). rewrite Hkeep by done.
      rewrite upd_ne; [by apply Hsz|]. intros Heq.
      assert (regions_ok ((b, t) :: l1 ++ (a, s) :: l2)) as Hr'.
      { eapply regions_ok_perm, Hr. unfold bs. by rewrite Permutation_middle. }
      apply regions_ok_cons in Hr' as (_ & _ & Hd). specialize (Hd c ltac:(set_solver)).
      destruct (regions_blk _ _ Hr Hcb) as [[] _]. unfold disj in Hd. simpl in *. lia.
  - intros x Hx. rewrite Hfr by done. apply upd_ne. intros ->. apply Hx. right; right. exists b.
    split; [|by left]. apply list_elem_of_fmap. by exists (b, t).
Qed.
End free_list.
