(* ===== verification/HeapOps.v ===== *)
(** * Free-list operations of the kernel heap

    The free list as a pure, address-ordered list of blocks: insertion with
    coalescing and first-fit search, and the refinement of the pointer code of
    [Heap] to them. *)

From S2P Require Import Prelude Buddy Address AllocLayout IntrusiveList Heap HeapInv.
Local Open Scope Z_scope.

(** ** Insertion with coalescing, on lists of blocks *)

Definition merge_right (b : block) (l : list block) : list block :=
  match l with
  | c :: r => if b.1 + b.2 =? c.1 then (b.1, b.2 + c.2) :: r else b :: c :: r
  | [] => [b]
  end.

Fixpoint insert_free (b : block) (l : list block) : list block :=
  match l with
  | [] => [b]
  | c :: r =>
      if b.1 <=? c.1 then merge_right b (c :: r)
      else if c.1 + c.2 =? b.1 then merge_right (c.1, c.2 + b.2) r
      else c :: insert_free b r
  end.

(** [c] has all bytes of [b]. *)
Definition contains (c b : block) : Prop := c.1 ≤ b.1 ∧ b.1 + b.2 ≤ c.1 + c.2.

Lemma insert_free_low b l :
  (∀ c, c ∈ l → b.1 ≤ c.1) → insert_free b l = merge_right b l.
Proof.
  intros H. destruct l as [|c l]; [done|]. specialize (H c ltac:(by left)). cbn [insert_free].
  by replace (b.1 <=? c.1) with true by lia.
Qed.

Lemma insert_free_mid b k c l :
  (∀ d, d ∈ k → d.1 + d.2 < c.1 ∧ 0 < d.2) → c.1 < b.1 → (∀ d, d ∈ l → b.1 ≤ d.1) →
  insert_free b (k ++ c :: l) =
    k ++ (if c.1 + c.2 =? b.1 then merge_right (c.1, c.2 + b.2) l else c :: merge_right b l).
Proof.
  intros Hk Hc Hl. induction k as [|d k IH]; simpl.
  - replace (b.1 <=? c.1) with false by lia. case_match; [done|]. f_equal. by apply insert_free_low.
  - destruct (Hk d ltac:(by left)). replace (b.1 <=? d.1) with false by lia.
    replace (d.1 + d.2 =? b.1) with false by lia. rewrite IH; [done|]. intros e He. apply Hk. by right.
Qed.

Lemma ordered_split l a :
  ordered l → Forall (λ b, 0 < b.2) l →
  ∃ l1 l2, l = l1 ++ l2 ∧ (∀ b, b ∈ l1 → b.1 < a) ∧ (∀ b, b ∈ l2 → a ≤ b.1).
Proof.
  induction l as [|c l IH]; intros Ho Hpos; [exists [], []; set_solver|].
  destruct Ho as [Hc Ho]. apply Forall_cons in Hpos as [Hcp Hpos]. rewrite Forall_forall in Hc.
  destruct (decide (c.1 < a)) as [Hlt|Hge].
  - destruct (IH Ho Hpos) as (l1 & l2 & -> & H1 & H2). exists (c :: l1), l2. split_and!; [done| |done].
    intros b [->|Hb]%elem_of_cons; [done|by apply H1].
  - exists [], (c :: l). split_and!; [done|set_solver|]. intros b [->|Hb]%elem_of_cons; [lia|].
    specialize (Hc b Hb). lia.
Qed.

Section pure.
Context (head : Z).
Implicit Types (b c : block) (l rest : list block).

Lemma regions_swap b c l : regions_ok head (b :: c :: l) → regions_ok head (c :: b :: l).
Proof. apply regions_ok_perm. constructor. Qed.

Lemma merge_right_regions b l rest :
  regions_ok head (b :: l ++ rest) → regions_ok head (merge_right b l ++ rest).
Proof.
  intros H. destruct l as [|c l]; simpl; [done|]. case_match; [|done]. destruct b as [x s], c as [y t].
  simpl in *. eapply regions_merge; [exact H|lia].
Qed.

Lemma insert_free_regions b l rest :
  regions_ok head (b :: l ++ rest) → regions_ok head (insert_free b l ++ rest).
Proof.
  revert rest. induction l as [|c l IH]; intros rest H; [done|]. cbn [insert_free].
  case_match; [by apply merge_right_regions|]. apply regions_swap in H. case_match.
  - apply merge_right_regions. destruct b as [x s], c as [y t]. simpl in *.
    eapply regions_merge; [exact H|lia].
  - eapply regions_ok_perm; [symmetry; apply Permutation_middle|].
    apply (IH (c :: rest)). eapply regions_ok_perm; [|apply regions_swap, H].
    apply Permutation_skip, Permutation_middle.
Qed.

Lemma merge_right_ordered b l :
  Forall (λ c, b.1 + b.2 ≤ c.1 ∧ 0 < c.2) l → ordered l → ordered (merge_right b l).
Proof.
  intros Hb Ho. destruct l as [|c l]; [by repeat constructor|]. simpl. destruct Ho as [Hc Ho].
  apply Forall_cons in Hb as [Hbc Hb]. case_match; simpl; (split; [|done]).
  - eapply Forall_impl; [exact Hc|]. simpl. lia.
  - apply Forall_cons. split; [lia|]. eapply Forall_impl; [exact Hc|]. simpl. lia.
Qed.

Lemma merge_right_addrs b l : (merge_right b l).*1 ⊆ b.1 :: l.*1.
Proof. destruct l as [|c l]; simpl; [done|]. case_match; set_solver. Qed.

Lemma insert_free_addrs b l : (insert_free b l).*1 ⊆ b.1 :: l.*1.
Proof.
  induction l as [|c l IH]; [done|]. cbn [insert_free]. case_match; [apply merge_right_addrs|].
  case_match; [|set_solver]. pose proof (merge_right_addrs (c.1, c.2 + b.2) l). set_solver.
Qed.

Lemma merge_right_length b l : (length (merge_right b l) ≤ S (length l))%nat.
Proof. destruct l as [|c l]; simpl; [lia|]. case_match; simpl; lia. Qed.

Lemma insert_free_length b l : (length (insert_free b l) ≤ S (length l))%nat.
Proof.
  induction l as [|c l IH]; [done|]. cbn [insert_free]. case_match; [apply merge_right_length|].
  case_match; simpl; [|lia]. pose proof (merge_right_length (c.1, c.2 + b.2) l). lia.
Qed.

Lemma insert_free_ordered b l :
  regions_ok head (b :: l) → ordered l → ordered (insert_free b l).
Proof.
  induction l as [|c l IH]; intros Hr Ho; [by repeat constructor|]. pose proof Ho as [Hc Hol].
  pose proof (regions_swap _ _ _ Hr) as Hr'. apply regions_ok_cons in Hr as ([Hb _] & Hrc & Hbd).
  apply regions_ok_cons in Hr' as ([Hcb _] & Hr' & _). destruct Hb, Hcb.
  specialize (Hbd c ltac:(by left)) as Hbc. unfold disj in Hbc. cbn [insert_free].
  assert (∀ d, d ∈ l → c.1 + c.2 < d.1 ∧ disj b d ∧ 0 < d.2) as Hl.
  { intros d Hd. rewrite Forall_forall in Hc. split; [by apply Hc|]. split; [apply Hbd; by right|].
    destruct (regions_blk _ _ d Hrc) as [[] _]; [by right|lia]. }
  unfold disj in Hl. case_match; [|case_match].
  - apply merge_right_ordered; [|done]. apply Forall_forall. intros d [->|Hd]%elem_of_cons; [lia|].
    specialize (Hl d Hd). lia.
  - apply merge_right_ordered; [|done]. apply Forall_forall. intros d Hd. specialize (Hl d Hd). simpl. lia.
  - split; [|by apply IH]. apply Forall_forall. intros d Hd.
    assert (d.1 ∈ b.1 :: l.*1) as Hin by (apply insert_free_addrs, list_elem_of_fmap; eauto).
    apply elem_of_cons in Hin as [->|(e & -> & He)%list_elem_of_fmap]; [lia|]. specialize (Hl e He). lia.
Qed.

Lemma merge_right_contains b l :
  Forall (λ c, 0 ≤ c.2) l → ∃ c, c ∈ merge_right b l ∧ contains c b.
Proof.
  intros H. unfold contains. destruct l as [|c l]; simpl; [exists b; split; [by left|lia]|].
  apply Forall_cons in H as [Hc _]. case_match; eexists; (split; [by left|]); simpl; lia.
Qed.

Lemma insert_free_contains b l :
  Forall (λ c, 0 ≤ c.2) l → ∃ c, c ∈ insert_free b l ∧ contains c b.
Proof.
  induction l as [|c l IH]; intros Hl; [exists b; split; [by left|unfold contains; lia]|].
  cbn [insert_free]. case_match; [by apply merge_right_contains|]. apply Forall_cons in Hl as [Hc Hl].
  case_match.
  - destruct (merge_right_contains (c.1, c.2 + b.2) l Hl) as (d & Hd & Hcon). exists d. split; [done|].
    unfold contains in *. simpl in *. lia.
  - destruct (IH Hl) as (d & Hd & Hcon). exists d. split; [by right|done].
Qed.

(** The bytes of the blocks. *)
Definition covers l (x : Z) : Prop := ∃ b, b ∈ l ∧ b.1 ≤ x < b.1 + b.2.

Lemma covers_cons b l x : covers (b :: l) x ↔ b.1 ≤ x < b.1 + b.2 ∨ covers l x.
Proof.
  unfold covers. split.
  - intros (c & [->|Hc]%elem_of_cons & Hx); eauto.
  - intros [Hx|(c & Hc & Hx)]; [exists b; split; [by left|done]|exists c; split; [by right|done]].
Qed.

Lemma merge_right_covers b l x :
  0 ≤ b.2 → Forall (λ c, 0 ≤ c.2) l → covers (merge_right b l) x ↔ covers (b :: l) x.
Proof.
  intros Hb Hl. destruct l as [|c l]; simpl; [done|]. apply Forall_cons in Hl as [Hc _].
  case_match; [|done]. rewrite !covers_cons. simpl. intuition lia.
Qed.

Lemma insert_free_covers b l x :
  0 ≤ b.2 → Forall (λ c, 0 ≤ c.2) l → covers (insert_free b l) x ↔ covers (b :: l) x.
Proof.
  intros Hb. induction l as [|c l IH]; intros Hl; [done|]. cbn [insert_free].
  case_match; [by apply merge_right_covers|]. apply Forall_cons in Hl as [Hc Hl]. case_match.
  - rewrite merge_right_covers by (simpl; try done; lia). rewrite !covers_cons. simpl. intuition lia.
  - rewrite covers_cons, IH, !covers_cons by done. tauto.
Qed.
End pure.

(** ** The pointer code *)

Section refine.
Context (head : Z).
Implicit Types (b c : block) (l rest : list block).

Lemma adjacent_spec x s y m :
  m x = s → x + s ≤ usize_max → blocks_are_adjacent x y m = (x + s =? y).
Proof. intros H Hle. unfold blocks_are_adjacent, saturating_add. rewrite H. f_equal. lia. Qed.

(** The second half of [insert_and_coalesce]: merging with the block after. *)
Definition coalesce_next (merged : Z) (m : mem) : outcome mem :=
  let next_ := next m (node_of merged) in
  if next_ =? head then Ret m
  else
    next_block ← container_of next_;
    if blocks_are_adjacent merged next_block m then absorb merged next_block m
    else Ret m.

Lemma coalesce_next_spec m k b l :
  free_rep head m (k ++ b :: l) → regions_ok head (k ++ b :: l) →
  ∃ m', coalesce_next b.1 m = Ret m' ∧ free_rep head m' (k ++ merge_right b l) ∧
    frame head ((k ++ b :: l).*1) m m'.
Proof.
  intros Hf Hr. pose proof Hf as [Hring Hsz]. rewrite nodes_app in Hring. simpl in Hring.
  destruct (ring_next _ _ _ _ _ Hring) as [Hn _]. unfold coalesce_next. cbv zeta. rewrite Hn.
  destruct (regions_blk _ _ b Hr ltac:(set_solver)) as [[] _].
  destruct l as [|c l]; simpl.
  - rewrite Z.eqb_refl. exists m. split; [done|]. split; [done|apply frame_refl].
  - assert (node_of c.1 ≠ head) as Hne.
    { eapply (ring_next m head (nodes (k ++ [b])) _ (nodes l)). rewrite nodes_app, <- app_assoc. exact Hring. }
    replace (node_of c.1 =? head) with false by lia.
    destruct (regions_blk _ _ c Hr ltac:(set_solver)) as [[] _].
    rewrite container_of_node by lia. rewrite Ret_bind.
    rewrite (adjacent_spec b.1 b.2) by (try lia; apply Hsz; set_solver).
    destruct b as [x s], c as [y t]. simpl in *. case_match.
    + eapply absorb_spec; [done|done|lia].
    + exists m. split; [done|]. split; [done|apply frame_refl].
Qed.

(** The first half: linking, and merging with the block before. *)
Definition coalesce_prev (block prev_ : Z) (m : mem) : outcome (Z * mem) :=
  if prev_ =? head then Ret (block, m)
  else
    prev_block ← container_of prev_;
    if blocks_are_adjacent prev_block block m then
      m ← absorb prev_block block m; Ret (prev_block, m)
    else Ret (block, m).

Lemma insert_and_coalesce_eq fuel a m :
  insert_and_coalesce head fuel a m =
    ('(p, n) ← find_place head fuel a head (next m head) m;
     '(merged, m) ← coalesce_prev a p (link_in (node_of a) p n m);
     coalesce_next merged m).
Proof. reflexivity. Qed.

(** What the first half leaves: the block in its place, or grown into the one
    before. *)
Lemma coalesce_prev_spec m l1 b l2 :
  free_rep head m (l1 ++ b :: l2) → regions_ok head (l1 ++ b :: l2) → ordered (l1 ++ l2) →
  (∀ c, c ∈ l1 → c.1 < b.1) → (∀ c, c ∈ l2 → b.1 ≤ c.1) →
  ∃ k c m', coalesce_prev b.1 (last_or head (nodes l1)) m = Ret (c.1, m') ∧
    free_rep head m' (k ++ c :: l2) ∧ regions_ok head (k ++ c :: l2) ∧
    insert_free b (l1 ++ l2) = k ++ merge_right c l2 ∧
    (k ++ c :: l2).*1 ⊆ (l1 ++ b :: l2).*1 ∧ frame head ((l1 ++ b :: l2).*1) m m'.
Proof.
  intros Hf Hr Ho H1 H2. unfold coalesce_prev. pose proof Hf as [Hring Hsz].
  destruct l1 as [|c k _] using rev_ind.
  - exists [], b, m. simpl. rewrite Z.eqb_refl. split_and!; [done..|by apply insert_free_low|done|apply frame_refl].
  - rewrite <- !app_assoc in *. simpl in *.
    assert (last_or head (nodes (k ++ [c])) = node_of c.1) as ->.
    { rewrite nodes_app. apply last_or_snoc. }
    rewrite nodes_app in Hring. simpl in Hring. destruct (ring_next _ _ _ _ _ Hring) as [_ Hne].
    replace (node_of c.1 =? head) with false by lia.
    destruct (regions_blk _ _ c Hr ltac:(set_solver)) as [[] _].
    rewrite container_of_node by lia. rewrite Ret_bind.
    rewrite (adjacent_spec c.1 c.2) by (try lia; apply Hsz; set_solver).
    assert (insert_free b (k ++ c :: l2) =
      k ++ (if c.1 + c.2 =? b.1 then merge_right (c.1, c.2 + b.2) l2 else c :: merge_right b l2)) as ->.
    { apply insert_free_mid; [|apply H1; set_solver|done]. intros d Hd.
      apply ordered_app in Ho as (_ & _ & Ho). split; [apply Ho; [done|by left]|].
      destruct (regions_blk _ _ d Hr ltac:(set_solver)) as [[] _]. lia. }
    case_match.
    + destruct c as [x s], b as [y t]. simpl in *.
      destruct (absorb_spec head m k x s y t l2) as (m' & -> & Hf' & Hfr); [done|done|lia|].
      exists k, (x, s + t), m'. split_and!; [done|done| |done| |done].
      * apply (regions_ok_perm _ ((x, s + t) :: k ++ l2)); [apply Permutation_middle|].
        apply (regions_merge _ _ _ y); [|lia]. eapply regions_ok_perm, Hr.
        by rewrite <- !Permutation_middle.
      * rewrite !fmap_app. simpl. set_solver.
    + exists (k ++ [c]), b, m. rewrite <- !app_assoc. split_and!; [done..|apply frame_refl].
Qed.

(** [insert_and_coalesce] inserts and coalesces. *)
Lemma insert_and_coalesce_spec m l b fuel :
  free_rep head m l → regions_ok head (b :: l) → ordered l → m b.1 = b.2 → (length l < fuel)%nat →
  ∃ m', insert_and_coalesce head fuel b.1 m = Ret m' ∧ free_rep head m' (insert_free b l) ∧
    frame head (b.1 :: l.*1) m m'.
Proof.
  intros Hf Hr Ho Hm Hfuel. rewrite insert_and_coalesce_eq.
  pose proof Hr as ([Hb _] & [Hbs _ _] & _)%regions_ok_cons. rewrite Forall_forall in Hbs.
  destruct (ordered_split l b.1 Ho) as (l1 & l2 & -> & H1 & H2).
  { apply Forall_forall. intros c Hc. destruct (Hbs c Hc). lia. }
  rewrite length_app in Hfuel. pose proof (ring_ends _ _ _ (fr_ring _ _ _ Hf)) as [-> _].
  rewrite (find_place_spec head m [] l1 l2 b.1); [|apply Hf| |done|done|lia].
  2: { apply Forall_forall. intros c Hc. by destruct (Hbs c Hc). }
  rewrite Ret_bind. simpl app.
  assert (Permutation (b :: l1 ++ l2) (l1 ++ b :: l2)) as Hperm by apply Permutation_middle.
  destruct (link_in_spec head m l1 l2 b.1 b.2) as [Hf1 Hfr1]; [done|by destruct b|done|].
  replace (b.1, b.2) with b in Hf1 by (by destruct b).
  set (m1 := link_in _ _ _ _) in *.
  pose proof (regions_ok_perm _ _ _ Hperm Hr) as Hr1.
  destruct (coalesce_prev_spec m1 l1 b l2) as (k & c & m2 & -> & Hf2 & Hr2 & -> & Hsub & Hfr2); [done..|].
  rewrite Ret_bind. destruct (coalesce_next_spec m2 k c l2 Hf2 Hr2) as (m3 & -> & Hf3 & Hfr3).
  exists m3. split_and!; [done|done|].
  assert ((l1 ++ b :: l2).*1 ⊆ b.1 :: (l1 ++ l2).*1) as Hsub'.
  { rewrite <- Hperm. done. }
  eapply frame_trans; [exact Hfr1|]. eapply frame_trans; eapply frame_mono; [done|done| |done].
  by etrans.
Qed.
End refine.
