(* ===== verification/HeapAlloc.v ===== *)
(** * First-fit allocation from the free list

    Which block the search takes, how the block is split, and what the memory
    holds afterwards. *)

From S2P Require Import Prelude Buddy Address AllocLayout IntrusiveList Heap HeapInv HeapOps.
Local Open Scope Z_scope.

(** ** Placement in a block *)

(** What [normalize_layout] returns. *)
Record layout_ok (layout : Layout) : Prop := {
  lo_size : 1 ≤ size layout;
  lo_pow : is_power_of_two (align layout) = true;
  lo_align : 8 ≤ align layout;
  lo_max : size layout ≤ 2 ^ 63 - align layout;
}.

Definition fit (layout : Layout) (b : block) : option (Z * Z) :=
  let e := ideal_end b.1 layout allocation_geometry in
  if no_overflow b.1 layout allocation_geometry && (e - b.1 <=? b.2)
  then Some (ideal_ptr b.1 layout allocation_geometry, e - b.1) else None.

Lemma pow2_divide x y : is_power_of_two x = true → is_power_of_two y = true → x ≤ y → (x | y).
Proof.
  intros (i & Hi & ->)%power_of_two_pow (j & Hj & ->)%power_of_two_pow Hle.
  apply Z.pow_le_mono_r_iff in Hle; [|lia..]. exists (2 ^ (j - i)). rewrite <- Z.pow_add_r by lia. f_equal. lia.
Qed.

Section layout.
Context (layout : Layout) (Hlo : layout_ok layout).

Lemma request_layout x : is_usize x → request_ok x layout allocation_geometry.
Proof.
  intros Hx. destruct Hlo. split; try done; simpl; unfold HEAP_NODE_SIZE, BACK_PTR_SIZE, HEAP_NODE_ALIGN; lia.
Qed.

Lemma heap_allocation_eq b :
  blk_ok b → heap_allocation_for_block b.1 b.2 layout = Ret (fit layout b).
Proof.
  intros []. unfold heap_allocation_for_block, fit.
  rewrite allocation_eq by (apply request_layout; unfold is_usize; lia). simpl. f_equal. by case_match.
Qed.

Record placed (b : block) (u used : Z) : Prop := {
  pl_align : (align layout | u);
  pl_align8 : (8 | u);
  pl_ptr : b.1 + 32 ≤ u;
  pl_end : u + size layout ≤ b.1 + used;
  pl_used : 40 ≤ used ≤ b.2;
  pl_used8 : (8 | used);
}.

Lemma ideal_spec x :
  let g := allocation_geometry in let p := ideal_ptr x layout g in let e := ideal_end x layout g in
  x + 32 ≤ p < x + 32 + align layout ∧ (align layout | p) ∧
  p + size layout ≤ e < p + size layout + 8 ∧ (8 | e).
Proof.
  destruct Hlo. intros g p e.
  destruct (round_up_spec (x + 24 + 8) (align layout)) as [H1 H2]; [lia|].
  destruct (round_up_spec (p + size layout) 8) as [H3 H4]; [lia|].
  change (round_up (x + 24 + 8) (align layout)) with p in *.
  change (round_up (p + size layout) 8) with e in *. split_and!; try done; lia.
Qed.

Lemma fit_placed b u used : blk_ok b → fit layout b = Some (u, used) → placed b u used.
Proof.
  intros [] Hfit. unfold fit in Hfit. case_match; simplify_eq.
  destruct (ideal_spec b.1) as (Hp & Hd & He & Hd'). destruct Hlo.
  assert (8 | ideal_end b.1 layout allocation_geometry - b.1) as Hused by (by apply Z.divide_sub_r).
  split; try done; try lia.
  - etrans; [|exact Hd]. by apply pow2_divide.
  - destruct Hused as [k Hk]. lia.
Qed.

Lemma required_zero r :
  heap_required_block_size 0 layout = Ret r → default usize_max r ≤ CHUNK_SIZE →
  ideal_end 0 layout allocation_geometry ≤ CHUNK_SIZE.
Proof.
  unfold heap_required_block_size. rewrite required_eq by (apply request_layout; done).
  intros [= <-]. case_match; simpl; [lia|]. intros Hle. vm_compute in Hle. done.
Qed.

(** A block with all bytes of a fresh chunk is big enough for every request
    that passes the size check of [alloc]. *)
Lemma chunk_fits v c :
  ideal_end 0 layout allocation_geometry ≤ CHUNK_SIZE → (CHUNK_SIZE | v) → v + CHUNK_SIZE + 8 ≤ usize_max →
  contains c (v, CHUNK_SIZE) → is_Some (fit layout c).
Proof.
  intros Hreq Hv Hmax [Hc1 Hc2]. simpl in Hc1, Hc2. pose proof Hlo as [Hsz Hpow Hal _].
  destruct (ideal_spec 0) as ([Hp1 _] & Hpd & He & Hed).
  set (p0 := ideal_ptr 0 layout allocation_geometry) in *. set (e0 := ideal_end 0 layout allocation_geometry) in *.
  assert (align layout ≤ p0) as Hap by (apply Z.divide_pos_le; [lia|done]).
  assert (align layout | v) as Hav.
  { etrans; [|exact Hv]. apply pow2_divide; [done|done|lia]. }
  assert (align layout + 31 ≤ CHUNK_SIZE) as Hgap.
  { destruct (pow2_divide (align layout) CHUNK_SIZE) as [k Hk]; [done|done|lia|].
    assert (1 < k) by nia. change CHUNK_SIZE with 4194304 in *. nia. }
  assert (ideal_ptr c.1 layout allocation_geometry ≤ v + p0) as Hp.
  { apply round_up_least; [lia| |by apply Z.divide_add_r].
    change (c.1 + 24 + 8 ≤ v + p0). lia. }
  assert (ideal_end c.1 layout allocation_geometry ≤ v + e0) as Hend.
  { apply round_up_least; [done|lia|]. apply Z.divide_add_r; [|done]. etrans; [|exact Hav]. by apply pow2_divide. }
  destruct (ideal_spec c.1) as (_ & _ & He' & _).
  unfold fit, no_overflow. change (header_size allocation_geometry) with 24.
  change (back_ptr_size allocation_geometry) with 8. change (block_align allocation_geometry) with 8.
  match goal with |- is_Some (if ?t then _ else _) => replace t with true by lia end. eauto.
Qed.
End layout.

(** ** Taking a block *)

Section take.
Context (head : Z).
Implicit Types (b c : block) (l rest : list block).

(** Only bytes of [b] change. *)
Definition only_in b (m m' : mem) : Prop := ∀ x, ¬ (b.1 ≤ x < b.1 + b.2) → m' x = m x.

(** Only the list head and free bytes change. *)
Definition quiet l (m m' : mem) : Prop :=
  ∀ x, x ≠ head → x ≠ head + 8 → ¬ covers l x → m' x = m x.

Lemma quiet_trans l m1 m2 m3 : quiet l m1 m2 → quiet l m2 m3 → quiet l m1 m3.
Proof. intros H1 H2 x ???. by rewrite H2, H1. Qed.
Lemma quiet_mono l l' m m' : (∀ x, covers l x → covers l' x) → quiet l m m' → quiet l' m m'.
Proof. intros Hs H x ???. apply H; auto. Qed.
Lemma quiet_only_in b l m m' : b ∈ l → only_in b m m' → quiet l m m'.
Proof. intros Hb H x ?? Hx. apply H. intros Hin. apply Hx. by exists b. Qed.

Lemma frame_quiet l m m' : Forall blk_ok l → frame head (l.*1) m m' → quiet l m m'.
Proof.
  intros Hl Hf x H1 H2 Hx. apply Hf. intros [?|[?|(a & (b & -> & Hb)%list_elem_of_fmap & Ha)]]; [done..|].
  apply Hx. exists b. split; [done|]. rewrite Forall_forall in Hl. destruct (Hl b Hb). lia.
Qed.

Lemma free_rep_only_in b l m m' :
  regions_ok head (b :: l) → only_in b m m' → free_rep head m l → free_rep head m' l.
Proof.
  intros Hr Hin [Hring Hsz]. apply regions_ok_cons in Hr as ([_ Hh] & Hr & Hd).
  assert (∀ c, c ∈ l → ∀ x, c.1 ≤ x < c.1 + c.2 → m' x = m x) as Hkeep.
  { intros c Hc x Hx. apply Hin. specialize (Hd c Hc). unfold disj in Hd. lia. }
  split.
  - apply (ring_agree m); [|done]. intros x [->|(c & -> & Hc)%list_elem_of_fmap]%elem_of_cons.
    + unfold head_apart in Hh. split; apply Hin; lia.
    + destruct (regions_blk _ _ _ Hr Hc) as [[] _]. unfold node_of. split; apply (Hkeep c); try done; lia.
  - intros c Hc. rewrite (Hkeep c); [by apply Hsz|done|]. destruct (regions_blk _ _ _ Hr Hc) as [[] _]. lia.
Qed.

(** Splitting a block. *)
Lemma regions_split b used l :
  regions_ok head (b :: l) → 40 ≤ used → (8 | used) → used + 33 ≤ b.2 →
  regions_ok head ((b.1, used) :: (b.1 + used, b.2 - used) :: l).
Proof.
  intros ([[] Hh] & Hr & Hd)%regions_ok_cons H1 H2 H3. unfold head_apart, disj in *.
  assert (8 | b.2 - used) as H8 by (by apply Z.divide_sub_r).
  apply regions_ok_cons; unfold head_apart, disj; split_and!; [split; simpl; try done; lia|simpl; lia| |].
  - apply regions_ok_cons; unfold head_apart, disj; split_and!; [|simpl; lia|done|].
    + split; simpl; try done; [lia|destruct H8; lia|lia|by apply Z.divide_add_r].
    + intros c Hc. specialize (Hd c Hc). simpl. lia.
  - intros c [->|Hc]%elem_of_cons; simpl; [lia|]. specialize (Hd c Hc). lia.
Qed.

Lemma regions_shrink b used l :
  regions_ok head (b :: l) → 40 ≤ used ≤ b.2 → (8 | used) → regions_ok head ((b.1, used) :: l).
Proof.
  intros ([[] Hh] & Hr & Hd)%regions_ok_cons H1 H2. unfold head_apart, disj in *.
  apply regions_ok_cons; unfold head_apart, disj; split_and!; [split; simpl; try done; lia|simpl; lia|done|].
  intros c Hc. specialize (Hd c Hc). simpl. lia.
Qed.

(** The free list after [b] has been taken out and its tail put back. *)
Definition put_tail b (used : Z) l : list block :=
  if MIN_FREE_BLOCK_SIZE <=? b.2 - used then insert_free (b.1 + used, b.2 - used) l else l.

Lemma heap_node_init_at_spec a s m :
  heap_node_init_at a s m a = s ∧ only_in (a, 24) m (heap_node_init_at a s m).
Proof.
  unfold heap_node_init_at, init_at, set_next, set_prev, node_of, only_in. simpl. split.
  - rewrite !upd_ne by lia. apply upd_eq.
  - intros x Hx. by rewrite !upd_ne by lia.
Qed.

Lemma put_tail_pure b used l rest :
  regions_ok head (b :: l ++ rest) → ordered l → 40 ≤ used ≤ b.2 → (8 | used) →
  ordered (put_tail b used l) ∧ regions_ok head ((b.1, used) :: put_tail b used l ++ rest).
Proof.
  intros Hr Ho H1 H2. unfold put_tail, MIN_FREE_BLOCK_SIZE, HEAP_NODE_SIZE, BACK_PTR_SIZE. case_match.
  - apply (regions_split _ used) in Hr; [|lia|done|lia]. split.
    + apply (insert_free_ordered head); [|done]. apply regions_ok_cons in Hr as (_ & Hr & _).
      apply (regions_ok_app head (_ :: l) rest) in Hr. tauto.
    + set (t := (b.1 + used, b.2 - used)) in *.
      apply (regions_ok_perm _ (insert_free t l ++ (b.1, used) :: rest)).
      { symmetry. apply Permutation_middle. }
      apply insert_free_regions. eapply regions_ok_perm; [|apply regions_swap, Hr].
      apply Permutation_skip, Permutation_middle.
  - split; [done|by apply regions_shrink].
Qed.

Lemma put_tail_spec b used l m fuel :
  free_rep head m l → regions_ok head (b :: l) → ordered l → 40 ≤ used ≤ b.2 → (8 | used) →
  (length l < fuel)%nat →
  ∃ m', (if MIN_FREE_BLOCK_SIZE <=? b.2 - used then
           free_block ← uadd b.1 used;
           let m := heap_node_init_at free_block (b.2 - used) m in
           insert_and_coalesce head fuel free_block m
         else Ret m) = Ret m' ∧
    free_rep head m' (put_tail b used l) ∧ quiet (b :: l) m m'.
Proof.
  intros Hf Hr Ho H1 H2 Hfuel. unfold put_tail. case_match eqn:Ec; [|by exists m].
  unfold MIN_FREE_BLOCK_SIZE, HEAP_NODE_SIZE, BACK_PTR_SIZE in Ec.
  pose proof Hr as ([[] _] & _ & _)%regions_ok_cons. rewrite uadd_ok by lia. rewrite Ret_bind.
  pose proof (regions_split _ used _ Hr ltac:(lia) H2 ltac:(lia)) as (_ & Hr' & _)%regions_ok_cons.
  set (t := (b.1 + used, b.2 - used)) in *.
  destruct (heap_node_init_at_spec t.1 t.2 m) as [Hm2 Hin]. cbv zeta.
  set (m2 := heap_node_init_at t.1 t.2 m) in *.
  assert (only_in t m m2) as Hint.
  { intros x Hx. apply Hin. unfold t in *. simpl in *. lia. }
  pose proof (free_rep_only_in _ _ _ _ Hr' Hint Hf) as Hf2.
  destruct (insert_and_coalesce_spec head m2 l t fuel) as (m3 & Heq & Hf3 & Hfr); [done..|].
  exists m3. split_and!; [exact Heq|exact Hf3|]. apply (quiet_mono (t :: l)).
  { intros x. rewrite !covers_cons. unfold t. simpl. intuition lia. }
  apply (quiet_trans _ _ m2); [by eapply quiet_only_in; [left|]|].
  apply frame_quiet; [apply Hr'|exact Hfr].
Qed.

(** What [take_from] leaves: a live block with its size and back pointer, the
    rest of the taken block free again, and nothing else changed. *)
Lemma take_from_spec layout m l1 b l2 u used fuel :
  layout_ok layout → placed layout b u used →
  free_rep head m (l1 ++ b :: l2) → regions_ok head (l1 ++ b :: l2) → ordered (l1 ++ l2) →
  (length (l1 ++ l2) < fuel)%nat →
  ∃ m', take_from head fuel b.1 b.2 u used m = Ret m' ∧
    free_rep head m' (put_tail b used (l1 ++ l2)) ∧ m' b.1 = used ∧ m' (u - 8) = b.1 ∧
    quiet (l1 ++ b :: l2) m m'.
Proof.
  intros Hlo Hpl [Hring Hsz] Hr Ho Hfuel. pose proof (lo_size _ Hlo). destruct Hpl.
  destruct (unlink_spec head m l1 b l2 Hring Hr) as (Hring1 & Hkeep & Hfr).
  set (m1 := list_remove (node_of b.1) m) in *.
  assert (free_rep head m1 (l1 ++ l2)) as Hf1.
  { split; [done|]. intros c Hc. rewrite Hkeep by set_solver. apply Hsz. set_solver. }
  assert (regions_ok head (b :: l1 ++ l2)) as Hr1.
  { eapply regions_ok_perm, Hr. symmetry. apply Permutation_middle. }
  destruct (put_tail_spec b used (l1 ++ l2) m1 fuel) as (m2 & Heq & Hf2 & Hq); [done..|].
  unfold take_from. cbv zeta. fold m1. rewrite (usub_ok b.2 used) by lia. rewrite Ret_bind.
  cbv zeta in Heq. rewrite Heq, Ret_bind. unfold BACK_PTR_SIZE.
  pose proof Hr1 as ([[] _] & _ & _)%regions_ok_cons. rewrite usub_ok by lia. rewrite Ret_bind.
  set (m3 := upd (u - 8) b.1 (upd b.1 used m2)). exists m3.
  assert (only_in (b.1, used) m2 m3) as Hin.
  { intros x Hx. unfold m3. simpl in Hx. by rewrite !upd_ne by lia. }
  destruct (put_tail_pure b used (l1 ++ l2) []) as [_ Hr2]; [by rewrite app_nil_r|done..|].
  rewrite app_nil_r in Hr2. split_and!; [done| | | |].
  - by apply (free_rep_only_in (b.1, used) _ m2).
  - unfold m3. rewrite upd_ne by lia. apply upd_eq.
  - apply upd_eq.
  - assert (∀ x, covers (b :: l1 ++ l2) x → covers (l1 ++ b :: l2) x) as Hcov.
    { intros x (c & Hc & Hx). exists c. split; [set_solver|done]. }
    apply (quiet_trans _ _ m1); [apply frame_quiet; [apply Hr|exact Hfr]|].
    apply (quiet_mono (b :: l1 ++ l2)); [done|]. apply (quiet_trans _ _ m2); [done|].
    eapply quiet_only_in; [left|]. intros x Hx. apply Hin. simpl. lia.
Qed.
End take.

(** ** First fit *)

(** The first block the layout fits in: the user pointer, the live block and
    the free list that is left.  [k] has the blocks already passed over. *)
Fixpoint find_fit (layout : Layout) (k l : list block) : option (Z * block * list block) :=
  match l with
  | [] => None
  | b :: r =>
      match fit layout b with
      | Some (u, used) => Some (u, (b.1, used), put_tail b used (k ++ r))
      | None => find_fit layout (k ++ [b]) r
      end
  end.
Definition first_fit (layout : Layout) (l : list block) : option (Z * block * list block) :=
  find_fit layout [] l.

Lemma find_fit_none layout k l : find_fit layout k l = None → ∀ c, c ∈ l → fit layout c = None.
Proof.
  revert k. induction l as [|b l IH]; intros k H; [set_solver|]. simpl in H.
  destruct (fit layout b) as [[u used]|] eqn:E; [done|].
  intros c [->|Hc]%elem_of_cons; [done|by eapply IH].
Qed.

(** With a fresh chunk in the list, the search finds something. *)
Lemma grown_fits layout v fl :
  layout_ok layout → ideal_end 0 layout allocation_geometry ≤ CHUNK_SIZE → (CHUNK_SIZE | v) →
  v + CHUNK_SIZE + 8 ≤ usize_max → Forall (λ c, 0 ≤ c.2) fl →
  is_Some (first_fit layout (insert_free (v, CHUNK_SIZE) fl)).
Proof.
  intros Hlo Hreq Hd Hmax Hfl. destruct (first_fit _ _) eqn:E; [eauto|exfalso].
  destruct (insert_free_contains (v, CHUNK_SIZE) fl Hfl) as (c & Hc & Hcon).
  destruct (chunk_fits layout Hlo v c) as [? Hfit]; [done..|].
  by rewrite (find_fit_none _ _ _ E c Hc) in Hfit.
Qed.

Section search.
Context (head : Z) (layout : Layout) (Hlo : layout_ok layout).
Implicit Types (b c : block) (l fl rest : list block).

(** What a successful search gives: where the allocation lies in the block,
    and that block and free list are cut out of the old free list. *)
Record fitted fl (u : Z) b fl' : Prop := {
  ft_align : (align layout | u);
  ft_align8 : (8 | u);
  ft_ptr : b.1 + 32 ≤ u;
  ft_end : u + size layout ≤ b.1 + b.2;
  ft_ordered : ordered fl';
  ft_regions : ∀ rest, regions_ok head (fl ++ rest) → regions_ok head (b :: fl' ++ rest);
  ft_covers : ∀ x, covers (b :: fl') x → covers fl x;
  ft_length : (length fl' ≤ length fl)%nat;
}.

Lemma ordered_drop l1 b l2 : ordered (l1 ++ b :: l2) → ordered (l1 ++ l2).
Proof.
  rewrite !ordered_app. intros (H1 & [_ H2] & H3). split_and!; [done..|].
  intros c d Hc Hd. apply H3; [done|by right].
Qed.

Lemma fit_fitted l1 b l2 u used :
  regions_ok head (l1 ++ b :: l2) → ordered (l1 ++ b :: l2) → fit layout b = Some (u, used) →
  fitted (l1 ++ b :: l2) u (b.1, used) (put_tail b used (l1 ++ l2)).
Proof.
  intros Hr Ho Hfit. destruct (regions_blk _ _ b Hr ltac:(set_solver)) as [Hb _].
  destruct (fit_placed _ Hlo _ _ _ Hb Hfit).
  assert (∀ rest, regions_ok head ((l1 ++ b :: l2) ++ rest) →
    regions_ok head (b :: (l1 ++ l2) ++ rest)) as Hperm.
  { intros rest. apply regions_ok_perm. rewrite <- !app_assoc. symmetry. apply Permutation_middle. }
  assert (ordered (l1 ++ l2)) as Ho'.
  { by eapply ordered_drop. }
  assert (Forall (λ c, 0 ≤ c.2) (l1 ++ l2)) as Hpos.
  { apply Forall_forall. intros c Hc. destruct (regions_blk _ _ c Hr ltac:(set_solver)) as [[] _]. lia. }
  split; simpl; try done.
  - destruct (put_tail_pure head b used (l1 ++ l2) []) as [H _]; [|done..].
    apply Hperm. by rewrite app_nil_r.
  - intros rest Hrest. by apply put_tail_pure; [apply Hperm|..].
  - intros x. assert (covers (b :: l1 ++ l2) x → covers (l1 ++ b :: l2) x) as Hcov.
    { intros (c & Hc & Hx). exists c. split; [set_solver|done]. }
    rewrite covers_cons. simpl. intros [Hx|Hx]; [apply Hcov, covers_cons; left; lia|].
    apply Hcov. unfold put_tail in Hx. case_match; [|apply covers_cons; by right].
    apply insert_free_covers in Hx; [|simpl; lia|done]. apply covers_cons in Hx. simpl in Hx.
    apply covers_cons. intuition lia.
  - unfold put_tail. rewrite !length_app. simpl. case_match; [|rewrite length_app; lia].
    etrans; [apply insert_free_length|]. rewrite length_app. lia.
Qed.

Lemma search_loop_spec m k l fuel all :
  free_rep head m (k ++ l) → regions_ok head (k ++ l) → ordered (k ++ l) →
  (length l < fuel)%nat → (length (k ++ l) ≤ all)%nat →
  match find_fit layout k l with
  | None => search_loop head fuel all (first_or head (nodes l)) layout m = Ret (None, m)
  | Some (u, b, fl') => fitted (k ++ l) u b fl' ∧
      ∃ m', search_loop head fuel all (first_or head (nodes l)) layout m = Ret (Some u, m') ∧
        free_rep head m' fl' ∧ m' b.1 = b.2 ∧ m' (u - 8) = b.1 ∧ quiet head (k ++ l) m m'
  end.
Proof.
  revert k fuel. induction l as [|b l IH]; intros k fuel Hf Hr Ho Hfuel Hall;
    (destruct fuel as [|fuel]; [simpl in Hfuel; lia|]); cbn [find_fit].
  - simpl. by rewrite Z.eqb_refl.
  - pose proof Hf as [Hring Hsz]. rewrite nodes_app in Hring. simpl in Hring.
    destruct (ring_next _ _ _ _ _ Hring) as [Hn Hne].
    destruct (regions_blk _ _ b Hr ltac:(set_solver)) as [Hb _]. pose proof (bk_pos _ Hb).
    change (first_or head (nodes (b :: l))) with (node_of b.1). cbn [search_loop]. cbv zeta.
    replace (node_of b.1 =? head) with false by lia.
    rewrite container_of_node by lia. rewrite Ret_bind, Hsz by set_solver.
    rewrite heap_allocation_eq by done. rewrite Ret_bind.
    destruct (fit layout b) as [[u used]|] eqn:Efit.
    + pose proof (fit_fitted _ _ _ _ _ Hr Ho Efit) as Hft. split; [exact Hft|].
      assert (ordered (k ++ l)) as Ho'.
      { by eapply ordered_drop. }
      destruct (take_from_spec head layout m k b l u used all) as (m' & -> & Hpost); try done.
      { by apply fit_placed. }
      { rewrite !length_app in *. simpl in *. lia. }
      exists m'. done.
    + assert (k ++ b :: l = (k ++ [b]) ++ l) as Ekl by (by rewrite <- app_assoc).
      rewrite Hn. rewrite Ekl in *. specialize (IH (k ++ [b]) fuel Hf Hr Ho ltac:(simpl in Hfuel; lia) Hall).
      by destruct (find_fit layout (k ++ [b]) l) as [[[u c] fl']|].
Qed.

(** [allocate_from_free_list] is first fit. *)
Lemma allocate_from_free_list_spec m fl fuel :
  head ≠ 0 → free_rep head m fl → regions_ok head fl → ordered fl → (length fl < fuel)%nat →
  match first_fit layout fl with
  | None => allocate_from_free_list head fuel layout m = Ret (None, m)
  | Some (u, b, fl') => fitted fl u b fl' ∧
      ∃ m', allocate_from_free_list head fuel layout m = Ret (Some u, m') ∧
        free_rep head m' fl' ∧ m' b.1 = b.2 ∧ m' (u - 8) = b.1 ∧ quiet head fl m m'
  end.
Proof.
  intros Hh Hf Hr Ho Hfuel. unfold allocate_from_free_list.
  rewrite (ring_empty_iff m head (nodes fl)).
  - destruct fl as [|b fl]; [done|]. rewrite bool_decide_false by done.
    pose proof (ring_ends _ _ _ (fr_ring _ _ _ Hf)) as [-> _].
    apply (search_loop_spec m [] (b :: fl)); [done..|simpl in *; lia].
  - apply Hf.
  - intros x [->|(b & -> & Hb)%list_elem_of_fmap]%elem_of_cons; [done|].
    destruct (regions_blk _ _ b Hr Hb) as [[] _]. unfold node_of. lia.
Qed.
End search.
