(* ===== verification/HeapCorrect.v ===== *)
(** * Correctness of the kernel heap

    The invariant of the heap with its live allocations, against any page
    source that keeps its promises; the buddy allocator is one. *)

From S2P Require Import Prelude Links Buddy BuddyInv BuddyOps Address AllocLayout IntrusiveList Heap HeapInv HeapOps HeapAlloc.
Local Open Scope Z_scope.

(** ** What the heap relies on *)

(** A chunk is aligned to its size, in the directly mapped part of the
    address space, was free before and is not free afterwards.  [ps_free] is
    about physical addresses of bytes. *)
Class PageSourceLaws (B : Type) `{!PageSource B} := {
  ps_ok : B → Prop;
  ps_free : B → Z → Prop;
  ps_alloc : ∀ b, ps_ok b → ∃ r b', page_alloc b = Ret (r, b') ∧ ps_ok b' ∧
    (∀ x, ps_free b' x → ps_free b x) ∧
    ∀ p, r = Some p → 0 ≤ p ∧ p + CHUNK_SIZE ≤ 2 ^ 44 ∧ (CHUNK_SIZE | p) ∧
      ∀ x, p ≤ x < p + CHUNK_SIZE → ps_free b x ∧ ¬ ps_free b' x;
}.

(** The buddy allocator keeps these promises. *)
#[global, program] Instance buddy_page_source_laws : PageSourceLaws BuddyAllocator := {
  ps_ok := wf;
  ps_free b x := free_frame b (x / PAGE_SIZE);
}.
Next Obligation.
  intros b Hwf. destruct (allocate_where_spec b CHUNK_ORDER (λ _, Ret true) (λ _, true) Hwf)
    as (r & b' & Hr & Hres); [done|done|].
  exists r, b'. split; [exact Hr|]. destruct r as [addr|].
  - destruct Hres as (h & -> & _ & [Hwf' Hsh [Hh0 Hh1] Hd Hwas Hfree _ _]).
    pose proof (wf_max _ _ Hwf) as Hmax. change (2 ^ CHUNK_ORDER) with 1024 in *.
    split_and!; [done|intros x Hx; by apply Hfree in Hx as [? _]|]. intros p [= <-].
    change CHUNK_SIZE with (1024 * PAGE_SIZE). unfold PAGE_SIZE. split_and!; [lia..| |].
    + destruct Hd as [k ->]. exists k. lia.
    + intros x Hx. assert (in_block h CHUNK_ORDER (x / 4096)) as Hin.
      { unfold in_block. change (2 ^ CHUNK_ORDER) with 1024. Z.to_euclidean_division_equations. lia. }
      split; [by apply Hwas|]. rewrite Hfree. tauto.
  - destruct Hres as [-> _]. split_and!; [done|done|]. intros p [=].
Qed.

Section heap.
Context `{HP : PageSource B, HL : !PageSourceLaws B} (head : Z).
Implicit Types (b : block) (fl : list block) (lv : list (Z * block)) (src : B).

(** ** The invariant *)

(** A live allocation at [u] in the block [b]: the header is before the user
    pointer, and so is the back pointer to it. *)
Record live_ok (m : mem) (u : Z) b : Prop := {
  lv_ptr : b.1 + 32 ≤ u < b.1 + b.2;
  lv_align : (8 | u);
  lv_size : m b.1 = b.2;
  lv_back : m (u - 8) = b.1;
}.

Record heap_core (m : mem) src fl lv : Prop := {
  hc_head : 0 < head;
  hc_rep : free_rep head m fl;
  hc_ordered : ordered fl;
  hc_regions : regions_ok head (fl ++ lv.*2);
  hc_live : ∀ u b, (u, b) ∈ lv → live_ok m u b;
  hc_source : ps_ok src;
  hc_fresh : ∀ x, ps_free src x →
    ¬ covers (fl ++ lv.*2) (x + KERNEL_VMA) ∧ ¬ (head ≤ x + KERNEL_VMA < head + 16);
}.

(** The state between two calls: the list head may still be null. *)
Definition heap_inv (m : mem) (buddy : option B) fl lv : Prop :=
  ∃ src, buddy = Some src ∧ heap_core (ensure_head_initialized head m) src fl lv.

(** The memory of the live blocks is the same. *)
Definition keeps lv (m m' : mem) : Prop :=
  ∀ u b x, (u, b) ∈ lv → b.1 ≤ x < b.1 + b.2 → m' x = m x.

Lemma keeps_trans lv m1 m2 m3 : keeps lv m1 m2 → keeps lv m2 m3 → keeps lv m1 m3.
Proof. intros H1 H2 u b x Hu Hx. by rewrite (H2 u b), (H1 u b). Qed.

Lemma live_in lv u b : (u, b) ∈ lv → b ∈ lv.*2.
Proof. intros H. apply list_elem_of_fmap. by exists (u, b). Qed.

Lemma quiet_keeps fl lv m m' : regions_ok head (fl ++ lv.*2) → quiet head fl m m' → keeps lv m m'.
Proof.
  intros Hr Hq u b x Hu Hx. apply live_in in Hu.
  apply regions_ok_app in Hr as (_ & Hlv & Hd).
  destruct (regions_blk _ _ _ Hlv Hu) as [[] Hh]. unfold head_apart in Hh.
  apply Hq; [lia|lia|]. intros (c & Hc & Hcx). specialize (Hd c b Hc Hu). unfold disj in Hd. lia.
Qed.

Lemma keeps_live lv m m' :
  keeps lv m m' → (∀ u b, (u, b) ∈ lv → live_ok m u b) → ∀ u b, (u, b) ∈ lv → live_ok m' u b.
Proof.
  intros Hk Hl u b Hu. destruct (Hl u b Hu) as [H1 H2 H3 H4].
  split; [done|done|rewrite (Hk u b); [done|done|lia]|rewrite (Hk u b); [done|done|lia]].
Qed.

Lemma ensure_id m fl lv : 0 < head → free_rep head m fl → regions_ok head (fl ++ lv.*2) →
  ensure_head_initialized head m = m.
Proof.
  intros Hh [Hring _] Hr. apply regions_ok_app in Hr as (Hr & _ & _).
  destruct (ring_ends _ _ _ Hring) as [Hn Hp]. unfold ensure_head_initialized. rewrite Hn, Hp.
  assert (∀ x, x ∈ head :: nodes fl → x ≠ 0) as Hnz.
  { intros x [->|(b & -> & Hb)%list_elem_of_fmap]%elem_of_cons; [lia|].
    destruct (regions_blk _ _ b Hr Hb) as [[] _]. unfold node_of. lia. }
  pose proof (Hnz _ (first_or_in head (nodes fl))). pose proof (Hnz _ (last_or_in head (nodes fl))).
  by replace (_ || _) with false by lia.
Qed.

Lemma core_inv m src fl lv : heap_core m src fl lv → heap_inv m (Some src) fl lv.
Proof.
  intros Hc. exists src. split; [done|]. pose proof Hc as []. by rewrite (ensure_id m fl lv).
Qed.

Lemma ensure_keeps m lv bs : regions_ok head bs → lv.*2 ⊆ bs → keeps lv m (ensure_head_initialized head m).
Proof.
  intros Hr Hsub u b x Hu Hx. unfold ensure_head_initialized. case_match; [|done].
  destruct (regions_blk _ _ b Hr) as [[] Hh]; [by eapply Hsub, live_in|]. unfold head_apart in Hh.
  unfold init_at, set_prev, set_next. by rewrite !upd_ne by lia.
Qed.

Lemma covers_perm (l l' : list block) x : l ≡ₚ l' → covers l x → covers l' x.
Proof. intros Hp (b & Hb & Hx). exists b. by rewrite <- Hp. Qed.

(** Inserting and coalescing adds no bytes. *)
Lemma covers_insert_free rest b fl x :
  regions_ok head (b :: fl ++ rest) → covers (insert_free b fl ++ rest) x → covers (b :: fl ++ rest) x.
Proof.
  intros Hr (c & [Hc|Hc]%elem_of_app & Hx); [|exists c; set_solver].
  assert (Forall (λ c, 0 ≤ c.2) (b :: fl)) as Hpos.
  { apply Forall_forall. intros d Hd. destruct (regions_blk _ _ d Hr) as [[] _]; [set_solver|lia]. }
  apply Forall_cons in Hpos as [Hb Hpos].
  destruct (insert_free_covers b fl x Hb Hpos) as [(d & Hd & Hdx) _]; [by exists c|]. exists d. set_solver.
Qed.

(** ** Allocation *)

Section alloc.
Context (layout : Layout) (Hlo : layout_ok layout).

(** A search that finds a block moves it from the free to the live ones. *)
Lemma allocate_found m src fl lv fuel u b fl' :
  heap_core m src fl lv → (length fl < fuel)%nat → first_fit layout fl = Some (u, b, fl') →
  fitted head layout fl u b fl' ∧
  ∃ m', allocate_from_free_list head fuel layout m = Ret (Some u, m') ∧
    heap_core m' src fl' ((u, b) :: lv) ∧ keeps lv m m'.
Proof.
  intros [Hh Hrep Ho Hr Hl Hs Hfresh] Hfuel Hff. pose proof Hr as (Hrf & _ & _)%regions_ok_app.
  pose proof (allocate_from_free_list_spec head layout Hlo m fl fuel ltac:(lia) Hrep Hrf Ho Hfuel) as Hspec.
  rewrite Hff in Hspec. destruct Hspec as (Hft & m' & Heq & Hrep' & Hsz & Hback & Hq).
  split; [done|]. exists m'. pose proof (quiet_keeps _ _ _ _ Hr Hq) as Hk.
  split_and!; [done| |done]. destruct Hft as [Ha Ha8 Hp He Hof Hreg Hcov _]. pose proof (lo_size _ Hlo). split; [done|done|done| | |done|].
  - eapply regions_ok_perm; [|by apply Hreg]. simpl. apply Permutation_middle.
  - intros v c [[= -> ->]|Hv]%elem_of_cons; [split; try done; lia|]. by apply (keeps_live lv m).
  - intros x Hx. destruct (Hfresh x Hx) as [Hc1 Hc2]. split; [|done]. intros (c & Hc & Hcx). apply Hc1.
    assert (c ∈ b :: fl' ∨ c ∈ lv.*2) as [Hin|Hin] by set_solver.
    + destruct (Hcov (x + KERNEL_VMA)) as (d & Hd & Hdx); [by exists c|]. exists d. set_solver.
    + exists c. set_solver.
Qed.

(** A chunk the page source hands out touches nothing of the heap. *)
Lemma chunk_regions m src fl lv p src' :
  heap_core m src fl lv → page_alloc src = Ret (Some p, src') →
  let v := p + KERNEL_VMA in
  (CHUNK_SIZE | v) ∧ v + CHUNK_SIZE + 8 ≤ usize_max ∧
  regions_ok head ((v, CHUNK_SIZE) :: fl ++ lv.*2) ∧
  ps_ok src' ∧ ∀ x, ps_free src' x → ps_free src x ∧ ¬ (p ≤ x < p + CHUNK_SIZE).
Proof.
  intros [Hh Hrep Ho Hr Hl Hs Hfresh] Heq v.
  destruct (ps_alloc src Hs) as (r & src'' & Heq' & Hs' & Hmono & Hp). rewrite Heq in Heq'. simplify_eq.
  destruct (Hp p eq_refl) as (Hp0 & Hp1 & Hd & Hfree). change CHUNK_SIZE with 4194304 in *.
  assert (∀ a n, 0 < n → (∀ x, ps_free src x → ¬ (a ≤ x + KERNEL_VMA < a + n)) →
    a + n ≤ v ∨ v + 4194304 ≤ a) as Happart.
  { intros a n Hn Hfr. destruct (decide (a + n ≤ v ∨ v + 4194304 ≤ a)) as [|Hno]; [done|exfalso].
    apply (Hfr (Z.max v a - KERNEL_VMA)); [apply Hfree|]; unfold v in *; lia. }
  assert (8 | KERNEL_VMA) as H8 by (by apply Z.mod_divide).
  split_and!.
  - apply Z.divide_add_r; [done|]. by apply Z.mod_divide.
  - unfold v, KERNEL_VMA, usize_max. lia.
  - apply regions_ok_cons. split_and!.
    + split; simpl; [unfold v, KERNEL_VMA, usize_max; lia..| |by apply Z.mod_divide].
      apply Z.divide_add_r; [|done]. etrans; [|exact Hd]. by apply Z.mod_divide.
    + apply (Happart head 16); [done|]. intros x Hx. by apply Hfresh.
    + done.
    + intros c Hc. destruct (regions_blk _ _ c Hr Hc) as [[] _].
      destruct (Happart c.1 c.2) as [?|?]; [lia| |by right|by left].
      intros x Hx Hin. destruct (Hfresh x Hx) as [Hn _]. apply Hn. by exists c.
  - done.
  - intros x Hx. split; [by apply Hmono|]. intros Hin. by destruct (Hfree x Hin).
Qed.

(** A new chunk goes into the free list. *)
Lemma grow_heap_spec m src fl lv fuel :
  heap_core m src fl lv → (length fl < fuel)%nat →
  ∃ r src', page_alloc src = Ret (r, src') ∧
  match r with
  | None => grow_heap head fuel m (Some src) = Ret (false, m, Some src') ∧ heap_core m src' fl lv
  | Some p =>
      let v := p + KERNEL_VMA in
      (CHUNK_SIZE | v) ∧ v + CHUNK_SIZE + 8 ≤ usize_max ∧
      ∃ m', grow_heap head fuel m (Some src) = Ret (true, m', Some src') ∧
        heap_core m' src' (insert_free (v, CHUNK_SIZE) fl) lv ∧ keeps lv m m'
  end.
Proof.
  intros Hc Hfuel. pose proof Hc as [Hh Hrep Ho Hr Hl Hs Hfresh].
  destruct (ps_alloc src Hs) as (r & src' & Heq & Hs' & Hmono & _).
  exists r, src'. split; [done|]. unfold grow_heap. simpl expect. rewrite Ret_bind, Heq, Ret_bind.
  destruct r as [p|]; [|split; [done|split; try done; intros x Hx; by apply Hfresh, Hmono]].
  destruct (chunk_regions _ _ _ _ _ _ Hc Heq) as (Hd & Hmax & Hreg & _ & Hnew). cbv zeta.
  set (t := (p + KERNEL_VMA, CHUNK_SIZE)) in *. split_and!; [done|done|].
  rewrite uadd_ok by (change CHUNK_SIZE with 4194304 in *; lia). rewrite Ret_bind.
  destruct (heap_node_init_at_spec t.1 t.2 m) as [Hm2 Hin].
  set (m2 := heap_node_init_at t.1 t.2 m) in *.
  assert (only_in t m m2) as Hint by (intros x Hx; apply Hin; simpl in *; change CHUNK_SIZE with 4194304 in *; lia).
  pose proof Hreg as Hreg'. apply (regions_ok_app head (t :: fl) (lv.*2)) in Hreg' as (Hrt & _ & _).
  pose proof (free_rep_only_in _ _ _ _ _ Hrt Hint Hrep) as Hrep2.
  destruct (insert_and_coalesce_spec head m2 fl t fuel) as (m3 & Heq3 & Hrep3 & Hfr); [done..|].
  exists m3. simpl in Heq3. unfold m2 in Heq3. simpl in Heq3. rewrite Heq3, Ret_bind. split; [done|].
  assert (keeps lv m m3) as Hk.
  { apply (quiet_keeps (t :: fl)); [exact Hreg|]. apply (quiet_trans _ _ _ m2).
    - eapply quiet_only_in; [left|done].
    - apply frame_quiet; [apply Hrt|exact Hfr]. }
  split; [|done]. split; [done|done| | | |done|].
  - by apply (insert_free_ordered head).
  - by apply insert_free_regions.
  - by apply (keeps_live lv m).
  - intros x [Hx Hnp]%Hnew. destruct (Hfresh x Hx) as [Hc1 Hc2]. split; [|done].
    intros Hcov%(covers_insert_free (lv.*2) t fl); [|exact Hreg].
    apply covers_cons in Hcov as [Hb|Hcov]; [simpl in Hb; lia|done].
Qed.

(** How a call of [alloc] can end, from the free list [fl]. *)
Definition exhausted src fl : Prop :=
  (∀ c, c ∈ fl → fit layout c = None) ∧
  ((∃ r, heap_required_block_size 0 layout = Ret r ∧ CHUNK_SIZE < default usize_max r) ∨
   ∃ src', page_alloc src = Ret (None, src')).
Definition alloc_result src fl lv (m : mem) (ptr : Z) (m' : mem) (src' : B) fl' : Prop :=
  keeps lv m m' ∧ (length fl' ≤ S (length fl))%nat ∧
  ((ptr = 0 ∧ heap_core m' src' fl' lv ∧ exhausted src fl) ∨
   ∃ b, (align layout | ptr) ∧ ptr + size layout ≤ b.1 + b.2 ∧ heap_core m' src' fl' ((ptr, b) :: lv)).

Lemma search_found m src fl lv fuel u b fl' :
  heap_core m src fl lv → (length fl < fuel)%nat → first_fit layout fl = Some (u, b, fl') →
  ∃ m', allocate_from_free_list head fuel layout m = Ret (Some u, m') ∧ keeps lv m m' ∧
    (length fl' ≤ length fl)%nat ∧
    (align layout | u) ∧ u + size layout ≤ b.1 + b.2 ∧ heap_core m' src fl' ((u, b) :: lv).
Proof.
  intros Hc Hfuel Eff. destruct (allocate_found _ _ _ _ fuel _ _ _ Hc Hfuel Eff) as (Hft & m' & ? & ? & ?).
  exists m'. by destruct Hft.
Qed.

Lemma search_not_found m src fl lv fuel :
  heap_core m src fl lv → (length fl < fuel)%nat → first_fit layout fl = None →
  allocate_from_free_list head fuel layout m = Ret (None, m).
Proof.
  intros [Hh Hrep Ho Hr Hl Hs Hfresh] Hfuel Eff. pose proof Hr as (Hrf & _ & _)%regions_ok_app.
  pose proof (allocate_from_free_list_spec head layout Hlo m fl fuel ltac:(lia) Hrep Hrf Ho Hfuel) as Hspec.
  by rewrite Eff in Hspec.
Qed.

Lemma alloc_loop_spec m src fl lv rounds fuel :
  heap_core m src fl lv → (S (length fl) < fuel)%nat →
  ∃ ptr m' src' fl', alloc_loop head (S (S rounds)) fuel layout m (Some src) = Ret (ptr, m', Some src') ∧
    alloc_result src fl lv m ptr m' src' fl'.
Proof.
  intros Hc Hfuel. cbn [alloc_loop]. destruct (first_fit layout fl) as [[[u b] fl']|] eqn:Eff.
  { destruct (search_found _ _ _ _ fuel _ _ _ Hc ltac:(lia) Eff) as (m' & -> & Hk & Hlen & Hres).
    exists u, m', src, fl'. split; [done|]. split_and!; [done|lia|]. right. by exists b. }
  rewrite (search_not_found _ src fl lv) by (try done; lia). rewrite Ret_bind.
  pose proof (find_fit_none _ _ _ Eff) as Hnone.
  destruct (heap_required_block_size 0 layout) as [r| |] eqn:Ereq.
  2-3: unfold heap_required_block_size in Ereq; by rewrite required_eq in Ereq by (by apply request_layout).
  rewrite Ret_bind. destruct (CHUNK_SIZE <? default usize_max r) eqn:Ebig.
  { exists 0, m, src, fl. split; [done|]. split_and!; [done|lia|]. left. split_and!; [done|done|].
    split; [done|]. left. exists r. split; [done|lia]. }
  destruct (grow_heap_spec m src fl lv fuel Hc ltac:(lia)) as ([p|] & src' & Hpa & Hgrow).
  - destruct Hgrow as (Hd & Hmax & m' & -> & Hc' & Hk). rewrite Ret_bind. cbn [alloc_loop].
    pose proof (insert_free_length (p + KERNEL_VMA, CHUNK_SIZE) fl).
    destruct (grown_fits layout (p + KERNEL_VMA) fl) as [[[u b] fl'] Eff1]; [done| |done..| |].
    { eapply required_zero; [done|exact Ereq|lia]. }
    { pose proof (hc_regions _ _ _ _ Hc) as (Hrf & _ & _)%regions_ok_app.
      apply Forall_forall. intros d Hd'. destruct (regions_blk _ _ d Hrf Hd') as [[] _]. lia. }
    destruct (search_found _ _ _ _ fuel _ _ _ Hc' ltac:(lia) Eff1) as (m'' & -> & Hk' & Hlen & Hres).
    exists u, m'', src', fl'. split; [done|]. split_and!; [by eapply keeps_trans|lia|]. right. by exists b.
  - destruct Hgrow as [-> Hc']. exists 0, m, src', fl. split; [done|].
    split_and!; [done|lia|]. left. split_and!; [done|done|]. split; [done|]. right. by exists src'.
Qed.
End alloc.

(** ** Whole calls *)

(** A layout [normalize_layout] accepts: an alignment that is a power of two,
    and a size that leaves room to round up. *)
Record valid_layout (layout : Layout) : Prop := {
  vl_pow : is_power_of_two (align layout) = true;
  vl_size : 0 ≤ size layout;
  vl_max : Z.max (size layout) 1 ≤ 2 ^ 63 - Z.max (align layout) 8;
}.

Definition normalized (layout : Layout) : Layout :=
  mkLayout (Z.max (size layout) 1) (Z.max (align layout) 8).

Lemma heap_normalize_spec layout :
  valid_layout layout →
  heap_normalize_layout layout = Ret (normalized layout) ∧ layout_ok (normalized layout) ∧
  (align layout | align (normalized layout)) ∧ size layout ≤ size (normalized layout).
Proof.
  intros [Hp Hs Hm]. assert (is_power_of_two (Z.max (align layout) 8) = true) as Hp8.
  { destruct (Z.max_spec (align layout) 8) as [[_ ->]|[_ ->]]; done. }
  unfold heap_normalize_layout, normalize_layout, from_size_align. cbv zeta. rewrite Hp8.
  replace (_ <=? _) with true by lia. split_and!; [done|split; simpl; try done; lia| |simpl; lia].
  apply pow2_divide; [done|done|simpl; lia].
Qed.

Lemma alloc_spec m buddy fl lv layout rounds fuel :
  heap_inv m buddy fl lv → valid_layout layout → (S (length fl) < fuel)%nat →
  ∃ ptr m' buddy' fl', alloc head (S (S rounds)) fuel layout m buddy = Ret (ptr, m', buddy') ∧
    keeps lv m m' ∧ (length fl' ≤ S (length fl))%nat ∧
    ((ptr = 0 ∧ heap_inv m' buddy' fl' lv ∧ ∀ src, buddy = Some src → exhausted (normalized layout) src fl) ∨
     ∃ b, (align layout | ptr) ∧ ptr + size layout ≤ b.1 + b.2 ∧ heap_inv m' buddy' fl' ((ptr, b) :: lv)).
Proof.
  intros (src & -> & Hc) Hv Hfuel. destruct (heap_normalize_spec layout Hv) as (Hn & Hlo & Hal & Hsz).
  unfold alloc. rewrite Hn, Ret_bind.
  destruct (alloc_loop_spec _ Hlo _ _ _ _ rounds fuel Hc Hfuel) as (ptr & m' & src' & fl' & -> & Hk & Hlen & Hres).
  exists ptr, m', (Some src'), fl'. split; [done|]. split_and!; [|done|].
  - eapply keeps_trans; [|exact Hk]. eapply ensure_keeps; [apply Hc|set_solver].
  - destruct Hres as [(-> & Hc' & Hex)|(b & Ha & He & Hc')]; [left|right].
    + split_and!; [done|by apply core_inv|]. by intros ? [= <-].
    + exists b. split_and!; [by etrans|lia|by apply core_inv].
Qed.

Lemma dealloc_spec m buddy fl lv1 u b lv2 fuel :
  heap_inv m buddy fl (lv1 ++ (u, b) :: lv2) → (length fl < fuel)%nat →
  ∃ m', dealloc head fuel u m = Ret m' ∧ heap_inv m' buddy (insert_free b fl) (lv1 ++ lv2) ∧
    keeps (lv1 ++ lv2) m m'.
Proof.
  intros (src & -> & Hc) Hfuel. pose proof Hc as [Hh Hrep Ho Hr Hl Hs Hfresh].
  set (m0 := ensure_head_initialized head m) in *. set (lv := lv1 ++ lv2).
  destruct (Hl u b ltac:(set_solver)) as [Hp _ Hsz Hback].
  assert (fl ++ (lv1 ++ (u, b) :: lv2).*2 ≡ₚ (b :: fl) ++ lv.*2) as Hperm.
  { unfold lv. rewrite !fmap_app. simpl. by rewrite <- !Permutation_middle. }
  pose proof (regions_ok_perm _ _ _ Hperm Hr) as Hr'.
  pose proof Hr' as (Hrb & _ & _)%(regions_ok_app head (b :: fl)).
  destruct (regions_blk _ _ b Hrb ltac:(by left)) as [[] _].
  assert (m (u - 8) = b.1) as Hback'.
  { rewrite <- Hback. symmetry. unfold m0.
    apply (ensure_keeps m [(u, b)] (b :: fl) Hrb ltac:(set_solver) u b); [by left|lia]. }
  unfold dealloc, header_from_user_ptr, BACK_PTR_SIZE. replace (u =? 0) with false by lia.
  rewrite usub_ok by lia. rewrite !Ret_bind, Hback'. cbv zeta. fold m0.
  set (m1 := init_at (node_of b.1) m0).
  assert (m1 b.1 = b.2 ∧ only_in b m0 m1) as [Hm1 Hin].
  { unfold m1, init_at, set_prev, set_next, node_of, only_in.
    split; [by rewrite !upd_ne by lia|]. intros x Hx. by rewrite !upd_ne by lia. }
  pose proof (free_rep_only_in _ _ _ _ _ Hrb Hin Hrep) as Hrep1.
  destruct (insert_and_coalesce_spec head m1 fl b fuel) as (m2 & -> & Hrep2 & Hfr); [done..|].
  exists m2. split; [done|]. assert (keeps lv m0 m2) as Hk.
  { apply (quiet_keeps (b :: fl)); [exact Hr'|]. apply (quiet_trans _ _ _ m1).
    - eapply quiet_only_in; [left|done].
    - apply frame_quiet; [apply Hrb|exact Hfr]. }
  split.
  - apply core_inv. split; [done|done|by apply (insert_free_ordered head)|by apply insert_free_regions| |done|].
    + apply (keeps_live lv m0 m2 Hk). intros v c Hv. apply Hl. unfold lv in Hv. set_solver.
    + intros x Hx. destruct (Hfresh x Hx) as [Hc1 Hc2]. split; [|done].
      intros Hcov%(covers_insert_free (lv.*2) b fl); [|exact Hr'].
      apply Hc1. eapply covers_perm; [by symmetry|exact Hcov].
  - apply (keeps_trans _ _ m0); [|done]. eapply (ensure_keeps m lv); [exact Hr'|]. set_solver.
Qed.
End heap.
