(* ===== verification/HeapRun.v ===== *)
(** * Runs of the kernel heap

    Sequences of [alloc], [dealloc] and writes of the kernel to memory it has
    allocated, and the theorems about them. *)

From S2P Require Import Prelude Buddy BuddyInv BuddyCorrect Address AllocLayout IntrusiveList Heap HeapInv HeapOps HeapAlloc HeapCorrect.
Local Open Scope Z_scope.

(** The call returns [a]: with enough fuel, always the same result. *)
Definition returns {A} (call : nat → outcome A) (a : A) : Prop :=
  ∃ n, ∀ k, (n ≤ k)%nat → call k = Ret a.

Lemma returns_det {A} (call : nat → outcome A) a a' : returns call a → returns call a' → a = a'.
Proof.
  intros [n H] [n' H']. specialize (H (Nat.max n n') ltac:(lia)). specialize (H' (Nat.max n n') ltac:(lia)).
  congruence.
Qed.

(** ** More fuel, same result *)

Definition approx {A} (o o' : outcome A) : Prop := ∀ a, o = Ret a → o' = Ret a.

#[global] Instance approx_refl {A} : Reflexive (@approx A).
Proof. by intros o a. Qed.
Lemma approx_bind {A B} (o o' : outcome A) (f g : A → outcome B) :
  approx o o' → (∀ a, approx (f a) (g a)) → approx (o ≫= f) (o' ≫= g).
Proof. intros Ho Hf b (a & Ha & Hb)%bind_Ret. apply bind_Ret. exists a. by split; [apply Ho|apply Hf]. Qed.
Lemma approx_if {A} (c : bool) (o1 o1' o2 o2' : outcome A) :
  approx o1 o1' → approx o2 o2' → approx (if c then o1 else o2) (if c then o1' else o2').
Proof. intros ??. by case_match. Qed.

Section fuel.
Context `{HP : PageSource B} (head : Z).

Lemma find_place_more f f' a p c m :
  (f ≤ f')%nat → approx (find_place head f a p c m) (find_place head f' a p c m).
Proof.
  revert f' p c. induction f as [|f IH]; intros [|f'] p c Hle; [done..|lia|]. cbn [find_place].
  apply approx_if; [done|]. apply approx_bind; [done|]. intros b. apply approx_if; [done|]. apply IH. lia.
Qed.
Lemma insert_and_coalesce_more f f' b m :
  (f ≤ f')%nat → approx (insert_and_coalesce head f b m) (insert_and_coalesce head f' b m).
Proof. intros Hle. apply approx_bind; [by apply find_place_more|]. done. Qed.
Lemma take_from_more f f' b bs u n m :
  (f ≤ f')%nat → approx (take_from head f b bs u n m) (take_from head f' b bs u n m).
Proof.
  intros Hle. apply approx_bind; [done|]. intros r. apply approx_bind; [|done]. apply approx_if; [|done].
  apply approx_bind; [done|]. intros fb. by apply insert_and_coalesce_more.
Qed.
Lemma search_loop_more f f' g g' node layout m :
  (f ≤ f')%nat → (g ≤ g')%nat →
  approx (search_loop head f g node layout m) (search_loop head f' g' node layout m).
Proof.
  intros Hf Hg. revert f' node Hf. induction f as [|f IH]; intros [|f'] node Hf; [done..|lia|]. cbn [search_loop].
  apply approx_if; [done|]. apply approx_bind; [done|]. intros b. apply approx_bind; [done|].
  intros [[u n]|]; [|apply IH; lia]. apply approx_bind; [by apply take_from_more|done].
Qed.
Lemma alloc_loop_more r r' f f' layout m (buddy : option B) :
  (r ≤ r')%nat → (f ≤ f')%nat →
  approx (alloc_loop head r f layout m buddy) (alloc_loop head r' f' layout m buddy).
Proof.
  intros Hr Hf. revert r' m buddy Hr. induction r as [|r IH]; intros [|r'] m buddy Hr; [done..|lia|].
  cbn [alloc_loop]. apply approx_bind; [apply approx_if; [done|by apply search_loop_more]|].
  intros [[ptr|] m1]; [done|]. apply approx_bind; [done|]. intros req. apply approx_if; [done|].
  apply approx_bind; [|intros [[[] ?] ?]; [apply IH; lia|done]].
  apply approx_bind; [done|]. intros src. apply approx_bind; [done|]. intros [[phys|] src']; [|done].
  apply approx_bind; [done|]. intros v. apply approx_bind; [by apply insert_and_coalesce_more|done].
Qed.
Lemma alloc_more k k' layout m (buddy : option B) :
  (k ≤ k')%nat → approx (alloc head k k layout m buddy) (alloc head k' k' layout m buddy).
Proof. intros H. apply approx_bind; [done|]. intros l. by apply alloc_loop_more. Qed.
Lemma dealloc_more k k' ptr m :
  (k ≤ k')%nat → approx (dealloc head k ptr m) (dealloc head k' ptr m).
Proof.
  intros H. apply approx_if; [done|]. apply approx_bind; [done|]. intros h. by apply insert_and_coalesce_more.
Qed.
End fuel.

Section run.
Context `{HP : PageSource B, HL : !PageSourceLaws B} (head : Z).

(** Memory, page source, and the allocations the kernel holds. *)
Record state := mkState {
  st_mem : mem;
  st_buddy : option B;
  st_live : list (Z * Layout);
}.

Inductive step : state → state → Prop :=
  | step_alloc s layout ptr m' buddy' :
      valid_layout layout →
      returns (λ k, alloc head k k layout (st_mem s) (st_buddy s)) (ptr, m', buddy') → ptr ≠ 0 →
      step s (mkState m' buddy' ((ptr, layout) :: st_live s))
  | step_alloc_null s layout m' buddy' :
      valid_layout layout →
      returns (λ k, alloc head k k layout (st_mem s) (st_buddy s)) (0, m', buddy') →
      step s (mkState m' buddy' (st_live s))
  | step_dealloc s l1 ptr layout l2 m' :
      st_live s = l1 ++ (ptr, layout) :: l2 →
      returns (λ k, dealloc head k ptr (st_mem s)) m' →
      step s (mkState m' (st_buddy s) (l1 ++ l2))
  (** A store changes the aligned word it hits. *)
  | step_write s ptr layout x v :
      (ptr, layout) ∈ st_live s → ptr ≤ x < ptr + size layout → (8 | x) →
      step s (mkState (upd x v (st_mem s)) (st_buddy s) (st_live s)).

(** The boot state: the list head is null, nothing is allocated, and the
    memory of the list head is not free in the page source. *)
Definition initial (s : state) : Prop :=
  0 < head ∧ st_mem s head = 0 ∧ st_live s = [] ∧
  ∃ src, st_buddy s = Some src ∧ ps_ok src ∧
    ∀ x, ps_free src x → ¬ (head ≤ x + KERNEL_VMA < head + 16).

Inductive reachable : state → Prop :=
  | reach_initial s : initial s → reachable s
  | reach_step s s' : reachable s → step s s' → reachable s'.

(** ** The invariant of reachable states *)

Definition holds (a : Z * Layout) (e : Z * block) : Prop :=
  a.1 = e.1 ∧ (align a.2 | e.1) ∧ e.1 + size a.2 ≤ e.2.1 + e.2.2.
Definition inv (s : state) (fl : list block) (lv : list (Z * block)) : Prop :=
  heap_inv head (st_mem s) (st_buddy s) fl lv ∧ Forall2 holds (st_live s) lv.

Lemma heap_initial_inv s : initial s → inv s [] [].
Proof.
  intros (Hh & H0 & Hl & src & Hs & Hok & Hfr). split; [|by rewrite Hl]. exists src. split; [done|].
  assert (ensure_head_initialized head (st_mem s) = init_at head (st_mem s)) as ->.
  { unfold ensure_head_initialized, next. by rewrite H0. }
  split; [done| |done|repeat constructor|set_solver|done|].
  - split; [|set_solver]. split.
    + split; [apply NoDup_singleton|]. intros x y ->%list_elem_of_singleton ->%list_elem_of_singleton. lia.
    + simpl. unfold init_at, next, prev, set_next, set_prev. rewrite upd_ne by lia. by rewrite !upd_eq.
  - intros x Hx. split; [|by apply Hfr]. intros (b & []%elem_of_nil & _).
Qed.

Lemma alloc_returns s fl lv layout :
  inv s fl lv → valid_layout layout →
  ∃ ptr m' buddy' fl' lv', returns (λ k, alloc head k k layout (st_mem s) (st_buddy s)) (ptr, m', buddy') ∧
    keeps lv (st_mem s) m' ∧
    inv (mkState m' buddy' (if ptr =? 0 then st_live s else (ptr, layout) :: st_live s)) fl' lv'.
Proof.
  intros [Hi Hl] Hv.
  destruct (alloc_spec head _ _ _ _ layout (length fl) (S (S (length fl))) Hi Hv)
    as (ptr & m' & buddy' & fl' & Heq & Hk & _ & Hres); [lia|].
  assert (returns (λ k, alloc head k k layout (st_mem s) (st_buddy s)) (ptr, m', buddy')) as Hret.
  { exists (S (S (length fl))). intros k Hle. by eapply alloc_more. }
  exists ptr, m', buddy', fl'. destruct Hres as [(-> & Hi' & _)|(b & Ha & He & Hi')].
  - by exists lv.
  - exists ((ptr, b) :: lv). split_and!; [done|done|]. split; [done|]. simpl.
    destruct Hi' as (src & _ & [_ _ _ Hr Hlv _ _]). destruct (Hlv ptr b ltac:(by left)) as [Hp _ _ _].
    destruct (regions_blk _ _ b Hr) as [[] _]; [set_solver|].
    replace (ptr =? 0) with false by lia. by constructor.
Qed.

Lemma dealloc_returns s fl lv l1 ptr layout l2 :
  inv s fl lv → st_live s = l1 ++ (ptr, layout) :: l2 →
  ∃ m' fl' lv1 lv2, returns (λ k, dealloc head k ptr (st_mem s)) m' ∧
    inv (mkState m' (st_buddy s) (l1 ++ l2)) fl' (lv1 ++ lv2) ∧ keeps (lv1 ++ lv2) (st_mem s) m'.
Proof.
  intros [Hi Hl] Hlive. rewrite Hlive in Hl.
  apply Forall2_app_inv_l in Hl as (lv1 & lv2' & Hl1 & Hl2 & ->).
  apply Forall2_cons_inv_l in Hl2 as ([u b] & lv2 & (Hu & _ & _) & Hl2 & ->). simpl in Hu. subst u.
  destruct (dealloc_spec head _ _ _ _ _ _ _ (S (length fl)) Hi) as (m' & Heq & Hi' & Hk); [lia|].
  exists m', (insert_free b fl), lv1, lv2. split_and!; [|split; [done|by apply Forall2_app]|done].
  exists (S (length fl)). intros k Hle. by eapply dealloc_more.
Qed.

Lemma live_unique (lv : list (Z * block)) b u v :
  NoDup (lv.*2) → (u, b) ∈ lv → (v, b) ∈ lv → u = v.
Proof.
  intros Hnd [i Hi]%list_elem_of_lookup [j Hj]%list_elem_of_lookup.
  assert (i = j) as ->; [|congruence].
  eapply (NoDup_lookup _ _ _ b Hnd); rewrite list_lookup_fmap; [by rewrite Hi|by rewrite Hj].
Qed.

Lemma ensure_upd m x v :
  x ≠ head → x ≠ head + 8 →
  ∀ y, y ≠ x → ensure_head_initialized head (upd x v m) y = ensure_head_initialized head m y.
Proof.
  intros H1 H2 y Hy. unfold ensure_head_initialized, next, prev. rewrite !(upd_ne x) by done.
  case_match; [|by rewrite upd_ne]. unfold init_at, set_prev, set_next, upd. by repeat case_decide.
Qed.

(** A store to user memory hits no word of the heap's own. *)
Lemma write_inv s fl lv ptr layout x v :
  inv s fl lv → (ptr, layout) ∈ st_live s → ptr ≤ x < ptr + size layout → (8 | x) →
  inv (mkState (upd x v (st_mem s)) (st_buddy s) (st_live s)) fl lv.
Proof.
  intros [(src & Hs & Hc) Hl] Hin Hx H8. split; [|done]. exists src. split; [done|].
  pose proof Hc as [Hh Hrep Ho Hr Hlv Hok Hfr]. simpl.
  apply list_elem_of_lookup in Hin as [i Hi]. destruct (Forall2_lookup_l _ _ _ _ _ Hl Hi) as ([u b] & Hib & Hu & _ & He).
  simpl in Hu, He. subst u. pose proof (list_elem_of_lookup_2 _ _ _ Hib) as Hin.
  destruct (Hlv _ _ Hin) as [Hp _ _ _]. pose proof (live_in _ _ _ Hin) as Hb.
  destruct (regions_blk _ _ b Hr) as [[] Hhb]; [set_solver|]. unfold head_apart in Hhb.
  pose proof (ensure_upd (st_mem s) x v ltac:(lia) ltac:(lia)) as Hsame.
  set (m0 := ensure_head_initialized head (st_mem s)) in *.
  set (m1 := ensure_head_initialized head (upd x v (st_mem s))) in *.
  split; try done.
  - apply (free_rep_only_in head b _ m0); [|intros y Hy; apply Hsame; lia|done].
    apply regions_ok_app in Hr as (Hrf & Hrl & Hd). apply regions_ok_cons.
    split; [by apply (regions_blk head (lv.*2))|]. split; [done|]. intros c Hc'. by apply disj_sym, Hd.
  - intros u c Hu. destruct (Hlv u c Hu) as [Hp' Ha' Hs' Hb']. pose proof (live_in _ _ _ Hu) as Hcin.
    assert (c.1 ≤ x < c.1 + c.2 → u = ptr) as Hsm.
    { intros Hxc. assert (c = b) as -> by (apply (regions_same head _ c b x Hr); [set_solver..|lia|lia]).
      apply (live_unique lv b); [|done..]. by apply regions_ok_app in Hr as (_ & Hrl%regions_NoDup & _). }
    split; [done|done|rewrite Hsame; [done|]|rewrite Hsame; [done|]].
    + intros <-. specialize (Hsm ltac:(lia)). lia.
    + intros <-. specialize (Hsm ltac:(lia)). lia.
Qed.

Lemma step_inv s s' fl lv : inv s fl lv → step s s' → ∃ fl' lv', inv s' fl' lv'.
Proof.
  intros Hi Hs. destruct Hs as [s layout ptr m' buddy' Hv Hret Hnz|s layout m' buddy' Hv Hret|
    s l1 ptr layout l2 m' Hl Hret|s ptr layout x v Hin Hx H8].
  - destruct (alloc_returns _ _ _ _ Hi Hv) as (p & m1 & b1 & fl' & lv' & Hret' & _ & Hi').
    pose proof (returns_det _ _ _ Hret Hret'). simplify_eq. replace (p =? 0) with false in Hi' by lia. eauto.
  - destruct (alloc_returns _ _ _ _ Hi Hv) as (p & m1 & b1 & fl' & lv' & Hret' & _ & Hi').
    pose proof (returns_det _ _ _ Hret Hret'). simplify_eq. eauto.
  - destruct (dealloc_returns _ _ _ _ _ _ _ Hi Hl) as (m1 & fl' & lv1 & lv2 & Hret' & Hi' & _).
    pose proof (returns_det _ _ _ Hret Hret'). simplify_eq. eauto.
  - exists fl, lv. by eapply write_inv.
Qed.

Lemma heap_reachable_inv s : reachable s → ∃ fl lv, inv s fl lv.
Proof.
  induction 1 as [s Hs|s s' _ (fl & lv & Hi) Hs]; [exists [], []; by apply heap_initial_inv|by eapply step_inv].
Qed.

(** The bytes of an allocation. *)
Definition bytes_of (a : Z * Layout) (x : Z) : Prop := a.1 ≤ x < a.1 + size a.2.
Definition untouched (live : list (Z * Layout)) (m m' : mem) : Prop :=
  ∀ a x, a ∈ live → bytes_of a x → m' x = m x.

Lemma holds_bytes m src fl lv a u b x :
  heap_core head m src fl lv → (u, b) ∈ lv → holds a (u, b) → bytes_of a x → b.1 ≤ x < b.1 + b.2.
Proof.
  intros Hc Hu (Ha & _ & He) Hx. destruct (hc_live _ _ _ _ _ Hc u b Hu) as [Hp _ _ _].
  unfold bytes_of in Hx. simpl in *. lia.
Qed.

Lemma keeps_untouched m src fl lv live m0 m' :
  heap_core head m src fl lv → Forall2 holds live lv → keeps lv m0 m' → untouched live m0 m'.
Proof.
  intros Hc Hl Hk a x [i Hi]%list_elem_of_lookup Hx.
  destruct (Forall2_lookup_l _ _ _ _ _ Hl Hi) as ([u b] & Hib & Hh).
  pose proof (list_elem_of_lookup_2 _ _ _ Hib) as Hin. apply (Hk u b); [done|]. by eapply holds_bytes.
Qed.

Lemma live_disjoint m src fl lv live i j a c x :
  heap_core head m src fl lv → Forall2 holds live lv →
  live !! i = Some a → live !! j = Some c → bytes_of a x → bytes_of c x → i = j.
Proof.
  intros Hc Hl Ha Hb Hxa Hxc.
  destruct (Forall2_lookup_l _ _ _ _ _ Hl Ha) as ([u b] & Hib & Hhb).
  destruct (Forall2_lookup_l _ _ _ _ _ Hl Hb) as ([v d] & Hjd & Hhd).
  pose proof (hc_regions _ _ _ _ _ Hc) as (_ & Hr & _)%regions_ok_app.
  pose proof (list_elem_of_lookup_2 _ _ _ Hib) as Hub. pose proof (list_elem_of_lookup_2 _ _ _ Hjd) as Hvd.
  assert (b = d) as ->.
  { apply (regions_same head (lv.*2) b d x Hr); [by eapply live_in..| |].
    - by eapply (holds_bytes _ _ _ _ a).
    - by eapply (holds_bytes _ _ _ _ c). }
  eapply (NoDup_lookup (lv.*2)); [by eapply regions_NoDup| |];
    rewrite list_lookup_fmap; [by rewrite Hib|by rewrite Hjd].
Qed.
End run.

(** ** A page source with one chunk *)

Module OneChunk.
Definition chunk : Z := 0x400000.
Inductive supply := full | empty.
#[global] Instance source : PageSource supply :=
  λ s, Ret (match s with full => (Some chunk, empty) | empty => (None, empty) end).
#[global, program] Instance source_laws : PageSourceLaws supply := {
  ps_ok _ := True;
  ps_free s x := s = full ∧ chunk ≤ x < chunk + CHUNK_SIZE;
}.
Next Obligation.
  intros [] _; (eexists _, _; split; [done|]); (split_and!; [done|naive_solver|]); [|naive_solver].
  intros p [= <-]. split_and!; [done|done|by exists 1|]. intros x Hx. split; [done|]. by intros [? _].
Qed.

(** The list head in the kernel image, and memory that is all zero. *)
Definition head : Z := KERNEL_VMA + 0x200000.
Definition boot : state := mkState (λ _, 0) (Some full) [].
Definition layout : Layout := mkLayout 100 64.
Definition busy : state :=
  match alloc head 2 2 layout (st_mem boot) (st_buddy boot) with
  | Ret (ptr, m, b) => mkState m b [(ptr, layout)]
  | _ => boot
  end.

Lemma layout_valid : valid_layout layout.
Proof. by split. Qed.
Lemma boot_initial : initial head boot.
Proof.
  split_and!; [done|done|done|]. exists full. split_and!; [done|done|].
  intros x [_ Hx]. unfold head, KERNEL_VMA, chunk in *. lia.
Qed.
Lemma busy_reachable : reachable head busy.
Proof.
  eapply reach_step; [apply reach_initial, boot_initial|].
  apply (step_alloc head boot layout (KERNEL_VMA + 0x400040)); [exact layout_valid| |done].
  exists 2%nat. intros k Hk. eapply alloc_more; [exact Hk|]. vm_compute. reflexivity.
Qed.

(** The state after this allocation, in full. *)
Definition user : Z := KERNEL_VMA + 0x400040.
Definition user_block : block := (KERNEL_VMA + 0x400000, 168).
Definition tail : block := (KERNEL_VMA + 0x4000a8, CHUNK_SIZE - 168).

Lemma busy_regions : regions_ok head [tail; user_block].
Proof.
  assert (∀ b, b ∈ [tail; user_block] → blk_ok b ∧ head_apart head b) as Hb.
  { intros b Hb. rewrite !elem_of_cons in Hb.
    destruct Hb as [->|[->|[]%elem_of_nil]]; (split; [split; try (by apply Z.mod_divide)|]);
      vm_compute; try done; try (intros [=]); by left. }
  split; [apply Forall_forall; intros b ?; by apply Hb..|].
  split; [|by repeat constructor]. apply Forall_singleton. by right.
Qed.

Lemma busy_free_rep : free_rep head (st_mem busy) [tail].
Proof.
  pose proof busy_regions as (Hr & _ & _)%(regions_ok_app head [tail] [user_block]).
  split; [split; [by apply (regions_nodes_ok head [tail])|by vm_compute]|].
  intros b ->%list_elem_of_singleton. by vm_compute.
Qed.

Lemma busy_inv : heap_inv head (st_mem busy) (st_buddy busy) [tail] [(user, user_block)].
Proof.
  apply (core_inv head (st_mem busy) empty). split; [done|exact busy_free_rep|by repeat constructor|exact busy_regions| |done|].
  - intros u b [= -> ->]%list_elem_of_singleton. split; [done|by apply Z.mod_divide|by vm_compute..].
  - intros x [[=] _].
Qed.
End OneChunk.

(** ** Claims *)

(** C22: in every state the kernel can reach by allocating with layouts that
    [normalize_layout] accepts ([valid_layout]: all but sizes within 8 bytes of
    [isize::MAX], on which it panics), freeing what it has allocated and writing
    to it, the allocations it holds are pairwise disjoint, non-null, aligned as
    asked for, and outside the free pages.  There, every further [alloc] with
    such a layout returns, as does [dealloc] of every live pointer (no panic, no
    endless loop), and neither changes a byte of any other live allocation. *)
Theorem heap_reachable_safe `{HP : PageSource B, HL : !PageSourceLaws B} head (s : state) :
  reachable head s →
  (∀ i j a c x, i ≠ j → st_live s !! i = Some a → st_live s !! j = Some c →
     bytes_of a x → ¬ bytes_of c x) ∧
  (∀ a, a ∈ st_live s → 0 < a.1 ∧ (align a.2 | a.1)) ∧
  (∀ a src x, a ∈ st_live s → st_buddy s = Some src → ps_free src x → ¬ bytes_of a (x + KERNEL_VMA)) ∧
  (∀ layout, valid_layout layout → ∃ ptr m' buddy',
     returns (λ k, alloc head k k layout (st_mem s) (st_buddy s)) (ptr, m', buddy') ∧
     untouched (st_live s) (st_mem s) m') ∧
  (∀ l1 ptr layout l2, st_live s = l1 ++ (ptr, layout) :: l2 → ∃ m',
     returns (λ k, dealloc head k ptr (st_mem s)) m' ∧ untouched (l1 ++ l2) (st_mem s) m').
Proof.
  intros (fl & lv & Hi)%heap_reachable_inv. pose proof Hi as [(src & Hs & Hc) Hl].
  split_and!.
  - intros i j a c x Hij Ha Hb Hxa Hxc. apply Hij. by eapply (live_disjoint head).
  - intros a [i Ha]%list_elem_of_lookup.
    destruct (Forall2_lookup_l _ _ _ _ _ Hl Ha) as ([u b] & Hib & Hu & Hal & _).
    simpl in *. rewrite Hu. split; [|done]. pose proof (list_elem_of_lookup_2 _ _ _ Hib) as Hin.
    destruct (hc_live _ _ _ _ _ Hc u b Hin) as [Hp _ _ _].
    destruct (regions_blk _ _ b (hc_regions _ _ _ _ _ Hc)) as [[] _]; [|lia].
    apply elem_of_app. right. by eapply live_in.
  - intros a src' x [i Ha]%list_elem_of_lookup Hs' Hx Hin. rewrite Hs in Hs'. simplify_eq.
    destruct (Forall2_lookup_l _ _ _ _ _ Hl Ha) as ([u b] & Hib & Hh).
    pose proof (list_elem_of_lookup_2 _ _ _ Hib) as Hub.
    destruct (hc_fresh _ _ _ _ _ Hc x Hx) as [Hn _]. apply Hn. exists b.
    split; [apply elem_of_app; right; by eapply live_in|by eapply holds_bytes].
  - intros layout Hv. destruct (alloc_returns _ _ _ _ _ Hi Hv) as (ptr & m' & b' & _ & _ & Hret & Hk & _).
    exists ptr, m', b'. split; [done|]. by eapply keeps_untouched.
  - intros l1 ptr layout l2 Hlive.
    destruct (dealloc_returns _ _ _ _ _ _ _ _ Hi Hlive) as (m' & fl' & lv1 & lv2 & Hret & [(? & _ & Hc') Hl'] & Hk).
    exists m'. split; [done|]. by eapply keeps_untouched.
Qed.

Lemma heap_reachable_safe_witness :
  reachable OneChunk.head OneChunk.busy ∧ length (st_live OneChunk.busy) = 1%nat ∧
  (∀ a, a ∈ st_live OneChunk.busy → 0 < a.1 ∧ (align a.2 | a.1)).
Proof.
  split_and!; [exact OneChunk.busy_reachable|vm_compute; reflexivity|].
  apply (heap_reachable_safe OneChunk.head OneChunk.busy OneChunk.busy_reachable).
Defined.

(** C23: on every layout that [normalize_layout] accepts ([valid_layout]: all
    but sizes within 8 bytes of [isize::MAX]) [alloc] returns, with at most one
    growth of the heap.  A pointer it returns is aligned, and its block, cut out
    of the free memory or of a new chunk, becomes one more live block with room
    for the size asked for, disjoint from all others; null means that no free
    block was large enough and that the request does not fit a chunk or the page
    allocator has none.  The memory of the live blocks is unchanged either way.
    *)
Theorem heap_alloc_correct `{HP : PageSource B, HL : !PageSourceLaws B} head m buddy fl lv layout rounds fuel :
  heap_inv head m buddy fl lv → valid_layout layout → (S (length fl) < fuel)%nat →
  ∃ ptr m' buddy' fl', alloc head (S (S rounds)) fuel layout m buddy = Ret (ptr, m', buddy') ∧
    keeps lv m m' ∧ (length fl' ≤ S (length fl))%nat ∧
    ((ptr = 0 ∧ heap_inv head m' buddy' fl' lv ∧
      ∀ src, buddy = Some src → exhausted (normalized layout) src fl) ∨
     ∃ b, (align layout | ptr) ∧ ptr + size layout ≤ b.1 + b.2 ∧ heap_inv head m' buddy' fl' ((ptr, b) :: lv)).
Proof. apply alloc_spec. Qed.

Lemma heap_alloc_correct_witness :
  heap_inv OneChunk.head (st_mem OneChunk.boot) (st_buddy OneChunk.boot) [] [] ∧
  ∃ ptr m' buddy' fl',
    alloc OneChunk.head 2 2 OneChunk.layout (st_mem OneChunk.boot) (st_buddy OneChunk.boot) = Ret (ptr, m', buddy') ∧
    keeps [] (st_mem OneChunk.boot) m' ∧ (length fl' ≤ 1)%nat ∧
    ((ptr = 0 ∧ heap_inv OneChunk.head m' buddy' fl' [] ∧
      ∀ src, st_buddy OneChunk.boot = Some src → exhausted (normalized OneChunk.layout) src []) ∨
     ∃ b, (align OneChunk.layout | ptr) ∧ ptr + size OneChunk.layout ≤ b.1 + b.2 ∧
       heap_inv OneChunk.head m' buddy' fl' [(ptr, b)]).
Proof.
  pose proof (heap_initial_inv _ _ OneChunk.boot_initial) as [Hi _]. split; [exact Hi|].
  apply (heap_alloc_correct OneChunk.head _ _ [] [] OneChunk.layout 0 2 Hi OneChunk.layout_valid). simpl. lia.
Defined.

(** C24: [dealloc] of a live pointer returns, finds the block from the back
    pointer, and makes exactly its bytes free, coalesced with their free
    neighbours; the other live blocks stay live and their memory is
    unchanged.  [dealloc] of null does nothing. *)
Theorem heap_dealloc_correct `{HP : PageSource B, HL : !PageSourceLaws B} head m buddy fl lv1 u b lv2 fuel :
  heap_inv head m buddy fl (lv1 ++ (u, b) :: lv2) → (length fl < fuel)%nat →
  dealloc head fuel 0 m = Ret m ∧
  ∃ m' fl', dealloc head fuel u m = Ret m' ∧ heap_inv head m' buddy fl' (lv1 ++ lv2) ∧
    keeps (lv1 ++ lv2) m m' ∧ ordered fl' ∧ (∀ x, covers fl' x ↔ covers (b :: fl) x).
Proof.
  intros Hi Hf. split; [done|]. destruct (dealloc_spec head m buddy fl lv1 u b lv2 fuel Hi Hf) as (m' & Heq & Hi' & Hk).
  exists m', (insert_free b fl). pose proof Hi' as (src' & _ & [_ _ Ho _ _ _ _]). split_and!; [done..|].
  destruct Hi as (src & _ & [_ _ _ Hr _ _ _]). intros x. apply insert_free_covers.
  - destruct (regions_blk _ _ b Hr) as [[] _]; [|lia]. rewrite fmap_app. set_solver.
  - apply Forall_forall. intros c Hc. destruct (regions_blk _ _ c Hr) as [[] _]; [set_solver|lia].
Qed.

Lemma heap_dealloc_correct_witness :
  heap_inv OneChunk.head (st_mem OneChunk.busy) (st_buddy OneChunk.busy) [OneChunk.tail]
    ([] ++ (OneChunk.user, OneChunk.user_block) :: []) ∧
  ∃ m' fl', dealloc OneChunk.head 2 OneChunk.user (st_mem OneChunk.busy) = Ret m' ∧
    heap_inv OneChunk.head m' (st_buddy OneChunk.busy) fl' [] ∧ keeps [] (st_mem OneChunk.busy) m' ∧
    ordered fl' ∧ (∀ x, covers fl' x ↔ covers [OneChunk.user_block; OneChunk.tail] x).
Proof.
  split; [exact OneChunk.busy_inv|].
  apply (heap_dealloc_correct OneChunk.head (st_mem OneChunk.busy) (st_buddy OneChunk.busy) [OneChunk.tail]
    [] OneChunk.user OneChunk.user_block [] 2 OneChunk.busy_inv). simpl. lia.
Defined.

(** On a free list kept in memory, [insert_and_coalesce] implements
    insertion into a list of blocks ordered by address: it returns, the links
    and sizes in memory then represent the list with the block inserted, which
    is ordered with a gap between neighbours (nothing is left to merge), has
    exactly the bytes of the old list and of the block, and is disjoint from
    whatever the old one was; only header words and the list head change. *)
Theorem insert_and_coalesce_refines head m fl b rest fuel :
  free_rep head m fl → regions_ok head (b :: fl ++ rest) → ordered fl → m b.1 = b.2 → (length fl < fuel)%nat →
  ∃ m' fl', insert_and_coalesce head fuel b.1 m = Ret m' ∧ fl' = insert_free b fl ∧
    free_rep head m' fl' ∧ ordered fl' ∧ regions_ok head (fl' ++ rest) ∧
    (∀ x, covers fl' x ↔ covers (b :: fl) x) ∧ frame head (b.1 :: fl.*1) m m'.
Proof.
  intros Hf Hr Ho Hm Hfuel. pose proof Hr as (Hrb & _ & _)%(regions_ok_app head (b :: fl) rest).
  destruct (insert_and_coalesce_spec head m fl b fuel Hf Hrb Ho Hm Hfuel) as (m' & Heq & Hf' & Hfr).
  exists m', (insert_free b fl). split_and!; [done..| | | |done].
  - by apply (insert_free_ordered head).
  - by apply insert_free_regions.
  - assert (Forall (λ c, 0 ≤ c.2) (b :: fl)) as [Hb Hfl]%Forall_cons.
    { apply Forall_forall. intros c Hc. destruct (regions_blk _ _ c Hrb Hc) as [[] _]. lia. }
    intros x. by apply insert_free_covers.
Qed.

(** Giving the block back merges it with the tail of the chunk. *)
Lemma insert_and_coalesce_refines_witness :
  ∃ m' fl', insert_and_coalesce OneChunk.head 2 OneChunk.user_block.1 (st_mem OneChunk.busy) = Ret m' ∧
    fl' = insert_free OneChunk.user_block [OneChunk.tail] ∧ free_rep OneChunk.head m' fl' ∧
    fl' = [(KERNEL_VMA + 0x400000, CHUNK_SIZE)].
Proof.
  destruct (insert_and_coalesce_refines OneChunk.head (st_mem OneChunk.busy) [OneChunk.tail]
    OneChunk.user_block [] 2) as (m' & fl' & Heq & Hfl & Hf & _).
  - exact OneChunk.busy_free_rep.
  - apply (regions_ok_perm _ [OneChunk.tail; OneChunk.user_block]); [constructor|exact OneChunk.busy_regions].
  - by repeat constructor.
  - vm_compute. reflexivity.
  - simpl. lia.
  - exists m', fl'. split_and!; [exact Heq|exact Hfl|exact Hf|]. rewrite Hfl. vm_compute. reflexivity.
Defined.
